(* ===== verification/_CoqProject ===== *)
-Q . S2P
Prelude.v
World.v
TaskQueue.v
FfiTask.v
FfiQueue.v
EventHandler.v
Ownership.v
System.v
Allocation.v
Spec.v
Invariant.v
Posting.v
Polling.v
Answering.v
Safety.v
Multi.v
MultiInvariant.v
Demo.v
Contract.v
MultiContract.v
Integrity.v
EchoRuntimes.v
FineSteps.v
FineInvariant.v
FineStable.v
FineProtocol.v
FineContract.v
FineIntegrity.v
Operations.v
Faults.v
Numerals.v
BuildId.v
FfiInit.v
NodeBinding.v
CString.v
JavaLoader.v
JavaReload.v
PyLoader.v
NodeLoader.v
LuaApi.v
LuaMethods.v
LuaSystem.v
LuaCache.v
LuaDemo.v
