(* ===== verification/Prelude.v ===== *)
(** * lua-resty-ffi: a verification development

    lua-resty-ffi lets the Lua code of an nginx worker call functions of other
    runtimes (Go, Python, Java, Rust, Node.js) that live in the same process.
    A call copies the request, allocates a task, appends it to the queue of the
    runtime and yields; a thread of the runtime polls the task, computes, and
    responds; the answered task goes into the done queue of nginx's thread pool,
    and nginx's event loop runs the handler that resumes the Lua coroutine with
    the results.  This library models the C side of that protocol as a shallow
    embedding, with the Lua code and the loaders around it, and proves that any
    number of runtimes together are memory safe, that every request is kept
    exactly once and in order and reaches its runtime as it was posted, that its
    answer reaches the coroutine that waits for it, that queues are bounded, no
    wake-up is lost and runtimes shut down gracefully.

    ** How the program is modelled

    The C code is a state monad with faults, [M world A] below: a statement
    returns [Ok] with a new state or [UB] with the fault it commits (NULL or
    freed pointers, accesses past a block, misuse of a mutex or a condition).
    [World] holds the data: the C structures as records, a pointer as a block
    and an offset, one finite map per kind of block.  [task + 1], the
    [ffi_task_ctx_t] behind a task, is offset 1 of the task's block.

    - [World]: structures of src/ngx_http_lua_ffi.c (and, cut down to the
      fields used, of nginx and lua-nginx-module), loads, stores, allocation.
    - [TaskQueue]: the linked queues, [*last = task; last = &task->next] and the
      unlinking in [task_poll]; they refine list append and head.
    - [FfiTask]: [task_alloc], [task_free], [get_req], [respond],
      [notify_inject], [create_task], [cleanup].
    - [FfiQueue]: [create_task_queue], [free_task_queue], [ngx_task_post],
      [task_post], [task_finish], [task_poll].  Polling blocks in
      [ngx_thread_cond_wait] and is cut there: [task_poll_enter] runs up to the
      wait, [task_poll_wake] from a wake-up on; each round of the [while] loop
      is one run of [task_poll_loop], so the loop needs no fuel.
    - [EventHandler]: [event_handler] and [resume].  What they call of nginx
      and lua-nginx-module is the class [NgxLua], and what may be relied on is
      [NgxLuaLaws]: these calls return, and leave the program's memory and the
      waiting coroutines alone.  [delivered] is the whole world at the point where
      the handler has pushed the results and released the task; the rest of the
      handler, [resume_caller], goes on from there.
    - [System]: all handlers as the steps of one system with any number of
      polling threads.  [event] lists the steps, [exec] runs them, [enabled] is
      the protocol the callers keep; the history fields of [sys] record which
      task was posted, polled and handled.
    - [Multi]: a worker with any number of runtimes.  Heap, done queue, nginx and
      coroutines are shared, queue and history are per runtime; [focus] and
      [unfocus] make a step of [System] on one queue a step of the worker.  A
      queue may be created, and nginx may change everything that is its own, at
      any time.
    - [FineSteps]: the same worker with finer steps.  [task_post] is cut where the
      queue is locked ([task_prepare], [task_commit]) and [respond] between the
      stores of the result and the injection ([respond_set], [respond_inject]);
      the halves are steps of their own, and other threads run in between.
    - [Spec]: the abstract machine the library promises, a bounded FIFO with
      pollers, suspended coroutines and a shutdown, without pointers.
    - [BuildId] and [FfiInit]: the search for the ELF build-id note
      (src/build-id.c) and the check of [lua_resty_ffi_init] that the offsets
      into nginx were generated for the running binary.  The [while] loop of the
      search has fuel; one more than the number of notes is enough.
    - [CString]: strings in C memory and the functions of string.h, with their
      undefined behaviour and their effect on lists of bytes.
    - [JavaLoader] (src/examples/java/loader.c) and [PyLoader]
      (src/examples/python/loader.c): [libffi_init] of two runtimes.  The JNI and
      the C API of Python are the classes [JNI] and [CPython], whose operations
      may change a state of their own in any way; the loops over strings need no
      fuel, or have the length of the block as fuel.
    - [JavaReload] (src/examples/java/loader/.../Loader.java): the class loader that
      reads the classes of a package again, and [init].  The JVM, the files and the
      system class loader are the class [JavaRuntime]; directories are searched at
      each request, and the files are those of the class and do not change while
      a loader lives.  The code that [init] runs is a finite tree of questions to
      the loader ([jvm_code]), which returns or throws an Exception or an Error.
      [loadClass] calls itself through [defineClass]; more fuel than there are
      files on the class path is enough, since each such call takes a file that
      was not read before.
    - [Numerals]: numbers and addresses as text, for printf, sscanf and
      JavaScript.  [NodeBinding] (src/examples/nodejs/resty_ffi.cc): the addon
      through which JavaScript polls, reads and responds, over the definitions of
      [FfiQueue] and [FfiTask]; Node-API is the class [Napi].  [NodeLoader]
      (src/examples/nodejs/loader.cc): [libffi_init] of the Node.js runtime and
      the script at the other end of its socket; the system calls are the class
      [Sockets], the JavaScript engine the class [NodeJs].  The loop that
      connects runs down from its bound of ten.
    - [EchoRuntimes]: the echo libraries in Go, Java, Python and Rust
      (src/examples/go/echo.go, App.java, echo.py, lib.rs) as loops over [task_poll],
      [get_req] and [respond], with malloc, memcpy and strdup.
    - [Allocation]: block numbers only grow.  [LuaApi] (src/resty_ffi.lua):
      [load_ffi] with its table of runtimes, [post] and [unload], for any number
      of runtimes in one world; the linker and the libraries are the class
      [LuaHost].  The definitions take the function that makes the key of the
      table as an argument: [lua_key] is that of the code.  [max_queue] is passed as
      a C int ([to_c_int]); a number that is none is the fault [BadConversion].  The
      check of the binary has the fuel of [FfiInit]; a load that runs out of it is the
      fault [OutOfFuel], which is no behaviour of the program.  A runtime is a record
      there.  In [LuaMethods] it is the Lua table with its metatable, and [post] (with
      its wrapper) and [unload] read its fields through it.  [LuaSystem]: the whole
      program, the Lua code of [LuaApi] over the worker of [Multi]; a call of
      [load_ffi], [post] or [unload] is one step, and the threads and nginx take
      the steps of [Multi] in between.

    ** What is proved

    - [Ownership], [Invariant]: the state invariant, for one queue and a [frame]
      of tasks and queues that are not its own, and what a step leaves alone.  Both queues are
      well-formed lists, each task is in exactly one place, each buffer belongs
      to one task, each waiting coroutine to one task, and the counter
      [waiting] agrees with the list and the threads.
    - [Posting], [Polling], [Answering]: each step succeeds in every state that
      satisfies the invariant, keeps it, and is a step of [Spec].
    - [Safety]: executions.  Reachable states satisfy the invariant; the requests
      of a runtime that is not unloaded can always be served; with one polling
      thread an unloaded runtime can always be drained.
    - [Contract]: the system-level properties of one runtime.  No undefined
      behaviour, refinement of [Spec], FIFO order, exactly-once handling, the bound
      of the queue, no lost wake-up, graceful shutdown, termination of an unload,
      service of all requests; what well typed memory is ([well_typed]) and when
      tasks and coroutines agree ([agrees]).
    - [MultiInvariant]: the invariant of a worker is that of each runtime with the
      others as its frame, so that the step lemmas of one runtime carry over.
      [MultiContract]: safety, isolation (a runtime only goes through the steps
      of [Spec] for the events on its own queue), order, exactly-once handling,
      bounds, shutdown, service, typed memory, agreement of tasks and coroutines
      and the absence of leaks for any number of runtimes.
    - [FineInvariant], [FineStable], [FineProtocol], [FineContract]: nothing of this
      needs posts and responses to be atomic.  Every interleaving of their halves is
      safe, keeps the state consistent and is a run of [Spec] for each runtime, in
      which a post takes effect when the queue is locked and a response when the
      result is stored; all requests can still be served.  The state between the
      halves is read as one of [Multi] ([whole]): a stored answer counts as taken
      by nginx, the task of a post in progress as held by a runtime of its own.
      A whole call is the sequence of its halves.  [FineIntegrity]: requests and
      answers arrive as they were sent across the halves, too.
    - [Integrity]: what is read from a task is what was posted, and what a
      coroutine is resumed with is what was answered to its task, across any
      execution: [delivers] gives the whole world in which Lua and nginx take over
      again, with the results on the stack of that coroutine, and the next state
      as where they get to from it.
    - [EchoRuntimes]: an echo thread keeps the protocol on the requests it can serve,
      and its answer is the request that was posted, up to the first NUL in Python
      and Rust; what the echoes do with an empty request, without a request and
      without memory.
    - [Operations]: the contract of each handler on each of its branches, and
      the round trips request-to-runtime, response-to-coroutine, create-free.
    - [Faults]: what the handlers do when the protocol is not kept.  Each
      theorem belongs to a clause of [enabled]: allocation succeeds, a coroutine
      whose post was refused is not cleaned up, no thread is left in
      [task_poll] when the marker is taken, a response of length zero is
      NUL-terminated.
    - [BuildId], [FfiInit]: the search finds the first build-id note, and the
      library accepts only the binary it was built for; where the widths of the
      source overflow.
    - [JavaLoader], [PyLoader]: the pointer code does what its specification on
      strings says ([java_call], [py_init]), what it leaves allocated, that lock
      and GIL are free again, and on which inputs it is undefined.  [JavaReload]:
      class loading ends and defines no class twice, a reloaded class is the
      current one whatever its code asks for, which exceptions [init] catches, and
      what a question mark costs the configuration, from the buffer of loader.c on.
    - [NodeBinding]: the addon keeps the protocol of [System], and a request that
      JavaScript echoes comes back to Lua up to its first NUL.  [NodeLoader]: what
      a load through the socket calls and returns for any number of fields (no
      configuration ever reaches the module), the bound of the request buffer, and
      the loader without a connection.
    - [LuaApi], [LuaCache]: the table of runtimes is well typed, a loaded runtime
      takes requests, an unloaded one is gone, a failed load leaks its queue; and
      the program cannot be told from one with a table on pairs of library and
      configuration, as long as no library name contains an ampersand.
      [LuaMethods]: the metatable is invisible: programs on the tables behave as
      those on the records of [LuaApi].  [LuaSystem]: the Lua code keeps the protocol
      of [Multi], so that every call that [penabled] allows is safe, its objects
      never have dangling queues, and all its requests can be served.
    - [Demo], [LuaDemo]: an nginx, a Lua and a linker that satisfy the laws, and
      the executions on which the theorems are instantiated.

    ** What the steps assume

    The steps a system may take are those that [enabled], [menabled], [fenabled] and
    [penabled] allow.  They leave out what the source has no answer to, which
    [Faults] and the findings show: the end of a request after a post of its coroutine
    was refused, a response of length zero that is no C string, a second
    thread in [task_poll] when the marker is taken, memory that runs out, a
    mutex that cannot be unlocked.  No theorem about safety covers those.

    [System] has one runtime, [Multi] and [LuaSystem] any number; in [LuaApi]
    alone the steps of threads are arbitrary changes of the world that reuse no
    block.  In [System], [Multi] and [LuaSystem] a call from Lua and a response are
    one step each; in [FineSteps] they are two.  There nginx's own thread, which is
    the only one that posts, takes no other step while it is inside a post.  In [LuaSystem] allocation and
    the creation of mutexes succeed, [max_queue] is a C int, and a library that is
    given a configuration has [libffi_init]; [LuaApi] has the other cases.  Between
    locking and unlocking a mutex a handler is one step; outside it touches only
    the task it owns.  Unlocking a mutex succeeds.  Blocks are
    never reused, so that a stale pointer is always found out.  [waiting] and
    [max_queue] are integers without wrap-around: [runtime_queues_are_bounded]
    keeps [waiting] within [max_queue] and the number of threads.  Logging and
    [ngx_notify] are recorded in [calls].

    ** What is not modelled

    The code of nginx and lua-nginx-module, of the JVM, Python, Node.js and the
    dynamic linker; the unloading of a library by the garbage collector when it
    was loaded with [unpin]; numbers in Lua that are no integers; packages and
    finalizers in Loader.java, and what its classes ask for after [init]; the kafka and
    http2 demos and the socket server, which are clients of third-party libraries,
    and the workers behind echo.js; the finer interleaving of the Lua program of
    [LuaSystem]; build scripts and tests. *)

From stdpp Require Export base tactics option list gmap fin_maps.
From Stdlib Require Export ZArith Lia.
From Stdlib Require Export Strings.Byte.

#[global] Open Scope Z_scope.

(** ** Outcomes of C code *)

(** What C leaves undefined, and what the operating system calls refuse. *)
Inductive fault :=
  | NullDeref        (* a NULL pointer is dereferenced *)
  | UseAfterFree     (* the block was never allocated, or is freed *)
  | OutOfBounds      (* an access outside the block *)
  | BadFree          (* [free] of an interior or already freed pointer *)
  | BadMutex         (* a mutex or condition used in a state POSIX leaves undefined *)
  | Deadlock         (* a thread locks a mutex that nobody will release *)
  | BusyDestroy      (* a condition destroyed while threads are blocked on it *)
  | Uninit           (* a variable is read that was never written *)
  | BadConversion    (* a number passed to C that its type cannot hold *)
  | OutOfFuel.       (* no behaviour of the program: a definition needs more fuel *)

#[global] Instance fault_eq_dec : EqDecision fault.
Proof. solve_decision. Defined.

Inductive res (A : Type) :=
  | Ok (a : A)
  | UB (f : fault).
Arguments Ok {A} a.
Arguments UB {A} f.

(** A computation over a state [S] that may run into undefined behaviour. *)
Definition M (S A : Type) : Type := S → res (A * S).

#[global] Instance M_ret {S} : MRet (M S) := λ A a s, Ok (a, s).
#[global] Instance M_bind {S} : MBind (M S) := λ A B k m s,
  match m s with
  | Ok (a, s') => k a s'
  | UB f => UB f
  end.

Definition ub {S A} (f : fault) : M S A := λ _, UB f.
Definition gets {S A} (f : S → A) : M S A := λ s, Ok (f s, s).
Definition modify {S} (f : S → S) : M S () := λ s, Ok ((), f s).

(** [assume b f]: continue when [b] holds, fault [f] otherwise. *)
Definition assume {S} (b : bool) (f : fault) : M S () :=
  if b then mret () else ub f.

(** [from o f]: the value of [o], fault [f] when there is none. *)
Definition from {S A} (o : option A) (f : fault) : M S A :=
  match o with Some a => mret a | None => ub f end.

(** ** Running a sequence of statements *)

Lemma bind_ok {S A B} (m : M S A) (k : A → M S B) s a s' :
  m s = Ok (a, s') → (m ≫= k) s = k a s'.
Proof. unfold mbind, M_bind. by intros ->. Qed.

Lemma bind_ok_pair {S A B} (m : M S A) (k : A → M S B) s p :
  m s = Ok p → (m ≫= k) s = k p.1 p.2.
Proof. unfold mbind, M_bind. intros ->. by destruct p. Qed.

Lemma bind_ub {S A B} (m : M S A) (k : A → M S B) s f :
  m s = UB f → (m ≫= k) s = UB f.
Proof. unfold mbind, M_bind. by intros ->. Qed.

Lemma bind_inv {S A B} (m : M S A) (k : A → M S B) s b s' :
  (m ≫= k) s = Ok (b, s') → ∃ a s1, m s = Ok (a, s1) ∧ k a s1 = Ok (b, s').
Proof. unfold mbind, M_bind. destruct (m s) as [[a s1]|]; [|done]. by exists a, s1. Qed.

Lemma bind_assoc {S A B C} (m : M S A) (k : A → M S B) (h : B → M S C) s :
  ((m ≫= k) ≫= h) s = (m ≫= (λ a, k a ≫= h)) s.
Proof. unfold mbind, M_bind. by destruct (m s) as [[a s']|f]. Qed.

Lemma ret_run {S A} (a : A) (s : S) : (mret a : M S A) s = Ok (a, s).
Proof. done. Qed.

Lemma gets_run {S A} (f : S → A) s : gets f s = Ok (f s, s).
Proof. done. Qed.

Lemma assume_run {S} (b : bool) f (s : S) : b = true → assume b f s = Ok ((), s).
Proof. by intros ->. Qed.

Lemma from_run {S A} (o : option A) f (s : S) a : o = Some a → from o f s = Ok (a, s).
Proof. by intros ->. Qed.

Lemma modify_run {S} (f : S → S) s : modify f s = Ok ((), f s).
Proof. done. Qed.

#[global] Instance byte_eq_dec : EqDecision byte := Byte.byte_eq_dec.
#[global] Instance byte_countable : Countable byte.
Proof. by refine (inj_countable Byte.to_N Byte.of_N _); intros []. Defined.

Definition byte_val (b : byte) : Z := Z.of_N (Byte.to_N b).

Create HintDb ffi.

(** ** Finite maps *)

Lemma alter_alter {K A} `{Countable K} (f g : A → A) (m : gmap K A) i :
  alter f i (alter g i m) = alter (λ x, f (g x)) i m.
Proof.
  apply map_eq. intros j. destruct (decide (i = j)) as [->|Hne].
  - rewrite !lookup_alter_eq. by destruct (m !! j).
  - by rewrite !lookup_alter_ne.
Qed.

Lemma alter_ext_lookup {K A} `{Countable K} (f g : A → A) (m : gmap K A) i :
  (∀ x, m !! i = Some x → f x = g x) → alter f i m = alter g i m.
Proof.
  intros H'. apply map_eq. intros j. destruct (decide (i = j)) as [->|Hne].
  - rewrite !lookup_alter_eq. destruct (m !! j) eqn:E; simpl; [|done]. by rewrite (H' a).
  - by rewrite !lookup_alter_ne.
Qed.

Lemma delete_alter_eq {K A} `{Countable K} (f : A → A) (m : gmap K A) i :
  delete i (alter f i m) = delete i m.
Proof.
  apply map_eq. intros j. destruct (decide (i = j)) as [->|Hne].
  - by rewrite !lookup_delete_eq.
  - by rewrite !lookup_delete_ne, lookup_alter_ne.
Qed.

(** ** Lists *)

Lemma filter_ne_notin {A} `{EqDecision A} (y : A) (l : list A) :
  y ∉ l → filter (λ x, x ≠ y) l = l.
Proof.
  induction l as [|x l IH]; [done|]. intros [Hx Hl]%not_elem_of_cons.
  rewrite filter_cons_True by congruence. by rewrite IH.
Qed.

Lemma filter_ne_perm {A} `{EqDecision A} (y : A) (l : list A) :
  NoDup l → y ∈ l → l ≡ₚ y :: filter (λ x, x ≠ y) l.
Proof.
  induction l as [|x l IH]; [by intros _ ?%not_elem_of_nil|].
  intros [Hx Hl]%NoDup_cons Hy. destruct (decide (x = y)) as [->|Hne].
  - rewrite filter_cons_False by (intros ?; done). by rewrite filter_ne_notin.
  - rewrite filter_cons_True by done. apply elem_of_cons in Hy as [->|Hy]; [done|].
    rewrite (IH Hl Hy) at 1. apply Permutation_swap.
Qed.

Lemma elem_of_filter_ne {A} `{EqDecision A} (x y : A) (l : list A) :
  x ∈ filter (λ z, z ≠ y) l ↔ x ≠ y ∧ x ∈ l.
Proof. exact (list_elem_of_filter (λ z, z ≠ y) l x). Qed.

(** Membership in concatenated lists. *)
Ltac mem_split :=
  repeat match goal with
         | H : _ ∈ _ ++ _ |- _ => apply elem_of_app in H as [H|H]
         | H : _ ∈ _ :: _ |- _ => apply elem_of_cons in H as [H|H]
         | H : _ ∈ [] |- _ => by apply elem_of_nil in H
         end.
Ltac mem :=
  mem_split;
  rewrite ?elem_of_app, ?elem_of_cons;
  solve [ tauto | exfalso; congruence | subst; tauto ].
