(* ===== verification/World.v ===== *)
(** * World: the data the program keeps, and the C accesses to it

    The C structures of ngx_http_lua_ffi.c as records, pointers as a block and
    an offset, the heap as one finite map per block type (the program never
    changes the static type of a block), and the typed loads, stores,
    allocations and frees the handlers are written with.  The structures of
    nginx and lua-nginx-module are cut down to the fields the source reads or
    writes. *)

From S2P Require Import Prelude.

(** ** Pointers *)

(** Heap blocks are numbered and never reused. *)
Abbreviation loc := nat (only parsing).
(** Requests, coroutine contexts and Lua threads belong to nginx and
    lua-nginx-module; they are named by numbers of their own. *)
Abbreviation rid := nat (only parsing).
Abbreviation cid := nat (only parsing).
Abbreviation lid := nat (only parsing).
Abbreviation tid := nat (only parsing).

(** A C pointer that is not NULL: [p_off] counts elements of the block. *)
Record ptr := Ptr { p_blk : loc; p_off : Z }.

#[global] Instance ptr_eq_dec : EqDecision ptr.
Proof. solve_decision. Defined.

#[global] Instance ptr_countable : Countable ptr.
Proof. by apply (inj_countable' (λ p, (p_blk p, p_off p)) (λ x, Ptr x.1 x.2)); intros []. Defined.

(** A pointer that may be NULL is an [option ptr]; pointer arithmetic on NULL
    is left out, the source never does it. *)
Definition ptr_add (p : ptr) (n : Z) : ptr := Ptr (p_blk p) (p_off p + n).

(** ** nginx constants (ngx_core.h) *)
Definition NGX_OK : Z := 0.
Definition NGX_ERROR : Z := -1.
Definition NGX_AGAIN : Z := -2.
Definition NGX_DONE : Z := -4.

(** ** Structures *)

(** Where [last] of a task queue points: the [first] field of the done queue, the [first] field of a runtime's
    queue, or the [next] field of a task. *)
Inductive slot :=
  | SNull   (* the NULL of zeroed memory *)
  | SDoneFirst
  | SQueueFirst (tp : ptr)
  | STaskNext (t : ptr).

#[global] Instance slot_eq_dec : EqDecision slot.
Proof. solve_decision. Defined.

(** The event handler the program installs on its tasks. *)
Inductive ev_handler := HFfiEventHandler.

(** [ngx_event_t], the fields the source uses. *)
Record ngx_event_t := NgxEvent {
  ev_data : option ptr;
  ev_handler_of : option ev_handler;
  ev_active : Z;
}.

(** [ngx_thread_task_t], the fields the source uses. *)
Record ngx_thread_task_t := NgxTask {
  t_next : option ptr;
  t_id : Z;
  t_ctx : option ptr;
  t_event : ngx_event_t;
}.

Record ffi_task_ctx_t := FfiCtx {
  c_wait_co_ctx : option cid;
  c_rc : Z;
  c_req : option ptr;
  c_req_len : Z;
  c_rsp : option ptr;
  c_rsp_len : Z;
  c_is_abort : Z;
}.

(** A task block: the task, and the [ffi_task_ctx_t] allocated right behind it
    when there is one ([task + 1]). *)
Record task_block := TaskBlock {
  tb_task : ngx_thread_task_t;
  tb_ctx : option ffi_task_ctx_t;
}.

(** A singly linked queue with a pointer to the last [next] field. *)
Record ngx_task_queue_t := NgxTaskQueue {
  q_first : option ptr;
  q_last : slot;
}.

(** A pthread mutex and condition as POSIX describes them. *)
Inductive ngx_thread_mutex_t := MtxDead | MtxFree | MtxHeld.

#[global] Instance mutex_eq_dec : EqDecision ngx_thread_mutex_t.
Proof. solve_decision. Defined.

(** [cv_waiters] are blocked in [ngx_thread_cond_wait]; [cv_woken] were
    unblocked and have not run yet. *)
Record ngx_thread_cond_t := Cond {
  cv_live : bool;
  cv_waiters : list tid;
  cv_woken : list tid;
}.

Record ffi_task_queue_t := FfiTaskQueue {
  mtx : ngx_thread_mutex_t;
  queue : ngx_task_queue_t;
  waiting : Z;
  cond : ngx_thread_cond_t;
  max_queue : Z;
}.

(** [ngx_http_lua_co_ctx_t]: the Lua thread and the pending-operation fields. *)
Inductive cleanup_handler := HFfiCleanup | HOtherCleanup (n : nat).

Record co_ctx := CoCtx {
  co : lid;
  cleanup : option cleanup_handler;
  co_data : option ptr;
}.

Inductive resume_handler := HWevHandler | HFfiResume | HOtherResume (n : nat).

(** [ngx_http_lua_ctx_t] of a request. *)
Record lua_ctx := LuaCtx {
  cur_co_ctx : option cid;
  resume_handler_of : resume_handler;
  entered_content_phase : bool;
}.

(** [ngx_http_request_t]: its module context (NULL when there is none) and the
    [requests] counter of its connection. *)
Record request := Request {
  r_ctx : option lua_ctx;
  r_connection : nat;
}.

Inductive lua_value :=
  | LNil
  | LBool (b : bool)
  | LInt (n : Z)
  | LStr (s : list byte).

(** A [lua_State]: what [ngx_http_lua_get_req] returns for it, and the values
    pushed for the next resume, in push order. *)
Record lua_thread := LuaThread {
  l_req : option rid;
  l_stack : list lua_value;
}.

(** Calls into nginx that are only observed. *)
Inductive call :=
  | CLogActive (id : Z)               (* "task #%ui already active" *)
  | CLogOverflow (waiting : Z)        (* "queue %p overflow: %i tasks waiting" *)
  | CNotify                           (* ngx_notify *)
  | CExternal (what : nat) (r : rid). (* lua-nginx-module, see EventHandler *)

Record world := World {
  tasks : gmap loc task_block;
  bufs : gmap loc (list byte);
  queues : gmap loc ffi_task_queue_t;
  brk : loc;
  pool_done : ngx_task_queue_t;
  done_lock : bool;
  cos : gmap cid co_ctx;
  threads : gmap lid lua_thread;
  reqs : gmap rid request;
  calls : list call;
}.

(** ** Field updates *)

Definition upd_tasks (f : gmap loc task_block → gmap loc task_block) (w : world) : world :=
  World (f (tasks w)) (bufs w) (queues w) (brk w) (pool_done w) (done_lock w)
        (cos w) (threads w) (reqs w) (calls w).
Definition upd_bufs (f : gmap loc (list byte) → gmap loc (list byte)) (w : world) : world :=
  World (tasks w) (f (bufs w)) (queues w) (brk w) (pool_done w) (done_lock w)
        (cos w) (threads w) (reqs w) (calls w).
Definition upd_queues (f : gmap loc ffi_task_queue_t → gmap loc ffi_task_queue_t) (w : world) : world :=
  World (tasks w) (bufs w) (f (queues w)) (brk w) (pool_done w) (done_lock w)
        (cos w) (threads w) (reqs w) (calls w).
Definition upd_brk (f : loc → loc) (w : world) : world :=
  World (tasks w) (bufs w) (queues w) (f (brk w)) (pool_done w) (done_lock w)
        (cos w) (threads w) (reqs w) (calls w).
Definition upd_pool_done (f : ngx_task_queue_t → ngx_task_queue_t) (w : world) : world :=
  World (tasks w) (bufs w) (queues w) (brk w) (f (pool_done w)) (done_lock w)
        (cos w) (threads w) (reqs w) (calls w).
Definition upd_done_lock (f : bool → bool) (w : world) : world :=
  World (tasks w) (bufs w) (queues w) (brk w) (pool_done w) (f (done_lock w))
        (cos w) (threads w) (reqs w) (calls w).
Definition upd_cos (f : gmap cid co_ctx → gmap cid co_ctx) (w : world) : world :=
  World (tasks w) (bufs w) (queues w) (brk w) (pool_done w) (done_lock w)
        (f (cos w)) (threads w) (reqs w) (calls w).
Definition upd_threads (f : gmap lid lua_thread → gmap lid lua_thread) (w : world) : world :=
  World (tasks w) (bufs w) (queues w) (brk w) (pool_done w) (done_lock w)
        (cos w) (f (threads w)) (reqs w) (calls w).
Definition upd_reqs (f : gmap rid request → gmap rid request) (w : world) : world :=
  World (tasks w) (bufs w) (queues w) (brk w) (pool_done w) (done_lock w)
        (cos w) (threads w) (f (reqs w)) (calls w).
Definition upd_calls (f : list call → list call) (w : world) : world :=
  World (tasks w) (bufs w) (queues w) (brk w) (pool_done w) (done_lock w)
        (cos w) (threads w) (reqs w) (f (calls w)).

(** ** Loads, stores, allocation, [free] *)

(** The object [p] points to in the region [m], when [p] is at offset [off]. *)
Definition deref {V} (m : gmap loc V) (off : Z) (p : option ptr) : res (loc * V) :=
  match p with
  | None => UB NullDeref
  | Some p =>
      match m !! p_blk p with
      | None => UB UseAfterFree
      | Some v => if p_off p =? off then Ok (p_blk p, v) else UB OutOfBounds
      end
  end.

Definition lift {A} (f : world → res A) : M world A :=
  λ w, match f w with Ok a => Ok (a, w) | UB e => UB e end.

Definition map_tb_task (f : ngx_thread_task_t → ngx_thread_task_t) (b : task_block) : task_block :=
  TaskBlock (f (tb_task b)) (tb_ctx b).
Definition map_tb_ctx (f : ffi_task_ctx_t → ffi_task_ctx_t) (b : task_block) : task_block :=
  TaskBlock (tb_task b) (f <$> tb_ctx b).

(** Tasks are reached through a pointer to the block's start. *)
Definition load_task (p : option ptr) : M world ngx_thread_task_t :=
  lift (λ w, match deref (tasks w) 0 p with
             | Ok (_, b) => Ok (tb_task b)
             | UB e => UB e
             end).
Definition modify_task (p : option ptr) (f : ngx_thread_task_t → ngx_thread_task_t) : M world () :=
  λ w, match deref (tasks w) 0 p with
       | Ok (l, _) => Ok ((), upd_tasks (alter (map_tb_task f) l) w)
       | UB e => UB e
       end.

(** An [ffi_task_ctx_t] is reached through [task + 1]. *)
Definition load_ctx (p : option ptr) : M world ffi_task_ctx_t :=
  lift (λ w, match deref (tasks w) 1 p with
             | Ok (_, b) => match tb_ctx b with Some c => Ok c | None => UB OutOfBounds end
             | UB e => UB e
             end).
Definition modify_ctx (p : option ptr) (f : ffi_task_ctx_t → ffi_task_ctx_t) : M world () :=
  λ w, match deref (tasks w) 1 p with
       | Ok (l, b) =>
           match tb_ctx b with
           | Some _ => Ok ((), upd_tasks (alter (map_tb_ctx f) l) w)
           | None => UB OutOfBounds
           end
       | UB e => UB e
       end.

Definition load_queue (p : option ptr) : M world ffi_task_queue_t :=
  lift (λ w, match deref (queues w) 0 p with
             | Ok (_, q) => Ok q
             | UB e => UB e
             end).
Definition modify_queue (p : option ptr) (f : ffi_task_queue_t → ffi_task_queue_t) : M world () :=
  λ w, match deref (queues w) 0 p with
       | Ok (l, _) => Ok ((), upd_queues (alter f l) w)
       | UB e => UB e
       end.

(** The bytes from [p] to the end of its buffer. *)
Definition load_bytes (p : option ptr) : M world (list byte) :=
  lift (λ w, match deref (bufs w) 0 p with
             | Ok (_, b) => Ok b
             | UB e => UB e
             end).

Definition load_co (c : option cid) : M world co_ctx :=
  c ← from c NullDeref; co ← gets cos; from (co !! c) UseAfterFree.
Definition modify_co (c : option cid) (f : co_ctx → co_ctx) : M world () :=
  c ← from c NullDeref;
  m ← gets cos;
  _ ← from (m !! c) UseAfterFree;
  modify (upd_cos (alter f c)).

Definition load_thread (l : lid) : M world lua_thread :=
  m ← gets threads; from (m !! l) UseAfterFree.
Definition modify_thread (l : lid) (f : lua_thread → lua_thread) : M world () :=
  m ← gets threads;
  _ ← from (m !! l) UseAfterFree;
  modify (upd_threads (alter f l)).

(** [ngx_http_get_module_ctx(r, ngx_http_lua_module)]; [None] is NULL. *)
Definition ngx_http_get_module_ctx (r : rid) : M world (option lua_ctx) :=
  m ← gets reqs; x ← from (m !! r) UseAfterFree; mret (r_ctx x).
Definition r_get_connection (r : rid) : M world nat :=
  m ← gets reqs; x ← from (m !! r) UseAfterFree; mret (r_connection x).
(** A store to a field of the request's module context. *)
Definition modify_lua_ctx (r : rid) (f : lua_ctx → lua_ctx) : M world () :=
  m ← gets reqs;
  x ← from (m !! r) UseAfterFree;
  _ ← from (r_ctx x) NullDeref;
  modify (upd_reqs (alter (λ x, Request (f <$> r_ctx x) (r_connection x)) r)).

(** [calloc]/[malloc]: a block that was never used before. *)
Definition alloc_task (b : task_block) : M world ptr := λ w,
  Ok (Ptr (brk w) 0, upd_brk S (upd_tasks <[brk w := b]> w)).
Definition alloc_buf (b : list byte) : M world ptr := λ w,
  Ok (Ptr (brk w) 0, upd_brk S (upd_bufs <[brk w := b]> w)).
Definition alloc_queue (q : ffi_task_queue_t) : M world ptr := λ w,
  Ok (Ptr (brk w) 0, upd_brk S (upd_queues <[brk w := q]> w)).

(** [free(p)] for a block of the region [m]: NULL is ignored, anything but the
    start of a live block is undefined. *)
Definition freeable {V} (m : gmap loc V) (p : ptr) : bool :=
  (p_off p =? 0) && bool_decide (is_Some (m !! p_blk p)).
Definition free_task (p : option ptr) : M world () :=
  match p with
  | None => mret ()
  | Some p => m ← gets tasks; assume (freeable m p) BadFree;;
              modify (upd_tasks (delete (p_blk p)))
  end.
Definition free_buf (p : option ptr) : M world () :=
  match p with
  | None => mret ()
  | Some p => m ← gets bufs; assume (freeable m p) BadFree;;
              modify (upd_bufs (delete (p_blk p)))
  end.
Definition free_queue (p : option ptr) : M world () :=
  match p with
  | None => mret ()
  | Some p => m ← gets queues; assume (freeable m p) BadFree;;
              modify (upd_queues (delete (p_blk p)))
  end.

Definition observe (c : call) : M world () := modify (upd_calls (λ l, l ++ [c])).

#[global] Arguments free_task : simpl never.
#[global] Arguments free_buf : simpl never.
#[global] Arguments free_queue : simpl never.
#[global] Arguments modify_task : simpl never.
#[global] Arguments modify_ctx : simpl never.
#[global] Arguments modify_queue : simpl never.
#[global] Arguments load_task : simpl never.
#[global] Arguments load_ctx : simpl never.
#[global] Arguments load_queue : simpl never.

(** ** Field stores *)

Definition set_t_next (v : option ptr) (t : ngx_thread_task_t) : ngx_thread_task_t :=
  NgxTask v (t_id t) (t_ctx t) (t_event t).
Definition set_t_id (v : Z) (t : ngx_thread_task_t) : ngx_thread_task_t :=
  NgxTask (t_next t) v (t_ctx t) (t_event t).
Definition set_t_ctx (v : option ptr) (t : ngx_thread_task_t) : ngx_thread_task_t :=
  NgxTask (t_next t) (t_id t) v (t_event t).
Definition set_t_event (f : ngx_event_t → ngx_event_t) (t : ngx_thread_task_t) : ngx_thread_task_t :=
  NgxTask (t_next t) (t_id t) (t_ctx t) (f (t_event t)).
Definition set_ev_active (v : Z) (e : ngx_event_t) : ngx_event_t :=
  NgxEvent (ev_data e) (ev_handler_of e) v.

Definition set_q_first (v : option ptr) (q : ngx_task_queue_t) : ngx_task_queue_t :=
  NgxTaskQueue v (q_last q).
Definition set_q_last (v : slot) (q : ngx_task_queue_t) : ngx_task_queue_t :=
  NgxTaskQueue (q_first q) v.

Definition set_mtx (v : ngx_thread_mutex_t) (q : ffi_task_queue_t) : ffi_task_queue_t :=
  FfiTaskQueue v (queue q) (waiting q) (cond q) (max_queue q).
Definition set_queue (f : ngx_task_queue_t → ngx_task_queue_t) (q : ffi_task_queue_t) : ffi_task_queue_t :=
  FfiTaskQueue (mtx q) (f (queue q)) (waiting q) (cond q) (max_queue q).
Definition set_waiting (v : Z) (q : ffi_task_queue_t) : ffi_task_queue_t :=
  FfiTaskQueue (mtx q) (queue q) v (cond q) (max_queue q).
Definition set_cond (v : ngx_thread_cond_t) (q : ffi_task_queue_t) : ffi_task_queue_t :=
  FfiTaskQueue (mtx q) (queue q) (waiting q) v (max_queue q).
Definition set_max_queue (v : Z) (q : ffi_task_queue_t) : ffi_task_queue_t :=
  FfiTaskQueue (mtx q) (queue q) (waiting q) (cond q) v.

Definition set_req (p : option ptr) (len : Z) (c : ffi_task_ctx_t) : ffi_task_ctx_t :=
  FfiCtx (c_wait_co_ctx c) (c_rc c) p len (c_rsp c) (c_rsp_len c) (c_is_abort c).
Definition set_wait_co_ctx (v : option cid) (c : ffi_task_ctx_t) : ffi_task_ctx_t :=
  FfiCtx v (c_rc c) (c_req c) (c_req_len c) (c_rsp c) (c_rsp_len c) (c_is_abort c).
Definition set_rsp (rc : Z) (p : option ptr) (len : Z) (c : ffi_task_ctx_t) : ffi_task_ctx_t :=
  FfiCtx (c_wait_co_ctx c) rc (c_req c) (c_req_len c) p len (c_is_abort c).
Definition set_is_abort (v : Z) (c : ffi_task_ctx_t) : ffi_task_ctx_t :=
  FfiCtx (c_wait_co_ctx c) (c_rc c) (c_req c) (c_req_len c) (c_rsp c) (c_rsp_len c) v.

Definition set_cleanup (v : option cleanup_handler) (c : co_ctx) : co_ctx :=
  CoCtx (co c) v (co_data c).
Definition set_co_data (v : option ptr) (c : co_ctx) : co_ctx :=
  CoCtx (co c) (cleanup c) v.
Definition push (v : lua_value) (t : lua_thread) : lua_thread :=
  LuaThread (l_req t) (l_stack t ++ [v]).
Definition set_cur_co_ctx (v : option cid) (c : lua_ctx) : lua_ctx :=
  LuaCtx v (resume_handler_of c) (entered_content_phase c).
Definition set_resume_handler (v : resume_handler) (c : lua_ctx) : lua_ctx :=
  LuaCtx (cur_co_ctx c) v (entered_content_phase c).

(** ** Running straight-line code

    Each primitive has a lemma giving its result when the blocks it touches are
    live; the tactic [run] applies them to a sequence of statements and leaves
    the resulting world explicit. *)

Lemma load_task_ok w l b :
  tasks w !! l = Some b → load_task (Some (Ptr l 0)) w = Ok (tb_task b, w).
Proof. unfold load_task, lift; simpl. by intros ->. Qed.

Lemma modify_task_ok w l b f :
  tasks w !! l = Some b →
  modify_task (Some (Ptr l 0)) f w = Ok ((), upd_tasks (alter (map_tb_task f) l) w).
Proof. unfold modify_task; simpl. by intros ->. Qed.

Lemma load_ctx_ok w l b c :
  tasks w !! l = Some b → tb_ctx b = Some c → load_ctx (Some (Ptr l 1)) w = Ok (c, w).
Proof. unfold load_ctx, lift; simpl. by intros -> ->. Qed.

Lemma modify_ctx_ok w l b c f :
  tasks w !! l = Some b → tb_ctx b = Some c →
  modify_ctx (Some (Ptr l 1)) f w = Ok ((), upd_tasks (alter (map_tb_ctx f) l) w).
Proof. unfold modify_ctx; simpl. by intros -> ->. Qed.

Lemma load_queue_ok w l q :
  queues w !! l = Some q → load_queue (Some (Ptr l 0)) w = Ok (q, w).
Proof. unfold load_queue, lift; simpl. by intros ->. Qed.

Lemma modify_queue_ok w l q f :
  queues w !! l = Some q →
  modify_queue (Some (Ptr l 0)) f w = Ok ((), upd_queues (alter f l) w).
Proof. unfold modify_queue; simpl. by intros ->. Qed.

Lemma load_bytes_ok w l b :
  bufs w !! l = Some b → load_bytes (Some (Ptr l 0)) w = Ok (b, w).
Proof. unfold load_bytes, lift; simpl. by intros ->. Qed.

Lemma load_co_ok w c x : cos w !! c = Some x → load_co (Some c) w = Ok (x, w).
Proof. unfold load_co, gets, from, mbind, M_bind; simpl. by intros ->. Qed.

Lemma modify_co_ok w c x f :
  cos w !! c = Some x → modify_co (Some c) f w = Ok ((), upd_cos (alter f c) w).
Proof. unfold modify_co, gets, from, mbind, M_bind; simpl. by intros ->. Qed.

Lemma load_thread_ok w l x : threads w !! l = Some x → load_thread l w = Ok (x, w).
Proof. unfold load_thread, gets, from, mbind, M_bind; simpl. by intros ->. Qed.

Lemma modify_thread_ok w l x f :
  threads w !! l = Some x → modify_thread l f w = Ok ((), upd_threads (alter f l) w).
Proof. unfold modify_thread, gets, from, mbind, M_bind; simpl. by intros ->. Qed.

Lemma get_module_ctx_ok w r x :
  reqs w !! r = Some x → ngx_http_get_module_ctx r w = Ok (r_ctx x, w).
Proof. unfold ngx_http_get_module_ctx, gets, from, mbind, M_bind; simpl. by intros ->. Qed.

Lemma get_connection_ok w r x :
  reqs w !! r = Some x → r_get_connection r w = Ok (r_connection x, w).
Proof. unfold r_get_connection, gets, from, mbind, M_bind; simpl. by intros ->. Qed.

Lemma modify_lua_ctx_ok w r x c f :
  reqs w !! r = Some x → r_ctx x = Some c →
  modify_lua_ctx r f w =
    Ok ((), upd_reqs (alter (λ x, Request (f <$> r_ctx x) (r_connection x)) r) w).
Proof. unfold modify_lua_ctx, gets, from, mbind, M_bind; simpl. intros ->; simpl. by intros ->. Qed.

Lemma alloc_task_ok b w :
  alloc_task b w = Ok (Ptr (brk w) 0, upd_brk S (upd_tasks <[brk w := b]> w)).
Proof. done. Qed.

Lemma alloc_buf_ok b w :
  alloc_buf b w = Ok (Ptr (brk w) 0, upd_brk S (upd_bufs <[brk w := b]> w)).
Proof. done. Qed.

Lemma alloc_queue_ok q w :
  alloc_queue q w = Ok (Ptr (brk w) 0, upd_brk S (upd_queues <[brk w := q]> w)).
Proof. done. Qed.

Lemma free_task_ok w l b :
  tasks w !! l = Some b → free_task (Some (Ptr l 0)) w = Ok ((), upd_tasks (delete l) w).
Proof.
  intros H. unfold free_task, gets, assume, freeable, mbind, M_bind; simpl.
  rewrite bool_decide_true; [done|by eexists].
Qed.

Lemma free_buf_ok w l b :
  bufs w !! l = Some b → free_buf (Some (Ptr l 0)) w = Ok ((), upd_bufs (delete l) w).
Proof.
  intros H. unfold free_buf, gets, assume, freeable, mbind, M_bind; simpl.
  rewrite bool_decide_true; [done|by eexists].
Qed.

Lemma free_queue_ok w l b :
  queues w !! l = Some b → free_queue (Some (Ptr l 0)) w = Ok ((), upd_queues (delete l) w).
Proof.
  intros H. unfold free_queue, gets, assume, freeable, mbind, M_bind; simpl.
  rewrite bool_decide_true; [done|by eexists].
Qed.

(** Side conditions of the lemmas above: a lookup in an updated region. *)
Ltac lookup_tac :=
  cbn [tasks bufs queues brk pool_done done_lock cos threads reqs calls
       upd_tasks upd_bufs upd_queues upd_brk upd_pool_done upd_done_lock
       upd_cos upd_threads upd_reqs upd_calls];
  solve [ eassumption
        | repeat first
            [ rewrite lookup_alter_eq | rewrite lookup_insert_eq
            | rewrite lookup_alter_ne by congruence
            | rewrite lookup_insert_ne by congruence
            | rewrite lookup_delete_ne by congruence ];
          repeat match goal with
                 | H : ?m !! ?i = Some _ |- context [?m !! ?i] => rewrite H
                 end;
          cbn [fmap option_fmap option_map tb_task tb_ctx map_tb_task map_tb_ctx r_ctx];
          reflexivity
        | eauto ].

(** Side conditions of [assume]: a test the context decides. *)
Ltac assume_tac :=
  cbn;
  solve [ reflexivity | assumption
        | rewrite bool_decide_true by (done || congruence || by eexists); reflexivity ].

Create HintDb run.

Ltac run_prim :=
  lazymatch goal with
  | |- mret _ _ = _ => apply ret_run
  | |- gets _ _ = _ => apply gets_run
  | |- modify _ _ = _ => apply modify_run
  | |- observe _ _ = _ => apply modify_run
  | |- assume _ _ _ = _ => eapply assume_run; assume_tac
  | |- from _ _ _ = _ => eapply from_run; lookup_tac
  | |- alloc_task _ _ = _ => apply alloc_task_ok
  | |- alloc_buf _ _ = _ => apply alloc_buf_ok
  | |- alloc_queue _ _ = _ => apply alloc_queue_ok
  | |- load_task _ _ = _ => eapply load_task_ok; lookup_tac
  | |- modify_task _ _ _ = _ => eapply modify_task_ok; lookup_tac
  | |- load_ctx _ _ = _ => eapply load_ctx_ok; lookup_tac
  | |- modify_ctx _ _ _ = _ => eapply modify_ctx_ok; lookup_tac
  | |- load_queue _ _ = _ => eapply load_queue_ok; lookup_tac
  | |- modify_queue _ _ _ = _ => eapply modify_queue_ok; lookup_tac
  | |- load_bytes _ _ = _ => eapply load_bytes_ok; lookup_tac
  | |- load_co _ _ = _ => eapply load_co_ok; lookup_tac
  | |- modify_co _ _ _ = _ => eapply modify_co_ok; lookup_tac
  | |- load_thread _ _ = _ => eapply load_thread_ok; lookup_tac
  | |- modify_thread _ _ _ = _ => eapply modify_thread_ok; lookup_tac
  | |- ngx_http_get_module_ctx _ _ = _ => eapply get_module_ctx_ok; lookup_tac
  | |- r_get_connection _ _ = _ => eapply get_connection_ok; lookup_tac
  | |- modify_lua_ctx _ _ _ = _ => eapply modify_lua_ctx_ok; lookup_tac
  | |- free_task None _ = _ => apply ret_run
  | |- free_buf None _ = _ => apply ret_run
  | |- free_queue None _ = _ => apply ret_run
  | |- free_task _ _ = _ => eapply free_task_ok; lookup_tac
  | |- free_buf _ _ = _ => eapply free_buf_ok; lookup_tac
  | |- free_queue _ _ = _ => eapply free_queue_ok; lookup_tac
  | |- _ => solve [eauto with run]
  end.

(** One statement of a sequence. *)
Ltac run1 :=
  first [ erewrite bind_ok; [|run_prim] | rewrite bind_assoc ];
  cbn beta iota
    delta [queue q_first q_last mtx waiting cond max_queue
           set_queue set_q_first set_q_last set_mtx set_waiting set_cond set_max_queue].
Ltac run := repeat run1; try (etransitivity; [run_prim|]); try reflexivity.

(** ** Equality of worlds *)

Lemma upd_tasks_compose f g w : upd_tasks f (upd_tasks g w) = upd_tasks (λ m, f (g m)) w.
Proof. done. Qed.

Lemma upd_queues_tasks f g w : upd_queues f (upd_tasks g w) = upd_tasks g (upd_queues f w).
Proof. done. Qed.

(** A queue write that changes nothing is no write at all. *)
Lemma upd_queues_id w tp q f :
  queues w !! tp = Some q → f q = q → upd_queues (alter f tp) w = w.
Proof.
  intros Hq Hf. destruct w as [? ? qs]; unfold upd_queues; simpl in *. f_equal.
  apply map_eq. intros i. destruct (decide (tp = i)) as [->|Hne].
  - by rewrite lookup_alter_eq, Hq; simpl; rewrite Hf.
  - by rewrite lookup_alter_ne.
Qed.

Lemma upd_queues_ext w tp q f g :
  queues w !! tp = Some q → f q = g q →
  upd_queues (alter f tp) w = upd_queues (alter g tp) w.
Proof.
  intros Hq Hf. unfold upd_queues. f_equal. apply alter_ext_lookup.
  intros x Hx. by simplify_eq.
Qed.

Lemma upd_queues_alter2 f g tp w :
  upd_queues (alter f tp) (upd_queues (alter g tp) w) = upd_queues (alter (λ q, f (g q)) tp) w.
Proof. unfold upd_queues; simpl. by rewrite alter_alter. Qed.

Lemma upd_tasks_alter2 f g t w :
  upd_tasks (alter f t) (upd_tasks (alter g t) w) = upd_tasks (alter (λ b, f (g b)) t) w.
Proof. unfold upd_tasks; simpl. by rewrite alter_alter. Qed.
