(* ===== verification/TaskQueue.v ===== *)
(** * TaskQueue: the singly linked task queues

    [ngx_task_queue_t] of ngx_http_lua_ffi.c and the done queue of nginx's
    thread pool share one representation: [first] points to the first task,
    [last] to the field the next task is to be linked from.  The operations are
    the fragments the handlers inline; the lemmas refine them to list
    operations: appending is [l ++ [t]], taking is the head. *)

From S2P Require Import Prelude World.

(** ** Operations *)

(** [#define ngx_task_queue_init(q)], for the queue whose [first] is [head]. *)
Definition ngx_task_queue_init (head : slot) : ngx_task_queue_t :=
  NgxTaskQueue None head.

(** [*s = v] *)
Definition write_slot (s : slot) (v : option ptr) : M world () :=
  match s with
  | SNull => ub NullDeref
  | SDoneFirst => modify (upd_pool_done (set_q_first v))
  | SQueueFirst tp => modify_queue (Some tp) (set_queue (set_q_first v))
  | STaskNext t => modify_task (Some t) (set_t_next v)
  end.

(** [*tp->queue.last = task; tp->queue.last = &task->next;] *)
Definition queue_append (tp task : option ptr) : M world () :=
  q ← load_queue tp;
  write_slot (q_last (queue q)) task;;
  t ← from task NullDeref;
  modify_queue tp (set_queue (set_q_last (STaskNext t))).

(** The same two statements on [ngx_thread_pool_done]. *)
Definition done_append (task : option ptr) : M world () :=
  q ← gets pool_done;
  write_slot (q_last q) task;;
  t ← from task NullDeref;
  modify (upd_pool_done (set_q_last (STaskNext t))).

(** Unlink the first task of [tp]'s queue; [last] goes back to [&first] when
    the queue becomes empty. *)
Definition queue_take (tp : option ptr) : M world (option ptr) :=
  q ← load_queue tp;
  let task := q_first (queue q) in
  t ← load_task task;
  modify_queue tp (set_queue (set_q_first (t_next t)));;
  q ← load_queue tp;
  p ← from tp NullDeref;
  (match q_first (queue q) with
   | None => modify_queue tp (set_queue (set_q_last (SQueueFirst p)))
   | Some _ => mret ()
   end);;
  mret task.

(** ** Representation *)

(** The tasks [l], linked by [next], from [p] on. *)
Fixpoint chain (m : gmap loc task_block) (p : option ptr) (l : list loc) : Prop :=
  match l with
  | [] => p = None
  | t :: l' => p = Some (Ptr t 0) ∧ ∃ b, m !! t = Some b ∧ chain m (t_next (tb_task b)) l'
  end.

Definition last_slot (head : slot) (l : list loc) : slot :=
  match last l with None => head | Some t => STaskNext (Ptr t 0) end.

(** The queue [q], whose own [first] field is [head], holds the tasks [l]. *)
Record queue_repr (m : gmap loc task_block) (head : slot) (q : ngx_task_queue_t)
    (l : list loc) : Prop := {
  qr_chain : chain m (q_first q) l;
  qr_last : q_last q = last_slot head l;
  qr_nodup : NoDup l;
}.

(** The effect of appending [t] behind [l] on the tasks. *)
Definition link (l : list loc) (t : loc) (m : gmap loc task_block) : gmap loc task_block :=
  match last l with
  | None => m
  | Some x => alter (map_tb_task (set_t_next (Some (Ptr t 0)))) x m
  end.

(** The effect of appending [t] behind [l] on the queue header. *)
Definition appended (l : list loc) (t : loc) (q : ngx_task_queue_t) : ngx_task_queue_t :=
  NgxTaskQueue (match last l with None => Some (Ptr t 0) | Some _ => q_first q end)
               (STaskNext (Ptr t 0)).

(** ** Chains *)

(** [m'] keeps the link field of every task of [l]. *)
Definition same_links (m m' : gmap loc task_block) (l : list loc) : Prop :=
  ∀ x b, x ∈ l → m !! x = Some b →
    ∃ b', m' !! x = Some b' ∧ t_next (tb_task b') = t_next (tb_task b).

Lemma same_links_cons m m' t l :
  same_links m m' (t :: l) → same_links m m' l.
Proof. intros H x b Hx. apply H. by right. Qed.

Lemma chain_frame m m' l p : same_links m m' l → chain m p l → chain m' p l.
Proof.
  revert p. induction l as [|t l IH]; simpl; [done|].
  intros p Hs [-> (b & Hb & Hc)]. split; [done|].
  destruct (Hs t b) as (b' & Hb' & Hn); [by left|done|].
  exists b'. split; [done|]. rewrite Hn. eauto using same_links_cons.
Qed.

Lemma chain_live m p l t : chain m p l → t ∈ l → is_Some (m !! t).
Proof.
  revert p. induction l as [|x l IH]; intros p; simpl.
  - by intros _ ?%not_elem_of_nil.
  - intros [-> (b & Hb & Hc)] [->|Ht]%elem_of_cons; eauto.
Qed.

Lemma queue_repr_frame m m' head q l :
  same_links m m' l → queue_repr m head q l → queue_repr m' head q l.
Proof. intros Hs [Hc Hl Hn]. split; eauto using chain_frame. Qed.

Lemma queue_repr_nil m head q l : queue_repr m head q l → q_first q = None → l = [].
Proof. intros [Hc _ _] Hf. rewrite Hf in Hc. destruct l as [|t l]; [done|]. by destruct Hc. Qed.

Lemma queue_repr_live m head q l t :
  queue_repr m head q l → t ∈ l → is_Some (m !! t).
Proof. intros [Hc _ _]. by apply chain_live with (q_first q). Qed.

Lemma same_links_alter m f t l :
  (∀ b, t_next (tb_task (f b)) = t_next (tb_task b)) → same_links m (alter f t m) l.
Proof.
  intros Hf x b _ Hx. destruct (decide (t = x)) as [->|Hne].
  - exists (f b). by simplify_map_eq.
  - exists b. by simplify_map_eq.
Qed.

Lemma same_links_alter_ne m f t l : t ∉ l → same_links m (alter f t m) l.
Proof.
  intros Ht x b Hx Hb. assert (t ≠ x) by (intros ->; done).
  exists b. by simplify_map_eq.
Qed.

Lemma same_links_insert_ne m v t l : t ∉ l → same_links m (<[t:=v]> m) l.
Proof.
  intros Ht x b Hx Hb. assert (t ≠ x) by (intros ->; done).
  exists b. by simplify_map_eq.
Qed.

Lemma same_links_delete m t l : t ∉ l → same_links m (delete t m) l.
Proof.
  intros Ht x b Hx Hb. assert (t ≠ x) by (intros ->; done).
  exists b. by simplify_map_eq.
Qed.

Lemma same_links_trans m m' m'' l :
  same_links m m' l → same_links m' m'' l → same_links m m'' l.
Proof.
  intros H H' x b Hx Hb. destruct (H x b Hx Hb) as (b' & Hb' & Hn).
  destruct (H' x b' Hx Hb') as (b'' & Hb'' & Hn'). exists b''. split; congruence.
Qed.

Lemma chain_append m p l t b :
  chain m p l → NoDup l → t ∉ l →
  m !! t = Some b → t_next (tb_task b) = None →
  chain (link l t m) (match last l with None => Some (Ptr t 0) | Some _ => p end) (l ++ [t]).
Proof.
  revert p. induction l as [|x l IH]; intros p Hc Hnd Ht Hb Hn.
  { simpl in *. split; [done|]. exists b. by rewrite Hn. }
  destruct Hc as [-> (bx & Hx & Hc)].
  apply NoDup_cons in Hnd as [Hxl Hnd].
  assert (x ≠ t ∧ t ∉ l) as [Hxt Htl] by set_solver.
  specialize (IH (t_next (tb_task bx)) Hc Hnd Htl Hb Hn).
  destruct l as [|y l].
  - unfold link. simpl. split; [done|].
    eexists. split; [by simplify_map_eq|].
    simpl. split; [done|]. exists b. by simplify_map_eq.
  - assert (∃ z, last (y :: l) = Some z ∧ z ∈ y :: l) as (z & Hz & Hzin).
    { destruct (last (y :: l)) as [z|] eqn:E; [|by apply last_None in E].
      exists z. split; [done|]. by apply last_Some_elem_of. }
    assert (link (x :: y :: l) t m = link (y :: l) t m) as -> by done.
    unfold link in *. rewrite Hz in IH |- *.
    change (last (x :: y :: l)) with (last (y :: l)). rewrite Hz.
    rewrite <-app_comm_cons. split; [done|].
    exists bx. split; [|done].
    rewrite lookup_alter_ne; [done|]. intros ->. done.
Qed.

Lemma link_lookup l t m x b :
  link l t m !! x = Some b ↔
    ∃ b0, m !! x = Some b0 ∧
      b = if decide (last l = Some x) then map_tb_task (set_t_next (Some (Ptr t 0))) b0 else b0.
Proof.
  unfold link. destruct (last l) as [y|].
  - rewrite lookup_alter. destruct (decide (y = x)) as [->|Hne].
    + destruct (decide (Some x = Some x)); [|done]. destruct (m !! x); naive_solver.
    + destruct (decide (Some y = Some x)); [congruence|]. naive_solver.
  - destruct (decide (None = Some x)); [done|]. naive_solver.
Qed.

Lemma queue_repr_append m head q l t b :
  queue_repr m head q l → t ∉ l → m !! t = Some b → t_next (tb_task b) = None →
  queue_repr (link l t m) head (appended l t q) (l ++ [t]).
Proof.
  intros [Hc Hl Hnd] Ht Hb Hn. split.
  - simpl. eapply chain_append; eauto.
  - unfold last_slot. by rewrite last_snoc.
  - apply NoDup_app. split; [done|]. split; [set_solver|apply NoDup_singleton].
Qed.

(** ** The fragments refine list operations *)

(** [write_slot] at the end of a queue links the new task behind the last one,
    or makes it the first. *)
Lemma queue_append_run w tp q l t b :
  queues w !! tp = Some q →
  queue_repr (tasks w) (SQueueFirst (Ptr tp 0)) (queue q) l →
  tasks w !! t = Some b →
  queue_append (Some (Ptr tp 0)) (Some (Ptr t 0)) w =
    Ok ((), upd_queues (alter (set_queue (appended l t)) tp) (upd_tasks (link l t) w)).
Proof.
  intros Hq [Hc Hl Hnd] Hb. unfold queue_append, link, appended.
  run1. rewrite Hl. unfold last_slot.
  destruct (last l) as [x|] eqn:El; simpl.
  - assert (is_Some (tasks w !! x)) as [bx Hx].
    { eapply chain_live; [done|]. by apply last_Some_elem_of. }
    run.
  - run. unfold upd_queues, upd_tasks; simpl. by rewrite alter_alter.
Qed.

Lemma done_append_run w l t b :
  queue_repr (tasks w) SDoneFirst (pool_done w) l →
  tasks w !! t = Some b →
  done_append (Some (Ptr t 0)) w =
    Ok ((), upd_pool_done (appended l t) (upd_tasks (link l t) w)).
Proof.
  intros [Hc Hl Hnd] Hb. unfold done_append, link, appended.
  run1. rewrite Hl. unfold last_slot.
  destruct (last l) as [x|] eqn:El; simpl.
  - assert (is_Some (tasks w !! x)) as [bx Hx].
    { eapply chain_live; [done|]. by apply last_Some_elem_of. }
    run.
  - run.
Qed.

(** Taking the first task of a queue holding [t :: l] leaves a queue of [l];
    the tasks themselves are not written. *)
Lemma queue_take_run w tp q t l :
  queues w !! tp = Some q →
  queue_repr (tasks w) (SQueueFirst (Ptr tp 0)) (queue q) (t :: l) →
  ∃ hd,
    queue_take (Some (Ptr tp 0)) w =
      Ok (Some (Ptr t 0), upd_queues (alter (set_queue (λ _, hd)) tp) w) ∧
    queue_repr (tasks w) (SQueueFirst (Ptr tp 0)) hd l.
Proof.
  intros Hq [[Hf (b & Hb & Hc)] Hl Hnd]. apply NoDup_cons in Hnd as [Ht Hnd].
  exists (NgxTaskQueue (t_next (tb_task b))
     (match t_next (tb_task b) with None => SQueueFirst (Ptr tp 0) | Some _ => q_last (queue q) end)).
  unfold queue_take. split.
  - run1. rewrite Hf. run1. run1. run1. run1.
    destruct (t_next (tb_task b)) as [p|] eqn:En.
    + run. unfold upd_queues; simpl. do 3 f_equal.
      apply alter_ext_lookup. intros x Hx. by simplify_eq.
    + run. unfold upd_queues; simpl. do 3 f_equal.
      rewrite alter_alter. apply alter_ext_lookup. intros x Hx. by simplify_eq.
  - split; [done| |done]. simpl.
    destruct l as [|t' l]; simpl in Hc.
    + by rewrite Hc.
    + destruct Hc as [-> _]. rewrite Hl. done.
Qed.

Lemma same_links_link m l t l' :
  (∀ x, last l = Some x → x ∉ l') → same_links m (link l t m) l'.
Proof.
  unfold link. destruct (last l) as [x|]; intros H.
  - apply same_links_alter_ne. auto.
  - intros y b _ Hy. eauto.
Qed.

Lemma link_last_notin (l l' : list loc) x :
  (∀ y, y ∈ l → y ∉ l') → last l = Some x → x ∉ l'.
Proof. intros H Hx. apply H. by apply last_Some_elem_of. Qed.
