(* ===== verification/FfiTask.v ===== *)
(** * FfiTask: one task, from allocation to release

    The part of ngx_http_lua_ffi.c that works on a single task: allocation and
    release, the request and response accessors the runtimes call, the injection
    into the thread pool's done queue, and the cleanup handler. *)

From S2P Require Import Prelude World TaskQueue.

(** ** Results of the system calls

    The nginx wrappers of malloc and pthread return a status; a [sysenv] gives
    the status of each call a handler makes.  [e_wake] is the thread
    [ngx_thread_cond_signal] picks when it is blocked on the condition. *)
Record sysenv := SysEnv {
  e_calloc : bool;
  e_mutex_create : Z;
  e_cond_create : Z;
  e_lock : Z;
  e_unlock : Z;
  e_signal : Z;
  e_wait : Z;
  e_wake : tid;
}.

(** Every call succeeds. *)
Definition env_ok : sysenv := SysEnv true NGX_OK NGX_OK NGX_OK NGX_OK NGX_OK NGX_OK 0.

(** ** Allocation *)

Definition zero_event : ngx_event_t := NgxEvent None None 0.
Definition zero_task : ngx_thread_task_t := NgxTask None 0 None zero_event.
Definition zero_ctx : ffi_task_ctx_t := FfiCtx None 0 None 0 None 0 0.

(** [ngx_calloc(sizeof(ngx_thread_task_t) + size)]: zeroed memory, or NULL.
    [tail] tells whether [size] is [sizeof(ffi_task_ctx_t)] or zero. *)
Definition ngx_calloc_task (env : sysenv) (tail : bool) : M world (option ptr) :=
  if e_calloc env then
    p ← alloc_task (TaskBlock zero_task (if tail then Some zero_ctx else None));
    mret (Some p)
  else mret None.

Definition ngx_http_lua_ffi_task_alloc (env : sysenv) (tail : bool) : M world (option ptr) :=
  task ← ngx_calloc_task env tail;
  match task with
  | None => mret None
  | Some task =>
      modify_task (Some task) (set_t_ctx (Some (ptr_add task 1)));;
      mret (Some task)
  end.

(** [ctx] is [task + 1]; the request and the response are freed with it. *)
Definition ngx_http_lua_ffi_task_free (ctx : option ptr) : M world () :=
  c ← load_ctx ctx;
  (match c_req c with Some _ => free_buf (c_req c) | None => mret () end);;
  (match c_rsp c with Some _ => free_buf (c_rsp c) | None => mret () end);;
  free_task ((λ p, ptr_add p (-1)) <$> ctx).

(** ** The accessors a runtime calls *)

(** The request, and its length when the caller passes a [len] pointer. *)
Definition ngx_http_lua_ffi_get_req (tsk : option ptr) (len : bool) : M world (option ptr * option Z) :=
  task ← load_task tsk;
  ctx ← load_ctx (t_ctx task);
  mret (c_req ctx, if len then Some (c_req_len ctx) else None).

Definition ngx_spinlock : M world () :=
  l ← gets done_lock; assume (negb l) Deadlock;; modify (upd_done_lock (λ _, true)).
Definition ngx_unlock : M world () := modify (upd_done_lock (λ _, false)).
Definition ngx_notify : M world () := observe CNotify.

Definition ngx_thread_pool_notify_inject (task : option ptr) : M world () :=
  modify_task task (set_t_next None);;
  ngx_spinlock;;
  done_append task;;
  ngx_unlock;;
  ngx_notify.

Definition ngx_http_lua_ffi_respond (tsk : option ptr) (rc : Z) (rsp : option ptr) (rsp_len : Z) : M world () :=
  task ← load_task tsk;
  modify_ctx (t_ctx task) (set_rsp rc rsp rsp_len);;
  ngx_thread_pool_notify_inject tsk.

(** ** Creation and cleanup *)

(** A store to the one-bit field [is_abort]: a signed bit-field of width 1
    holds 0 or -1. *)
Definition bit1 (v : Z) : Z := if Z.odd v then -1 else 0.

(** The cleanup handler of a coroutine that waits for a task. *)
Definition ngx_http_lua_ffi_cleanup (data : cid) : M world () :=
  ctx ← load_co (Some data);
  modify_ctx (co_data ctx) (set_is_abort (bit1 1)).

Definition set_ev_handler (h : ev_handler) (e : ngx_event_t) : ngx_event_t :=
  NgxEvent (ev_data e) (Some h) (ev_active e).
Definition set_ev_data (d : option ptr) (e : ngx_event_t) : ngx_event_t :=
  NgxEvent d (ev_handler_of e) (ev_active e).

Definition ngx_http_lua_ffi_create_task (env : sysenv) (r : rid) : M world (option ptr) :=
  ctx ← ngx_http_get_module_ctx r;
  match ctx with
  | None => mret None
  | Some ctx =>
      task ← ngx_http_lua_ffi_task_alloc env true;
      match task with
      | None => mret None
      | Some _ =>
          t ← load_task task;
          let ffi_ctx := t_ctx t in
          modify_ctx ffi_ctx (set_wait_co_ctx (cur_co_ctx ctx));;
          modify_co (cur_co_ctx ctx) (set_cleanup (Some HFfiCleanup));;
          modify_co (cur_co_ctx ctx) (set_co_data ffi_ctx);;
          modify_task task (set_t_event (set_ev_handler HFfiEventHandler));;
          modify_task task (set_t_event (set_ev_data ffi_ctx));;
          mret task
      end
  end.

(** ** What each operation does, on live blocks *)

(** A task as [ngx_http_lua_ffi_create_task] leaves it, in block [l]. *)
Definition created_block (c : option cid) (l : loc) : task_block :=
  TaskBlock (NgxTask None 0 (Some (Ptr l 1)) (NgxEvent (Some (Ptr l 1)) (Some HFfiEventHandler) 0))
            (Some (FfiCtx c 0 None 0 None 0 0)).

(** The coroutine context of the poster: the cleanup handler armed for [l]. *)
Definition armed (l : loc) (x : co_ctx) : co_ctx := CoCtx (co x) (Some HFfiCleanup) (Some (Ptr l 1)).

Lemma upd_tasks_insert_alter f l b w :
  upd_tasks (alter f l) (upd_tasks <[l := b]> w) = upd_tasks <[l := f b]> w.
Proof. unfold upd_tasks; simpl. by rewrite alter_insert_eq. Qed.

Lemma upd_cos_alter2 f g c w :
  upd_cos (alter f c) (upd_cos (alter g c) w) = upd_cos (alter (λ x, f (g x)) c) w.
Proof. unfold upd_cos; simpl. by rewrite alter_alter. Qed.

Lemma upd_tasks_cos f g w : upd_tasks f (upd_cos g w) = upd_cos g (upd_tasks f w).
Proof. done. Qed.

Lemma create_task_run env w r x c cid y :
  e_calloc env = true →
  reqs w !! r = Some x → r_ctx x = Some c → cur_co_ctx c = Some cid → cos w !! cid = Some y →
  ngx_http_lua_ffi_create_task env r w =
    Ok (Some (Ptr (brk w) 0),
        upd_cos (alter (armed (brk w)) cid)
          (upd_tasks <[brk w := created_block (Some cid) (brk w)]> (upd_brk S w))).
Proof.
  intros Hc Hr Hx Hcid Hy.
  unfold ngx_http_lua_ffi_create_task, ngx_http_lua_ffi_task_alloc, ngx_calloc_task.
  run1. rewrite Hx, Hc, Hcid. unfold ptr_add; simpl. run.
  cbn [p_blk p_off ptr_add].
  change (upd_brk S (upd_tasks ?f w)) with (upd_tasks f (upd_brk S w)).
  rewrite upd_tasks_insert_alter, upd_tasks_insert_alter, upd_cos_alter2.
  rewrite !upd_tasks_cos, !upd_tasks_insert_alter. done.
Qed.

(** *** Release *)

Definition drop_buf (p : option ptr) (m : gmap loc (list byte)) : gmap loc (list byte) :=
  match p with None => m | Some p => delete (p_blk p) m end.

(** [p] is NULL or the start of a live buffer. *)
Definition buf_live (m : gmap loc (list byte)) (p : option ptr) : Prop :=
  match p with None => True | Some p => p_off p = 0 ∧ is_Some (m !! p_blk p) end.

(** The request and the response of [c] are live and distinct buffers. *)
Record ctx_bufs_ok (m : gmap loc (list byte)) (c : ffi_task_ctx_t) : Prop := {
  cb_req : buf_live m (c_req c);
  cb_rsp : buf_live m (c_rsp c);
  cb_distinct : ∀ p q, c_req c = Some p → c_rsp c = Some q → p_blk p ≠ p_blk q;
}.

Lemma free_opt_buf_run w p :
  buf_live (bufs w) p →
  (match p with Some _ => free_buf p | None => mret () end) w = Ok ((), upd_bufs (drop_buf p) w).
Proof.
  destruct p as [[l o]|]; simpl; [|by destruct w].
  intros [-> [b Hb]]. by eapply free_buf_ok.
Qed.

Lemma task_free_run w t b c :
  tasks w !! t = Some b → tb_ctx b = Some c → ctx_bufs_ok (bufs w) c →
  ngx_http_lua_ffi_task_free (Some (Ptr t 1)) w =
    Ok ((), upd_tasks (delete t) (upd_bufs (λ m, drop_buf (c_rsp c) (drop_buf (c_req c) m)) w)).
Proof.
  intros Hb Hc [Hreq Hrsp Hd]. unfold ngx_http_lua_ffi_task_free.
  erewrite bind_ok; [|by eapply load_ctx_ok].
  erewrite bind_ok; [|by eapply free_opt_buf_run].
  erewrite bind_ok.
  2: { eapply free_opt_buf_run. simpl. destruct (c_rsp c) as [q|]; [|done].
       destruct Hrsp as [Ho Hl]. split; [done|].
       destruct (c_req c) as [p|]; simpl; [|done].
       rewrite lookup_delete_ne; [done|]. by apply Hd. }
  simpl. etransitivity; [eapply free_task_ok; simpl; exact Hb|]. done.
Qed.

(** *** Answering *)

(** The task after [ngx_http_lua_ffi_respond]. *)
Definition answered (rc : Z) (rsp : option ptr) (len : Z) (b : task_block) : task_block :=
  TaskBlock (set_t_next None (tb_task b)) (set_rsp rc rsp len <$> tb_ctx b).

Lemma get_req_run w t b c len :
  tasks w !! t = Some b → t_ctx (tb_task b) = Some (Ptr t 1) → tb_ctx b = Some c →
  ngx_http_lua_ffi_get_req (Some (Ptr t 0)) len w =
    Ok ((c_req c, if len then Some (c_req_len c) else None), w).
Proof.
  intros Hb Ht Hc. unfold ngx_http_lua_ffi_get_req. run1. rewrite Ht.
  erewrite bind_ok; [|by eapply load_ctx_ok]. done.
Qed.

Lemma spinlock_run w :
  done_lock w = false → ngx_spinlock w = Ok ((), upd_done_lock (λ _, true) w).
Proof. intros Hl. unfold ngx_spinlock, gets, assume, mbind, M_bind. by rewrite Hl. Qed.

Lemma inject_run w t b dl :
  tasks w !! t = Some b → done_lock w = false →
  queue_repr (tasks w) SDoneFirst (pool_done w) dl → t ∉ dl →
  ngx_thread_pool_notify_inject (Some (Ptr t 0)) w =
    Ok ((), upd_calls (λ l, l ++ [CNotify])
              (upd_pool_done (appended dl t)
                 (upd_tasks (λ m, link dl t (alter (map_tb_task (set_t_next None)) t m)) w))).
Proof.
  intros Hb Hl Hr Ht. unfold ngx_thread_pool_notify_inject, ngx_unlock, ngx_notify.
  run1. erewrite bind_ok; [|by apply spinlock_run].
  erewrite bind_ok.
  2: { eapply (done_append_run _ dl); simpl; [|lookup_tac].
       eapply queue_repr_frame; [|done]. by apply same_links_alter_ne. }
  run. unfold upd_calls, upd_pool_done, upd_done_lock, upd_tasks; simpl.
  by rewrite Hl.
Qed.

Lemma respond_run w t b c rc rsp len dl :
  tasks w !! t = Some b → t_ctx (tb_task b) = Some (Ptr t 1) → tb_ctx b = Some c →
  done_lock w = false →
  queue_repr (tasks w) SDoneFirst (pool_done w) dl → t ∉ dl →
  ngx_http_lua_ffi_respond (Some (Ptr t 0)) rc rsp len w =
    Ok ((), upd_calls (λ l, l ++ [CNotify])
              (upd_pool_done (appended dl t)
                 (upd_tasks (λ m, link dl t (alter (answered rc rsp len) t m)) w))).
Proof.
  intros Hb Ht Hc Hl Hr Hdl. unfold ngx_http_lua_ffi_respond. run1. rewrite Ht.
  erewrite bind_ok; [|by eapply modify_ctx_ok].
  erewrite inject_run; [|by lookup_tac|done| |done].
  - rewrite upd_tasks_compose. do 3 f_equal. unfold upd_pool_done, upd_tasks; simpl.
    by rewrite alter_alter.
  - simpl. eapply queue_repr_frame; [|done]. by apply same_links_alter_ne.
Qed.

Lemma cleanup_run w c x t b ctx :
  cos w !! c = Some x → co_data x = Some (Ptr t 1) →
  tasks w !! t = Some b → tb_ctx b = Some ctx →
  ngx_http_lua_ffi_cleanup c w =
    Ok ((), upd_tasks (alter (map_tb_ctx (set_is_abort (-1))) t) w).
Proof.
  intros Hx Hd Hb Hc. unfold ngx_http_lua_ffi_cleanup. run1. rewrite Hd.
  by eapply modify_ctx_ok.
Qed.
