(* ===== verification/FfiQueue.v ===== *)
(** * FfiQueue: the request queue of one runtime

    Creation and release of [ffi_task_queue_t], posting a task (with the
    [max_queue] bound and the error paths), the finish marker, and polling.
    [ngx_http_lua_ffi_task_poll] blocks in [ngx_thread_cond_wait]; it is cut at
    that call into the part before ([task_poll_enter]) and the part after a
    wake-up ([task_poll_wake]), so that other threads run in between. *)

From S2P Require Import Prelude World TaskQueue FfiTask.

(** ** Mutex and condition of a queue (POSIX, through nginx's wrappers) *)

Definition mutex_create (env : sysenv) (tp : option ptr) : M world Z :=
  if e_mutex_create env =? NGX_OK then modify_queue tp (set_mtx MtxFree);; mret NGX_OK
  else mret (e_mutex_create env).

(** Destroying a mutex that is locked or was never created is undefined. *)
Definition mutex_destroy (tp : option ptr) : M world () :=
  q ← load_queue tp;
  assume (bool_decide (mtx q = MtxFree)) BadMutex;;
  modify_queue tp (set_mtx MtxDead).

(** A handler runs without interruption between [lock] and [unlock], so finding
    the mutex held means that it was left locked. *)
Definition mutex_lock (env : sysenv) (tp : option ptr) : M world Z :=
  q ← load_queue tp;
  if e_lock env =? NGX_OK then
    match mtx q with
    | MtxFree => modify_queue tp (set_mtx MtxHeld);; mret NGX_OK
    | MtxHeld => ub Deadlock
    | MtxDead => ub BadMutex
    end
  else mret (e_lock env).

Definition mutex_unlock (env : sysenv) (tp : option ptr) : M world Z :=
  q ← load_queue tp;
  if e_unlock env =? NGX_OK then
    assume (bool_decide (mtx q = MtxHeld)) BadMutex;;
    modify_queue tp (set_mtx MtxFree);;
    mret NGX_OK
  else mret (e_unlock env).

Definition cond_create (env : sysenv) (tp : option ptr) : M world Z :=
  if e_cond_create env =? NGX_OK then modify_queue tp (set_cond (Cond true [] []));; mret NGX_OK
  else mret (e_cond_create env).

(** Destroying a condition on which a thread is blocked is undefined. *)
Definition cond_destroy (tp : option ptr) : M world () :=
  q ← load_queue tp;
  assume (cv_live (cond q)) BadMutex;;
  assume (bool_decide (cv_waiters (cond q) = [])) BusyDestroy;;
  modify_queue tp (set_cond (Cond false [] (cv_woken (cond q)))).

(** [pthread_cond_signal] unblocks one of the blocked threads, if any. *)
Definition wake_one (pick : tid) (c : ngx_thread_cond_t) : ngx_thread_cond_t :=
  match cv_waiters c with
  | [] => c
  | first :: _ =>
      let x := if decide (pick ∈ cv_waiters c) then pick else first in
      Cond (cv_live c) (filter (λ y, y ≠ x) (cv_waiters c)) (cv_woken c ++ [x])
  end.

Definition cond_signal (env : sysenv) (tp : option ptr) : M world Z :=
  q ← load_queue tp;
  assume (cv_live (cond q)) BadMutex;;
  if e_signal env =? NGX_OK then
    modify_queue tp (set_cond (wake_one (e_wake env) (cond q)));; mret NGX_OK
  else mret (e_signal env).

(** The call of [ngx_thread_cond_wait] by [me]: the thread blocks and the mutex
    is released. *)
Definition cond_block (tp : option ptr) (me : tid) : M world () :=
  q ← load_queue tp;
  assume (cv_live (cond q)) BadMutex;;
  assume (bool_decide (mtx q = MtxHeld)) BadMutex;;
  modify_queue tp
    (λ q, set_mtx MtxFree
            (set_cond (Cond true (cv_waiters (cond q) ++ [me]) (cv_woken (cond q))) q)).

(** The return of [ngx_thread_cond_wait] in [me], which holds the mutex again. *)
Definition cond_resume (tp : option ptr) (me : tid) : M world () :=
  q ← load_queue tp;
  assume (bool_decide (me ∈ cv_woken (cond q))) BadMutex;;
  assume (bool_decide (mtx q = MtxFree)) Deadlock;;
  modify_queue tp
    (λ q, set_mtx MtxHeld
            (set_cond (Cond (cv_live (cond q)) (cv_waiters (cond q))
                            (filter (λ y, y ≠ me) (cv_woken (cond q)))) q)).

(** ** Creation and release of a queue *)

Definition zero_queue : ffi_task_queue_t :=
  FfiTaskQueue MtxDead (NgxTaskQueue None SNull) 0 (Cond false [] []) 0.

Definition ngx_calloc_queue (env : sysenv) : M world (option ptr) :=
  if e_calloc env then p ← alloc_queue zero_queue; mret (Some p) else mret None.

Definition ngx_http_lua_ffi_create_task_queue (env : sysenv) (max_queue : Z) : M world (option ptr) :=
  tp ← ngx_calloc_queue env;
  p ← from tp NullDeref;
  modify_queue tp (set_queue (λ _, ngx_task_queue_init (SQueueFirst p)));;
  rc ← mutex_create env tp;
  if negb (rc =? NGX_OK) then
    free_queue tp;; mret None
  else
  rc ← cond_create env tp;
  if negb (rc =? NGX_OK) then
    mutex_destroy tp;; free_queue tp;; mret None
  else
  modify_queue tp (set_max_queue max_queue);;
  mret tp.

Definition ngx_http_lua_ffi_free_task_queue (tp : option ptr) : M world () :=
  mutex_destroy tp;;
  cond_destroy tp;;
  free_queue tp.

(** ** Posting *)

Definition ngx_task_post (env : sysenv) (tp task : option ptr) : M world Z :=
  t ← load_task task;
  if negb (ev_active (t_event t) =? 0) then
    observe (CLogActive (t_id t));;
    mret NGX_ERROR
  else
  rc ← mutex_lock env tp;
  if negb (rc =? NGX_OK) then mret NGX_ERROR else
  q ← load_queue tp;
  if bool_decide (is_Some (t_ctx t)) && (max_queue q <=? waiting q) then
    mutex_unlock env tp;;
    q ← load_queue tp;
    observe (CLogOverflow (waiting q));;
    mret NGX_ERROR
  else
  modify_task task (set_t_event (set_ev_active 1));;
  modify_task task (set_t_id 0);;
  modify_task task (set_t_next None);;
  rc ← cond_signal env tp;
  if negb (rc =? NGX_OK) then
    mutex_unlock env tp;;
    mret NGX_ERROR
  else
  queue_append tp task;;
  modify_queue tp (λ q, set_waiting (waiting q + 1) q);;
  mutex_unlock env tp;;
  mret NGX_OK.

Definition ngx_http_lua_ffi_task_post (env : sysenv) (r : rid) (tp req : option ptr) (req_len : Z) : M world Z :=
  task ← ngx_http_lua_ffi_create_task env r;
  t ← load_task task;
  let ctx := t_ctx t in
  modify_ctx ctx (set_req req req_len);;
  rc ← ngx_task_post env tp task;
  if negb (rc =? NGX_OK) then
    ngx_http_lua_ffi_task_free ctx;;
    mret NGX_ERROR
  else mret NGX_OK.

(** The finish marker: a task without context. *)
Definition ngx_http_lua_ffi_task_finish (env : sysenv) (tp : option ptr) : M world Z :=
  task ← ngx_calloc_task env false;
  rc ← ngx_task_post env tp task;
  if negb (rc =? NGX_OK) then
    free_task task;;
    mret NGX_ERROR
  else mret NGX_OK.

(** ** Polling *)

(** [task_poll] returned a task or NULL, or its thread is blocked. *)
Inductive poll_res := PReturn (task : option ptr) | PBlocked.

(** After the wait loop: unlink the first task; the finish marker closes the
    queue. *)
Definition task_poll_take (env : sysenv) (tp : option ptr) : M world poll_res :=
  task ← queue_take tp;
  rc ← mutex_unlock env tp;
  if negb (rc =? NGX_OK) then mret (PReturn None) else
  t ← load_task task;
  match t_ctx t with
  | Some _ => mret (PReturn task)
  | None =>
      free_task task;;
      ngx_http_lua_ffi_free_task_queue tp;;
      mret (PReturn None)
  end.

(** [while (tp->queue.first == NULL)], run with the mutex held: one test, and
    the wait when it succeeds. *)
Definition task_poll_loop (env : sysenv) (tp : option ptr) (me : tid) : M world poll_res :=
  q ← load_queue tp;
  match q_first (queue q) with
  | None =>
      if negb (e_wait env =? NGX_OK) then
        mutex_unlock env tp;;
        mret (PReturn None)
      else
      cond_block tp me;;
      mret PBlocked
  | Some _ => task_poll_take env tp
  end.

Definition task_poll_enter (env : sysenv) (tp : option ptr) (me : tid) : M world poll_res :=
  rc ← mutex_lock env tp;
  if negb (rc =? NGX_OK) then mret (PReturn None) else
  modify_queue tp (λ q, set_waiting (waiting q - 1) q);;
  task_poll_loop env tp me.

Definition task_poll_wake (env : sysenv) (tp : option ptr) (me : tid) : M world poll_res :=
  cond_resume tp me;;
  task_poll_loop env tp me.

(** ** Locking *)

(** The queue can be operated on: mutex free, condition live. *)
Record queue_ready (w : world) (tp : loc) (q : ffi_task_queue_t) : Prop := {
  qy_queue : queues w !! tp = Some q;
  qy_mtx : mtx q = MtxFree;
  qy_cond : cv_live (cond q) = true;
}.

Lemma mutex_lock_ok env w tp q :
  queues w !! tp = Some q → mtx q = MtxFree → e_lock env = NGX_OK →
  mutex_lock env (Some (Ptr tp 0)) w = Ok (NGX_OK, upd_queues (alter (set_mtx MtxHeld) tp) w).
Proof.
  intros Hq Hm He. unfold mutex_lock. run1. rewrite He, Hm. simpl. run.
Qed.

Lemma mutex_lock_err env w tp q :
  queues w !! tp = Some q → e_lock env ≠ NGX_OK →
  mutex_lock env (Some (Ptr tp 0)) w = Ok (e_lock env, w).
Proof.
  intros Hq He. unfold mutex_lock. run1.
  by rewrite (proj2 (Z.eqb_neq _ _) He).
Qed.

Lemma mutex_unlock_ok env w tp q :
  queues w !! tp = Some q → mtx q = MtxHeld → e_unlock env = NGX_OK →
  mutex_unlock env (Some (Ptr tp 0)) w = Ok (NGX_OK, upd_queues (alter (set_mtx MtxFree) tp) w).
Proof.
  intros Hq Hm He. unfold mutex_unlock. run1. rewrite He, Hm. simpl. run.
Qed.

Lemma cond_signal_ok env w tp q :
  queues w !! tp = Some q → cv_live (cond q) = true → e_signal env = NGX_OK →
  cond_signal env (Some (Ptr tp 0)) w =
    Ok (NGX_OK, upd_queues (alter (set_cond (wake_one (e_wake env) (cond q))) tp) w).
Proof.
  intros Hq Hm He. unfold cond_signal. run1. rewrite He, Hm. simpl. run.
Qed.

Lemma cond_signal_err env w tp q :
  queues w !! tp = Some q → cv_live (cond q) = true → e_signal env ≠ NGX_OK →
  cond_signal env (Some (Ptr tp 0)) w = Ok (e_signal env, w).
Proof.
  intros Hq Hm He. unfold cond_signal. run1. rewrite Hm. simpl.
  rewrite (proj2 (Z.eqb_neq _ _) He). run.
Qed.

(** ** Posting, on every branch *)

(** The fields [ngx_task_post] resets on the task. *)
Definition mark_active (t : ngx_thread_task_t) : ngx_thread_task_t :=
  NgxTask None 0 (t_ctx t) (set_ev_active 1 (t_event t)).

(** The queue after a successful post of [t] behind [l]. *)
Definition posted_queue (env : sysenv) (l : list loc) (t : loc) (q : ffi_task_queue_t) : ffi_task_queue_t :=
  FfiTaskQueue (mtx q) (appended l t (queue q)) (waiting q + 1)
               (wake_one (e_wake env) (cond q)) (max_queue q).

Definition overflowing (b : task_block) (q : ffi_task_queue_t) : bool :=
  bool_decide (is_Some (t_ctx (tb_task b))) && (max_queue q <=? waiting q).

(** What [ngx_task_post] does to the world, as one case analysis. *)
Definition post_result (env : sysenv) (tp t : loc) (l : list loc) (q : ffi_task_queue_t)
    (b : task_block) (w : world) : Z * world :=
  if negb (e_lock env =? NGX_OK) then (NGX_ERROR, w)
  else if overflowing b q then
    (NGX_ERROR, upd_calls (λ c, c ++ [CLogOverflow (waiting q)]) w)
  else if negb (e_signal env =? NGX_OK) then
    (NGX_ERROR, upd_tasks (alter (map_tb_task mark_active) t) w)
  else
    (NGX_OK, upd_queues (alter (posted_queue env l t) tp)
               (upd_tasks (λ m, link l t (alter (map_tb_task mark_active) t m)) w)).

Lemma ngx_task_post_run env w tp q l t b :
  queue_ready w tp q →
  queue_repr (tasks w) (SQueueFirst (Ptr tp 0)) (queue q) l →
  tasks w !! t = Some b → t ∉ l → ev_active (t_event (tb_task b)) = 0 →
  e_unlock env = NGX_OK →
  ngx_task_post env (Some (Ptr tp 0)) (Some (Ptr t 0)) w = Ok (post_result env tp t l q b w).
Proof.
  intros [Hq Hm Hc] Hr Hb Ht Ha Hu. unfold ngx_task_post, post_result.
  run1. rewrite Ha. simpl.
  destruct (e_lock env =? NGX_OK) eqn:El; simpl.
  2: { erewrite bind_ok; [|eapply mutex_lock_err; [done|by apply Z.eqb_neq]].
       apply Z.eqb_neq in El. by rewrite (proj2 (Z.eqb_neq _ _) El). }
  apply Z.eqb_eq in El.
  erewrite bind_ok; [|by eapply mutex_lock_ok]. simpl. run1. simpl.
  change (bool_decide (is_Some (t_ctx (tb_task b))) && (max_queue q <=? waiting q))
    with (overflowing b q).
  destruct (overflowing b q) eqn:Eo.
  { erewrite bind_ok; [|eapply mutex_unlock_ok; [lookup_tac|done|done]].
    rewrite upd_queues_alter2, (upd_queues_id _ _ q) by (done || by destruct q; simpl in *; subst).
    run. }
  run1. run1. run1. rewrite !upd_tasks_alter2.
  destruct (e_signal env =? NGX_OK) eqn:Es; simpl.
  2: { apply Z.eqb_neq in Es. erewrite bind_ok; [|eapply cond_signal_err; [lookup_tac|done|done]].
       rewrite (proj2 (Z.eqb_neq _ _) Es). simpl.
       erewrite bind_ok; [|eapply mutex_unlock_ok; [lookup_tac|done|done]].
       rewrite upd_queues_tasks, upd_queues_alter2, (upd_queues_id _ _ q)
         by (done || by destruct q; simpl in *; subst).
       run. }
  apply Z.eqb_eq in Es.
  erewrite bind_ok; [|eapply cond_signal_ok; [lookup_tac|done|done]]. simpl.
  erewrite bind_ok.
  2: { eapply (queue_append_run _ _ _ l); [lookup_tac| |lookup_tac].
       simpl. eapply queue_repr_frame; [|done]. by apply same_links_alter_ne. }
  run1. erewrite bind_ok; [|eapply mutex_unlock_ok; [lookup_tac|done|done]].
  run. f_equal. f_equal.
  rewrite !upd_queues_alter2, upd_queues_tasks, !upd_queues_alter2.
  rewrite upd_queues_tasks, !upd_queues_alter2, <-!upd_queues_tasks.
  rewrite upd_tasks_compose.
  rewrite !upd_queues_tasks. f_equal.
  eapply upd_queues_ext; [done|]. destruct q; simpl in *. by subst.
Qed.

(** ** Polling, on every branch *)

Definition blocked_queue (me : tid) (q : ffi_task_queue_t) : ffi_task_queue_t :=
  set_mtx MtxFree
    (set_cond (Cond true (cv_waiters (cond q) ++ [me]) (cv_woken (cond q))) q).

Definition taken_queue (hd : ngx_task_queue_t) (q : ffi_task_queue_t) : ffi_task_queue_t :=
  set_mtx MtxFree (set_queue (λ _, hd) q).

Lemma free_task_queue_run w tp q :
  queue_ready w tp q → cv_waiters (cond q) = [] →
  ngx_http_lua_ffi_free_task_queue (Some (Ptr tp 0)) w = Ok ((), upd_queues (delete tp) w).
Proof.
  intros [Hq Hm Hc] Hw.
  unfold ngx_http_lua_ffi_free_task_queue, mutex_destroy, cond_destroy.
  run. unfold upd_queues; simpl. by rewrite !delete_alter_eq.
Qed.

Section poll.
Context (env : sysenv) (w : world) (tp : loc) (me : tid) (q : ffi_task_queue_t).
Hypothesis Hunlock : e_unlock env = NGX_OK.
Hypothesis Hq : queues w !! tp = Some q.
Hypothesis Hm : mtx q = MtxHeld.
Hypothesis Hlive : cv_live (cond q) = true.

Lemma task_poll_loop_empty :
  q_first (queue q) = None →
  task_poll_loop env (Some (Ptr tp 0)) me w =
    Ok (if negb (e_wait env =? NGX_OK)
        then (PReturn None, upd_queues (alter (set_mtx MtxFree) tp) w)
        else (PBlocked, upd_queues (alter (blocked_queue me) tp) w)).
Proof using Type*.
  intros Hf. unfold task_poll_loop. run1. rewrite Hf.
  destruct (e_wait env =? NGX_OK); simpl.
  - unfold cond_block. run1. run1. rewrite Hlive, Hm. simpl. run.
  - erewrite bind_ok; [|by eapply mutex_unlock_ok]. run.
Qed.

Lemma task_poll_loop_task t l b p :
  queue_repr (tasks w) (SQueueFirst (Ptr tp 0)) (queue q) (t :: l) →
  tasks w !! t = Some b → t_ctx (tb_task b) = Some p →
  ∃ hd,
    task_poll_loop env (Some (Ptr tp 0)) me w =
      Ok (PReturn (Some (Ptr t 0)), upd_queues (alter (taken_queue hd) tp) w) ∧
    queue_repr (tasks w) (SQueueFirst (Ptr tp 0)) hd l.
Proof using Type*.
  intros Hr Hb Hp. destruct (queue_take_run w tp q t l Hq Hr) as (hd & Htake & Hr').
  exists hd. split; [|done]. destruct Hr as [[Hf _] _ _].
  unfold task_poll_loop. run1. rewrite Hf. unfold task_poll_take.
  erewrite bind_ok; [|exact Htake].
  erewrite bind_ok; [|eapply mutex_unlock_ok; [lookup_tac|done|done]].
  simpl. rewrite upd_queues_alter2. run1. rewrite Hp. run.
Qed.

Lemma task_poll_loop_finish t l b :
  queue_repr (tasks w) (SQueueFirst (Ptr tp 0)) (queue q) (t :: l) →
  tasks w !! t = Some b → t_ctx (tb_task b) = None →
  cv_waiters (cond q) = [] →
  task_poll_loop env (Some (Ptr tp 0)) me w =
    Ok (PReturn None, upd_queues (delete tp) (upd_tasks (delete t) w)).
Proof using Type*.
  intros Hr Hb Hp Hw. destruct (queue_take_run w tp q t l Hq Hr) as (hd & Htake & Hr').
  destruct Hr as [[Hf _] _ _].
  unfold task_poll_loop. run1. rewrite Hf. unfold task_poll_take.
  erewrite bind_ok; [|exact Htake].
  erewrite bind_ok; [|eapply mutex_unlock_ok; [lookup_tac|done|done]].
  simpl. rewrite upd_queues_alter2. run1. rewrite Hp. run1.
  erewrite bind_ok.
  2: { eapply free_task_queue_run; [split; [lookup_tac|done..]|done]. }
  run. unfold upd_queues, upd_tasks; simpl. by rewrite delete_alter_eq.
Qed.
End poll.

(** Entering: the mutex is taken and [waiting] goes down before the loop. *)
Definition entered_queue (q : ffi_task_queue_t) : ffi_task_queue_t :=
  set_waiting (waiting q - 1) (set_mtx MtxHeld q).

Lemma task_poll_enter_run env w tp me q :
  queue_ready w tp q →
  task_poll_enter env (Some (Ptr tp 0)) me w =
    if negb (e_lock env =? NGX_OK) then Ok (PReturn None, w)
    else task_poll_loop env (Some (Ptr tp 0)) me (upd_queues (alter entered_queue tp) w).
Proof.
  intros [Hq Hm Hc]. unfold task_poll_enter.
  destruct (e_lock env =? NGX_OK) eqn:El; simpl.
  - apply Z.eqb_eq in El. erewrite bind_ok; [|by eapply mutex_lock_ok].
    simpl. run1. rewrite upd_queues_alter2. done.
  - apply Z.eqb_neq in El. erewrite bind_ok; [|by eapply mutex_lock_err].
    by rewrite (proj2 (Z.eqb_neq _ _) El).
Qed.

(** Waking: the woken thread holds the mutex again. *)
Definition resumed_queue (me : tid) (q : ffi_task_queue_t) : ffi_task_queue_t :=
  set_mtx MtxHeld
    (set_cond (Cond (cv_live (cond q)) (cv_waiters (cond q))
                    (filter (λ y, y ≠ me) (cv_woken (cond q)))) q).

Lemma task_poll_wake_run env w tp me q :
  queue_ready w tp q → me ∈ cv_woken (cond q) →
  task_poll_wake env (Some (Ptr tp 0)) me w =
    task_poll_loop env (Some (Ptr tp 0)) me (upd_queues (alter (resumed_queue me) tp) w).
Proof.
  intros [Hq Hm Hc] Hin. unfold task_poll_wake, cond_resume.
  run. 
Qed.

(** ** Posting from Lua *)

(** The task of a request, as [ngx_http_lua_ffi_task_post] hands it over. *)
Definition posted_block (c : cid) (l : loc) (req : option ptr) (len : Z) : task_block :=
  TaskBlock (tb_task (created_block (Some c) l)) (Some (FfiCtx (Some c) 0 req len None 0 0)).

(** The reasons for refusing a task with a context. *)
Definition refused (env : sysenv) (q : ffi_task_queue_t) : bool :=
  negb (e_lock env =? NGX_OK) || (max_queue q <=? waiting q) || negb (e_signal env =? NGX_OK).

Definition refusal_log (env : sysenv) (q : ffi_task_queue_t) : list call :=
  if (e_lock env =? NGX_OK) && (max_queue q <=? waiting q) then [CLogOverflow (waiting q)] else [].

(** What the calling coroutine and its request have to look like. *)
Record poster (w : world) (r : rid) (c : cid) : Prop := {
  po_req : ∃ x lc, reqs w !! r = Some x ∧ r_ctx x = Some lc ∧ cur_co_ctx lc = Some c;
  po_co : is_Some (cos w !! c);
}.

Lemma post_result_marked env tp t l q b w :
  post_result env tp t l q b (upd_tasks <[t := b]> w) =
    if negb (e_lock env =? NGX_OK) then (NGX_ERROR, upd_tasks <[t := b]> w)
    else if overflowing b q then
      (NGX_ERROR, upd_calls (λ c, c ++ [CLogOverflow (waiting q)]) (upd_tasks <[t := b]> w))
    else if negb (e_signal env =? NGX_OK) then
      (NGX_ERROR, upd_tasks <[t := map_tb_task mark_active b]> w)
    else
      (NGX_OK, upd_queues (alter (posted_queue env l t) tp)
                 (upd_tasks (λ m, link l t (<[t := map_tb_task mark_active b]> m)) w)).
Proof.
  unfold post_result. rewrite upd_tasks_compose.
  replace (alter (map_tb_task mark_active) t (tasks (upd_tasks <[t:=b]> w)))
    with (<[t := map_tb_task mark_active b]> (tasks w)) by (simpl; by rewrite alter_insert_eq).
  repeat case_match; try done; unfold upd_tasks, upd_queues; simpl; by rewrite alter_insert_eq.
Qed.

Section task_post.
Context (env : sysenv) (w : world) (r : rid) (c : cid) (tp : loc) (q : ffi_task_queue_t).
Context (l : list loc) (req : option ptr) (len : Z).
Hypothesis Halloc : e_calloc env = true.
Hypothesis Hunlock : e_unlock env = NGX_OK.
Hypothesis Hpo : poster w r c.
Hypothesis Hready : queue_ready w tp q.
Hypothesis Hrepr : queue_repr (tasks w) (SQueueFirst (Ptr tp 0)) (queue q) l.
Hypothesis Hfresh : tasks w !! brk w = None.
Hypothesis Hreq : buf_live (bufs w) req.

(** The world once the task is created and linked to the coroutine. *)
Definition after_create : world := upd_cos (alter (armed (brk w)) c) (upd_brk S w).

Lemma fresh_not_queued : brk w ∉ l.
Proof using Hrepr Hfresh.
  intros Hin. destruct (queue_repr_live _ _ _ _ _ Hrepr Hin) as [b Hb]. congruence.
Qed.

Lemma task_post_split :
  ngx_http_lua_ffi_task_post env r (Some (Ptr tp 0)) req len w =
    (let b := posted_block c (brk w) req len in
     let res := post_result env tp (brk w) l q b (upd_tasks <[brk w := b]> after_create) in
     if res.1 =? NGX_OK then Ok (NGX_OK, res.2)
     else Ok (NGX_ERROR, upd_tasks (delete (brk w)) (upd_bufs (drop_buf req) res.2))).
Proof using Type*.
  destruct Hpo as [(x & lc & Hr & Hx & Hc) [y Hy]].
  unfold ngx_http_lua_ffi_task_post.
  erewrite bind_ok; [|by eapply create_task_run].
  run1. simpl.
  erewrite bind_ok; [|eapply modify_ctx_ok; simpl; [by rewrite lookup_insert_eq|done]].
  rewrite upd_tasks_cos, upd_tasks_insert_alter.
  set (b := posted_block c (brk w) req len).
  change (map_tb_ctx (set_req req len) (created_block (Some c) (brk w))) with b.
  change (upd_cos ?f (upd_tasks ?g (upd_brk S w)))
    with (upd_tasks <[brk w := b]> after_create).
  erewrite bind_ok_pair.
  2: { eapply (ngx_task_post_run _ _ _ q l).
       - destruct Hready. by split.
       - simpl. eapply queue_repr_frame; [|done].
         apply same_links_insert_ne, fresh_not_queued.
       - simpl. by rewrite lookup_insert_eq.
       - apply fresh_not_queued.
       - done.
       - done. }
  pose proof (post_result_marked env tp (brk w) l q b after_create) as Hres.
  destruct (post_result _ _ _ _ _ _ _) as [rc w'] eqn:E. simpl.
  destruct (rc =? NGX_OK) eqn:Erc; simpl; [done|].
  assert (∃ b', tasks w' !! brk w = Some b' ∧ tb_ctx b' = tb_ctx b ∧ bufs w' = bufs w)
    as (b' & Hb' & Hcx & Hbufs).
  { revert Hres. repeat case_match; intros [= -> ->]; try done;
      eexists; (split; [simpl; by rewrite lookup_insert_eq|done]). }
  erewrite bind_ok.
  2: { eapply task_free_run; [done|by rewrite Hcx|].
       simpl. split; simpl; [by rewrite Hbufs|done|done]. }
  done.
Qed.

Lemma task_post_accepted :
  refused env q = false →
  ngx_http_lua_ffi_task_post env r (Some (Ptr tp 0)) req len w =
    Ok (NGX_OK,
        upd_queues (alter (posted_queue env l (brk w)) tp)
          (upd_tasks (λ m, link l (brk w)
             (<[brk w := map_tb_task mark_active (posted_block c (brk w) req len)]> m))
             after_create)).
Proof using Type*.
  unfold refused. intros [[El Eo]%orb_false_iff Es]%orb_false_iff.
  rewrite task_post_split. simpl. rewrite post_result_marked.
  rewrite El. unfold overflowing. rewrite Eo, Es, andb_false_r. done.
Qed.

(** A refused request leaves neither the task nor the request buffer, but the
    coroutine context keeps the cleanup handler. *)
Lemma task_post_refused :
  refused env q = true →
  ngx_http_lua_ffi_task_post env r (Some (Ptr tp 0)) req len w =
    Ok (NGX_ERROR,
        upd_calls (λ k, k ++ refusal_log env q) (upd_bufs (drop_buf req) after_create)).
Proof using Type*.
  intros Hrf. rewrite task_post_split. simpl. rewrite post_result_marked.
  unfold refused, refusal_log, overflowing in *. simpl.
  assert (∀ b, upd_tasks (delete (brk w)) (upd_bufs (drop_buf req) (upd_tasks <[brk w := b]> after_create))
            = upd_bufs (drop_buf req) after_create) as Hback.
  { intros b. unfold after_create, upd_cos, upd_brk, upd_tasks, upd_bufs; simpl. by rewrite delete_insert_id. }
  assert (∀ w' : world, upd_calls (λ k, k ++ []) w' = w') as Hnil.
  { intros []. unfold upd_calls; simpl. by rewrite app_nil_r. }
  destruct (e_lock env =? NGX_OK); simpl in *.
  2: { by rewrite Hback, Hnil. }
  destruct (max_queue q <=? waiting q); simpl in *.
  { f_equal. f_equal. by rewrite <-(Hback (posted_block c (brk w) req len)). }
  destruct (e_signal env =? NGX_OK); simpl in *; [done|].
  by rewrite Hback, Hnil.
Qed.
End task_post.

(** ** The finish marker *)

Definition finish_block : task_block := TaskBlock (mark_active zero_task) None.

Lemma task_finish_run env w tp q l :
  e_calloc env = true → e_unlock env = NGX_OK →
  queue_ready w tp q →
  queue_repr (tasks w) (SQueueFirst (Ptr tp 0)) (queue q) l →
  tasks w !! brk w = None →
  ngx_http_lua_ffi_task_finish env (Some (Ptr tp 0)) w =
    if (e_lock env =? NGX_OK) && (e_signal env =? NGX_OK) then
      Ok (NGX_OK,
          upd_queues (alter (posted_queue env l (brk w)) tp)
            (upd_tasks (λ m, link l (brk w) (<[brk w := finish_block]> m)) (upd_brk S w)))
    else Ok (NGX_ERROR, upd_brk S w).
Proof.
  intros Ha Hu Hready Hrepr Hfresh.
  assert (brk w ∉ l) as Hnl by by eapply fresh_not_queued.
  unfold ngx_http_lua_ffi_task_finish, ngx_calloc_task. rewrite Ha. simpl.
  run. change (upd_brk S (upd_tasks ?f w)) with (upd_tasks f (upd_brk S w)).
  erewrite bind_ok_pair.
  2: { eapply (ngx_task_post_run _ _ _ q l).
       - destruct Hready. by split.
       - simpl. eapply queue_repr_frame; [|done]. by apply same_links_insert_ne.
       - simpl. by rewrite lookup_insert_eq.
       - done.
       - done.
       - done. }
  rewrite post_result_marked. unfold overflowing. simpl.
  assert (∀ b, upd_tasks (delete (brk w)) (upd_tasks <[brk w := b]> (upd_brk S w)) = upd_brk S w) as Hback.
  { intros b. destruct w; unfold upd_tasks, upd_brk; simpl in *. by rewrite delete_insert_id. }
  destruct (e_lock env =? NGX_OK); simpl.
  2: { erewrite bind_ok; [|eapply free_task_ok; simpl; by rewrite lookup_insert_eq].
       by rewrite Hback. }
  destruct (e_signal env =? NGX_OK); simpl; [done|].
  erewrite bind_ok; [|eapply free_task_ok; simpl; by rewrite lookup_insert_eq].
  by rewrite Hback.
Qed.

(** ** Creation, on every branch *)

(** A queue as [ngx_http_lua_ffi_create_task_queue] returns it. *)
Definition fresh_queue (tp : loc) (max : Z) : ffi_task_queue_t :=
  FfiTaskQueue MtxFree (ngx_task_queue_init (SQueueFirst (Ptr tp 0))) 0 (Cond true [] []) max.

Lemma upd_queues_insert_alter f tp q w :
  upd_queues (alter f tp) (upd_queues <[tp := q]> w) = upd_queues <[tp := f q]> w.
Proof. unfold upd_queues; simpl. by rewrite alter_insert_eq. Qed.

Lemma upd_queues_insert_delete w tp q :
  queues w !! tp = None → upd_queues (λ m, delete tp (<[tp := q]> m)) w = w.
Proof. intros Hn. destruct w; unfold upd_queues; simpl in *. by rewrite delete_insert_id. Qed.

Section create_queue.
Context (env : sysenv) (max : Z) (w : world).
Hypothesis Halloc : e_calloc env = true.
Hypothesis Hfresh : queues w !! brk w = None.

Let p := Some (Ptr (brk w) 0).
(** The world while the new queue holds [q]. *)
Let creating (q : ffi_task_queue_t) : world := upd_queues <[brk w := q]> (upd_brk S w).

Lemma creating_lookup q : queues (creating q) !! brk w = Some q.
Proof using Type. simpl. by rewrite lookup_insert_eq. Qed.

Lemma creating_modify q f : modify_queue p f (creating q) = Ok ((), creating (f q)).
Proof using Type.
  unfold p. erewrite modify_queue_ok by apply creating_lookup. unfold creating.
  by rewrite upd_queues_insert_alter.
Qed.

Lemma creating_free q : free_queue p (creating q) = Ok ((), upd_brk S w).
Proof using Hfresh.
  unfold p. erewrite free_queue_ok by apply creating_lookup. unfold creating.
  f_equal. f_equal. by apply (upd_queues_insert_delete (upd_brk S w)).
Qed.

Lemma creating_mutex q :
  mutex_create env p (creating q) =
    Ok (if e_mutex_create env =? NGX_OK then (NGX_OK, creating (set_mtx MtxFree q))
        else (e_mutex_create env, creating q)).
Proof using Type.
  unfold mutex_create. case_match; [|done]. by erewrite bind_ok; [|apply creating_modify].
Qed.

Lemma creating_cond q :
  cond_create env p (creating q) =
    Ok (if e_cond_create env =? NGX_OK then (NGX_OK, creating (set_cond (Cond true [] []) q))
        else (e_cond_create env, creating q)).
Proof using Type.
  unfold cond_create. case_match; [|done]. by erewrite bind_ok; [|apply creating_modify].
Qed.

Lemma creating_destroy q :
  mtx q = MtxFree → mutex_destroy p (creating q) = Ok ((), creating (set_mtx MtxDead q)).
Proof using Type.
  intros Hm. unfold mutex_destroy, p.
  erewrite bind_ok; [|eapply load_queue_ok, creating_lookup]. rewrite Hm.
  erewrite bind_ok; [|by apply assume_run]. apply creating_modify.
Qed.

(** Every failing path gives the memory back. *)
Lemma create_task_queue_run :
  ngx_http_lua_ffi_create_task_queue env max w =
    Ok (if (e_mutex_create env =? NGX_OK) && (e_cond_create env =? NGX_OK)
        then (p, creating (fresh_queue (brk w) max))
        else (None, upd_brk S w)).
Proof using Halloc Hfresh.
  unfold ngx_http_lua_ffi_create_task_queue, ngx_calloc_queue. rewrite Halloc.
  erewrite bind_ok; [|erewrite bind_ok; [|apply alloc_queue_ok]; apply ret_run].
  erewrite bind_ok; [|apply ret_run]. fold p.
  change (upd_brk S (upd_queues _ w)) with (creating zero_queue).
  erewrite bind_ok; [|apply creating_modify].
  erewrite bind_ok_pair; [|apply creating_mutex].
  destruct (e_mutex_create env =? NGX_OK) eqn:Em; simpl.
  2: { rewrite Em. simpl. by erewrite bind_ok; [|apply creating_free]. }
  erewrite bind_ok_pair; [|apply creating_cond].
  destruct (e_cond_create env =? NGX_OK) eqn:Ec; simpl.
  2: { rewrite Ec. simpl. erewrite bind_ok; [|by apply creating_destroy].
       by erewrite bind_ok; [|apply creating_free]. }
  by erewrite bind_ok; [|apply creating_modify].
Qed.
End create_queue.
