(* ===== verification/EventHandler.v ===== *)
(** * EventHandler: delivering a response to the waiting coroutine

    [ngx_http_lua_ffi_event_handler] and [ngx_http_lua_ffi_resume] of
    ngx_http_lua_ffi.c, run in nginx's event loop.  The entry points of
    lua-nginx-module and nginx they call are the operations of the class
    [NgxLua]; the laws a client may rely on are in [NgxLuaLaws]. *)

From S2P Require Import Prelude World TaskQueue FfiTask.

(** ** Functions of nginx and lua-nginx-module *)

Class NgxLua := {
  ngx_http_lua_run_thread : rid → nat → M world Z;
  ngx_http_lua_run_posted_threads : rid → M world Z;
  ngx_http_lua_finalize_request : rid → Z → M world ();
  ngx_http_core_run_phases : rid → M world ();
  ngx_http_run_posted_requests : nat → M world ();
}.

(** ** Pushing values on a Lua stack (Lua C API) *)

(** The bytes of a C string: up to the first NUL, if there is one. *)
Fixpoint c_str (b : list byte) : option (list byte) :=
  match b with
  | [] => None
  | x :: b' => if Byte.eqb x x00 then Some [] else cons x <$> c_str b'
  end.

(** A string up to its first NUL, as C sees it. *)
Definition before_nul (s : list byte) : list byte := default s (c_str s).

Lemma c_str_nul s : c_str (s ++ [x00]) = Some (before_nul s).
Proof.
  unfold before_nul. induction s as [|x s IH]; simpl; [done|]. destruct (Byte.eqb x x00); [done|].
  rewrite IH. by destruct (c_str s).
Qed.

Lemma before_nul_id s : x00 ∉ s → before_nul s = s.
Proof.
  unfold before_nul. induction s as [|x s IH]; simpl; [done|].
  intros [Hx Hs]%not_elem_of_cons. destruct (Byte.eqb x x00) eqn:E; [by apply Byte.byte_dec_bl in E|].
  specialize (IH Hs). destruct (c_str s); simpl in *; congruence.
Qed.

Lemma before_nul_no_nul s : x00 ∉ before_nul s.
Proof.
  unfold before_nul. induction s as [|x s IH]; simpl; [apply not_elem_of_nil|].
  destruct (Byte.eqb x x00) eqn:E; simpl; [apply not_elem_of_nil|].
  assert (x00 ≠ x) as Hx by (intros <-; discriminate). destruct (c_str s); simpl; by apply not_elem_of_cons.
Qed.

Lemma before_nul_idem s : before_nul (before_nul s) = before_nul s.
Proof. apply before_nul_id, before_nul_no_nul. Qed.

(** An [int] passed where a [size_t] is expected. *)
Definition size_of_int (n : Z) : Z := n mod 2 ^ 64.

Definition lua_push (L : lid) (v : lua_value) : M world () := modify_thread L (push v).

Definition lua_pushlstring (L : lid) (s : option ptr) (len : Z) : M world () :=
  b ← load_bytes s;
  assume (size_of_int len <=? Z.of_nat (length b)) OutOfBounds;;
  lua_push L (LStr (take (Z.to_nat (size_of_int len)) b)).

Definition lua_pushstring (L : lid) (s : option ptr) : M world () :=
  b ← load_bytes s;
  v ← from (c_str b) OutOfBounds;
  lua_push L (LStr v).

Definition ngx_http_lua_get_req (L : lid) : M world (option rid) :=
  t ← load_thread L; mret (l_req t).

Section handlers.
Context {ops : NgxLua}.

(** ** Resuming a request *)

Definition ngx_http_lua_ffi_resume (r : rid) : M world Z :=
  ctx ← ngx_http_get_module_ctx r;
  match ctx with
  | None => mret NGX_ERROR
  | Some _ =>
      modify_lua_ctx r (set_resume_handler HWevHandler);;
      rc ← ngx_http_lua_run_thread r 3;
      if rc =? NGX_AGAIN then ngx_http_lua_run_posted_threads r
      else if rc =? NGX_DONE then
        ngx_http_lua_finalize_request r NGX_DONE;;
        ngx_http_lua_run_posted_threads r
      else
      ctx ← ngx_http_get_module_ctx r;
      ctx ← from ctx NullDeref;
      if entered_content_phase ctx then
        ngx_http_lua_finalize_request r rc;;
        mret NGX_DONE
      else mret rc
  end.

(** ** The event handler *)

(** The values the waiting [call] returns: [true, rsp, nil] or
    [false, rc, rsp]. *)
Definition push_results (L : lid) (c : ffi_task_ctx_t) : M world () :=
  lua_push L (LBool (c_rc c =? 0));;
  (if c_rc c =? 0 then mret () else lua_push L (LInt (c_rc c)));;
  (match c_rsp c with
   | Some _ =>
       if c_rsp_len c =? 0 then lua_pushstring L (c_rsp c)
       else lua_pushlstring L (c_rsp c) (c_rsp_len c)
   | None => lua_push L LNil
   end);;
  (if c_rc c =? 0 then lua_push L LNil else mret ()).

(** From the pushes to the release of the task. *)
Definition deliver (ffi_ctx : option ptr) (L : lid) (r : rid) : M world () :=
  c ← load_ctx ffi_ctx;
  push_results L c;;
  modify_lua_ctx r (set_cur_co_ctx (c_wait_co_ctx c));;
  modify_co (c_wait_co_ctx c) (set_cleanup None);;
  ngx_http_lua_ffi_task_free ffi_ctx.

(** From the release of the task on: Lua and nginx take over. *)
Definition resume_caller (r : rid) (conn : nat) (entered : bool) : M world () :=
  (if entered then
     _ ← ngx_http_lua_ffi_resume r; mret ()
   else
     modify_lua_ctx r (set_resume_handler HFfiResume);;
     ngx_http_core_run_phases r);;
  ngx_http_run_posted_requests conn.

(** [ev] is named by the task it is embedded in. *)
Definition ngx_http_lua_ffi_event_handler (ev : option ptr) : M world () :=
  t ← load_task ev;
  let ffi_ctx := ev_data (t_event t) in
  let failed := ngx_http_lua_ffi_task_free ffi_ctx in
  c ← load_ctx ffi_ctx;
  if negb (c_is_abort c =? 0) then failed else
  x ← load_co (c_wait_co_ctx c);
  let L := co x in
  r ← ngx_http_lua_get_req L;
  match r with
  | None => failed
  | Some r =>
      conn ← r_get_connection r;
      ctx ← ngx_http_get_module_ctx r;
      match ctx with
      | None => failed
      | Some ctx =>
          deliver ffi_ctx L r;;
          resume_caller r conn (entered_content_phase ctx)
      end
  end.

End handlers.

(** ** What the callers of Lua may rely on *)

(** A live task that was not aborted waits to resume coroutine [c]. *)
Definition awaited (w : world) (c : cid) : Prop :=
  ∃ t b x, tasks w !! t = Some b ∧ tb_ctx b = Some x ∧
           c_wait_co_ctx x = Some c ∧ c_is_abort x = 0.

(** The Lua thread of [x] exists, and so does the request it belongs to. *)
Definition live_thread (w : world) (x : co_ctx) : Prop :=
  ∃ t, threads w !! co x = Some t ∧ ∀ r, l_req t = Some r → is_Some (reqs w !! r).

(** nginx and Lua leave the program's blocks and queues alone, and do not touch
    a coroutine that is waiting for a task.  (Posts and kills that Lua code
    performs while it runs are steps of their own.) *)
Record lua_frame (w w' : world) : Prop := {
  lf_tasks : tasks w' = tasks w;
  lf_bufs : bufs w' = bufs w;
  lf_queues : queues w' = queues w;
  lf_brk : brk w' = brk w;
  lf_done : pool_done w' = pool_done w;
  lf_lock : done_lock w' = done_lock w;
  lf_co : ∀ c x, awaited w c → cos w !! c = Some x → live_thread w x →
                 cos w' !! c = Some x ∧ live_thread w' x;
}.

Definition total_frame {A} (m : M world A) : Prop :=
  ∀ w, ∃ a w', m w = Ok (a, w') ∧ lua_frame w w'.

Class NgxLuaLaws (ops : NgxLua) : Prop := {
  run_thread_law r n w : ∃ rc w',
    ngx_http_lua_run_thread r n w = Ok (rc, w') ∧ lua_frame w w' ∧
    (* a request is only finalized by the caller on these results *)
    (rc ≠ NGX_AGAIN → rc ≠ NGX_DONE → ∃ x lc, reqs w' !! r = Some x ∧ r_ctx x = Some lc);
  run_posted_threads_law r : total_frame (ngx_http_lua_run_posted_threads r);
  finalize_request_law r rc : total_frame (ngx_http_lua_finalize_request r rc);
  run_phases_law r : total_frame (ngx_http_core_run_phases r);
  run_posted_requests_law c : total_frame (ngx_http_run_posted_requests c);
}.

#[global] Instance lua_frame_refl : Reflexive lua_frame.
Proof. intros w. split; try done. Qed.

Lemma awaited_frame w w' c : tasks w' = tasks w → awaited w c → awaited w' c.
Proof. unfold awaited. by intros ->. Qed.

#[global] Instance lua_frame_trans : Transitive lua_frame.
Proof.
  intros w1 w2 w3 [] []. split; try congruence.
  intros c x Ha Hx Ht. destruct (lf_co0 c x Ha Hx Ht) as [Hx2 Ht2].
  apply lf_co1; [by eapply awaited_frame|done|done].
Qed.

Lemma total_frame_ret {A} (a : A) : total_frame (mret a).
Proof. intros w. by exists a, w. Qed.

Lemma total_frame_bind {A B} (m : M world A) (k : A → M world B) :
  total_frame m → (∀ a, total_frame (k a)) → total_frame (m ≫= k).
Proof.
  intros Hm Hk w. destruct (Hm w) as (a & w' & H1 & F1).
  destruct (Hk a w') as (b & w'' & H2 & F2).
  exists b, w''. split; [by rewrite (bind_ok _ _ _ _ _ H1)|by etrans].
Qed.

#[export] Hint Resolve total_frame_ret run_posted_threads_law finalize_request_law
  run_phases_law run_posted_requests_law : ffi.

(** Reading a request's context changes nothing; storing its resume handler
    keeps every request. *)
Lemma modify_lua_ctx_frame w r x lc f :
  reqs w !! r = Some x → r_ctx x = Some lc →
  ∃ w', modify_lua_ctx r f w = Ok ((), w') ∧ lua_frame w w'.
Proof.
  intros Hx Hc. eexists. split; [by eapply modify_lua_ctx_ok|].
  split; try done. intros c y _ Hy (t & Ht & Hr). split; [done|].
  exists t. split; [done|]. intros r' Hr'. destruct (Hr r' Hr') as [z Hz]. simpl.
  rewrite lookup_alter. case_decide; [subst; rewrite Hz|]; by eexists.
Qed.

Section handler_facts.
Context {ops : NgxLua} {laws : NgxLuaLaws ops}.

(** [ngx_http_lua_ffi_resume] returns, whatever the Lua code returned. *)
Lemma resume_total w r x lc :
  reqs w !! r = Some x → r_ctx x = Some lc →
  ∃ rc w', ngx_http_lua_ffi_resume r w = Ok (rc, w') ∧ lua_frame w w'.
Proof using laws.
  intros Hx Hc. unfold ngx_http_lua_ffi_resume.
  erewrite bind_ok; [|by eapply get_module_ctx_ok]. rewrite Hc.
  destruct (modify_lua_ctx_frame w r x lc (set_resume_handler HWevHandler) Hx Hc)
    as (w1 & H1 & F1). rewrite (bind_ok _ _ _ _ _ H1).
  destruct (run_thread_law r 3 w1) as (rc & w2 & H2 & F2 & Hctx).
  rewrite (bind_ok _ _ _ _ _ H2).
  assert (lua_frame w w2) as F12 by by etrans.
  assert (∀ {A} (m : M world A), total_frame m →
    ∃ a w', m w2 = Ok (a, w') ∧ lua_frame w w') as Hgo.
  { intros A m Hm. destruct (Hm w2) as (a & w3 & H3 & F3).
    exists a, w3. split; [done|by etrans]. }
  destruct (rc =? NGX_AGAIN) eqn:Ea; [eauto with ffi|].
  destruct (rc =? NGX_DONE) eqn:Ed.
  { apply Hgo, total_frame_bind; auto with ffi. }
  apply Z.eqb_neq in Ea, Ed. destruct (Hctx Ea Ed) as (x2 & lc2 & Hx2 & Hc2).
  erewrite bind_ok; [|by eapply get_module_ctx_ok]. rewrite Hc2. simpl.
  erewrite bind_ok; [|apply ret_run].
  destruct (entered_content_phase lc2); [|by eexists _, _].
  apply Hgo, total_frame_bind; auto with ffi.
Qed.

(** What comes after the delivery returns, and leaves the program's blocks,
    queues and waiting coroutines alone. *)
Lemma resume_caller_total w r x lc conn entered :
  reqs w !! r = Some x → r_ctx x = Some lc →
  ∃ w', resume_caller r conn entered w = Ok ((), w') ∧ lua_frame w w'.
Proof using laws.
  intros Hx Hc. unfold resume_caller.
  assert (∃ w2, (if entered then _ ← ngx_http_lua_ffi_resume r; mret ()
         else modify_lua_ctx r (set_resume_handler HFfiResume);; ngx_http_core_run_phases r) w
         = Ok ((), w2) ∧ lua_frame w w2) as (w2 & H2 & F2).
  { destruct entered.
    - destruct (resume_total w r x lc Hx Hc) as (rc & w2 & H2 & F2).
      exists w2. by rewrite (bind_ok _ _ _ _ _ H2).
    - destruct (modify_lua_ctx_frame w r x lc (set_resume_handler HFfiResume) Hx Hc)
        as (w2 & H2 & F2).
      destruct (run_phases_law r w2) as ([] & w3 & H3 & F3).
      exists w3. rewrite (bind_ok _ _ _ _ _ H2). split; [done|by etrans]. }
  rewrite (bind_ok _ _ _ _ _ H2).
  destruct (run_posted_requests_law conn w2) as ([] & w3 & H3 & F3).
  exists w3. split; [done|by etrans].
Qed.
End handler_facts.

(** ** The values a coroutine is resumed with *)

(** The Lua value of a response, when its buffer is as long as it claims. *)
Definition rsp_value (m : gmap loc (list byte)) (rsp : option ptr) (len : Z) : option lua_value :=
  match rsp with
  | None => Some LNil
  | Some p =>
      if negb (p_off p =? 0) then None else
      b ← m !! p_blk p;
      if len =? 0 then LStr <$> c_str b
      else if size_of_int len <=? Z.of_nat (length b)
           then Some (LStr (take (Z.to_nat (size_of_int len)) b)) else None
  end.

(** The three results of [runtime:call(req)]. *)
Definition call_results (rc : Z) (v : lua_value) : list lua_value :=
  if rc =? 0 then [LBool true; v; LNil] else [LBool false; LInt rc; v].

Definition push_all (vs : list lua_value) (t : lua_thread) : lua_thread :=
  LuaThread (l_req t) (l_stack t ++ vs).

Lemma lua_push_run w L th v :
  threads w !! L = Some th → lua_push L v w = Ok ((), upd_threads (alter (push v) L) w).
Proof. intros H. by eapply modify_thread_ok. Qed.

Lemma push_rsp_run w L th c v :
  threads w !! L = Some th → rsp_value (bufs w) (c_rsp c) (c_rsp_len c) = Some v →
  (match c_rsp c with
   | Some _ =>
       if c_rsp_len c =? 0 then lua_pushstring L (c_rsp c)
       else lua_pushlstring L (c_rsp c) (c_rsp_len c)
   | None => lua_push L LNil
   end) w = Ok ((), upd_threads (alter (push v) L) w).
Proof.
  intros HL Hv. unfold rsp_value in Hv. destruct (c_rsp c) as [[l o]|]; simpl in Hv.
  2: { injection Hv as <-. by eapply lua_push_run. }
  destruct (o =? 0) eqn:Eo; simpl in Hv; [|done]. apply Z.eqb_eq in Eo as ->.
  destruct (bufs w !! l) as [b|] eqn:Eb; simpl in Hv; [|done].
  unfold lua_pushstring, lua_pushlstring. destruct (c_rsp_len c =? 0).
  - destruct (c_str b) as [s|] eqn:Es; simpl in Hv; [|done]. injection Hv as <-.
    erewrite bind_ok; [|by eapply load_bytes_ok]. rewrite Es. simpl.
    erewrite bind_ok; [|apply ret_run]. by eapply lua_push_run.
  - destruct (size_of_int _ <=? _) eqn:El; [|done]. injection Hv as <-.
    erewrite bind_ok; [|by eapply load_bytes_ok]. rewrite El. simpl.
    erewrite bind_ok; [|apply ret_run]. by eapply lua_push_run.
Qed.

Lemma upd_threads_alter2 f g L w :
  upd_threads (alter f L) (upd_threads (alter g L) w) = upd_threads (alter (λ x, f (g x)) L) w.
Proof. unfold upd_threads; simpl. by rewrite alter_alter. Qed.

Lemma upd_threads_ext f g L w :
  (∀ x, f x = g x) → upd_threads (alter f L) w = upd_threads (alter g L) w.
Proof. intros H. unfold upd_threads. f_equal. apply alter_ext_lookup. auto. Qed.

Lemma push_results_run w L th c v :
  threads w !! L = Some th → rsp_value (bufs w) (c_rsp c) (c_rsp_len c) = Some v →
  push_results L c w = Ok ((), upd_threads (alter (push_all (call_results (c_rc c) v)) L) w).
Proof.
  intros HL Hv. unfold push_results, call_results.
  erewrite bind_ok; [|by eapply lua_push_run].
  destruct (c_rc c =? 0) eqn:Erc.
  - erewrite bind_ok; [|apply ret_run].
    erewrite bind_ok; [|eapply push_rsp_run; [lookup_tac|done]].
    erewrite lua_push_run by lookup_tac. rewrite !upd_threads_alter2.
    do 2 f_equal. apply upd_threads_ext. intros []. unfold push_all, push; simpl.
    by rewrite <-!app_assoc.
  - erewrite bind_ok; [|eapply lua_push_run; lookup_tac].
    erewrite bind_ok; [|eapply push_rsp_run; [lookup_tac|done]].
    rewrite ret_run, !upd_threads_alter2.
    do 2 f_equal. apply upd_threads_ext. intros []. unfold push_all, push; simpl.
    by rewrite <-!app_assoc.
Qed.

(** ** The three outcomes of the event handler *)

(** The task and its buffers are released. *)
Definition released (t : loc) (c : ffi_task_ctx_t) (w : world) : world :=
  upd_tasks (delete t) (upd_bufs (λ m, drop_buf (c_rsp c) (drop_buf (c_req c) m)) w).

(** The results are on the stack of [L], coroutine [k] is current for request
    [r] and no longer has a cleanup handler, and the task is released. *)
Definition delivered (t : loc) (c : ffi_task_ctx_t) (k : cid) (L : lid) (r : rid) (v : lua_value)
    (w : world) : world :=
  released t c
    (upd_cos (alter (set_cleanup None) k)
       (upd_reqs (alter (λ x, Request (set_cur_co_ctx (Some k) <$> r_ctx x) (r_connection x)) r)
          (upd_threads (alter (push_all (call_results (c_rc c) v)) L) w))).

(** The task of an event handler call, well formed. *)
Record answered_task (w : world) (t : loc) (b : task_block) (c : ffi_task_ctx_t) : Prop := {
  at_task : tasks w !! t = Some b;
  at_ctx : tb_ctx b = Some c;
  at_data : ev_data (t_event (tb_task b)) = Some (Ptr t 1);
  at_bufs : ctx_bufs_ok (bufs w) c;
}.

Section event_handler.
Context {ops : NgxLua}.
Context (w : world) (t : loc) (b : task_block) (c : ffi_task_ctx_t).
Hypothesis Htask : answered_task w t b c.

Lemma task_released :
  ngx_http_lua_ffi_task_free (Some (Ptr t 1)) w = Ok ((), released t c w).
Proof using Htask. destruct Htask. by eapply task_free_run. Qed.

Lemma handler_start (k : ffi_task_ctx_t → M world ()) :
  (c ← load_ctx (Some (Ptr t 1)); k c) w = k c w.
Proof using Htask. destruct Htask. erewrite bind_ok; [done|by eapply load_ctx_ok]. Qed.

(** An aborted task is dropped: nothing of Lua is touched. *)
Lemma handler_aborted :
  c_is_abort c ≠ 0 →
  ngx_http_lua_ffi_event_handler (Some (Ptr t 0)) w = Ok ((), released t c w).
Proof using Htask.
  intros Ha. unfold ngx_http_lua_ffi_event_handler.
  erewrite bind_ok; [|eapply load_task_ok, Htask]. cbv zeta. rewrite (at_data _ _ _ _ Htask).
  rewrite handler_start. rewrite (proj2 (Z.eqb_neq _ _) Ha). simpl. apply task_released.
Qed.

Context (k : cid) (x : co_ctx) (th : lua_thread).
Hypothesis Hlive : c_is_abort c = 0.
Hypothesis Hwait : c_wait_co_ctx c = Some k.
Hypothesis Hx : cos w !! k = Some x.
Hypothesis Hth : threads w !! co x = Some th.

Lemma handler_gone :
  (l_req th = None ∨
   ∃ r y, l_req th = Some r ∧ reqs w !! r = Some y ∧ r_ctx y = None) →
  ngx_http_lua_ffi_event_handler (Some (Ptr t 0)) w = Ok ((), released t c w).
Proof using Htask Hlive Hwait Hx Hth.
  intros Hg. unfold ngx_http_lua_ffi_event_handler.
  erewrite bind_ok; [|eapply load_task_ok, Htask]. cbv zeta. rewrite (at_data _ _ _ _ Htask).
  rewrite handler_start, Hlive, Hwait. simpl.
  erewrite bind_ok; [|by eapply load_co_ok]. unfold ngx_http_lua_get_req.
  rewrite bind_assoc. erewrite bind_ok; [|by eapply load_thread_ok].
  erewrite bind_ok; [|apply ret_run].
  destruct Hg as [->|(r & y & -> & Hy & Hn)]; [apply task_released|].
  erewrite bind_ok; [|by eapply get_connection_ok].
  erewrite bind_ok; [|by eapply get_module_ctx_ok]. rewrite Hn. apply task_released.
Qed.

Context (r : rid) (y : request) (lc : lua_ctx) (v : lua_value).
Hypothesis Hreq : l_req th = Some r.
Hypothesis Hy : reqs w !! r = Some y.
Hypothesis Hlc : r_ctx y = Some lc.
Hypothesis Hv : rsp_value (bufs w) (c_rsp c) (c_rsp_len c) = Some v.

Lemma deliver_run :
  deliver (Some (Ptr t 1)) (co x) r w = Ok ((), delivered t c k (co x) r v w).
Proof using Type*.
  unfold deliver. rewrite handler_start.
  erewrite bind_ok; [|by eapply push_results_run]. rewrite Hwait.
  erewrite bind_ok; [|eapply modify_lua_ctx_ok; lookup_tac].
  erewrite bind_ok; [|eapply modify_co_ok; lookup_tac].
  destruct Htask. by erewrite task_free_run.
Qed.

(** Otherwise the results are delivered, and Lua and nginx go on from there. *)
Lemma handler_run :
  ngx_http_lua_ffi_event_handler (Some (Ptr t 0)) w =
    resume_caller r (r_connection y) (entered_content_phase lc) (delivered t c k (co x) r v w).
Proof using Type*.
  unfold ngx_http_lua_ffi_event_handler.
  erewrite bind_ok; [|eapply load_task_ok, Htask]. cbv zeta. rewrite (at_data _ _ _ _ Htask).
  rewrite handler_start, Hlive, Hwait. simpl.
  erewrite bind_ok; [|by eapply load_co_ok]. unfold ngx_http_lua_get_req.
  rewrite bind_assoc. erewrite bind_ok; [|by eapply load_thread_ok].
  erewrite bind_ok; [|apply ret_run]. rewrite Hreq.
  erewrite bind_ok; [|by eapply get_connection_ok].
  erewrite bind_ok; [|by eapply get_module_ctx_ok]. rewrite Hlc.
  by erewrite bind_ok; [|exact deliver_run].
Qed.

Lemma handler_delivers {laws : NgxLuaLaws ops} :
  ∃ w', ngx_http_lua_ffi_event_handler (Some (Ptr t 0)) w = Ok ((), w') ∧
        lua_frame (delivered t c k (co x) r v w) w'.
Proof using Type*.
  rewrite handler_run. eapply resume_caller_total.
  - unfold delivered, released; simpl. by rewrite lookup_alter_eq, Hy.
  - simpl. by rewrite Hlc.
Qed.
End event_handler.
