(* ===== verification/Ownership.v ===== *)
(** * Ownership: which blocks belong to which task

    The part of the system invariant that does not depend on where a task is:
    every task block carries well-formed pointers, owns its request and response
    buffers exclusively, every buffer is owned, and every waiting coroutine is
    tied to exactly one task.  The invariant is stated on the [views] of the
    tasks, which forget the queue links. *)

From S2P Require Import Prelude World TaskQueue FfiTask FfiQueue EventHandler.

(** ** Views *)

Record tview := TView {
  v_ctx_ptr : option ptr;
  v_ev_data : option ptr;
  v_ctx : option ffi_task_ctx_t;
}.

Definition view (b : task_block) : tview :=
  TView (t_ctx (tb_task b)) (ev_data (t_event (tb_task b))) (tb_ctx b).

Definition views (m : gmap loc task_block) : gmap loc tview := view <$> m.

(** The view of a task with context [c] in block [t], and of a finish marker. *)
Definition task_view (t : loc) (c : ffi_task_ctx_t) : tview :=
  TView (Some (Ptr t 1)) (Some (Ptr t 1)) (Some c).
Definition marker_view : tview := TView None None None.

Lemma views_lookup m t x :
  views m !! t = Some x ↔ ∃ b, m !! t = Some b ∧ view b = x.
Proof. unfold views. rewrite lookup_fmap. destruct (m !! t); naive_solver. Qed.

Lemma views_some m t b : m !! t = Some b → views m !! t = Some (view b).
Proof. intros H. apply views_lookup. eauto. Qed.

Lemma views_none m t : m !! t = None → views m !! t = None.
Proof. intros H. unfold views. by rewrite lookup_fmap, H. Qed.

Lemma views_alter_id m f t : (∀ b, view (f b) = view b) → views (alter f t m) = views m.
Proof.
  intros Hf. unfold views. apply map_eq. intros i. rewrite !lookup_fmap, lookup_alter.
  case_decide; [subst|done]. destruct (m !! i); simpl; [by rewrite Hf|done].
Qed.

Lemma views_link l t m : views (link l t m) = views m.
Proof. unfold link. destruct (last l); [|done]. by apply views_alter_id. Qed.

Lemma views_insert m t b : views (<[t := b]> m) = <[t := view b]> (views m).
Proof. apply fmap_insert. Qed.

Lemma views_delete m t : views (delete t m) = delete t (views m).
Proof. apply fmap_delete. Qed.

(** ** Ownership of buffers *)

Definition ptr_locs (p : option ptr) : list loc :=
  match p with None => [] | Some p => [p_blk p] end.

Definition owned_ctx (c : ffi_task_ctx_t) : list loc := ptr_locs (c_req c) ++ ptr_locs (c_rsp c).

Definition owned (x : tview) : list loc :=
  match v_ctx x with None => [] | Some c => owned_ctx c end.

(** A task in block [t]: its own pointers, its buffers, and a response the
    event handler can read. *)
Definition ctx_wf (m : gmap loc (list byte)) (c : ffi_task_ctx_t) : Prop :=
  ctx_bufs_ok m c ∧ is_Some (rsp_value m (c_rsp c) (c_rsp_len c)).

Definition view_wf (m : gmap loc (list byte)) (t : loc) (x : tview) : Prop :=
  x = marker_view ∨ ∃ c, x = task_view t c ∧ ctx_wf m c.

Record heap_inv (v : gmap loc tview) (m : gmap loc (list byte)) (all : list loc) (n : loc) : Prop := {
  hi_nodup : NoDup all;
  hi_dom : ∀ t, t ∈ all ↔ is_Some (v !! t);
  hi_fresh : ∀ t, is_Some (v !! t) → (t < n)%nat;
  hi_fresh_buf : ∀ l, is_Some (m !! l) → (l < n)%nat;
  hi_wf : ∀ t x, v !! t = Some x → view_wf m t x;
  hi_owned : ∀ l, is_Some (m !! l) ↔ ∃ t x, v !! t = Some x ∧ l ∈ owned x;
  hi_excl : ∀ t t' x x' l, v !! t = Some x → v !! t' = Some x' →
              l ∈ owned x → l ∈ owned x' → t = t';
}.

(** *** Buffers of other tasks are irrelevant *)

Lemma elem_of_owned_ctx c l :
  l ∈ owned_ctx c ↔ (∃ p, c_req c = Some p ∧ p_blk p = l) ∨ (∃ p, c_rsp c = Some p ∧ p_blk p = l).
Proof.
  unfold owned_ctx, ptr_locs. rewrite elem_of_app.
  destruct (c_req c), (c_rsp c); set_solver.
Qed.

(** [m'] has the same buffers as [m] among those [c] owns. *)
Definition agree (m m' : gmap loc (list byte)) (c : ffi_task_ctx_t) : Prop :=
  ∀ l, l ∈ owned_ctx c → m' !! l = m !! l.

Lemma ctx_wf_agree m m' c : agree m m' c → ctx_wf m c → ctx_wf m' c.
Proof.
  intros Ha [[Hq Hr Hd] Hv].
  assert (∀ p, c_req c = Some p → m' !! p_blk p = m !! p_blk p) as Aq.
  { intros p Hp. apply Ha, elem_of_owned_ctx. eauto. }
  assert (∀ p, c_rsp c = Some p → m' !! p_blk p = m !! p_blk p) as Ar.
  { intros p Hp. apply Ha, elem_of_owned_ctx. eauto. }
  split; [split; [| |done]|].
  - destruct (c_req c) as [p|]; simpl in *; [|done]. by rewrite Aq.
  - destruct (c_rsp c) as [p|]; simpl in *; [|done]. by rewrite Ar.
  - unfold rsp_value in *. destruct (c_rsp c) as [p|]; [|done]. by rewrite Ar.
Qed.

Lemma view_wf_agree m m' t x :
  (∀ c, v_ctx x = Some c → agree m m' c) → view_wf m t x → view_wf m' t x.
Proof.
  intros Ha [->|(c & -> & Hc)]; [by left|right].
  exists c. split; [done|]. eapply ctx_wf_agree; [by apply Ha|done].
Qed.

Lemma owned_live v m all n t x l :
  heap_inv v m all n → v !! t = Some x → l ∈ owned x → is_Some (m !! l).
Proof. intros H Hx Hl. apply (hi_owned _ _ _ _ H). eauto. Qed.

(** ** Steps *)

Lemma heap_inv_perm v m all all' n :
  all ≡ₚ all' → heap_inv v m all n → heap_inv v m all' n.
Proof. intros Hp []. split; try done; intros; by rewrite <-Hp. Qed.

Lemma heap_inv_brk v m all n n' : (n ≤ n')%nat → heap_inv v m all n → heap_inv v m all n'.
Proof. intros Hn []. split; try done; naive_solver lia. Qed.

(** [m'] is [m] where task [t] owns the buffers of [x] instead of those it had
    in [v]. *)
Record reowned (v : gmap loc tview) (m m' : gmap loc (list byte)) (t : loc) (x : tview) : Prop := {
  ro_new : ∀ l, l ∈ owned x → is_Some (m' !! l) ∧ ∀ t' x', t' ≠ t → v !! t' = Some x' → l ∉ owned x';
  ro_gone : ∀ l x0, l ∉ owned x → v !! t = Some x0 → l ∈ owned x0 → m' !! l = None;
  ro_kept : ∀ l, l ∉ owned x → (∀ x0, v !! t = Some x0 → l ∉ owned x0) → m' !! l = m !! l;
}.

Lemma reowned_other v m m' all n t x t' x' :
  heap_inv v m all n → reowned v m m' t x → t' ≠ t → v !! t' = Some x' →
  ∀ c, v_ctx x' = Some c → agree m m' c.
Proof.
  intros H [Hnew Hgone Hkept] Hne Hx' c Hc l Hl.
  assert (l ∈ owned x') as Hl' by (unfold owned; by rewrite Hc).
  apply Hkept.
  - intros Hin. destruct (Hnew l Hin) as [_ Hex]. by eapply (Hex t' x').
  - intros x0 Hx0 Hin. apply Hne. symmetry. by eapply (hi_excl _ _ _ _ H).
Qed.

(** Adding task [t], or replacing its view. *)
Lemma heap_inv_put v m all n t x m' all' n' :
  heap_inv v m all n → (n ≤ n')%nat → (t < n')%nat →
  NoDup all' → (∀ y, y ∈ all' ↔ y ∈ all ∨ y = t) →
  view_wf m' t x → reowned v m m' t x → (∀ l, l ∈ owned x → (l < n')%nat) →
  heap_inv (<[t := x]> v) m' all' n'.
Proof.
  intros H Hn Ht Hnd Hall Hx Hro Hlt. pose proof Hro as [Hnew Hgone Hkept].
  assert (∀ l, is_Some (m' !! l) ↔
    l ∈ owned x ∨ (is_Some (m !! l) ∧ ∀ x0, v !! t = Some x0 → l ∉ owned x0)) as Hm'.
  { intros l. destruct (decide (l ∈ owned x)) as [Hin|Hin].
    - split; [by left|]. intros _. by destruct (Hnew l Hin).
    - destruct (v !! t) as [x0|] eqn:Ev.
      + destruct (decide (l ∈ owned x0)) as [Hin0|Hin0].
        * rewrite (Hgone l x0) by done. split; [by intros []|].
          intros [?|[_ Hno]]; [done|]. by destruct (Hno x0).
        * rewrite Hkept by naive_solver. naive_solver.
      + rewrite Hkept by naive_solver. naive_solver. }
  destruct H as [A B C D E F G]. split; [done| | | | | |].
  - intros y. rewrite Hall, B. destruct (decide (y = t)) as [->|Hne].
    + rewrite lookup_insert_eq. split; [by eexists|by right].
    + rewrite lookup_insert_ne by done. split; [intros [?| ->]; done|by left].
  - intros y. destruct (decide (y = t)) as [->|]; simplify_map_eq; [done|].
    intros Hy. specialize (C y Hy). lia.
  - intros l [?|[Hl _]]%Hm'; [eauto|]. specialize (D l Hl). lia.
  - intros y z. destruct (decide (y = t)) as [->|]; intros; simplify_map_eq; [done|].
    eapply view_wf_agree; [|eauto]. eapply (reowned_other v m m' all n t x); eauto; by split.
  - intros l. rewrite Hm', F. split.
    + intros [Hl|[(y & z & Hz & Hl) Hno]].
      * exists t, x. by simplify_map_eq.
      * exists y, z. split; [|done]. rewrite lookup_insert_ne; [done|]. intros ->. by eapply Hno.
    + intros (y & z & Hz & Hl). destruct (decide (y = t)) as [->|]; simplify_map_eq; [by left|].
      destruct (decide (l ∈ owned x)); [by left|]. right. split; [eauto|].
      intros x0 Hx0 Hin. naive_solver.
  - intros y y' z z' l Hy Hy' Hl Hl'.
    destruct (decide (y = t)) as [->|], (decide (y' = t)) as [->|]; simplify_map_eq; [done| | |eauto].
    + exfalso. destruct (Hnew l Hl) as [_ Hex]. by eapply Hex.
    + exfalso. destruct (Hnew l Hl') as [_ Hex]. by eapply Hex.
Qed.

(** Removing task [t] with the buffers it owns. *)
Lemma heap_inv_remove v m all n t x m' all' :
  heap_inv v m all n → v !! t = Some x →
  NoDup all' → (∀ y, y ∈ all' ↔ y ∈ all ∧ y ≠ t) →
  (∀ l, m' !! l = if decide (l ∈ owned x) then None else m !! l) →
  heap_inv (delete t v) m' all' n.
Proof.
  intros [A B C D E F G] Hx Hnd Hall Hm'. split; [done| | | | | |].
  - intros y. rewrite Hall, B. destruct (decide (y = t)) as [->|Hne].
    + rewrite lookup_delete_eq. split; [by intros [_ ?]|by intros []].
    + rewrite lookup_delete_ne by done. split; [by intros [? _]|]. intros ?; split; congruence.
  - intros y [z Hz]. apply C. apply lookup_delete_Some in Hz as [_ ?]. eauto.
  - intros l. rewrite Hm'. case_decide; [by intros []|eauto].
  - intros y z [Hne Hz]%lookup_delete_Some. eapply view_wf_agree; [|eauto].
    intros c Hc l Hl. rewrite Hm'. case_decide as Hin; [|done]. exfalso. apply Hne.
    eapply G; [exact Hx|exact Hz|exact Hin|]. unfold owned. by rewrite Hc.
  - intros l. rewrite Hm'. case_decide as Hin.
    + split; [by intros []|]. intros (y & z & [Hne Hz]%lookup_delete_Some & Hl).
      exfalso. apply Hne. eauto.
    + rewrite F. split; intros (y & z & Hz & Hl).
      * exists y, z. split; [|done]. apply lookup_delete_Some. split; [|done].
        intros <-. by simplify_eq.
      * apply lookup_delete_Some in Hz as [_ Hz]. eauto.
  - intros y y' z z' l [_ Hy]%lookup_delete_Some [_ Hy']%lookup_delete_Some. eauto.
Qed.

(** ** Waiting coroutines *)

(** The task viewed as [x] resumes coroutine [k]. *)
Definition awaits (x : tview) (k : cid) : Prop :=
  ∃ c, v_ctx x = Some c ∧ c_is_abort c = 0 ∧ c_wait_co_ctx c = Some k.

(** Coroutine [k] of [W] is suspended on the task in block [t]. *)
Definition suspended (w : world) (W : gset cid) (t : loc) (k : cid) : Prop :=
  k ∈ W ∧ ∃ y, cos w !! k = Some y ∧ cleanup y = Some HFfiCleanup ∧
               co_data y = Some (Ptr t 1) ∧ live_thread w y.

Record co_inv (v : gmap loc tview) (w : world) (W : gset cid) : Prop := {
  ci_task : ∀ t x c, v !! t = Some x → v_ctx x = Some c → c_is_abort c = 0 →
              ∃ k, c_wait_co_ctx c = Some k ∧ suspended w W t k;
  ci_wait : ∀ k, k ∈ W → ∃ t x, v !! t = Some x ∧ awaits x k;
}.

(** The coroutines of [P] are untouched from [w] to [w']. *)
Definition co_frame (P : cid → Prop) (w w' : world) : Prop :=
  ∀ k y, P k → cos w !! k = Some y → live_thread w y → cos w' !! k = Some y ∧ live_thread w' y.

Lemma awaits_unique x k k' : awaits x k → awaits x k' → k = k'.
Proof. intros (c & Hc & _ & Hk) (c' & Hc' & _ & Hk'). congruence. Qed.

Lemma co_inv_awaits v w W t x k :
  co_inv v w W → v !! t = Some x → awaits x k → suspended w W t k.
Proof.
  intros H Hx (c & Hc & Ha & Hk). destruct (ci_task _ _ _ H t x c) as (k' & Hk' & Hs); [done..|].
  by simplify_eq.
Qed.

Lemma co_inv_inj v w W t t' x x' k :
  co_inv v w W → v !! t = Some x → v !! t' = Some x' → awaits x k → awaits x' k → t = t'.
Proof.
  intros H Hx Hx' Ha Ha'.
  destruct (co_inv_awaits _ _ _ _ _ _ H Hx Ha) as (_ & y & Hy & _ & Hd & _).
  destruct (co_inv_awaits _ _ _ _ _ _ H Hx' Ha') as (_ & y' & Hy' & _ & Hd' & _).
  simplify_eq. congruence.
Qed.

(** Task [t] does not resume [k] in [v]. *)
Definition elsewhere (v : gmap loc tview) (t : loc) (k : cid) : Prop :=
  ∀ x, v !! t = Some x → ¬ awaits x k.

Lemma suspended_frame w w' W W' t k :
  co_frame (λ k', k' = k) w w' → (k ∈ W → k ∈ W') → suspended w W t k → suspended w' W' t k.
Proof.
  intros Hf HW [HkW (y & Hy & Hcl & Hd & Hl)]. split; [auto|].
  destruct (Hf k y) as [Hy' Hl']; [done..|]. by exists y.
Qed.

(** Adding task [t], or replacing its view. *)
Lemma co_inv_put v w W t x w' W' :
  co_inv v w W →
  (∀ c, v_ctx x = Some c → c_is_abort c = 0 →
     ∃ k, c_wait_co_ctx c = Some k ∧ suspended w' W' t k) →
  (∀ k, k ∈ W' ↔ (k ∈ W ∧ elsewhere v t k) ∨ awaits x k) →
  co_frame (λ k, k ∈ W ∧ elsewhere v t k) w w' →
  co_inv (<[t := x]> v) w' W'.
Proof.
  intros H Hx HW Hf. split.
  - intros t' x' c Hx' Hc Ha. destruct (decide (t' = t)) as [->|Hne]; simplify_map_eq; [eauto|].
    destruct (ci_task _ _ _ H t' x' c) as (k & Hk & Hs); [done..|].
    exists k. split; [done|].
    assert (k ∈ W ∧ elsewhere v t k) as Hel.
    { split; [apply Hs|]. intros x0 Hx0 Haw. apply Hne.
      eapply (co_inv_inj v w W t' t x' x0 k); eauto. by exists c. }
    eapply suspended_frame; [|intros _; apply HW; by left|done].
    intros k' y -> Hy Hl. by apply Hf.
  - intros k [[HkW Hel]|Haw]%HW.
    + destruct (ci_wait _ _ _ H k HkW) as (t' & x' & Hx' & Haw).
      exists t', x'. split; [|done]. rewrite lookup_insert_ne; [done|]. intros ->. by eapply Hel.
    + exists t, x. by simplify_map_eq.
Qed.

Lemma co_inv_remove v w W t w' W' :
  co_inv v w W →
  (∀ k, k ∈ W' ↔ k ∈ W ∧ elsewhere v t k) →
  co_frame (λ k, k ∈ W ∧ elsewhere v t k) w w' →
  co_inv (delete t v) w' W'.
Proof.
  intros H HW Hf. split.
  - intros t' x' c [Hne Hx']%lookup_delete_Some Hc Ha.
    destruct (ci_task _ _ _ H t' x' c) as (k & Hk & Hs); [done..|].
    exists k. split; [done|].
    assert (k ∈ W ∧ elsewhere v t k) as Hel.
    { split; [apply Hs|]. intros x0 Hx0 Haw. apply Hne.
      eapply (co_inv_inj v w W t t' x0 x' k); eauto. by exists c. }
    eapply suspended_frame; [|intros _; apply HW; done|done].
    intros k' y -> Hy Hl. by apply Hf.
  - intros k [HkW Hel]%HW.
    destruct (ci_wait _ _ _ H k HkW) as (t' & x' & Hx' & Haw).
    exists t', x'. split; [|done]. apply lookup_delete_Some. split; [|done].
    intros ->. by eapply Hel.
Qed.

Lemma co_inv_frame v w W w' :
  co_inv v w W → co_frame (λ k, k ∈ W) w w' → co_inv v w' W.
Proof.
  intros H Hf. split; [|apply H].
  intros t x c Hx Hc Ha. destruct (ci_task _ _ _ H t x c) as (k & Hk & Hs); [done..|].
  exists k. split; [done|]. eapply suspended_frame; [|done|done].
  intros k' y -> Hy Hl. apply Hf; [apply Hs|done|done].
Qed.

Lemma co_frame_same P w w' :
  cos w' = cos w → threads w' = threads w → reqs w' = reqs w → co_frame P w w'.
Proof.
  intros Hc Ht Hr k y _ Hy (th & Hth & Hl). rewrite Hc. split; [done|].
  exists th. by rewrite Ht, Hr.
Qed.

Lemma co_inv_same v w w' W :
  cos w' = cos w → threads w' = threads w → reqs w' = reqs w → co_inv v w W → co_inv v w' W.
Proof. intros Hc Ht Hr H. eapply co_inv_frame; [done|]. by apply co_frame_same. Qed.

(** ** A new task *)

Lemma heap_inv_new v m all n t x m' n' :
  heap_inv v m all n → v !! t = None → (n ≤ n')%nat → (t < n')%nat →
  view_wf m' t x → reowned v m m' t x → (∀ l, l ∈ owned x → (l < n')%nat) →
  heap_inv (<[t := x]> v) m' (t :: all) n'.
Proof.
  intros H Ht Hn Hlt Hx Hro Hl. eapply heap_inv_put; [exact H|done|done| | |done|done|done].
  - apply NoDup_cons. split; [|apply H]. rewrite (hi_dom _ _ _ _ H), Ht. by intros [].
  - intros y. rewrite elem_of_cons. tauto.
Qed.

Lemma reowned_nothing v m t x : v !! t = None → owned x = [] → reowned v m m t x.
Proof.
  intros Ht Hx. split; rewrite ?Hx.
  - intros l Hl. by apply elem_of_nil in Hl.
  - intros l x0 _ Hx0. congruence.
  - done.
Qed.

Lemma co_inv_new v w W t x w' W' :
  co_inv v w W → v !! t = None →
  (∀ c, v_ctx x = Some c → c_is_abort c = 0 →
     ∃ k, c_wait_co_ctx c = Some k ∧ suspended w' W' t k) →
  (∀ k, k ∈ W' ↔ k ∈ W ∨ awaits x k) →
  co_frame (λ k, k ∈ W) w w' →
  co_inv (<[t := x]> v) w' W'.
Proof.
  intros H Ht Hx HW Hf. eapply co_inv_put; [exact H|done| |].
  - intros k. rewrite HW. split; [|by intros [[??]|?]; auto].
    intros [?|?]; [|by right]. left. split; [done|]. intros x0 Hx0. congruence.
  - intros k y [Hk _]. by apply Hf.
Qed.

(** ** A task whose context changes *)

Lemma heap_inv_update v m all n t x0 x m' all' n' :
  heap_inv v m all n → v !! t = Some x0 → all ≡ₚ all' → (n ≤ n')%nat →
  view_wf m' t x → reowned v m m' t x → (∀ l, l ∈ owned x → (l < n')%nat) →
  heap_inv (<[t := x]> v) m' all' n'.
Proof.
  intros H Hx0 Hp Hn Hx Hro Hl. eapply heap_inv_put; [exact H|done| | | |done|done|done].
  - assert (t < n)%nat; [|lia]. apply (hi_fresh _ _ _ _ H). by eexists.
  - rewrite <-Hp. apply H.
  - intros y. rewrite <-Hp. split; [by left|]. intros [?| ->]; [done|].
    apply (hi_dom _ _ _ _ H). by eexists.
Qed.

Lemma reowned_same v m all n t x0 x :
  heap_inv v m all n → v !! t = Some x0 → owned x = owned x0 → reowned v m m t x.
Proof.
  intros H Hx0 Ho. split; rewrite ?Ho.
  - intros l Hl. split; [by eapply owned_live|]. intros t' x' Hne Hx' Hl'.
    apply Hne. by eapply (hi_excl _ _ _ _ H t' t).
  - intros l x1 Hl Hx1. by simplify_eq.
  - done.
Qed.

(** An answered task still resumes the coroutine it resumed. *)
Lemma co_inv_update v w W t x0 x w' :
  co_inv v w W → v !! t = Some x0 →
  (∀ k, awaits x0 k ↔ awaits x k) →
  (∀ c, v_ctx x = Some c → c_is_abort c = 0 → ∃ k, c_wait_co_ctx c = Some k ∧ awaits x0 k) →
  co_frame (λ k, k ∈ W) w w' →
  co_inv (<[t := x]> v) w' W.
Proof.
  intros H Hx0 Haw Hc Hf. eapply co_inv_put; [exact H| | |].
  - intros c Hcx Ha. destruct (Hc c Hcx Ha) as (k & Hk & Haw0). exists k. split; [done|].
    pose proof (co_inv_awaits _ _ _ _ _ _ H Hx0 Haw0) as Hs.
    eapply suspended_frame; [|done|exact Hs]. intros k' y -> Hy. apply Hf; [apply Hs|done].
  - intros k. split.
    + intros Hk. destruct (ci_wait _ _ _ H k Hk) as (t' & x' & Hx' & Haw').
      destruct (decide (t' = t)) as [->|Hne].
      * right. apply Haw. by simplify_eq.
      * left. split; [done|]. intros x1 Hx1 Haw1. apply Hne. by eapply (co_inv_inj v w W).
    + intros [[? _]|Hk%Haw]; [done|]. by apply (co_inv_awaits _ _ _ _ _ _ H Hx0 Hk).
  - intros k y [Hk _]. by apply Hf.
Qed.

(** A task that is aborted no longer resumes [k], which is gone. *)
Lemma co_inv_abort v w W t x0 x w' k :
  co_inv v w W → v !! t = Some x0 → awaits x0 k →
  (∀ c, v_ctx x = Some c → c_is_abort c ≠ 0) →
  co_frame (λ k', k' ∈ W ∧ k' ≠ k) w w' →
  co_inv (<[t := x]> v) w' (W ∖ {[ k ]}).
Proof.
  intros H Hx0 Haw0 Hx Hf.
  assert (∀ k', elsewhere v t k' ↔ k' ≠ k) as Hel.
  { intros k'. split.
    - intros Hel ->. by apply (Hel x0).
    - intros Hne x1 Hx1 Haw1. simplify_eq. apply Hne. by eapply awaits_unique. }
  eapply co_inv_put; [exact H| | |].
  - intros c Hc Ha. by destruct (Hx c Hc).
  - intros k'. rewrite Hel, elem_of_difference, elem_of_singleton. split; [by left|].
    intros [?|(c & Hc & Ha & _)]; [done|]. by destruct (Hx c Hc).
  - intros k' y [Hk' Hne%Hel]. by apply Hf.
Qed.
