(* ===== verification/System.v ===== *)
(** * System: one runtime, its pollers, nginx's event loop and Lua

    The handlers of ngx_http_lua_ffi.c run by several threads.  A step is one
    call of a handler (or the part of [ngx_http_lua_ffi_task_poll] up to the
    next blocking point): between taking and releasing the queue's mutex a
    handler is not interrupted, and the fields it uses outside belong to the
    task it owns.  [enabled] states what the callers have to respect; [exec]
    runs the step and reports undefined behaviour. *)

From S2P Require Import Prelude World TaskQueue FfiTask FfiQueue EventHandler Ownership.

(** ** nginx's side of the done queue *)

(** [ngx_thread_pool_handler] takes the whole done queue before it runs the
    event handlers of its tasks. *)
Class NgxPool := { ngx_pool_take : M world (list loc) }.

Class NgxPoolLaws (pool : NgxPool) : Prop := {
  pool_take_law w dl :
    done_lock w = false → queue_repr (tasks w) SDoneFirst (pool_done w) dl →
    ngx_pool_take w = Ok (dl, upd_pool_done (λ _, ngx_task_queue_init SDoneFirst) w);
}.

(** ** The Lua side of a post *)

(** [post] of resty_ffi.lua: the request is copied with its terminating NUL
    into malloc'ed memory. *)
Definition lua_post (env : sysenv) (r : rid) (tq : option ptr) (req : option (list byte)) : M world Z :=
  match req with
  | Some s =>
      buf ← alloc_buf (s ++ [x00]);
      ngx_http_lua_ffi_task_post env r tq (Some buf) (Z.of_nat (length s))
  | None => ngx_http_lua_ffi_task_post env r tq None 0
  end.

(** ** States *)

Record sys := Sys {
  sw : world;
  s_tq : loc;                (* the queue of the runtime *)
  s_finished : bool;         (* Lua: the runtime was unloaded *)
  s_held : list loc;         (* tasks the runtime polled and has not answered *)
  s_inflight : list loc;     (* tasks nginx took from the done queue *)
  s_waiting : gset cid;      (* coroutines that yielded in [post] *)
  (* history *)
  s_posted : list loc;
  s_polled : list loc;
  s_handled : list loc;
  s_lost : nat;              (* polls that left [waiting] decremented *)
}.

Inductive event :=
  | EPost (env : sysenv) (r : rid) (req : option (list byte))
  | EFinish (env : sysenv)
  | EPoll (env : sysenv) (me : tid)
  | EWake (env : sysenv) (me : tid)
  | ESpurious (me : tid)
  | ERespond (t : loc) (rc : Z) (rsp : option (list byte)) (len : Z)
  | EKill (k : cid)
  | ETake
  | EHandle.

(** ** Protocol *)

(** The coroutine that runs for request [r]. *)
Definition current (w : world) (r : rid) : option cid :=
  x ← reqs w !! r; lc ← r_ctx x; cur_co_ctx lc.

Definition live_threadb (w : world) (x : co_ctx) : bool :=
  match threads w !! co x with
  | None => false
  | Some th => match l_req th with
               | None => true
               | Some r => bool_decide (is_Some (reqs w !! r))
               end
  end.

(** The next task is the finish marker. *)
Definition marker_first (w : world) (q : ffi_task_queue_t) : bool :=
  match q_first (queue q) with
  | None => false
  | Some t => match tasks w !! p_blk t with
              | Some b => bool_decide (t_ctx (tb_task b) = None)
              | None => false
              end
  end.

(** No other thread than [me] is inside [task_poll]. *)
Definition alone (me : tid) (q : ffi_task_queue_t) : bool :=
  forallb (λ x, x =? me)%nat (cv_waiters (cond q) ++ cv_woken (cond q)).

(** A response the README allows: NUL-terminated when [len] is zero, at least
    [len] bytes otherwise. *)
Definition rsp_fits (rsp : option (list byte)) (len : Z) : bool :=
  match rsp with
  | None => true
  | Some b => if len =? 0 then bool_decide (is_Some (c_str b))
              else size_of_int len <=? Z.of_nat (length b)
  end.

Definition enabled (s : sys) (e : event) : bool :=
  match e with
  | EPost env r _ =>
      (* [post] checks [finished]; memory is available; the coroutine runs *)
      negb (s_finished s) && e_calloc env && (e_unlock env =? NGX_OK) &&
      match current (sw s) r with
      | None => false
      | Some k => bool_decide (k ∉ s_waiting s) &&
          match cos (sw s) !! k with None => false | Some x => live_threadb (sw s) x end
      end
  | EFinish env => negb (s_finished s) && e_calloc env && (e_unlock env =? NGX_OK)
  | EPoll env me =>
      (e_unlock env =? NGX_OK) &&
      match queues (sw s) !! s_tq s with
      | None => false   (* [task_poll] returned the NULL that ends the runtime *)
      | Some q => bool_decide (me ∉ cv_waiters (cond q) ++ cv_woken (cond q)) &&
                  implb (marker_first (sw s) q) (alone me q)
      end
  | EWake env me =>
      (e_unlock env =? NGX_OK) &&
      match queues (sw s) !! s_tq s with
      | None => false
      | Some q => bool_decide (me ∈ cv_woken (cond q)) &&
                  implb (marker_first (sw s) q) (alone me q)
      end
  | ESpurious me =>
      match queues (sw s) !! s_tq s with
      | None => false
      | Some q => bool_decide (me ∈ cv_waiters (cond q))
      end
  | ERespond t _ rsp len => bool_decide (t ∈ s_held s) && rsp_fits rsp len
  | EKill k => bool_decide (k ∈ s_waiting s)
  | ETake => true
  | EHandle => negb (bool_decide (s_inflight s = []))
  end.

(** ** Steps *)

Section steps.
Context {ops : NgxLua} {pool : NgxPool}.

(** The coroutine a task is going to resume, unless it was aborted. *)
Definition resumes (w : world) (t : loc) : option cid :=
  b ← tasks w !! t; c ← tb_ctx b;
  if c_is_abort c =? 0 then c_wait_co_ctx c else None.

Definition set_world (w : world) (s : sys) : sys :=
  Sys w (s_tq s) (s_finished s) (s_held s) (s_inflight s) (s_waiting s)
      (s_posted s) (s_polled s) (s_handled s) (s_lost s).

(** [unload] sets the [finished] flag before the call and ignores its result. *)
Definition exec_finish (env : sysenv) (s : sys) : res sys :=
  match ngx_http_lua_ffi_task_finish env (Some (Ptr (s_tq s) 0)) (sw s) with
  | UB f => UB f
  | Ok (_, w) =>
      Ok (Sys w (s_tq s) true (s_held s) (s_inflight s) (s_waiting s)
              (s_posted s) (s_polled s) (s_handled s) (s_lost s))
  end.

(** A successful post is the last allocation, and the poster yields. *)
Definition exec_post (env : sysenv) (r : rid) (req : option (list byte)) (s : sys) : res sys :=
  match lua_post env r (Some (Ptr (s_tq s) 0)) req (sw s) with
  | UB f => UB f
  | Ok (rc, w) =>
      if rc =? NGX_OK then
        Ok (Sys w (s_tq s) (s_finished s) (s_held s) (s_inflight s)
                (match current (sw s) r with Some k => {[ k ]} | None => ∅ end ∪ s_waiting s)
                (s_posted s ++ [pred (brk w)]) (s_polled s) (s_handled s) (s_lost s))
      else Ok (set_world w s)
  end.

(** A poll that returns NULL without having closed the queue leaves [waiting]
    decremented, unless it could not even take the mutex. *)
Definition exec_poll (locked : bool) (r : res (poll_res * world)) (s : sys) : res sys :=
  match r with
  | UB f => UB f
  | Ok (PBlocked, w) => Ok (set_world w s)
  | Ok (PReturn (Some t), w) =>
      Ok (Sys w (s_tq s) (s_finished s) (s_held s ++ [p_blk t]) (s_inflight s) (s_waiting s)
              (s_posted s) (s_polled s ++ [p_blk t]) (s_handled s) (s_lost s))
  | Ok (PReturn None, w) =>
      Ok (Sys w (s_tq s) (s_finished s) (s_held s) (s_inflight s) (s_waiting s)
              (s_posted s) (s_polled s) (s_handled s)
              (if locked && bool_decide (is_Some (queues w !! s_tq s)) then S (s_lost s) else s_lost s))
  end.

Definition respond_with (t : loc) (rc : Z) (rsp : option (list byte)) (len : Z) : M world () :=
  match rsp with
  | Some b => p ← alloc_buf b; ngx_http_lua_ffi_respond (Some (Ptr t 0)) rc (Some p) len
  | None => ngx_http_lua_ffi_respond (Some (Ptr t 0)) rc None len
  end.

Definition exec_respond (t : loc) (rc : Z) (rsp : option (list byte)) (len : Z) (s : sys) : res sys :=
  match respond_with t rc rsp len (sw s) with
  | UB f => UB f
  | Ok (_, w) =>
      Ok (Sys w (s_tq s) (s_finished s) (filter (λ x, x ≠ t) (s_held s)) (s_inflight s)
              (s_waiting s) (s_posted s) (s_polled s) (s_handled s) (s_lost s))
  end.

(** lua-nginx-module runs the cleanup handler of a pending coroutine and
    releases its context. *)
Definition kill_co (k : cid) : M world () :=
  x ← load_co (Some k);
  (match cleanup x with
   | Some HFfiCleanup => ngx_http_lua_ffi_cleanup k
   | _ => mret ()
   end);;
  modify (upd_cos (delete k)).

Definition exec_kill (k : cid) (s : sys) : res sys :=
  match kill_co k (sw s) with
  | UB f => UB f
  | Ok (_, w) =>
      Ok (Sys w (s_tq s) (s_finished s) (s_held s) (s_inflight s) (s_waiting s ∖ {[ k ]})
              (s_posted s) (s_polled s) (s_handled s) (s_lost s))
  end.

Definition exec_take (s : sys) : res sys :=
  match ngx_pool_take (sw s) with
  | UB f => UB f
  | Ok (l, w) =>
      Ok (Sys w (s_tq s) (s_finished s) (s_held s) (s_inflight s ++ l) (s_waiting s)
              (s_posted s) (s_polled s) (s_handled s) (s_lost s))
  end.

Definition exec_handle (s : sys) : res sys :=
  match s_inflight s with
  | [] => Ok s
  | t :: rest =>
      match ngx_http_lua_ffi_event_handler (Some (Ptr t 0)) (sw s) with
      | UB f => UB f
      | Ok (_, w) =>
          Ok (Sys w (s_tq s) (s_finished s) (s_held s) rest
                  (match resumes (sw s) t with
                   | Some k => s_waiting s ∖ {[ k ]}
                   | None => s_waiting s
                   end)
                  (s_posted s) (s_polled s) (s_handled s ++ [t]) (s_lost s))
      end
  end.

(** A spurious wake-up of POSIX condition variables. *)
Definition spurious (me : tid) (q : ffi_task_queue_t) : ffi_task_queue_t :=
  set_cond (Cond (cv_live (cond q)) (filter (λ y, y ≠ me) (cv_waiters (cond q)))
                 (cv_woken (cond q) ++ [me])) q.

Definition exec (e : event) (s : sys) : res sys :=
  let tq := Some (Ptr (s_tq s) 0) in
  match e with
  | EPost env r req => exec_post env r req s
  | EFinish env => exec_finish env s
  | EPoll env me => exec_poll (e_lock env =? NGX_OK) (task_poll_enter env tq me (sw s)) s
  | EWake env me => exec_poll true (task_poll_wake env tq me (sw s)) s
  | ESpurious me =>
      Ok (set_world (upd_queues (alter (spurious me) (s_tq s)) (sw s)) s)
  | ERespond t rc rsp len => exec_respond t rc rsp len s
  | EKill k => exec_kill k s
  | ETake => exec_take s
  | EHandle => exec_handle s
  end.

(** Executions of a list of events; [None] when the protocol forbids one. *)
Fixpoint run_events (es : list event) (s : sys) : option (res sys) :=
  match es with
  | [] => Some (Ok s)
  | e :: es =>
      if enabled s e then
        match exec e s with
        | Ok s' => run_events es s'
        | UB f => Some (UB f)
        end
      else None
  end.

End steps.
