(* ===== verification/Allocation.v ===== *)
(** * Allocation: blocks are numbered in order and never reused

    Every handler leaves the number of the next block where it is or moves it
    up, so that a block allocated later is none of the earlier ones. *)

From S2P Require Import Prelude World TaskQueue FfiTask FfiQueue System.

Definition grows {A} (m : M world A) : Prop :=
  ∀ w a w', m w = Ok (a, w') → (brk w ≤ brk w')%nat.

Lemma grows_bind {A B} (m : M world A) (k : A → M world B) :
  grows m → (∀ a, grows (k a)) → grows (m ≫= k).
Proof.
  intros Hm Hk w b w' (a & w1 & H1 & H2)%bind_inv.
  etrans; [by eapply Hm|by eapply Hk].
Qed.

Lemma grows_lift {A} (f : world → res A) : grows (lift f).
Proof. intros w a w'. unfold lift. destruct (f w); [|done]. by intros [= _ <-]. Qed.

Lemma grows_modify f : (∀ w, (brk w ≤ brk (f w))%nat) → grows (modify f).
Proof. intros Hf w a w' [= _ <-]. apply Hf. Qed.

Create HintDb grows.
#[export] Hint Resolve grows_lift : grows.

Ltac grow :=
  repeat first
    [ solve [eauto with grows nocore]
    | simple apply grows_bind; [|intros ?]
    | progress cbv zeta
    | case_match ].

Lemma grows_ret {A} (a : A) : grows (mret a).
Proof. by intros w b w' [= _ <-]. Qed.
Lemma grows_gets {A} (f : world → A) : grows (gets f).
Proof. by intros w b w' [= _ <-]. Qed.
Lemma grows_ub {A} f : grows (ub f : M world A).
Proof. by intros w b w'. Qed.
Lemma grows_assume b f : grows (assume b f).
Proof. intros w a w'. unfold assume. destruct b; [by intros [= _ <-]|done]. Qed.
Lemma grows_from {A} (o : option A) f : grows (from o f).
Proof. intros w a w'. unfold from. destruct o; [by intros [= _ <-]|done]. Qed.
#[export] Hint Resolve grows_ret grows_gets grows_ub grows_assume grows_from : grows.

(** The accesses of [World]. *)
Lemma grows_update {V} (r : world → gmap loc V) off p (f : loc → world → world) :
  (∀ l w, brk (f l w) = brk w) →
  grows (λ w, match deref (r w) off p with Ok (l, _) => Ok ((), f l w) | UB e => UB e end).
Proof. intros Hf w a w'. destruct (deref _ _ _) as [[l v]|]; [|done]. intros [= _ <-]. by rewrite Hf. Qed.

Lemma grows_modify_task p f : grows (modify_task p f).
Proof. by apply (grows_update tasks 0 p (λ l, upd_tasks (alter (map_tb_task f) l))). Qed.
Lemma grows_modify_queue p f : grows (modify_queue p f).
Proof. by apply (grows_update queues 0 p (λ l, upd_queues (alter f l))). Qed.
Lemma grows_modify_ctx p f : grows (modify_ctx p f).
Proof.
  intros w a w'. unfold modify_ctx. destruct (deref _ _ _) as [[l b]|]; [|done].
  destruct (tb_ctx b); [|done]. by intros [= _ <-].
Qed.
Lemma grows_load_task p : grows (load_task p). Proof. apply grows_lift. Qed.
Lemma grows_load_queue p : grows (load_queue p). Proof. apply grows_lift. Qed.
Lemma grows_load_bytes p : grows (load_bytes p). Proof. apply grows_lift. Qed.
Lemma grows_alloc_task b : grows (alloc_task b). Proof. intros w a w' [= _ <-]. simpl. lia. Qed.
Lemma grows_alloc_queue q : grows (alloc_queue q). Proof. intros w a w' [= _ <-]. simpl. lia. Qed.
Lemma grows_alloc_buf b : grows (alloc_buf b). Proof. intros w a w' [= _ <-]. simpl. lia. Qed.
Lemma grows_observe c : grows (observe c). Proof. by apply grows_modify. Qed.
#[export] Hint Resolve grows_modify_task grows_modify_queue grows_modify_ctx grows_load_task grows_load_queue
  grows_load_bytes grows_alloc_task grows_alloc_queue grows_alloc_buf grows_observe : grows.

Lemma grows_free_task p : grows (free_task p).
Proof. unfold free_task. grow. by apply grows_modify. Qed.
Lemma grows_free_buf p : grows (free_buf p).
Proof. unfold free_buf. grow. by apply grows_modify. Qed.
Lemma grows_free_queue p : grows (free_queue p).
Proof. unfold free_queue. grow. by apply grows_modify. Qed.
Lemma grows_modify_co c f : grows (modify_co c f).
Proof. unfold modify_co. grow. by apply grows_modify. Qed.
#[export] Hint Resolve grows_free_task grows_free_buf grows_free_queue grows_modify_co : grows.

Lemma grows_write_slot sl v : grows (write_slot sl v).
Proof. unfold write_slot. grow. by apply grows_modify. Qed.
#[export] Hint Resolve grows_write_slot : grows.

Lemma grows_create_task_queue env max : grows (ngx_http_lua_ffi_create_task_queue env max).
Proof.
  unfold ngx_http_lua_ffi_create_task_queue, ngx_calloc_queue, mutex_create, cond_create, mutex_destroy. grow.
Qed.

Lemma grows_task_post env tp task : grows (ngx_task_post env tp task).
Proof.
  unfold ngx_task_post, mutex_lock, mutex_unlock, cond_signal, queue_append. grow.
Qed.
#[export] Hint Resolve grows_task_post : grows.

Lemma grows_task_finish env tp : grows (ngx_http_lua_ffi_task_finish env tp).
Proof. unfold ngx_http_lua_ffi_task_finish, ngx_calloc_task. grow. Qed.

Lemma grows_lua_post env r tp req : grows (lua_post env r tp req).
Proof.
  unfold lua_post, ngx_http_lua_ffi_task_post, ngx_http_lua_ffi_create_task, ngx_http_lua_ffi_task_alloc,
    ngx_calloc_task, ngx_http_lua_ffi_task_free, load_ctx, load_co, ngx_http_get_module_ctx. grow.
Qed.

Lemma grows_respond_with t rc rsp len : grows (respond_with t rc rsp len).
Proof.
  unfold respond_with, ngx_http_lua_ffi_respond, ngx_thread_pool_notify_inject, done_append, ngx_spinlock,
    ngx_unlock, ngx_notify. grow; by apply grows_modify.
Qed.

Lemma grows_poll_loop env tp me : grows (task_poll_loop env tp me).
Proof.
  unfold task_poll_loop, task_poll_take, queue_take, cond_block, mutex_unlock, ngx_http_lua_ffi_free_task_queue,
    mutex_destroy, cond_destroy. grow.
Qed.
#[export] Hint Resolve grows_poll_loop : grows.

Lemma grows_poll env tp me : grows (task_poll_enter env tp me) ∧ grows (task_poll_wake env tp me).
Proof. unfold task_poll_enter, task_poll_wake, mutex_lock, cond_resume. split; grow. Qed.

(** The queue of a creation that succeeds is the next block. *)
Lemma create_task_queue_block env max w p w' :
  ngx_http_lua_ffi_create_task_queue env max w = Ok (p, w') →
  (brk w < brk w')%nat ∧ ∀ q, p = Some q → q = Ptr (brk w) 0.
Proof.
  unfold ngx_http_lua_ffi_create_task_queue, ngx_calloc_queue. destruct (e_calloc env); [|done].
  intros (tp & w1 & (q & w2 & [= <- <-] & [= <- <-])%bind_inv & H)%bind_inv.
  apply bind_inv in H as (q' & w3 & [= <- <-] & H).
  set (w2 := upd_brk S _) in H. split.
  - enough (brk w2 ≤ brk w')%nat by (simpl in *; lia). revert H.
    unfold mutex_create, cond_create, mutex_destroy.
    match goal with |- ?m _ = _ → _ => assert (grows m) as Hg by grow end. apply Hg.
  - intros r ->. repeat (simple apply bind_inv in H as (? & ? & _ & H) || case_match).
    all: unfold mret, M_ret in H; by simplify_eq.
Qed.
