(* ===== verification/Spec.v ===== *)
(** * Spec: what the library promises, without pointers, locks or counters

    The abstract machine of one runtime: a bounded FIFO of requests with a
    graceful shutdown, a pool of pollers, and the answered tasks on their way
    back to nginx.  [spec_step] is the contract of each handler of
    ngx_http_lua_ffi.c; that the handlers implement it is proved step by step
    in [Posting], [Polling] and [Answering]. *)

From S2P Require Import Prelude World TaskQueue FfiTask FfiQueue EventHandler System.

(** ** Abstract states *)

Record spec := Spec {
  a_open : option Z;           (* [max_queue] of the queue, until it is closed *)
  a_finished : bool;           (* the runtime was unloaded *)
  a_pending : list loc;        (* requests not polled, oldest first *)
  a_closing : bool;            (* the finish marker is behind the requests *)
  a_pollers : gset tid;        (* threads waiting for a request *)
  a_lost : nat;                (* slots given away by failed waits *)
  a_held : list loc;           (* polled and not answered *)
  a_done : list loc;           (* answered, in order *)
  a_inflight : list loc;       (* taken by nginx, in order *)
  a_handled : list loc;        (* delivered or dropped *)
  a_suspended : gset cid;      (* coroutines waiting for a response *)
}.

(** The abstract state of [s] when its queue holds the requests [pl] and the
    marker [mk], and its done queue [dl]. *)
Definition abs (s : sys) (pl : list loc) (mk : option loc) (dl : list loc) : spec :=
  let q := queues (sw s) !! s_tq s in
  Spec (max_queue <$> q) (s_finished s) pl (bool_decide (is_Some mk))
       (match q with
        | Some q => list_to_set (cv_waiters (cond q) ++ cv_woken (cond q))
        | None => ∅
        end)
       (s_lost s) (s_held s) dl (s_inflight s) (s_handled s) (s_waiting s).

(** ** Transitions *)

(** The value of the [waiting] counter: entries minus threads that wait. *)
Definition backlog (a : spec) : Z :=
  Z.of_nat (length (a_pending a)) + (if a_closing a then 1 else 0)
  - Z.of_nat (size (a_pollers a)) - Z.of_nat (a_lost a).

(** A request is accepted while the backlog is below [max_queue]. *)
Definition admits (env : sysenv) (a : spec) : bool :=
  (e_lock env =? NGX_OK) && (e_signal env =? NGX_OK) &&
  match a_open a with Some max => backlog a <? max | None => false end.

Definition spec_accept (t : loc) (k : cid) (a : spec) : spec :=
  Spec (a_open a) (a_finished a) (a_pending a ++ [t]) (a_closing a) (a_pollers a) (a_lost a)
       (a_held a) (a_done a) (a_inflight a) (a_handled a) ({[ k ]} ∪ a_suspended a).

Definition spec_finish (marked : bool) (a : spec) : spec :=
  Spec (a_open a) true (a_pending a) (marked || a_closing a) (a_pollers a) (a_lost a)
       (a_held a) (a_done a) (a_inflight a) (a_handled a) (a_suspended a).

(** A thread that holds the mutex with the marker first closes the queue; with
    a request first it takes it; otherwise it waits, or gives up. *)
Definition spec_poll (env : sysenv) (me : tid) (a : spec) : spec :=
  match a_pending a with
  | t :: rest =>
      Spec (a_open a) (a_finished a) rest (a_closing a) (a_pollers a ∖ {[ me ]}) (a_lost a)
           (a_held a ++ [t]) (a_done a) (a_inflight a) (a_handled a) (a_suspended a)
  | [] =>
      if a_closing a then
        Spec None (a_finished a) [] false ∅ (a_lost a)
             (a_held a) (a_done a) (a_inflight a) (a_handled a) (a_suspended a)
      else if e_wait env =? NGX_OK then
        Spec (a_open a) (a_finished a) [] false ({[ me ]} ∪ a_pollers a) (a_lost a)
             (a_held a) (a_done a) (a_inflight a) (a_handled a) (a_suspended a)
      else
        Spec (a_open a) (a_finished a) [] false (a_pollers a ∖ {[ me ]}) (S (a_lost a))
             (a_held a) (a_done a) (a_inflight a) (a_handled a) (a_suspended a)
  end.

Definition spec_respond (t : loc) (a : spec) : spec :=
  Spec (a_open a) (a_finished a) (a_pending a) (a_closing a) (a_pollers a) (a_lost a)
       (filter (λ x, x ≠ t) (a_held a)) (a_done a ++ [t]) (a_inflight a) (a_handled a)
       (a_suspended a).

Definition spec_kill (k : cid) (a : spec) : spec :=
  Spec (a_open a) (a_finished a) (a_pending a) (a_closing a) (a_pollers a) (a_lost a)
       (a_held a) (a_done a) (a_inflight a) (a_handled a) (a_suspended a ∖ {[ k ]}).

Definition spec_take (a : spec) : spec :=
  Spec (a_open a) (a_finished a) (a_pending a) (a_closing a) (a_pollers a) (a_lost a)
       (a_held a) [] (a_inflight a ++ a_done a) (a_handled a) (a_suspended a).

(** The oldest answered task is handled; [k] is the coroutine it resumes, if it
    was not killed. *)
Definition spec_handle (k : option cid) (a : spec) : spec :=
  match a_inflight a with
  | [] => a
  | t :: rest =>
      Spec (a_open a) (a_finished a) (a_pending a) (a_closing a) (a_pollers a) (a_lost a)
           (a_held a) (a_done a) rest (a_handled a ++ [t])
           (match k with Some k => a_suspended a ∖ {[ k ]} | None => a_suspended a end)
  end.

Inductive spec_step : event → spec → spec → Prop :=
  | spec_post_accepted env r req a t k :
      admits env a = true → k ∉ a_suspended a →
      t ∉ a_pending a ++ a_held a ++ a_done a ++ a_inflight a ++ a_handled a →
      spec_step (EPost env r req) a (spec_accept t k a)
  | spec_post_refused env r req a :
      admits env a = false → spec_step (EPost env r req) a a
  | spec_finishes env a :
      spec_step (EFinish env) a
        (spec_finish ((e_lock env =? NGX_OK) && (e_signal env =? NGX_OK)) a)
  | spec_poll_locked env me a :
      e_lock env = NGX_OK → spec_step (EPoll env me) a (spec_poll env me a)
  | spec_poll_unlocked env me a :
      e_lock env ≠ NGX_OK → spec_step (EPoll env me) a a
  | spec_wakes env me a : spec_step (EWake env me) a (spec_poll env me a)
  | spec_spurious me a : spec_step (ESpurious me) a a
  | spec_responds t rc rsp len a :
      t ∈ a_held a → spec_step (ERespond t rc rsp len) a (spec_respond t a)
  | spec_kills k a : k ∈ a_suspended a → spec_step (EKill k) a (spec_kill k a)
  | spec_takes a : spec_step ETake a (spec_take a)
  | spec_handles k a :
      (∀ k', k = Some k' → k' ∈ a_suspended a) → spec_step EHandle a (spec_handle k a).
