(* ===== verification/Invariant.v ===== *)
(** * Invariant: what every step of the system keeps

    [sys_inv] describes the states reachable under the protocol [enabled]: the
    queue and the done queue are well-formed linked lists, each task is in
    exactly one place, the heap holds the tasks and the buffers they own and
    nothing else, each waiting coroutine is tied to one task, and the counters
    and histories agree with the lists.  The lemmas of this file prove that each
    step succeeds and keeps it. *)

From S2P Require Import Prelude World TaskQueue FfiTask FfiQueue EventHandler Ownership System.
From S2P Require Import Spec.

Definition marker_list (mk : option loc) : list loc :=
  match mk with None => [] | Some m => [m] end.

(** The threads inside [task_poll]. *)
Definition inside (q : ffi_task_queue_t) : list tid := cv_waiters (cond q) ++ cv_woken (cond q).

(** The request queue holds [ql]; [lost] polls failed after decrementing
    [waiting]; [mk] tells whether the finish marker was appended. *)
Record queue_inv (w : world) (tq : loc) (q : ffi_task_queue_t) (ql : list loc) (lost : nat)
    (mk : option loc) : Prop := {
  qi_ready : queue_ready w tq q;
  qi_repr : queue_repr (tasks w) (SQueueFirst (Ptr tq 0)) (queue q) ql;
  qi_waiting : waiting q + Z.of_nat lost + Z.of_nat (length (inside q)) = Z.of_nat (length ql);
  qi_bound : waiting q ≤ Z.max 0 (max_queue q) + Z.of_nat (length (marker_list mk));
  qi_nodup : NoDup (inside q);
  (* no lost wake-up: a blocked thread implies enough woken threads *)
  qi_wakeup : cv_waiters (cond q) ≠ [] → (length ql ≤ length (cv_woken (cond q)))%nat;
}.

(** What other runtimes of the same worker own beside the tasks: their queues,
    and their finish markers. *)
Record frame := Frame {
  f_queues : gset loc;
  f_marks : list loc;
}.

Definition no_frame : frame := Frame ∅ [].

Record sys_inv_in (F : frame) (s : sys) (pl : list loc) (mk : option loc) (dl : list loc) : Prop := {
  si_queue : match queues (sw s) !! s_tq s with
             | None => pl = [] ∧ mk = None ∧ s_finished s = true
             | Some q => queue_inv (sw s) (s_tq s) q (pl ++ marker_list mk) (s_lost s) mk
             end;
  si_only : ∀ l, is_Some (queues (sw s) !! l) → l = s_tq s ∨ l ∈ f_queues F;
  si_done : queue_repr (tasks (sw s)) SDoneFirst (pool_done (sw s)) dl;
  si_lock : done_lock (sw s) = false;
  si_heap : heap_inv (views (tasks (sw s))) (bufs (sw s))
              (pl ++ marker_list mk ++ s_held s ++ dl ++ s_inflight s ++ f_marks F) (brk (sw s));
  si_co : co_inv (views (tasks (sw s))) (sw s) (s_waiting s);
  si_marker : ∀ m, mk = Some m → s_finished s = true ∧ views (tasks (sw s)) !! m = Some marker_view;
  si_tasks : ∀ t, t ∈ pl ++ s_held s ++ dl ++ s_inflight s →
               ∃ c, views (tasks (sw s)) !! t = Some (task_view t c);
  si_unanswered : ∀ t c, t ∈ pl ++ s_held s →
               views (tasks (sw s)) !! t = Some (task_view t c) → c_rsp c = None;
  si_posted : s_posted s = s_polled s ++ pl;
  si_polled : s_polled s ≡ₚ s_held s ++ dl ++ s_inflight s ++ s_handled s;
  si_nodup : NoDup (s_posted s);
  si_old : ∀ t, t ∈ s_posted s → (t < brk (sw s))%nat;
  si_apart : ∀ m, mk = Some m → m ∉ s_posted s;
  si_marks : ∀ m, m ∈ f_marks F → views (tasks (sw s)) !! m = Some marker_view;
  si_foreign : ∀ m, m ∈ f_marks F → m ∉ s_posted s;
}.

Arguments si_queue {F}.
Arguments si_only {F}.
Arguments si_done {F}.
Arguments si_lock {F}.
Arguments si_heap {F}.
Arguments si_co {F}.
Arguments si_marker {F}.
Arguments si_tasks {F}.
Arguments si_unanswered {F}.
Arguments si_posted {F}.
Arguments si_polled {F}.
Arguments si_nodup {F}.
Arguments si_old {F}.
Arguments si_apart {F}.
Arguments si_marks {F}.
Arguments si_foreign {F}.

(** The queue is the only one. *)
Abbreviation sys_inv := (sys_inv_in no_frame).

(** *** What a task carries *)

(** The request of a task with context [c], as [post] was given it. *)
Definition has_request (w : world) (c : ffi_task_ctx_t) (req : option (list byte)) : Prop :=
  match req with
  | None => c_req c = None ∧ c_req_len c = 0
  | Some b => ∃ p, c_req c = Some p ∧ p_off p = 0 ∧ bufs w !! p_blk p = Some (b ++ [x00]) ∧
                   c_req_len c = Z.of_nat (length b)
  end.

(** Its response, as [respond] was given it. *)
Definition has_response (w : world) (c : ffi_task_ctx_t) (rc : Z) (rsp : option (list byte)) (len : Z) : Prop :=
  c_rc c = rc ∧ c_rsp_len c = len ∧
  match rsp with
  | None => c_rsp c = None
  | Some b => ∃ p, c_rsp c = Some p ∧ p_off p = 0 ∧ bufs w !! p_blk p = Some b
  end.

(** Event [e] gives a new task its request and an answered task its response, marks
    the tasks of a killed coroutine, and leaves what the tasks carry as it was otherwise. *)
Record contents (w : world) (e : event) (w' : world) : Prop := {
  cn_request : ∀ t c c', views (tasks w) !! t = Some (task_view t c) →
    views (tasks w') !! t = Some (task_view t c') →
    c_wait_co_ctx c' = c_wait_co_ctx c ∧ c_req c' = c_req c ∧ c_req_len c' = c_req_len c;
  cn_response : ∀ t c c', views (tasks w) !! t = Some (task_view t c) →
    views (tasks w') !! t = Some (task_view t c') → (∀ rc rsp len, e ≠ ERespond t rc rsp len) →
    c_rc c' = c_rc c ∧ c_rsp c' = c_rsp c ∧ c_rsp_len c' = c_rsp_len c;
  cn_abort : ∀ t c c', views (tasks w) !! t = Some (task_view t c) →
    views (tasks w') !! t = Some (task_view t c') → (∀ k, e = EKill k → c_wait_co_ctx c ≠ Some k) →
    c_is_abort c' = c_is_abort c;
  cn_bufs : ∀ t x l, views (tasks w) !! t = Some x → is_Some (views (tasks w') !! t) → l ∈ owned x →
    bufs w' !! l = bufs w !! l;
  cn_post : ∀ env r req t c, e = EPost env r req → views (tasks w) !! t = None →
    views (tasks w') !! t = Some (task_view t c) → c_wait_co_ctx c = current w r ∧ c_is_abort c = 0 ∧
    c_rsp c = None ∧ has_request w' c req;
  cn_answer : ∀ t rc rsp len c, e = ERespond t rc rsp len → views (tasks w') !! t = Some (task_view t c) →
    has_response w' c rc rsp len;
}.

Definition no_answer (e : event) : Prop := ∀ t rc rsp len, e ≠ ERespond t rc rsp len.

Lemma contents_kept w e w' :
  (∀ t x x', views (tasks w) !! t = Some x → views (tasks w') !! t = Some x' → x' = x) →
  (∀ env r req t c, e = EPost env r req → views (tasks w) !! t = None →
     views (tasks w') !! t ≠ Some (task_view t c)) →
  (∀ t x l, views (tasks w) !! t = Some x → is_Some (views (tasks w') !! t) → l ∈ owned x →
     bufs w' !! l = bufs w !! l) →
  no_answer e → contents w e w'.
Proof.
  intros Hv Hn Hb He. split; [| | |done| |].
  - intros t c c' H H'. specialize (Hv t _ _ H H'). unfold task_view in Hv. by simplify_eq.
  - intros t c c' H H' _. specialize (Hv t _ _ H H'). unfold task_view in Hv. by simplify_eq.
  - intros t c c' H H' _. specialize (Hv t _ _ H H'). unfold task_view in Hv. by simplify_eq.
  - intros env r req t c E H H'. by destruct (Hn env r req t c).
  - intros t rc rsp len c E. by destruct (He t rc rsp len).
Qed.

Lemma contents_same w e w' :
  views (tasks w') = views (tasks w) → bufs w' = bufs w → no_answer e → contents w e w'.
Proof.
  intros Ht Hb. apply contents_kept; [congruence| |by rewrite Hb].
  intros env r req t c _. rewrite Ht. congruence.
Qed.

(** A new task, with buffers that were not in use. *)
Lemma contents_new w env r req w' t c :
  views (tasks w) !! t = None → views (tasks w') = <[t := task_view t c]> (views (tasks w)) →
  (∀ y x l, views (tasks w) !! y = Some x → l ∈ owned x → bufs w' !! l = bufs w !! l) →
  c_wait_co_ctx c = current w r → c_is_abort c = 0 → c_rsp c = None → has_request w' c req →
  contents w (EPost env r req) w'.
Proof.
  intros Hf Hv Hb Hw Ha Hr Hq.
  assert (∀ y z, views (tasks w) !! y = Some z → views (tasks w') !! y = Some z) as Hold.
  { intros y z Hy. rewrite Hv, lookup_insert_ne; [done|]. intros <-. congruence. }
  split; [| | |intros y z l Hy _; by eapply Hb| |done].
  - intros y c0 c1 H0%Hold H1. rewrite H0 in H1. unfold task_view in H1. by simplify_eq.
  - intros y c0 c1 H0%Hold H1 _. rewrite H0 in H1. unfold task_view in H1. by simplify_eq.
  - intros y c0 c1 H0%Hold H1 _. rewrite H0 in H1. unfold task_view in H1. by simplify_eq.
  - intros env' r' req' y c0 [= <- <- <-] Hn H1. rewrite Hv in H1.
    destruct (decide (y = t)) as [->|Hne]; [|rewrite lookup_insert_ne in H1 by done; congruence].
    rewrite lookup_insert_eq in H1. by injection H1 as <-.
Qed.

(** Event [e] leaves the other queues alone, and the links of the tasks that are
    neither queued nor answered by it. *)
Record untouched (s : sys) (e : event) (s' : sys) (keep : list loc) : Prop := {
  un_queues : ∀ j, j ≠ s_tq s → queues (sw s') !! j = queues (sw s) !! j;
  un_links : ∀ l, (∀ y, y ∈ l → y ∈ keep) → (∀ t rc rsp len, e = ERespond t rc rsp len → t ∉ l) →
               same_links (tasks (sw s)) (tasks (sw s')) l;
  un_brk : (brk (sw s) ≤ brk (sw s'))%nat;
  un_contents : contents (sw s) e (sw s');
}.

(** [s'] satisfies the invariant, and event [e] of the abstract machine leads to it. *)
Definition simulates (F : frame) (s : sys) (pl : list loc) (mk : option loc) (dl : list loc) (e : event)
    (s' : sys) : Prop :=
  ∃ pl' mk' dl', sys_inv_in F s' pl' mk' dl' ∧ spec_step e (abs s pl mk dl) (abs s' pl' mk' dl') ∧
    untouched s e s' (s_held s ++ f_marks F).

Lemma untouched_tasks s e s' keep :
  tasks (sw s') = tasks (sw s) → (∀ j, j ≠ s_tq s → queues (sw s') !! j = queues (sw s) !! j) →
  (brk (sw s) ≤ brk (sw s'))%nat → bufs (sw s') = bufs (sw s) →
  no_answer e → untouched s e s' keep.
Proof.
  intros Ht Hq Hb Hbs He. split; [done| |done|by apply contents_same; [rewrite Ht|..]].
  intros l _ _. rewrite Ht. intros x b _ Hx. eauto.
Qed.

(** ** Consequences used by the step lemmas *)

Section framed.
Context {F : frame}.
#[local] Abbreviation sys_inv := (sys_inv_in F).

Lemma live_threadb_spec w x : live_threadb w x = true ↔ live_thread w x.
Proof.
  unfold live_threadb, live_thread. destruct (threads w !! co x) as [th|].
  - destruct (l_req th) as [r|] eqn:E; [rewrite bool_decide_eq_true|]; split.
    + intros Hr. exists th. split; [done|]. intros r' Hr'. by simplify_eq.
    + intros (th' & [= <-] & H). by apply H.
    + intros _. exists th. split; [done|]. intros r' Hr'. congruence.
    + done.
  - split; [done|]. by intros (? & ? & _).
Qed.

Lemma view_task_block m t c :
  views m !! t = Some (task_view t c) →
  ∃ b, m !! t = Some b ∧ t_ctx (tb_task b) = Some (Ptr t 1) ∧
       ev_data (t_event (tb_task b)) = Some (Ptr t 1) ∧ tb_ctx b = Some c.
Proof.
  intros (b & Hb & Hv)%views_lookup. unfold view, task_view in Hv. simplify_eq. eauto.
Qed.

Lemma view_marker_block m t :
  views m !! t = Some marker_view →
  ∃ b, m !! t = Some b ∧ t_ctx (tb_task b) = None ∧ tb_ctx b = None.
Proof.
  intros (b & Hb & Hv)%views_lookup. unfold view, marker_view in Hv. simplify_eq. eauto.
Qed.

Lemma sys_inv_fresh s pl mk dl :
  sys_inv s pl mk dl →
  tasks (sw s) !! brk (sw s) = None ∧ bufs (sw s) !! brk (sw s) = None.
Proof.
  intros H. destruct (si_heap _ _ _ _ H) as [_ _ Hf Hb _ _ _]. split.
  - destruct (tasks (sw s) !! brk (sw s)) eqn:E; [|done].
    assert (brk (sw s) < brk (sw s))%nat; [|lia]. apply Hf. erewrite views_some; eauto.
  - destruct (bufs (sw s) !! brk (sw s)) eqn:E; [|done].
    assert (brk (sw s) < brk (sw s))%nat; [|lia]. apply Hb. eauto.
Qed.

(** Waking one thread moves it from the blocked to the woken ones. *)
Lemma wake_one_perm pick c :
  NoDup (cv_waiters c ++ cv_woken c) →
  cv_live (wake_one pick c) = cv_live c ∧
  cv_waiters (wake_one pick c) ++ cv_woken (wake_one pick c) ≡ₚ cv_waiters c ++ cv_woken c ∧
  (cv_waiters c ≠ [] → length (cv_woken (wake_one pick c)) = S (length (cv_woken c))) ∧
  (cv_waiters (wake_one pick c) ≠ [] → cv_waiters c ≠ []).
Proof.
  intros Hnd. unfold wake_one. destruct (cv_waiters c) as [|x l] eqn:E; [by rewrite E|].
  set (y := if decide (pick ∈ x :: l) then pick else x). simpl.
  assert (y ∈ x :: l) as Hy by (unfold y; case_decide; [done|by left]).
  split; [done|]. split; [|split; [|done]].
  - apply NoDup_app in Hnd as (Hnd & _ & _).
    trans ((y :: filter (λ z, z ≠ y) (x :: l)) ++ cv_woken c).
    + rewrite app_assoc, Permutation_app_comm. done.
    + by rewrite <-(filter_ne_perm y (x :: l) Hnd Hy).
  - intros _. rewrite length_app. simpl. lia.
Qed.

Lemma is_Some_alter {A} (f : A → A) (m : gmap loc A) i j :
  is_Some (alter f i m !! j) ↔ is_Some (m !! j).
Proof. rewrite lookup_alter. case_decide as E; [|done]. rewrite E. apply fmap_is_Some. Qed.

Lemma finished_marker s pl mk dl : sys_inv s pl mk dl → s_finished s = false → mk = None.
Proof.
  intros H Hf. destruct mk as [m|]; [|done]. destruct (si_marker _ _ _ _ H m); congruence.
Qed.

(** Worlds that differ only in what the program does not own. *)
Lemma queue_inv_ext w w' tp q ql lost mk :
  tasks w' = tasks w → queues w' = queues w →
  queue_inv w tp q ql lost mk → queue_inv w' tp q ql lost mk.
Proof. intros Ht Hq [[] ? ? ? ? ?]. split; try done; [by split; rewrite ?Hq|by rewrite Ht]. Qed.

Lemma sys_inv_quiet s w' pl mk dl :
  sys_inv s pl mk dl →
  tasks w' = tasks (sw s) → bufs w' = bufs (sw s) → queues w' = queues (sw s) →
  pool_done w' = pool_done (sw s) → done_lock w' = done_lock (sw s) →
  (brk (sw s) ≤ brk w')%nat → co_frame (λ k, k ∈ s_waiting s) (sw s) w' →
  sys_inv (set_world w' s) pl mk dl.
Proof.
  intros [A B C D E G M H I J K L N O P Q] Ht Hb Hq Hd Hl Hn Hf. split; simpl; rewrite ?Ht, ?Hb, ?Hq, ?Hd, ?Hl; try done.
  - destruct (queues (sw s) !! s_tq s); [|done]. by eapply queue_inv_ext.
  - by eapply heap_inv_brk.
  - by eapply co_inv_frame.
  - intros t Hp. specialize (N t Hp). lia.
Qed.
Lemma inside_queue_posted env l t q :
  NoDup (inside q) →
  length (inside (posted_queue env l t q)) = length (inside q) ∧
  NoDup (inside (posted_queue env l t q)) ∧
  (cv_waiters (cond (posted_queue env l t q)) ≠ [] →
     cv_waiters (cond q) ≠ [] ∧
     length (cv_woken (cond (posted_queue env l t q))) = S (length (cv_woken (cond q)))).
Proof.
  intros Hni. destruct (wake_one_perm (e_wake env) (cond q) Hni) as (_ & Hperm & Hlen & Hne).
  unfold inside in *. simpl. split; [by rewrite Hperm|]. split; [by rewrite Hperm|].
  intros H. specialize (Hne H). auto.
Qed.

(** A task appended behind [l]: the queue keeps its shape and its accounting. *)
Lemma queue_inv_appended w w' env tp q l t b lost mk mk' :
  queue_inv w tp q l lost mk →
  t ∉ l → t_next (tb_task b) = None →
  tasks w' = link l t (<[t := b]> (tasks w)) →
  queues w' = alter (posted_queue env l t) tp (queues w) →
  waiting q + 1 ≤ Z.max 0 (max_queue q) + Z.of_nat (length (marker_list mk')) →
  queue_inv w' tp (posted_queue env l t q) (l ++ [t]) lost mk'.
Proof.
  intros [[Hq Hm Hc] Hr Hwt _ Hni Hwk] Htl Hn Ht Hqs Hb.
  destruct (inside_queue_posted env l t q Hni) as (Hlen & Hnd & Hwake).
  destruct (wake_one_perm (e_wake env) (cond q) Hni) as (Hlive & _).
  split.
  - split; [by rewrite Hqs, lookup_alter_eq, Hq|done|]. simpl. by rewrite Hlive.
  - rewrite Ht. simpl. eapply queue_repr_append.
    + eapply queue_repr_frame; [|exact Hr]. by apply same_links_insert_ne.
    + done.
    + by rewrite lookup_insert_eq.
    + done.
  - rewrite Hlen, length_app. simpl. lia.
  - done.
  - done.
  - intros Hne. destruct (Hwake Hne) as [Hne' ->]. specialize (Hwk Hne').
    rewrite length_app. simpl. lia.
Qed.

(** A block that is not allocated is in no list. *)
Lemma fresh_nowhere s pl mk dl t :
  sys_inv s pl mk dl → tasks (sw s) !! t = None →
  t ∉ pl ++ marker_list mk ++ s_held s ++ dl ++ s_inflight s ++ f_marks F.
Proof.
  intros H Ht Hin. apply (hi_dom _ _ _ _ (si_heap _ _ _ _ H)) in Hin.
  rewrite views_none in Hin by done. by destruct Hin.
Qed.

(** The lists are disjoint; this is what the two queues need. *)
Lemma queue_done_disjoint s pl mk dl y :
  sys_inv s pl mk dl → y ∈ pl ++ marker_list mk → y ∉ dl.
Proof.
  intros H Hy Hy'. pose proof (hi_nodup _ _ _ _ (si_heap _ _ _ _ H)) as Hnd.
  rewrite app_assoc in Hnd. apply NoDup_app in Hnd as (_ & Hd & _). apply (Hd y Hy). mem.
Qed.

Lemma queued_not_kept s pl mk dl y :
  sys_inv s pl mk dl → y ∈ pl ++ marker_list mk → y ∉ s_held s ++ f_marks F.
Proof.
  intros H Hy Hy'. pose proof (hi_nodup _ _ _ _ (si_heap _ _ _ _ H)) as Hnd.
  rewrite app_assoc in Hnd. apply NoDup_app in Hnd as (_ & Hd & _). apply (Hd y Hy). mem.
Qed.

(** Linking a block behind the tasks [l] does not disturb a queue that shares
    no block with them. *)
Lemma queue_repr_link_other m self q dl l t b :
  queue_repr m self q dl → t ∉ dl → (∀ y, y ∈ l → y ∉ dl) →
  queue_repr (link l t (<[t := b]> m)) self q dl.
Proof.
  intros Hr Ht Hd. eapply queue_repr_frame; [|exact Hr].
  eapply same_links_trans; [by apply same_links_insert_ne|].
  apply same_links_link. intros z Hz. by eapply link_last_notin.
Qed.

(** Adding block [t] leaves the views of the tasks that are somewhere alone. *)
Lemma views_somewhere s pl mk dl t x y :
  sys_inv s pl mk dl → tasks (sw s) !! t = None →
  y ∈ pl ++ marker_list mk ++ s_held s ++ dl ++ s_inflight s ++ f_marks F →
  <[t := x]> (views (tasks (sw s))) !! y = views (tasks (sw s)) !! y.
Proof.
  intros H Ht Hy. rewrite lookup_insert_ne; [done|]. intros ->.
  by apply (fresh_nowhere _ _ _ _ _ H Ht).
Qed.

(** *** A task appended to the request queue

    What [ngx_task_post] does for both [task_post] and [task_finish]: block [t]
    with contents [b] is added behind the tasks of [pl]. *)
Section enqueue.
Context (env : sysenv) (s : sys) (pl dl : list loc) (t : loc) (b : task_block) (w' : world).
Hypothesis Hinv : sys_inv s pl None dl.
Hypothesis Hfresh : tasks (sw s) !! t = None.
Hypothesis Hnext : t_next (tb_task b) = None.
Hypothesis Htasks : tasks w' = link pl t (<[t := b]> (tasks (sw s))).
Hypothesis Hqueues : queues w' = alter (posted_queue env pl t) (s_tq s) (queues (sw s)).
Hypothesis Hdone : pool_done w' = pool_done (sw s).

Lemma enqueue_queue q mk' :
  queues (sw s) !! s_tq s = Some q →
  waiting q + 1 ≤ Z.max 0 (max_queue q) + Z.of_nat (length (marker_list mk')) →
  queues w' !! s_tq s = Some (posted_queue env pl t q) ∧
  queue_inv w' (s_tq s) (posted_queue env pl t q) (pl ++ [t]) (s_lost s) mk'.
Proof using Hinv Hfresh Hnext Htasks Hqueues.
  intros Hq Hb. split; [by rewrite Hqueues, lookup_alter_eq, Hq|].
  pose proof (si_queue _ _ _ _ Hinv) as Hqi. rewrite Hq in Hqi. simpl in Hqi.
  rewrite app_nil_r in Hqi. eapply queue_inv_appended; [exact Hqi| |done..].
  intros Hin. destruct (queue_repr_live _ _ _ _ _ (qi_repr _ _ _ _ _ _ Hqi) Hin) as [x Hx]. congruence.
Qed.

Lemma enqueue_only l : is_Some (queues w' !! l) → l = s_tq s ∨ l ∈ f_queues F.
Proof using Hinv Hqueues. rewrite Hqueues, is_Some_alter. apply Hinv. Qed.

Lemma enqueue_untouched e s' :
  sw s' = w' → (brk (sw s) ≤ brk w')%nat → contents (sw s) e w' → untouched s e s' (s_held s ++ f_marks F).
Proof using Hinv Hfresh Htasks Hqueues.
  intros Hs' Hb Hc. split; rewrite Hs'; [| |done|done].
  - intros j Hj. by rewrite Hqueues, lookup_alter_ne.
  - intros l Hl _. rewrite Htasks. eapply same_links_trans; [apply same_links_insert_ne|apply same_links_link].
    + intros Hin%Hl. apply (fresh_nowhere _ _ _ _ _ Hinv Hfresh). mem.
    + intros z Hz. eapply link_last_notin; [|done]. intros y Hy Hin%Hl.
      apply (queued_not_kept _ _ _ _ y Hinv); [mem|done].
Qed.

Lemma enqueue_done : queue_repr (tasks w') SDoneFirst (pool_done w') dl.
Proof using Hinv Hfresh Htasks Hdone.
  rewrite Htasks, Hdone. apply queue_repr_link_other; [apply Hinv| |].
  - intros Hin. apply (fresh_nowhere _ _ _ _ _ Hinv Hfresh). mem.
  - intros y Hy. apply (queue_done_disjoint _ _ _ _ _ Hinv). mem.
Qed.
End enqueue.

(** ** The counter and the abstract backlog *)

Lemma marker_count mk :
  Z.of_nat (length (marker_list mk)) = if bool_decide (is_Some mk) then 1 else 0.
Proof. destruct mk; [by rewrite bool_decide_true by (by eexists)|]. done. Qed.

(** The counter [waiting] is the abstract backlog. *)
Lemma backlog_abs s pl mk dl q :
  sys_inv s pl mk dl → queues (sw s) !! s_tq s = Some q →
  backlog (abs s pl mk dl) = waiting q.
Proof.
  intros Hinv Hq. pose proof (si_queue _ _ _ _ Hinv) as H. rewrite Hq in H.
  pose proof (qi_waiting _ _ _ _ _ _ H) as Hw. pose proof (qi_nodup _ _ _ _ _ _ H) as Hn.
  unfold backlog, abs. simpl. rewrite Hq. simpl. unfold inside in *.
  rewrite size_list_to_set by done. rewrite (length_app pl), Nat2Z.inj_add, marker_count in Hw. lia.
Qed.

Lemma admits_abs env s pl mk dl q :
  sys_inv s pl mk dl → queues (sw s) !! s_tq s = Some q →
  admits env (abs s pl mk dl) = negb (refused env q).
Proof.
  intros Hinv Hq. unfold admits. rewrite (backlog_abs _ _ _ _ _ Hinv Hq). simpl. rewrite Hq. simpl.
  unfold refused. rewrite !negb_orb, !negb_involutive, <-Z.ltb_antisym.
  destruct (e_lock env =? NGX_OK), (e_signal env =? NGX_OK); simpl; by rewrite ?andb_true_r, ?andb_false_r.
Qed.

(** Posting wakes a thread but does not change who waits. *)
Lemma pollers_posted env l t q :
  NoDup (inside q) →
  (list_to_set (inside (posted_queue env l t q)) : gset tid) = list_to_set (inside q).
Proof.
  intros Hn. destruct (wake_one_perm (e_wake env) (cond q) Hn) as (_ & Hp & _).
  unfold inside in *. simpl. by apply list_to_set_perm_L.
Qed.
End framed.
