(* ===== verification/Posting.v ===== *)
(** * Posting: [ngx_http_lua_ffi_task_post] and [ngx_http_lua_ffi_task_finish]
    succeed in every reachable state and keep the invariant. *)

From S2P Require Import Prelude World TaskQueue FfiTask FfiQueue EventHandler Ownership System.
From S2P Require Import Spec Invariant.

Section framed.
Context {F : frame}.
#[local] Abbreviation sys_inv := (sys_inv_in F).
#[local] Abbreviation simulates := (simulates F).

(** ** Posting *)

(** [lua_post] first copies the request. *)
Definition post_world (w : world) (req : option (list byte)) : world :=
  match req with
  | Some s => upd_brk S (upd_bufs <[brk w := s ++ [x00]]> w)
  | None => w
  end.
Definition post_ptr (w : world) (req : option (list byte)) : option ptr :=
  match req with Some _ => Some (Ptr (brk w) 0) | None => None end.
Definition post_len (req : option (list byte)) : Z :=
  match req with Some s => Z.of_nat (length s) | None => 0 end.

Lemma lua_post_split env r tq req w :
  lua_post env r tq req w =
    ngx_http_lua_ffi_task_post env r tq (post_ptr w req) (post_len req) (post_world w req).
Proof. by destruct req. Qed.

Lemma post_world_facts w req :
  tasks (post_world w req) = tasks w ∧ queues (post_world w req) = queues w ∧
  pool_done (post_world w req) = pool_done w ∧ done_lock (post_world w req) = done_lock w ∧
  cos (post_world w req) = cos w ∧ threads (post_world w req) = threads w ∧
  reqs (post_world w req) = reqs w ∧ (brk w ≤ brk (post_world w req))%nat.
Proof. destruct req; repeat split; simpl; lia. Qed.

Lemma post_buf_live w req : buf_live (bufs (post_world w req)) (post_ptr w req).
Proof. destruct req; simpl; [|done]. split; [done|]. rewrite lookup_insert_eq. by eexists. Qed.

(** The context of a posted task: it owns the request copy and nothing else. *)
Definition posted_ctx (k : cid) (p : option ptr) (len : Z) : ffi_task_ctx_t :=
  FfiCtx (Some k) 0 p len None 0 0.

Lemma posted_ctx_reowned v m all n req w k t :
  heap_inv v m all n → m = bufs w → n = brk w → v !! t = None →
  reowned v m (bufs (post_world w req)) t (task_view t (posted_ctx k (post_ptr w req) (post_len req))).
Proof.
  intros H -> -> Ht. split; unfold owned, owned_ctx; simpl.
  - intros l Hl. destruct req as [s|]; simpl in Hl; [|by apply not_elem_of_nil in Hl].
    apply list_elem_of_singleton in Hl as ->. simpl. rewrite lookup_insert_eq.
    split; [eauto|]. intros t' x' _ Hx' Hl.
    pose proof (owned_live _ _ _ _ _ _ _ H Hx' Hl) as Hs.
    pose proof (hi_fresh_buf _ _ _ _ H _ Hs). lia.
  - intros l x0 _ Hx0. congruence.
  - intros l Hl _. destruct req as [s|]; simpl in *; [|done].
    rewrite lookup_insert_ne; [done|]. intros <-. apply Hl. by left.
Qed.

Lemma posted_ctx_wf w req k :
  ctx_wf (bufs (post_world w req)) (posted_ctx k (post_ptr w req) (post_len req)).
Proof.
  split; [|by eexists]. split; simpl; [apply post_buf_live|done|done].
Qed.

Lemma current_poster s r k x :
  current (sw s) r = Some k → cos (sw s) !! k = Some x → poster (sw s) r k.
Proof.
  unfold current. intros Hc Hx. split; [|by eexists].
  destruct (reqs (sw s) !! r) as [y|]; simpl in Hc; [|done].
  destruct (r_ctx y) as [lc|] eqn:E; simpl in Hc; [|done]. eauto.
Qed.

(** Arming the cleanup handler of a coroutine that does not wait disturbs no
    waiting coroutine. *)
Lemma co_frame_armed (P : cid → Prop) w w' t k :
  cos w' = alter (armed t) k (cos w) → threads w' = threads w → reqs w' = reqs w →
  ¬ P k → co_frame P w w'.
Proof.
  intros Hc Ht Hr Hk k' y Hk' Hy (th & Hth & Hl).
  rewrite Hc, lookup_alter_ne by (by intros ->). split; [done|].
  exists th. rewrite Ht, Hr. done.
Qed.

Section step_post.
Context (env : sysenv) (r : rid) (req : option (list byte)).
Context (s : sys) (pl : list loc) (mk : option loc) (dl : list loc).
Hypothesis Hinv : sys_inv s pl mk dl.
Hypothesis Hen : enabled s (EPost env r req) = true.

Let w := sw s.
Let t := brk (post_world w req).

Lemma post_enabled_facts :
  s_finished s = false ∧ e_calloc env = true ∧ e_unlock env = NGX_OK ∧ mk = None ∧
  (∃ q, queues w !! s_tq s = Some q ∧ queue_inv w (s_tq s) q pl (s_lost s) None) ∧
  ∃ k x, current w r = Some k ∧ k ∉ s_waiting s ∧ cos w !! k = Some x ∧ live_thread w x.
Proof using Hinv Hen.
  simpl in Hen. fold w in Hen. rewrite !andb_true_iff in Hen.
  destruct Hen as [[[Hf Hc] Hu] Hk]. apply negb_true_iff in Hf. apply Z.eqb_eq in Hu.
  assert (mk = None) as Hmk.
  { destruct mk as [m|]; [|done]. destruct (si_marker _ _ _ _ Hinv m) as [? _]; congruence. }
  repeat (split; [done|]). split.
  - pose proof (si_queue _ _ _ _ Hinv) as Hq. fold w in Hq.
    destruct (queues w !! s_tq s) as [q|].
    + exists q. split; [done|]. rewrite Hmk in Hq. simpl in Hq. by rewrite app_nil_r in Hq.
    + destruct Hq as (_ & _ & ?). congruence.
  - destruct (current w r) as [k|]; [|done]. apply andb_true_iff in Hk as [Hk Hx].
    apply bool_decide_eq_true in Hk.
    destruct (cos w !! k) as [x|] eqn:E; [|done]. exists k, x. by rewrite <-live_threadb_spec.
Qed.

Lemma t_fresh : tasks w !! t = None ∧ (brk w ≤ t)%nat.
Proof using Hinv.
  assert (brk w ≤ t)%nat as Hle by apply post_world_facts. split; [|done].
  destruct (tasks w !! t) eqn:E; [|done].
  assert (t < brk w)%nat; [|lia]. eapply (hi_fresh _ _ _ _ (si_heap _ _ _ _ Hinv)).
  erewrite views_some; eauto.
Qed.


(** The state after the post. *)
Definition accepted_state (k : cid) (w' : world) : sys :=
  Sys w' (s_tq s) (s_finished s) (s_held s) (s_inflight s) ({[ k ]} ∪ s_waiting s)
      (s_posted s ++ [t]) (s_polled s) (s_handled s) (s_lost s).

Section accepted.
Context (q : ffi_task_queue_t) (k : cid) (x : co_ctx) (w' : world).
Hypothesis Hmk : mk = None.
Hypothesis Hk : k ∉ s_waiting s.
Hypothesis Hx : cos w !! k = Some x.
Hypothesis Hl : live_thread w x.

Let c := posted_ctx k (post_ptr w req) (post_len req).
Hypothesis Hw' :
  w' = upd_queues (alter (posted_queue env pl t) (s_tq s))
         (upd_tasks (λ m, link pl t
            (<[t := map_tb_task mark_active (posted_block k t (post_ptr w req) (post_len req))]> m))
            (upd_cos (alter (armed t) k) (upd_brk S (post_world w req)))).

Lemma accepted_views : views (tasks w') = <[t := task_view t c]> (views (tasks w)).
Proof using Type*.
  subst w'. simpl. rewrite views_link, views_insert. by destruct req.
Qed.

Lemma accepted_heap :
  heap_inv (views (tasks w')) (bufs w')
    ((pl ++ [t]) ++ s_held s ++ dl ++ s_inflight s ++ f_marks F) (brk w').
Proof using Type*.
  destruct t_fresh as [Htf Hbt]. pose proof (si_heap _ _ _ _ Hinv) as H. rewrite Hmk in H.
  apply heap_inv_perm with (t :: pl ++ s_held s ++ dl ++ s_inflight s ++ f_marks F).
  { rewrite <-app_assoc. simpl. by rewrite Permutation_middle. }
  rewrite accepted_views, Hw'. simpl.
  eapply heap_inv_new; [exact H|by apply views_none|fold w; fold t; lia|fold t; lia| | |].
  - right. eexists. split; [done|]. apply posted_ctx_wf.
  - eapply posted_ctx_reowned; [exact H|done|done|by apply views_none].
  - intros l. unfold owned, owned_ctx. simpl. destruct req; simpl; [|set_solver].
    intros ->%list_elem_of_singleton. fold t. unfold t. simpl. lia.
Qed.

Lemma accepted_co : co_inv (views (tasks w')) w' ({[ k ]} ∪ s_waiting s).
Proof using Type*.
  destruct t_fresh as [Htf _].
  destruct (post_world_facts w req) as (Et & Eq & Ed & El & Ec & Eth & Er & _).
  rewrite accepted_views. eapply co_inv_new; [apply Hinv|by apply views_none| | |].
  - intros c' [= <-] _. exists k. split; [done|]. split; [set_solver|].
    exists (armed t x). subst w'. simpl. rewrite Ec, lookup_alter_eq. rewrite Hx.
    repeat (split; [done|]).
    destruct Hl as (th & Hth & Hl'). exists th. simpl. by rewrite Eth, Er.
  - intros k'. rewrite elem_of_union, elem_of_singleton. split.
    + intros [->|Hk']; [right; by eexists|by left].
    + intros [?|(c' & [= <-] & _ & [= <-])]; auto.
  - eapply (co_frame_armed _ _ _ t k); subst w'; simpl; [by rewrite Ec|done|done|done].
Qed.

Lemma accepted_tasks y :
  y ∈ (pl ++ [t]) ++ s_held s ++ dl ++ s_inflight s →
  ∃ c', views (tasks w') !! y = Some (task_view y c').
Proof using Type*.
  destruct t_fresh as [Htf _]. intros Hy. rewrite accepted_views.
  destruct (decide (y = t)) as [->|Hne]; [rewrite lookup_insert_eq; eauto|].
  rewrite lookup_insert_ne by done. apply (si_tasks _ _ _ _ Hinv).
  rewrite !elem_of_app, list_elem_of_singleton in Hy. rewrite !elem_of_app. tauto.
Qed.

Lemma accepted_unanswered y c' :
  y ∈ (pl ++ [t]) ++ s_held s →
  views (tasks w') !! y = Some (task_view y c') → c_rsp c' = None.
Proof using Type*.
  destruct t_fresh as [Htf _]. intros Hy. rewrite accepted_views.
  destruct (decide (y = t)) as [->|Hne].
  - rewrite lookup_insert_eq. by intros [= <-].
  - rewrite lookup_insert_ne by done. apply (si_unanswered _ _ _ _ Hinv).
    rewrite !elem_of_app, list_elem_of_singleton in Hy. rewrite !elem_of_app. tauto.
Qed.

(** The other tasks keep what they carry, and the new one carries the request. *)
Lemma accepted_contents : current w r = Some k → contents w (EPost env r req) w'.
Proof using Type*.
  intros Hcur. destruct t_fresh as [Htf Hbt]. assert (bufs w' = bufs (post_world w req)) as Eb by (rewrite Hw'; done).
  eapply contents_new; [by apply views_none|exact accepted_views| |done..|].
  - intros y z l Hy Hin. rewrite Eb. destruct req; simpl; [|done]. rewrite lookup_insert_ne; [done|].
    intros <-. destruct (sys_inv_fresh _ _ _ _ Hinv) as [_ Hfb]. fold w in Hfb.
    assert (is_Some (bufs w !! brk w)) as Hlv by (eapply owned_live; [apply Hinv|exact Hy|exact Hin]).
    rewrite Hfb in Hlv. by destruct Hlv.
  - subst c. destruct req as [b|]; simpl; [|done]. eexists. do 2 (split; [done|]). simpl. split; [|done].
    rewrite Eb. simpl. by rewrite lookup_insert_eq.
Qed.

Lemma accepted_posted y :
  NoDup (s_posted s ++ [t]) ∧ (y ∈ s_posted s ++ [t] → (y < brk w')%nat).
Proof using Type*.
  destruct t_fresh as [_ Hbt]. split.
  - apply NoDup_app. split; [apply Hinv|]. split; [|apply NoDup_singleton].
    intros z Hz ->%list_elem_of_singleton. pose proof (si_old _ _ _ _ Hinv t Hz). fold w in H. lia.
  - subst w'. simpl. fold t. intros [Hy|Hy%list_elem_of_singleton]%elem_of_app; [|subst; lia].
    pose proof (si_old _ _ _ _ Hinv y Hy). fold w in H. lia.
Qed.

Lemma step_post_accepted :
  queues w !! s_tq s = Some q → refused env q = false →
  sys_inv (accepted_state k w') (pl ++ [t]) None dl.
Proof using Type*.
  intros Hq Hrf. destruct t_fresh as [Htf _].
  destruct (post_world_facts w req) as (Et & Eq & Ed & El & _).
  pose proof Hinv as Hinv'. rewrite Hmk in Hinv'.
  assert (tasks w' = link pl t (<[t := map_tb_task mark_active
            (posted_block k t (post_ptr w req) (post_len req))]> (tasks w))) as Ht'.
  { rewrite Hw'. simpl. by rewrite Et. }
  assert (queues w' = alter (posted_queue env pl t) (s_tq s) (queues w)) as Hq'.
  { rewrite Hw'. simpl. by rewrite Eq. }
  assert (pool_done w' = pool_done w) as Hd' by (rewrite Hw'; simpl; done).
  unfold refused in Hrf. apply orb_false_iff in Hrf as [[_ Hmax]%orb_false_iff _].
  apply Z.leb_gt in Hmax.
  edestruct (enqueue_queue (F := F) env s pl dl t) with (w' := w') (mk' := @None loc) as [Hqs Hqi];
    [done|done| |exact Ht'|exact Hq'|exact Hq|simpl; clear -Hmax; lia|]; [done|].
  split; simpl; try apply Hinv; rewrite ?app_nil_r.
  - by rewrite Hqs.
  - by eapply enqueue_only.
  - by eapply enqueue_done.
  - rewrite Hw'. simpl. rewrite El. apply Hinv.
  - apply accepted_heap.
  - apply accepted_co.
  - done.
  - apply accepted_tasks.
  - apply accepted_unanswered.
  - rewrite (si_posted _ _ _ _ Hinv). by rewrite app_assoc.
  - by apply (accepted_posted t).
  - intros y. by apply accepted_posted.
  - done.
  - intros m Hm. rewrite accepted_views. rewrite (views_somewhere s pl None dl) by (done || mem).
    by apply (si_marks _ _ _ _ Hinv).
  - intros m Hm [Hin|Ht%list_elem_of_singleton]%elem_of_app; [by apply (si_foreign _ _ _ _ Hinv m)|].
    subst m. apply (fresh_nowhere _ _ _ _ _ Hinv Htf). mem.
Qed.
End accepted.

Lemma step_post_refused q k x w' :
  mk = None →
  k ∉ s_waiting s → cos w !! k = Some x →
  w' = upd_calls (λ c, c ++ refusal_log env q)
         (upd_bufs (drop_buf (post_ptr w req))
            (upd_cos (alter (armed t) k) (upd_brk S (post_world w req)))) →
  sys_inv (set_world w' s) pl mk dl.
Proof using Type*.
  intros Hmk Hk Hx Hw'.
  destruct (post_world_facts w req) as (Et & Eq & Ed & El & Ec & Eth & Er & Hb).
  destruct (sys_inv_fresh _ _ _ _ Hinv) as [_ Hfb].
  apply sys_inv_quiet; [done|..]; subst w'; simpl; try done.
  - destruct req as [b|]; simpl; [|done]. by rewrite delete_insert_id.
  - change (sw s) with w. unfold t. lia.
  - eapply (co_frame_armed _ _ _ t k); simpl; [by rewrite Ec|done|done|done].
Qed.

Lemma accepted_abs k q w' :
  mk = None → queues w !! s_tq s = Some q →
  queues w' !! s_tq s = Some (posted_queue env pl t q) →
  abs (accepted_state k w') (pl ++ [t]) None dl = spec_accept t k (abs s pl mk dl).
Proof using Type*.
  intros Hmk Hq Hq'. pose proof (si_queue _ _ _ _ Hinv) as Hqi. fold w in Hqi. rewrite Hq in Hqi.
  pose proof (pollers_posted env pl t q (qi_nodup _ _ _ _ _ _ Hqi)) as Hp.
  unfold abs, spec_accept, accepted_state. simpl. fold w. rewrite Hq, Hq', Hmk.
  unfold inside in Hp. by rewrite Hp.
Qed.

Lemma post_fresh : t ∉ pl ++ s_held s ++ dl ++ s_inflight s ++ s_handled s.
Proof using Type*.
  destruct t_fresh as [_ Hle]. intros Hin.
  assert (t ∈ s_posted s) as Hp.
  { rewrite (si_posted _ _ _ _ Hinv), elem_of_app, (si_polled _ _ _ _ Hinv).
    rewrite !elem_of_app in *. tauto. }
  pose proof (si_old _ _ _ _ Hinv t Hp). fold w in H. lia.
Qed.

Lemma step_post : ∃ s', exec_post env r req s = Ok s' ∧ simulates s pl mk dl (EPost env r req) s'.
Proof using Type*.
  destruct post_enabled_facts as (Hf & Ha & Hu & Hmk & (q & Hq & Hqi) & k & x & Hc & Hk & Hx & Hl).
  destruct (post_world_facts w req) as (Et & Eq & Ed & El & Ec & Eth & Er & Hb).
  destruct t_fresh as [Htf _]. destruct Hqi as [Hr Hrepr Hwt Hbd Hni Hwk].
  assert (poster (post_world w req) r k) as Hpo.
  { destruct (current_poster _ _ _ _ Hc Hx) as [Hp Hc']. split; [by rewrite Er|by rewrite Ec]. }
  assert (queue_ready (post_world w req) (s_tq s) q) as Hr'.
  { destruct Hr. split; [by rewrite Eq|done|done]. }
  unfold exec_post. rewrite lua_post_split. fold w.
  destruct (refused env q) eqn:Hrf.
  - erewrite task_post_refused; [|done|done|exact Hpo|exact Hr'|by rewrite Et|by rewrite Et|apply post_buf_live|done].
    eexists. split; [done|]. exists pl, mk, dl. split; [eapply step_post_refused; done|].
    remember (upd_calls _ _) as w' eqn:Hw'.
    assert (abs (set_world w' s) pl mk dl = abs s pl mk dl) as ->.
    { unfold abs. simpl. rewrite Hw'. simpl. by rewrite Eq. }
    split; [apply spec_post_refused; by rewrite (admits_abs _ _ _ _ _ _ Hinv Hq), Hrf|].
    apply untouched_tasks; rewrite ?Hw'; simpl; [by rewrite Et|by rewrite Eq|by apply Nat.le_le_succ_r| |done].
    destruct (sys_inv_fresh _ _ _ _ Hinv) as [_ Hfb].
    destruct req as [b|]; simpl; [|done]. by rewrite delete_insert_id.
  - erewrite task_post_accepted; [|done|done|exact Hpo|exact Hr'|by rewrite Et|by rewrite Et|apply
      post_buf_live|done].
    rewrite Hc. remember (upd_queues _ _) as w' eqn:Hw'.
    assert (pred (brk w') = t) as Hbrk by by rewrite Hw'.
    exists (accepted_state k w'). split; [by rewrite Hbrk|]. exists (pl ++ [t]), None, dl.
    split; [by eapply (step_post_accepted q k x)|]. rewrite (accepted_abs k q w' Hmk Hq).
    2: { rewrite Hw'. simpl. by rewrite lookup_alter_eq, Eq, Hq. }
    split.
    { apply spec_post_accepted; [by rewrite (admits_abs _ _ _ _ _ _ Hinv Hq), Hrf|done|apply post_fresh]. }
    assert (contents w (EPost env r req) w') as Hco by by eapply accepted_contents.
    subst mk. eapply enqueue_untouched with (w' := w'); [exact Hinv|exact Htf| | |done| |exact Hco];
      rewrite Hw'; simpl; [by rewrite Et|by rewrite Eq|by apply Nat.le_le_succ_r].
Qed.
End step_post.

(** ** The finish marker *)

Definition set_finished (s : sys) : sys :=
  Sys (sw s) (s_tq s) true (s_held s) (s_inflight s) (s_waiting s)
      (s_posted s) (s_polled s) (s_handled s) (s_lost s).

Lemma sys_inv_finished s pl mk dl : sys_inv s pl mk dl → sys_inv (set_finished s) pl mk dl.
Proof.
  intros [A B C D E G M H I J K L N O P Q]. split; simpl; try done.
  - destruct (queues (sw s) !! s_tq s); [done|]. by destruct A as (? & ? & _).
  - intros m Hm. by destruct (M m Hm).
Qed.

(** The state once the marker is in block [t]. *)
Section finish.
Context (env : sysenv) (s : sys) (pl dl : list loc).
Hypothesis Hinv : sys_inv s pl None dl.
Hypothesis Hfin : s_finished s = false.

Let t := brk (sw s).

Definition finished_world : world :=
  upd_queues (alter (posted_queue env pl t) (s_tq s))
    (upd_tasks (λ m, link pl t (<[t := finish_block]> m)) (upd_brk S (sw s))).

Lemma finish_fresh : tasks (sw s) !! t = None.
Proof using Hinv. by apply (sys_inv_fresh _ _ _ _ Hinv). Qed.

Lemma finished_views :
  views (tasks finished_world) = <[t := marker_view]> (views (tasks (sw s))).
Proof using Type. simpl. by rewrite views_link, views_insert. Qed.

Lemma finished_contents : contents (sw s) (EFinish env) finished_world.
Proof using Hinv.
  apply contents_kept; [|done|done|done].
  intros y x x' Hy. rewrite finished_views, lookup_insert_ne; [congruence|].
  intros <-. rewrite views_none in Hy; [done|]. apply finish_fresh.
Qed.

Lemma finished_heap :
  heap_inv (views (tasks finished_world)) (bufs (sw s))
    (pl ++ [t] ++ s_held s ++ dl ++ s_inflight s ++ f_marks F) (S (brk (sw s))).
Proof using Hinv.
  apply heap_inv_perm with (t :: pl ++ s_held s ++ dl ++ s_inflight s ++ f_marks F).
  { simpl. by rewrite Permutation_middle. }
  rewrite finished_views. pose proof finish_fresh as Hf.
  eapply heap_inv_new; [apply Hinv|by apply views_none|lia|fold t; lia| | |].
  - by left.
  - apply reowned_nothing; [by apply views_none|done].
  - intros l Hl. by apply elem_of_nil in Hl.
Qed.

Lemma finished_co : co_inv (views (tasks finished_world)) finished_world (s_waiting s).
Proof using Hinv.
  rewrite finished_views. pose proof finish_fresh as Hf.
  eapply co_inv_new; [apply Hinv|by apply views_none|done| |].
  - intros k. split; [by left|]. by intros [?|(c & [=] & _)].
  - intros k y _ Hy (th & Hth & Hl). split; [done|]. by exists th.
Qed.

Lemma sys_inv_marked :
  is_Some (queues (sw s) !! s_tq s) →
  sys_inv (set_finished (set_world finished_world s)) pl (Some t) dl.
Proof using Hinv Hfin.
  intros [q Hq]. pose proof finish_fresh as Hf.
  pose proof (si_queue _ _ _ _ Hinv) as Hqi. rewrite Hq in Hqi.
  pose proof (qi_bound _ _ _ _ _ _ Hqi) as Hb.
  destruct (enqueue_queue env s pl dl t finish_block finished_world Hinv Hf eq_refl eq_refl
              eq_refl q (Some t) Hq) as [Hqs Hqi']; [simpl in *; lia|].
  split; simpl; try apply Hinv; try done.
  - change (alter _ _ _) with (queues finished_world). by rewrite Hqs.
  - intros l. rewrite is_Some_alter. apply Hinv.
  - by eapply (enqueue_done s pl dl t finish_block finished_world).
  - apply finished_heap.
  - apply finished_co.
  - intros m [= <-]. split; [done|]. pose proof finished_views as Hv. simpl in Hv.
    by rewrite Hv, lookup_insert_eq.
  - intros y Hy. pose proof finished_views as Hv. simpl in Hv. rewrite Hv.
    rewrite (views_somewhere s pl None dl) by (done || mem). by apply (si_tasks _ _ _ _ Hinv).
  - intros y c Hy. pose proof finished_views as Hv. simpl in Hv. rewrite Hv.
    rewrite (views_somewhere s pl None dl) by (done || mem). by apply (si_unanswered _ _ _ _ Hinv).
  - intros y Hy. pose proof (si_old _ _ _ _ Hinv y Hy). lia.
  - intros m [= <-] Hin. pose proof (si_old _ _ _ _ Hinv _ Hin). unfold t in *. lia.
  - intros m Hm. pose proof finished_views as Hv. simpl in Hv. rewrite Hv.
    rewrite (views_somewhere s pl None dl) by (done || mem). by apply (si_marks _ _ _ _ Hinv).
Qed.
End finish.

Lemma step_finish env s pl mk dl :
  sys_inv s pl mk dl → enabled s (EFinish env) = true →
  ∃ s', exec_finish env s = Ok s' ∧ simulates s pl mk dl (EFinish env) s'.
Proof.
  intros Hinv Hen. simpl in Hen. rewrite !andb_true_iff in Hen.
  destruct Hen as [[Hf Ha] Hu]. apply negb_true_iff in Hf. apply Z.eqb_eq in Hu.
  pose proof (finished_marker _ _ _ _ Hinv Hf) as ->.
  pose proof (si_queue _ _ _ _ Hinv) as Hq.
  destruct (queues (sw s) !! s_tq s) as [q|] eqn:Eq; [|by destruct Hq as (_ & _ & ?); congruence].
  rewrite app_nil_r in Hq. pose proof Hq as [Hready Hr _ _ _ _].
  destruct (sys_inv_fresh _ _ _ _ Hinv) as [Hft _].
  unfold exec_finish. erewrite task_finish_run; [|done..].
  destruct ((e_lock env =? NGX_OK) && (e_signal env =? NGX_OK)) eqn:E.
  - eexists. split; [done|]. exists pl, (Some (brk (sw s))), dl. split; [by apply sys_inv_marked|].
    pose proof (pollers_posted env pl (brk (sw s)) q (qi_nodup _ _ _ _ _ _ Hq)) as Hp. split.
    + eapply eq_rect; [apply spec_finishes|]. rewrite E. unfold abs, spec_finish. simpl.
      rewrite lookup_alter_eq, Eq. simpl. unfold inside in Hp. by rewrite <-Hp.
    + apply (enqueue_untouched env s pl dl (brk (sw s)) finish_block (finished_world env s pl) Hinv Hft); try done.
      * simpl. lia.
      * by eapply finished_contents.
  - eexists. split; [done|]. exists pl, None, dl. split.
    + apply (sys_inv_finished (set_world (upd_brk S (sw s)) s)).
      apply sys_inv_quiet; simpl; try done; lia.
    + split; [|apply untouched_tasks; [done|done|simpl; lia|done|done]].
      eapply eq_rect; [apply spec_finishes|]. by rewrite E.
Qed.
End framed.
