(* ===== verification/Polling.v ===== *)
(** * Polling: [ngx_http_lua_ffi_task_poll] succeeds in every reachable state,
    whether it returns a task, blocks, gives up or closes the queue, and keeps
    the invariant. *)

From S2P Require Import Prelude World TaskQueue FfiTask FfiQueue EventHandler Ownership System.
From S2P Require Import Spec Invariant.

(** ** Polling *)

(** The queue while [me] holds the mutex inside [task_poll]: [me] is neither
    blocked nor woken. *)
Record polling (q : ffi_task_queue_t) (me : tid) (ql : list loc) (lost : nat) (mk : option loc) : Prop := {
  pg_mtx : mtx q = MtxHeld;
  pg_live : cv_live (cond q) = true;
  pg_waiting : waiting q + Z.of_nat lost + Z.of_nat (length (inside q)) + 1 = Z.of_nat (length ql);
  pg_bound : waiting q ≤ Z.max 0 (max_queue q) + Z.of_nat (length (marker_list mk));
  pg_nodup : NoDup (inside q);
  pg_me : me ∉ inside q;
  pg_wakeup : cv_waiters (cond q) ≠ [] → (length ql ≤ S (length (cv_woken (cond q))))%nat;
}.

Lemma polling_entered w tp q me ql lost mk :
  queue_inv w tp q ql lost mk → me ∉ inside q →
  polling (entered_queue q) me ql lost mk.
Proof.
  intros [[Hq Hm Hc] Hr Hwt Hb Hni Hwk] Hme. unfold inside in *.
  split; unfold inside; simpl; try done; try lia. intros H. specialize (Hwk H). lia.
Qed.

Lemma polling_resumed w tp q me ql lost mk :
  queue_inv w tp q ql lost mk → me ∈ cv_woken (cond q) →
  polling (resumed_queue me q) me ql lost mk.
Proof.
  intros [[Hq Hm Hc] Hr Hwt Hb Hni Hwk] Hme. unfold inside in *.
  pose proof Hni as (Hn1 & Hd & Hn2)%NoDup_app.
  pose proof (filter_ne_perm me _ Hn2 Hme) as Hp.
  pose proof (Permutation_length Hp) as Hl. simpl in Hl.
  split; simpl; try done; unfold inside; simpl.
  - rewrite length_app in *. lia.
  - rewrite Hp, <-Permutation_middle in Hni. by apply NoDup_cons in Hni as [_ ?].
  - rewrite elem_of_app, elem_of_filter_ne. intros [H|[H _]]; [|done]. by apply (Hd me).
  - intros H. specialize (Hwk H). lia.
Qed.


Section framed.
Context {F : frame}.
#[local] Abbreviation sys_inv := (sys_inv_in F).
#[local] Abbreviation simulates := (simulates F).

(** Only the queue record and the count of lost polls change. *)
Lemma sys_inv_requeue s pl mk dl g q lost :
  sys_inv s pl mk dl → queues (sw s) !! s_tq s = Some q →
  queue_inv (upd_queues (alter g (s_tq s)) (sw s)) (s_tq s) (g q) (pl ++ marker_list mk) lost mk →
  sys_inv (Sys (upd_queues (alter g (s_tq s)) (sw s)) (s_tq s) (s_finished s) (s_held s) (s_inflight s)
             (s_waiting s) (s_posted s) (s_polled s) (s_handled s) lost) pl mk dl.
Proof.
  intros [A B C D E G M H I J K L N O P Q] Hq Hqi. split; simpl; try done.
  - by rewrite lookup_alter_eq, Hq.
  - intros l. rewrite is_Some_alter. apply B.
  - by apply (co_inv_same _ (sw s)).
Qed.

(** [s'] satisfies the invariant, and polling leads to it; nothing else changes. *)
Definition polls (s : sys) (pl : list loc) (mk : option loc) (dl : list loc) (env : sysenv) (me : tid)
    (s' : sys) : Prop :=
  ∃ pl' mk' dl', sys_inv s' pl' mk' dl' ∧ abs s' pl' mk' dl' = spec_poll env me (abs s pl mk dl) ∧
    ∀ e, no_answer e → untouched s e s' (s_held s ++ f_marks F).

Lemma poll_untouched s s' g keep e :
  sw s' = upd_queues (alter g (s_tq s)) (sw s) → no_answer e → untouched s e s' keep.
Proof.
  intros Hs' He. apply untouched_tasks; rewrite ?Hs'; [done| |done|done|done].
  intros j Hj. simpl. by rewrite lookup_alter_ne.
Qed.

Lemma pollers_blocked (me : tid) (l l' : list tid) :
  (list_to_set ((l ++ [me]) ++ l') : gset tid) = {[ me ]} ∪ list_to_set (l ++ l').
Proof. rewrite !list_to_set_app_L. simpl. set_solver. Qed.

Lemma pollers_union (me : tid) (X : gset tid) : {[ me ]} ∪ X ∖ {[ me ]} = {[ me ]} ∪ X.
Proof. apply set_eq. intros x. destruct (decide (x = me)); set_solver. Qed.

(** The queue [q] of [s], turned into [f q] by a thread that enters the loop or
    comes back to it. *)
Record loop_ready (me : tid) (s : sys) (pl : list loc) (mk : option loc) (q : ffi_task_queue_t)
    (f : ffi_task_queue_t → ffi_task_queue_t) : Prop := {
  lr_queue : queues (sw s) !! s_tq s = Some q;
  lr_polling : polling (f q) me (pl ++ marker_list mk) (s_lost s) mk;
  lr_same : queue (f q) = queue q;
  lr_max : max_queue (f q) = max_queue q;
  lr_pollers : (list_to_set (inside (f q)) : gset tid) = list_to_set (inside q) ∖ {[ me ]};
  lr_marker : pl = [] → is_Some mk → cv_waiters (cond (f q)) = [];
}.

Section step_poll.
Context (env : sysenv) (me : tid).
Context (s : sys) (pl : list loc) (mk : option loc) (dl : list loc).
Hypothesis Hinv : sys_inv s pl mk dl.
Hypothesis Hunlock : e_unlock env = NGX_OK.
Context (q : ffi_task_queue_t) (f : ffi_task_queue_t → ffi_task_queue_t).
Hypothesis Hloop : loop_ready me s pl mk q f.

Let Hq : queues (sw s) !! s_tq s = Some q := lr_queue _ _ _ _ _ _ Hloop.
Let Hpoll : polling (f q) me (pl ++ marker_list mk) (s_lost s) mk := lr_polling _ _ _ _ _ _ Hloop.
Let Hsame : queue (f q) = queue q := lr_same _ _ _ _ _ _ Hloop.
Let Hmax : max_queue (f q) = max_queue q := lr_max _ _ _ _ _ _ Hloop.
Let Hpollers : (list_to_set (inside (f q)) : gset tid) = list_to_set (inside q) ∖ {[ me ]} :=
  lr_pollers _ _ _ _ _ _ Hloop.
Let Hmarker : pl = [] → is_Some mk → cv_waiters (cond (f q)) = [] := lr_marker _ _ _ _ _ _ Hloop.

Let w1 := upd_queues (alter f (s_tq s)) (sw s).

Lemma poll_queue : queues w1 !! s_tq s = Some (f q).
Proof using Hloop. simpl. by rewrite lookup_alter_eq, Hq. Qed.

Lemma poll_repr :
  queue_repr (tasks w1) (SQueueFirst (Ptr (s_tq s) 0)) (queue (f q)) (pl ++ marker_list mk).
Proof using Hinv Hloop.
  pose proof (si_queue _ _ _ _ Hinv) as H. rewrite Hq in H. rewrite Hsame. apply H.
Qed.

Lemma step_poll_empty :
  pl = [] → mk = None →
  ∃ s', exec_poll true (task_poll_loop env (Some (Ptr (s_tq s) 0)) me w1) s = Ok s' ∧ polls s pl mk dl env me s'.
Proof using Type*.
  pose proof poll_repr as Hr. pose proof poll_queue as Hq1. intros -> ->. simpl in Hr.
  destruct Hpoll as [Hm Hl Hw Hb Hnd Hme Hwk].
  erewrite task_poll_loop_empty; [|done|exact Hq1|done|done|exact (qr_chain _ _ _ _ Hr)].
  unfold w1. rewrite !upd_queues_alter2.
  destruct (e_wait env =? NGX_OK) eqn:Ewait; simpl.
  - eexists. split; [done|]. exists [], None, dl. split; cycle 1.
    { split; [|intros e He; by eapply poll_untouched]. unfold abs, spec_poll. simpl.
      rewrite Ewait, lookup_alter_eq, Hq. simpl.
      rewrite Hmax, pollers_blocked. unfold inside in Hpollers. by rewrite Hpollers, pollers_union. }
    eapply (sys_inv_requeue s [] None dl); [done|done|]. simpl. split; simpl.
    + split; [simpl; by rewrite lookup_alter_eq, Hq|done|done].
    + by apply Hr.
    + unfold inside in *. simpl in *. rewrite !length_app in *. simpl. lia.
    + done.
    + unfold inside in *. simpl. rewrite <-app_assoc. rewrite (Permutation_app_comm [me]).
      rewrite app_assoc. apply NoDup_app. split; [done|]. split; [|apply NoDup_singleton].
      by intros y Hy ->%list_elem_of_singleton.
    + lia.
  - rewrite bool_decide_true by (rewrite lookup_alter_eq, Hq; by eexists).
    eexists. split; [done|]. exists [], None, dl. split; cycle 1.
    { split; [|intros e He; by eapply poll_untouched]. unfold abs, spec_poll. simpl.
      rewrite Ewait, lookup_alter_eq, Hq. simpl.
      rewrite Hmax. unfold inside in Hpollers. by rewrite Hpollers. }
    eapply (sys_inv_requeue s [] None dl); [done|done|]. simpl. split; simpl.
    + split; [simpl; by rewrite lookup_alter_eq, Hq|done|done].
    + by apply Hr.
    + unfold inside in *. simpl in *. lia.
    + done.
    + done.
    + lia.
Qed.

Lemma step_poll_task t pl' :
  pl = t :: pl' →
  ∃ s', exec_poll true (task_poll_loop env (Some (Ptr (s_tq s) 0)) me w1) s = Ok s' ∧ polls s pl mk dl env me s'.
Proof using Type*.
  pose proof poll_repr as Hr. pose proof poll_queue as Hq1. intros ->. simpl in Hr.
  destruct Hpoll as [Hm Hl Hw Hb Hnd Hme Hwk].
  destruct (si_tasks _ _ _ _ Hinv t) as [c Hc]; [by left|].
  destruct (view_task_block _ _ _ Hc) as (b & Hbt & Hp & _).
  destruct (task_poll_loop_task env w1 (s_tq s) me (f q) Hunlock Hq1 Hm Hl
              t (pl' ++ marker_list mk) b _ Hr Hbt Hp) as (hd & Hrun & Hr').
  rewrite Hrun. unfold w1. rewrite !upd_queues_alter2. simpl.
  eexists. split; [done|]. exists pl', mk, dl. split; cycle 1.
  { split; [|intros e He; by eapply poll_untouched]. unfold abs, spec_poll. simpl. rewrite lookup_alter_eq, Hq. simpl.
    rewrite Hmax. unfold inside in Hpollers. by rewrite Hpollers. }
  pose proof Hinv as [A B C D E G M H I J K L N O P Q]. split; simpl; try done.
  - rewrite lookup_alter_eq, Hq. simpl. split; simpl.
    + split; [simpl; by rewrite lookup_alter_eq, Hq|done|done].
    + done.
    + unfold inside in *. simpl in *. lia.
    + done.
    + done.
    + intros Hne. specialize (Hwk Hne). simpl in Hwk. lia.
  - intros l. rewrite is_Some_alter. apply B.
  - eapply heap_inv_perm; [|exact E].
    simpl. rewrite <-!app_assoc. simpl. by rewrite !Permutation_middle.
  - by apply (co_inv_same _ (sw s)).
  - intros y Hy. apply H. mem.
  - intros y c' Hy. apply I. mem.
  - rewrite J. by rewrite <-app_assoc.
  - rewrite K, <-Permutation_cons_append, <-app_assoc. simpl. by rewrite Permutation_middle.
Qed.

Lemma step_poll_marker m :
  pl = [] → mk = Some m →
  ∃ s', exec_poll true (task_poll_loop env (Some (Ptr (s_tq s) 0)) me w1) s = Ok s' ∧ polls s pl mk dl env me s'.
Proof using Type*.
  pose proof poll_repr as Hr. pose proof poll_queue as Hq1. intros -> ->. simpl in Hr.
  destruct Hpoll as [Hm Hl Hw Hb Hnd Hme Hwk].
  destruct (si_marker _ _ _ _ Hinv m) as [Hfin Hv]; [done|].
  destruct (view_marker_block _ _ Hv) as (b & Hbt & Hp & _).
  erewrite task_poll_loop_finish;
    [|done|exact Hq1|done|done|exact Hr|exact Hbt|done|apply Hmarker; [done|by eexists]].
  simpl. rewrite delete_alter_eq, lookup_delete_eq.
  rewrite bool_decide_false by (intros [? ?]; done).
  eexists. split; [done|]. exists [], None, dl. split; cycle 1.
  { split; [unfold abs, spec_poll; simpl; by rewrite delete_alter_eq, lookup_delete_eq|].
    intros e He. split; simpl.
    - intros j Hj. by rewrite delete_alter_eq, lookup_delete_ne.
    - intros l Hkeep _. apply same_links_delete. intros Hin%Hkeep.
      apply (queued_not_kept _ _ _ _ m Hinv); [by left|done].
    - done.
    - apply contents_kept; simpl; [| |done|done]; rewrite views_delete.
      + intros t x x' Hx [_ Hx']%lookup_delete_Some. congruence.
      + intros env' r req t c _ Hn [_ Hc]%lookup_delete_Some. congruence. }
  pose proof Hinv as [A B C D E G M H I J K L N O P Q]. simpl in E.
  pose proof (hi_nodup _ _ _ _ E) as [Hmn Hnd']%NoDup_cons.
  split; simpl; try done.
  - by rewrite delete_alter_eq, lookup_delete_eq.
  - intros l. rewrite delete_alter_eq. intros [x [_ Hx]%lookup_delete_Some]. apply B. by eexists.
  - eapply queue_repr_frame; [|done]. apply same_links_delete. intros Hin. apply Hmn. mem.
  - rewrite views_delete. eapply heap_inv_remove; [exact E|exact Hv|done| |done].
    intros y. rewrite elem_of_cons. split; [|by intros [[->|?] ?]].
    intros Hy. split; [by right|]. by intros ->.
  - rewrite views_delete. eapply co_inv_remove; [exact G| |].
    + intros k. split; [|by intros []]. intros Hk. split; [done|].
      intros x Hx (c & Hc & _). rewrite Hv in Hx. by simplify_eq.
    + by apply co_frame_same.
  - intros y Hy. rewrite views_delete, lookup_delete_ne; [by apply H|].
    intros ->. apply Hmn. simpl in Hy. rewrite !elem_of_app in *. tauto.
  - intros y c Hy. rewrite views_delete, lookup_delete_ne; [by apply I|].
    intros ->. apply Hmn. mem.
  - intros y Hy. rewrite views_delete, lookup_delete_ne; [by apply P|]. intros ->. apply Hmn. mem.
Qed.

Lemma step_poll_loop :
  ∃ s', exec_poll true (task_poll_loop env (Some (Ptr (s_tq s) 0)) me w1) s = Ok s' ∧ polls s pl mk dl env me s'.
Proof using Type*.
  pose proof step_poll_empty. pose proof step_poll_marker. pose proof step_poll_task.
  destruct pl as [|t pl'], mk as [m|]; eauto.
Qed.
(** What the loop returns: a posted task, or NULL when the queue is gone. *)
Lemma poll_loop_result p w' :
  e_wait env = NGX_OK → task_poll_loop env (Some (Ptr (s_tq s) 0)) me w1 = Ok (p, w') →
  match p with
  | PBlocked => True
  | PReturn None => queues w' !! s_tq s = None
  | PReturn (Some x) => ∃ t, x = Ptr t 0 ∧ t ∈ pl
  end.
Proof using Type*.
  pose proof poll_repr as Hr. pose proof poll_queue as Hq1. intros Hwait.
  destruct Hpoll as [Hm Hl _ _ _ _ _]. destruct pl as [|t pl'].
  - destruct mk as [m|]; simpl in Hr.
    + destruct (si_marker _ _ _ _ Hinv m) as [_ Hv]; [done|].
      destruct (view_marker_block _ _ Hv) as (b & Hbt & Hp & _).
      erewrite task_poll_loop_finish;
        [|done|exact Hq1|done|done|exact Hr|exact Hbt|done|apply Hmarker; [done|by eexists]].
      intros [= <- <-]. simpl. by rewrite lookup_delete_eq.
    + erewrite task_poll_loop_empty; [|done|exact Hq1|done|done|exact (qr_chain _ _ _ _ Hr)].
      rewrite Hwait. simpl. by intros [= <- <-].
  - destruct (si_tasks _ _ _ _ Hinv t) as [c Hc]; [by left|].
    destruct (view_task_block _ _ _ Hc) as (b & Hbt & Hp & _).
    destruct (task_poll_loop_task env w1 (s_tq s) me (f q) Hunlock Hq1 Hm Hl
                t (pl' ++ marker_list mk) b _ Hr Hbt Hp) as (hd & -> & _).
    intros [= <- _]. exists t. split; [done|by left].
Qed.
End step_poll.

(** The protocol only lets a marker be taken when no other thread polls. *)
Lemma marker_first_true s mk dl q :
  sys_inv s [] mk dl → queues (sw s) !! s_tq s = Some q → is_Some mk →
  marker_first (sw s) q = true.
Proof.
  intros Hinv Hq [m ->]. pose proof (si_queue _ _ _ _ Hinv) as H. rewrite Hq in H.
  destruct (qi_repr _ _ _ _ _ _ H) as [[Hf _] _ _]. unfold marker_first. rewrite Hf. simpl.
  destruct (si_marker _ _ _ _ Hinv m) as [_ Hv]; [done|].
  destruct (view_marker_block _ _ Hv) as (b & -> & Hp & _). by apply bool_decide_eq_true.
Qed.

Lemma alone_forall me q : alone me q = true → ∀ x, x ∈ inside q → x = me.
Proof.
  unfold alone. intros H x Hx. apply Nat.eqb_eq.
  rewrite forallb_forall in H. apply H. by apply list_elem_of_In.
Qed.

Lemma enter_ready env me s pl mk dl :
  sys_inv s pl mk dl → enabled s (EPoll env me) = true →
  ∃ q, e_unlock env = NGX_OK ∧ queue_ready (sw s) (s_tq s) q ∧ loop_ready me s pl mk q entered_queue.
Proof.
  intros Hinv Hen. simpl in Hen. apply andb_true_iff in Hen as [Hu Hen]. apply Z.eqb_eq in Hu.
  destruct (queues (sw s) !! s_tq s) as [q|] eqn:Hq; [|done].
  apply andb_true_iff in Hen as [Hme Hal]. apply bool_decide_eq_true in Hme.
  pose proof (si_queue _ _ _ _ Hinv) as Hqi. rewrite Hq in Hqi.
  exists q. do 2 (split; [done || apply Hqi|]). split; [done|by eapply polling_entered|done|done| |].
  { symmetry. apply difference_disjoint_L. unfold inside. set_solver. }
  intros -> Hmk. simpl. rewrite (marker_first_true _ _ _ _ Hinv Hq Hmk) in Hal.
  pose proof (alone_forall _ _ Hal) as Hall. unfold inside in *.
  destruct (cv_waiters (cond q)) as [|x l]; [done|]. exfalso. apply Hme.
  rewrite <-(Hall x); by left.
Qed.

Lemma step_enter env me s pl mk dl :
  sys_inv s pl mk dl → enabled s (EPoll env me) = true →
  ∃ s', exec_poll (e_lock env =? NGX_OK)
          (task_poll_enter env (Some (Ptr (s_tq s) 0)) me (sw s)) s = Ok s' ∧
    simulates s pl mk dl (EPoll env me) s'.
Proof.
  intros Hinv Hen. destruct (enter_ready _ _ _ _ _ _ Hinv Hen) as (q & Hu & Hready & Hloop).
  rewrite (task_poll_enter_run _ _ _ _ _ Hready).
  destruct (e_lock env =? NGX_OK) eqn:El; simpl.
  2: { eexists. split; [done|]. exists pl, mk, dl. split; [by destruct s|].
       split; [|by apply untouched_tasks]. apply spec_poll_unlocked. by apply Z.eqb_neq. }
  apply Z.eqb_eq in El.
  destruct (step_poll_loop env me s pl mk dl Hinv Hu q _ Hloop) as (s' & Hs' & pl' & mk' & dl' & Hinv' & Habs & Hun).
  exists s'. split; [exact Hs'|]. exists pl', mk', dl'. rewrite Habs.
  split_and!; [done|by apply spec_poll_locked|by apply Hun].
Qed.

Lemma pollers_resumed me q :
  me ∈ cv_woken (cond q) → NoDup (inside q) →
  (list_to_set (inside (resumed_queue me q)) : gset tid) = list_to_set (inside q) ∖ {[ me ]}.
Proof.
  intros Hin (_ & Hd & _)%NoDup_app. apply set_eq. intros x.
  rewrite elem_of_difference, elem_of_singleton, !elem_of_list_to_set. unfold inside; simpl.
  rewrite !elem_of_app, elem_of_filter_ne. split; [|tauto].
  intros [Hx|[Hx Hne]]; [|tauto]. split; [by left|]. intros ->. by apply (Hd me).
Qed.

Lemma wake_ready env me s pl mk dl :
  sys_inv s pl mk dl → enabled s (EWake env me) = true →
  ∃ q, e_unlock env = NGX_OK ∧ queue_ready (sw s) (s_tq s) q ∧ me ∈ cv_woken (cond q) ∧
    loop_ready me s pl mk q (resumed_queue me).
Proof.
  intros Hinv Hen. simpl in Hen. apply andb_true_iff in Hen as [Hu Hen]. apply Z.eqb_eq in Hu.
  destruct (queues (sw s) !! s_tq s) as [q|] eqn:Hq; [|done].
  apply andb_true_iff in Hen as [Hme Hal]. apply bool_decide_eq_true in Hme.
  pose proof (si_queue _ _ _ _ Hinv) as Hqi. rewrite Hq in Hqi.
  exists q. do 3 (split; [done || apply Hqi|]). split; [done|by eapply polling_resumed|done|done| |].
  { by apply pollers_resumed, (qi_nodup _ _ _ _ _ _ Hqi). }
  intros -> Hmk. simpl. rewrite (marker_first_true _ _ _ _ Hinv Hq Hmk) in Hal.
  pose proof (alone_forall _ _ Hal) as Hall.
  pose proof (qi_nodup _ _ _ _ _ _ Hqi) as (_ & Hd & _)%NoDup_app. unfold inside in *.
  destruct (cv_waiters (cond q)) as [|x l]; [done|]. exfalso.
  apply (Hd x); [by left|]. rewrite (Hall x) by (by left). done.
Qed.

Lemma step_wake env me s pl mk dl :
  sys_inv s pl mk dl → enabled s (EWake env me) = true →
  ∃ s', exec_poll true (task_poll_wake env (Some (Ptr (s_tq s) 0)) me (sw s)) s = Ok s' ∧
    simulates s pl mk dl (EWake env me) s'.
Proof.
  intros Hinv Hen. destruct (wake_ready _ _ _ _ _ _ Hinv Hen) as (q & Hu & Hready & Hw & Hloop).
  rewrite (task_poll_wake_run _ _ _ _ _ Hready) by done.
  destruct (step_poll_loop env me s pl mk dl Hinv Hu q _ Hloop) as (s' & Hs' & pl' & mk' & dl' & Hinv' & Habs & Hun).
  exists s'. split; [exact Hs'|]. exists pl', mk', dl'. rewrite Habs.
  split_and!; [done|by apply spec_wakes|by apply Hun].
Qed.

Lemma step_spurious me s pl mk dl :
  sys_inv s pl mk dl → enabled s (ESpurious me) = true →
  simulates s pl mk dl (ESpurious me)
    (set_world (upd_queues (alter (spurious me) (s_tq s)) (sw s)) s).
Proof.
  intros Hinv Hen. simpl in Hen.
  destruct (queues (sw s) !! s_tq s) as [q|] eqn:Hq; [|done].
  apply bool_decide_eq_true in Hen.
  pose proof (si_queue _ _ _ _ Hinv) as Hqi. rewrite Hq in Hqi.
  destruct Hqi as [[_ Hm Hc] Hr Hw Hb Hni Hwk].
  exists pl, mk, dl.
  assert (inside (spurious me q) ≡ₚ inside q) as Hp.
  { unfold inside in *. simpl. apply NoDup_app in Hni as (Hn & _ & _).
    rewrite (filter_ne_perm me _ Hn Hen) at 2.
    rewrite app_assoc, Permutation_app_comm. done. }
  split; cycle 1.
  { split; [|by eapply poll_untouched]. eapply eq_rect; [apply spec_spurious|].
    unfold abs. simpl. rewrite lookup_alter_eq, Hq. simpl.
    f_equal. symmetry. by apply list_to_set_perm_L. }
  eapply sys_inv_requeue; [done|done|]. split; simpl; try done.
  - split; [simpl; by rewrite lookup_alter_eq, Hq|done|done].
  - by rewrite Hp.
  - by rewrite Hp.
  - intros _. destruct (cv_waiters (cond q)) as [|x l]; [by apply elem_of_nil in Hen|].
    specialize (Hwk ltac:(done)). rewrite !length_app in *. simpl. lia.
Qed.
End framed.
