(* ===== verification/Answering.v ===== *)
(** * Answering: the steps of a polled task

    [ngx_http_lua_ffi_respond], the cleanup handler of a killed coroutine, and
    nginx's delivery of the answered tasks keep the invariant. *)

From S2P Require Import Prelude World TaskQueue FfiTask FfiQueue EventHandler Ownership System.
From S2P Require Import Spec Invariant.

Section framed.
Context {F : frame}.
#[local] Abbreviation sys_inv := (sys_inv_in F).
#[local] Abbreviation simulates := (simulates F).

(** ** Answering, killing, delivering *)

Lemma task_ctx_nodup s pl mk dl t :
  sys_inv s pl mk dl → t ∈ s_held s →
  t ∉ pl ∧ t ∉ marker_list mk ∧ t ∉ dl ∧ t ∉ s_inflight s.
Proof.
  intros Hinv Ht. pose proof (hi_nodup _ _ _ _ (si_heap _ _ _ _ Hinv)) as Hnd.
  apply NoDup_app in Hnd as (_ & H1 & Hnd). apply NoDup_app in Hnd as (_ & H2 & Hnd).
  apply NoDup_app in Hnd as (_ & H3 & Hnd). repeat split; intros Hin.
  - apply (H1 t Hin). mem.
  - apply (H2 t Hin). mem.
  - apply (H3 t Ht). mem.
  - apply (H3 t Ht). mem.
Qed.

Lemma kept_not_done s pl mk dl y :
  sys_inv s pl mk dl → y ∈ s_held s ++ f_marks F → y ∉ dl ++ s_inflight s.
Proof.
  intros Hinv Hy Hy'. pose proof (hi_nodup _ _ _ _ (si_heap _ _ _ _ Hinv)) as Hnd.
  apply NoDup_app in Hnd as (_ & _ & Hnd). apply NoDup_app in Hnd as (_ & _ & Hnd).
  apply NoDup_app in Hnd as (_ & H3 & Hnd). rewrite app_assoc in Hnd. apply NoDup_app in Hnd as (_ & H4 & _).
  apply elem_of_app in Hy as [Hy|Hy]; [apply (H3 y Hy); mem|by apply (H4 y)].
Qed.

(** The world in which the response buffer is allocated. *)
Definition rsp_world (w : world) (rsp : option (list byte)) : world :=
  match rsp with Some b => upd_brk S (upd_bufs <[brk w := b]> w) | None => w end.
Definition rsp_ptr (w : world) (rsp : option (list byte)) : option ptr :=
  match rsp with Some _ => Some (Ptr (brk w) 0) | None => None end.

Lemma rsp_world_facts w rsp :
  tasks (rsp_world w rsp) = tasks w ∧ pool_done (rsp_world w rsp) = pool_done w ∧
  done_lock (rsp_world w rsp) = done_lock w ∧ queues (rsp_world w rsp) = queues w ∧
  cos (rsp_world w rsp) = cos w ∧ threads (rsp_world w rsp) = threads w ∧
  reqs (rsp_world w rsp) = reqs w ∧ (brk w ≤ brk (rsp_world w rsp))%nat.
Proof. destruct rsp; simpl; repeat split; lia. Qed.

Lemma contents_answered w rc rsp len w' t c all :
  heap_inv (views (tasks w)) (bufs w) all (brk w) → views (tasks w) !! t = Some (task_view t c) →
  views (tasks w') = <[t := task_view t (set_rsp rc (rsp_ptr w rsp) len c)]> (views (tasks w)) →
  bufs w' = bufs (rsp_world w rsp) → contents w (ERespond t rc rsp len) w'.
Proof.
  intros E Hc Hv Hw.
  assert (∀ y z l, views (tasks w) !! y = Some z → l ∈ owned z → bufs w' !! l = bufs w !! l) as Hb.
  { intros y z l Hy Hl. rewrite Hw. destruct rsp; simpl; [|done]. rewrite lookup_insert_ne; [done|]. intros <-.
    pose proof (owned_live _ _ _ _ _ _ _ E Hy Hl) as Hs. apply (hi_fresh_buf _ _ _ _ E) in Hs. lia. }
  split; [| | |intros y z l Hy _; by eapply Hb|done|].
  - intros y c0 c1 H0. rewrite Hv. destruct (decide (y = t)) as [->|Hne].
    + rewrite lookup_insert_eq. intros [= <-]. rewrite H0 in Hc. by injection Hc as ->.
    + rewrite lookup_insert_ne by done. unfold task_view in *. intros. by simplify_eq.
  - intros y c0 c1 H0. rewrite Hv. destruct (decide (y = t)) as [->|Hne].
    + intros _ He. by destruct (He rc rsp len).
    + rewrite lookup_insert_ne by done. unfold task_view in *. intros. by simplify_eq.
  - intros y c0 c1 H0. rewrite Hv. destruct (decide (y = t)) as [->|Hne].
    + rewrite lookup_insert_eq. intros [= <-] _. rewrite H0 in Hc. by injection Hc as ->.
    + rewrite lookup_insert_ne by done. unfold task_view in *. intros. by simplify_eq.
  - intros y rc0 rsp0 len0 c0 [= <- <- <- <-]. rewrite Hv, lookup_insert_eq. intros [= <-].
    split; [done|]. split; [done|]. simpl. destruct rsp as [b|]; simpl; [|done].
    eexists. split; [done|]. rewrite Hw. simpl. by rewrite lookup_insert_eq.
Qed.

Lemma respond_with_split t rc rsp len w :
  respond_with t rc rsp len w =
    ngx_http_lua_ffi_respond (Some (Ptr t 0)) rc (rsp_ptr w rsp) len (rsp_world w rsp).
Proof. by destruct rsp. Qed.

Lemma rsp_fits_value w rsp len :
  rsp_fits rsp len = true → is_Some (rsp_value (bufs (rsp_world w rsp)) (rsp_ptr w rsp) len).
Proof.
  destruct rsp as [b|]; simpl; [|by eexists]. unfold rsp_value; simpl.
  rewrite lookup_insert_eq. simpl. destruct (len =? 0).
  - intros [x Hx]%bool_decide_eq_true. rewrite Hx. by eexists.
  - intros ->. by eexists.
Qed.

Lemma answered_ctx_wf w c rc rsp len :
  (∀ l, is_Some (bufs w !! l) → (l < brk w)%nat) →
  rsp_fits rsp len = true → ctx_wf (bufs w) c →
  ctx_wf (bufs (rsp_world w rsp)) (set_rsp rc (rsp_ptr w rsp) len c).
Proof.
  intros Hf Hfit [[Hq Hr Hd] _]. split; [|by apply rsp_fits_value].
  assert (∀ l, is_Some (bufs w !! l) → bufs (rsp_world w rsp) !! l = bufs w !! l) as Hold.
  { intros l Hl. destruct rsp; simpl; [|done]. rewrite lookup_insert_ne; [done|].
    specialize (Hf l Hl). lia. }
  split; simpl.
  - destruct (c_req c) as [p|]; simpl in *; [|done]. destruct Hq as [Ho Hl].
    split; [done|]. by rewrite Hold.
  - destruct rsp; simpl; [|done]. split; [done|]. rewrite lookup_insert_eq. by eexists.
  - intros p q Hp Hq'. destruct rsp as [b|]; simpl in Hq'; [|done]. injection Hq' as <-. simpl.
    rewrite Hp in Hq. destruct Hq as [_ Hl]. specialize (Hf _ Hl). lia.
Qed.

Lemma answered_reowned v w all t c rc rsp len :
  heap_inv v (bufs w) all (brk w) → v !! t = Some (task_view t c) → c_rsp c = None →
  reowned v (bufs w) (bufs (rsp_world w rsp)) t (task_view t (set_rsp rc (rsp_ptr w rsp) len c)).
Proof.
  intros H Hv Hn.
  assert (∀ l, l ∈ ptr_locs (c_req c) → l ∈ owned (task_view t c)) as Hsub.
  { intros l Hl. unfold owned, owned_ctx; simpl. by apply elem_of_app; left. }
  assert (∀ l, l ∈ owned (task_view t c) → l ∈ ptr_locs (c_req c)) as Hsup.
  { unfold owned, owned_ctx; simpl. rewrite Hn. simpl. intros l. by rewrite app_nil_r. }
  split; unfold owned at 1, owned_ctx; simpl.
  - intros l [Hl|Hl]%elem_of_app.
    + pose proof (owned_live _ _ _ _ _ _ _ H Hv (Hsub l Hl)) as Hs.
      pose proof (hi_fresh_buf _ _ _ _ H l Hs). split.
      * destruct rsp; simpl; [|done]. rewrite lookup_insert_ne; [done|lia].
      * intros t' x' Hne Hx' Hl'. apply Hne. symmetry.
        by eapply (hi_excl _ _ _ _ H t t'); eauto.
    + destruct rsp as [b|]; simpl in *; [|by apply elem_of_nil in Hl].
      apply list_elem_of_singleton in Hl as ->. rewrite lookup_insert_eq. split; [by eexists|].
      intros t' x' _ Hx' Hl'. pose proof (owned_live _ _ _ _ _ _ _ H Hx' Hl') as Hs.
      pose proof (hi_fresh_buf _ _ _ _ H _ Hs). lia.
  - intros l x0 Hl Hx0 Hin. simplify_eq. exfalso. apply Hl. apply elem_of_app. left. auto.
  - intros l Hl _. destruct rsp as [b|]; simpl in *; [|done].
    rewrite lookup_insert_ne; [done|]. intros <-. apply Hl, elem_of_app. right. by left.
Qed.

Lemma answered_owned v w all t c rc rsp len l :
  heap_inv v (bufs w) all (brk w) → v !! t = Some (task_view t c) →
  l ∈ owned (task_view t (set_rsp rc (rsp_ptr w rsp) len c)) → (l < brk (rsp_world w rsp))%nat.
Proof.
  intros H Hv. destruct (rsp_world_facts w rsp) as (_ & _ & _ & _ & _ & _ & _ & Hb).
  unfold owned, owned_ctx. simpl. intros [Hl|Hl]%elem_of_app.
  - assert (l < brk w)%nat; [|lia]. apply (hi_fresh_buf _ _ _ _ H).
    eapply (owned_live _ _ _ _ t); [exact H|exact Hv|].
    unfold owned, owned_ctx; simpl. by apply elem_of_app; left.
  - clear -Hl. destruct rsp; simpl in *; [|by apply elem_of_nil in Hl].
    apply list_elem_of_singleton in Hl as ->. lia.
Qed.

(** The task list without the answered one. *)
Lemma held_split s pl mk dl t :
  sys_inv s pl mk dl → t ∈ s_held s → s_held s ≡ₚ t :: filter (λ x, x ≠ t) (s_held s).
Proof.
  intros Hinv Ht. apply filter_ne_perm; [|done].
  pose proof (hi_nodup _ _ _ _ (si_heap _ _ _ _ Hinv)) as Hnd.
  apply NoDup_app in Hnd as (_ & _ & Hnd). apply NoDup_app in Hnd as (_ & _ & Hnd).
  by apply NoDup_app in Hnd as (Hnd & _).
Qed.

Section respond.
Context (t : loc) (rc : Z) (rsp : option (list byte)) (len : Z).
Context (s : sys) (pl : list loc) (mk : option loc) (dl : list loc) (c : ffi_task_ctx_t).
Hypothesis Hinv : sys_inv s pl mk dl.
Hypothesis Ht : t ∈ s_held s.
Hypothesis Hfit : rsp_fits rsp len = true.
Hypothesis Hc : views (tasks (sw s)) !! t = Some (task_view t c).

Let w := sw s.
Let c' := set_rsp rc (rsp_ptr w rsp) len c.

Definition respond_world : world :=
  upd_calls (λ l, l ++ [CNotify])
    (upd_pool_done (appended dl t)
       (upd_tasks (λ m, link dl t (alter (answered rc (rsp_ptr w rsp) len) t m)) (rsp_world w rsp))).

Definition respond_state : sys :=
  Sys respond_world (s_tq s) (s_finished s) (filter (λ x, x ≠ t) (s_held s)) (s_inflight s)
      (s_waiting s) (s_posted s) (s_polled s) (s_handled s) (s_lost s).

Lemma respond_unanswered : c_rsp c = None.
Proof using Type*. eapply (si_unanswered _ _ _ _ Hinv t); [mem|done]. Qed.

Lemma respond_tasks :
  tasks respond_world = link dl t (alter (answered rc (rsp_ptr w rsp) len) t (tasks w)).
Proof using Type. simpl. by rewrite (proj1 (rsp_world_facts w rsp)). Qed.

Lemma respond_views :
  views (tasks respond_world) = <[t := task_view t c']> (views (tasks w)).
Proof using Type*.
  destruct (view_task_block _ _ _ Hc) as (b & Hb & Hp & Hd & Hcx).
  rewrite respond_tasks, views_link, (alter_alt_Some _ _ _ b Hb), views_insert. f_equal.
  unfold view, answered, task_view; simpl. by rewrite Hp, Hd, Hcx.
Qed.

Lemma respond_where :
  pl ++ marker_list mk ++ s_held s ++ dl ++ s_inflight s ++ f_marks F ≡ₚ
  pl ++ marker_list mk ++ filter (λ x, x ≠ t) (s_held s) ++ (dl ++ [t]) ++ s_inflight s ++ f_marks F.
Proof using Type*.
  rewrite (held_split _ _ _ _ _ Hinv Ht) at 1. do 2 f_equiv. simpl.
  rewrite <-!app_assoc. simpl. by rewrite !Permutation_middle.
Qed.

Lemma respond_queue :
  match queues respond_world !! s_tq s with
  | None => pl = [] ∧ mk = None ∧ s_finished s = true
  | Some q => queue_inv respond_world (s_tq s) q (pl ++ marker_list mk) (s_lost s) mk
  end.
Proof using Type*.
  pose proof (si_queue _ _ _ _ Hinv) as A.
  destruct (rsp_world_facts w rsp) as (Et & Ed & El & Eq & _).
  destruct (task_ctx_nodup _ _ _ _ _ Hinv Ht) as (Htpl & Htmk & Htdl & Htin).
  change (queues respond_world) with (queues (rsp_world w rsp)). rewrite Eq. fold w in A.
  destruct (queues w !! s_tq s) as [q|] eqn:Hq; [|done].
  destruct A as [[A0 A1 A2] A3 A4 A5 A6 A7]. split; try done.
  - split; [|done|done]. simpl. by rewrite Eq.
  - eapply queue_repr_frame; [|exact A3]. rewrite respond_tasks.
    eapply same_links_trans; [by apply same_links_alter_ne; intros [?|?]%elem_of_app|].
    apply same_links_link. intros z Hz. eapply link_last_notin; [|done].
    intros y Hy Hy'. by eapply (queue_done_disjoint _ _ _ _ y Hinv).
Qed.

Lemma respond_done : queue_repr (tasks respond_world) SDoneFirst (pool_done respond_world) (dl ++ [t]).
Proof using Type*.
  destruct (rsp_world_facts w rsp) as (Et & Ed & _).
  destruct (task_ctx_nodup _ _ _ _ _ Hinv Ht) as (Htpl & Htmk & Htdl & Htin).
  destruct (view_task_block _ _ _ Hc) as (b & Hb & _). rewrite respond_tasks.
  simpl. rewrite Ed. eapply queue_repr_append.
  - eapply queue_repr_frame; [|apply Hinv]. by apply same_links_alter_ne.
  - done.
  - fold w in Hb. by rewrite lookup_alter_eq, Hb.
  - done.
Qed.

Lemma respond_heap :
  heap_inv (views (tasks respond_world)) (bufs respond_world)
    (pl ++ marker_list mk ++ filter (λ x, x ≠ t) (s_held s) ++ (dl ++ [t]) ++ s_inflight s ++ f_marks F)
    (brk respond_world).
Proof using Type*.
  pose proof (si_heap _ _ _ _ Hinv) as E. rewrite respond_views.
  eapply heap_inv_update; [exact E|exact Hc|apply respond_where|apply rsp_world_facts| | |].
  - right. exists c'. split; [done|]. apply answered_ctx_wf; [apply E|done|].
    destruct (hi_wf _ _ _ _ E t _ Hc) as [Hbad|(c0 & Hc0 & Hwf)]; [done|].
    unfold task_view in Hc0. by simplify_eq.
  - eapply answered_reowned; [exact E|exact Hc|apply respond_unanswered].
  - intros l. by eapply answered_owned.
Qed.

Lemma respond_co : co_inv (views (tasks respond_world)) respond_world (s_waiting s).
Proof using Type*.
  destruct (rsp_world_facts w rsp) as (_ & _ & _ & _ & Ec & Eth & Er & _).
  pose proof (si_co _ _ _ _ Hinv) as G. rewrite respond_views.
  eapply co_inv_update; [exact G|exact Hc| | |by apply co_frame_same].
  - intros k. split; intros (c0 & [= <-] & Ha & Hk); by eexists.
  - intros c0 [= <-] Ha. destruct (ci_task _ _ _ G t _ c Hc) as (k & Hk & _); [done..|].
    exists k. split; [done|]. by exists c.
Qed.

Lemma respond_tasks_elsewhere y :
  y ∈ pl ++ filter (λ x, x ≠ t) (s_held s) ++ (dl ++ [t]) ++ s_inflight s →
  ∃ c0, views (tasks respond_world) !! y = Some (task_view y c0).
Proof using Type*.
  intros Hy. rewrite respond_views. destruct (decide (y = t)) as [->|Hne].
  - rewrite lookup_insert_eq. by eexists.
  - rewrite lookup_insert_ne by done. apply (si_tasks _ _ _ _ Hinv).
    rewrite !elem_of_app, elem_of_filter_ne, list_elem_of_singleton in Hy.
    rewrite !elem_of_app. tauto.
Qed.

Lemma respond_inv : sys_inv respond_state pl mk (dl ++ [t]).
Proof using Type*.
  destruct (task_ctx_nodup _ _ _ _ _ Hinv Ht) as (Htpl & Htmk & Htdl & Htin).
  destruct (rsp_world_facts w rsp) as (Et & Ed & El & Eq & Ec & Eth & Er & Hb).
  split; simpl; try apply Hinv.
  - apply respond_queue.
  - intros l. rewrite Eq. apply Hinv.
  - apply respond_done.
  - rewrite El. apply Hinv.
  - apply respond_heap.
  - apply respond_co.
  - intros m Hm. destruct (si_marker _ _ _ _ Hinv m Hm) as [? Hmv]. split; [done|].
    pose proof respond_views as Hv. simpl in Hv. rewrite Hv, lookup_insert_ne; [done|].
    intros ->. apply Htmk. rewrite Hm. by left.
  - apply respond_tasks_elsewhere.
  - intros y c0 [Hy|[Hne Hy]%elem_of_filter_ne]%elem_of_app;
      pose proof respond_views as Hv; simpl in Hv; rewrite Hv;
      (rewrite lookup_insert_ne by (by intros <-)); apply (si_unanswered _ _ _ _ Hinv); mem.
  - rewrite (si_polled _ _ _ _ Hinv), (held_split _ _ _ _ _ Hinv Ht) at 1. simpl.
    rewrite <-!app_assoc. simpl. by rewrite !Permutation_middle.
  - intros y Hy. pose proof (si_old _ _ _ _ Hinv y Hy). fold w in H. lia.
  - intros m Hm. pose proof respond_views as Hv. simpl in Hv. rewrite Hv, lookup_insert_ne.
    + by apply (si_marks _ _ _ _ Hinv).
    + intros <-. rewrite (si_marks _ _ _ _ Hinv t Hm) in Hc. done.
Qed.

(** The other tasks keep what they carry, and the answered one has its response. *)
Lemma respond_contents : contents w (ERespond t rc rsp len) respond_world.
Proof using Type*. eapply contents_answered; [apply Hinv|exact Hc|exact respond_views|done]. Qed.

Lemma respond_untouched : untouched s (ERespond t rc rsp len) respond_state (s_held s ++ f_marks F).
Proof using Type*.
  destruct (rsp_world_facts w rsp) as (_ & _ & _ & Eq & _). split.
  - intros j _. simpl. by rewrite Eq.
  - intros l Hl Ht'. specialize (Ht' _ _ _ _ eq_refl).
    change (tasks (sw respond_state)) with (tasks respond_world). rewrite respond_tasks.
    eapply same_links_trans; [by apply same_links_alter_ne|]. apply same_links_link.
    intros z Hz. eapply link_last_notin; [|done]. intros y Hy Hin%Hl.
    apply (kept_not_done _ _ _ _ y Hinv Hin). mem.
  - apply rsp_world_facts.
  - apply respond_contents.
Qed.

Lemma respond_exec : exec_respond t rc rsp len s = Ok respond_state.
Proof using Type*.
  destruct (view_task_block _ _ _ Hc) as (b & Hb & Hp & Hd & Hcx).
  destruct (rsp_world_facts (sw s) rsp) as (Et & Ed & El & _).
  destruct (task_ctx_nodup _ _ _ _ _ Hinv Ht) as (_ & _ & Htdl & _).
  unfold exec_respond. rewrite respond_with_split.
  erewrite respond_run; [done|by rewrite Et|done|done| |by rewrite Et, Ed; apply Hinv|done].
  rewrite El. apply Hinv.
Qed.
End respond.

Lemma step_respond t rc rsp len s pl mk dl :
  sys_inv s pl mk dl → enabled s (ERespond t rc rsp len) = true →
  ∃ s', exec_respond t rc rsp len s = Ok s' ∧
    simulates s pl mk dl (ERespond t rc rsp len) s'.
Proof.
  intros Hinv Hen. simpl in Hen. apply andb_true_iff in Hen as [Ht Hfit].
  apply bool_decide_eq_true in Ht.
  destruct (si_tasks _ _ _ _ Hinv t) as [c Hc]; [mem|].
  eexists. split; [by eapply respond_exec|]. exists pl, mk, (dl ++ [t]).
  split; [by eapply respond_inv|]. split; [|by eapply respond_untouched].
  eapply eq_rect; [by apply spec_responds|]. unfold abs, spec_respond. simpl.
  by rewrite (proj1 (proj2 (proj2 (proj2 (rsp_world_facts (sw s) rsp))))).
Qed.

(** ** Killing a waiting coroutine *)

Section kill.
Context (k : cid) (s : sys) (pl : list loc) (mk : option loc) (dl : list loc).
Context (t : loc) (c : ffi_task_ctx_t).
Hypothesis Hinv : sys_inv s pl mk dl.
Hypothesis Hc : views (tasks (sw s)) !! t = Some (task_view t c).
Hypothesis Haw : awaits (task_view t c) k.

Local Abbreviation w := (sw s).
Let c' := set_is_abort (-1) c.

Definition kill_world : world :=
  upd_cos (delete k) (upd_tasks (alter (map_tb_ctx (set_is_abort (-1))) t) w).

Definition kill_state : sys :=
  Sys kill_world (s_tq s) (s_finished s) (s_held s) (s_inflight s) (s_waiting s ∖ {[ k ]})
      (s_posted s) (s_polled s) (s_handled s) (s_lost s).

Lemma kill_exec : exec_kill k s = Ok kill_state.
Proof using Type*.
  destruct (view_task_block _ _ _ Hc) as (b & Hb & Hp & Hd & Hcx).
  destruct (co_inv_awaits _ _ _ _ _ _ (si_co _ _ _ _ Hinv) Hc Haw)
    as (_ & y & Hy & Hcl & Hdata & _).
  unfold exec_kill, kill_co. erewrite bind_ok; [|by eapply load_co_ok]. rewrite Hcl.
  erewrite bind_ok; [|by eapply cleanup_run]. done.
Qed.

Lemma kill_views : views (tasks kill_world) = <[t := task_view t c']> (views (tasks w)).
Proof using Type*.
  destruct (view_task_block _ _ _ Hc) as (b & Hb & Hp & Hd & Hcx).
  simpl. rewrite (alter_alt_Some _ _ _ b Hb), views_insert. f_equal.
  unfold view, map_tb_ctx, task_view; simpl. by rewrite Hp, Hd, Hcx.
Qed.

(** Only the mark of the killed coroutine's task changes. *)
Lemma kill_contents : contents w (EKill k) kill_world.
Proof using Type*.
  pose proof kill_views as Hv.
  split; [| | |done| |done].
  - intros y c0 c1 H0. rewrite Hv. destruct (decide (y = t)) as [->|Hne].
    + rewrite lookup_insert_eq. intros [= <-]. rewrite H0 in Hc. by injection Hc as ->.
    + rewrite lookup_insert_ne by done. unfold task_view in *. intros. by simplify_eq.
  - intros y c0 c1 H0. rewrite Hv. destruct (decide (y = t)) as [->|Hne].
    + rewrite lookup_insert_eq. intros [= <-]. rewrite H0 in Hc. by injection Hc as ->.
    + rewrite lookup_insert_ne by done. unfold task_view in *. intros. by simplify_eq.
  - intros y c0 c1 H0. rewrite Hv. destruct (decide (y = t)) as [->|Hne].
    + intros _ He. destruct Haw as (c2 & [= <-] & _ & Hk). rewrite H0 in Hc. injection Hc as ->.
      by destruct (He k).
    + rewrite lookup_insert_ne by done. unfold task_view in *. intros. by simplify_eq.
  - done.
Qed.

Lemma kill_links l : same_links (tasks w) (tasks kill_world) l.
Proof using Type. apply same_links_alter. by intros []. Qed.

Lemma kill_heap :
  heap_inv (views (tasks kill_world)) (bufs w)
    (pl ++ marker_list mk ++ s_held s ++ dl ++ s_inflight s ++ f_marks F) (brk w).
Proof using Type*.
  pose proof (si_heap _ _ _ _ Hinv) as E. rewrite kill_views.
  eapply heap_inv_update; [exact E|exact Hc|done|done| | |].
  - right. exists c'. split; [done|].
    destruct (hi_wf _ _ _ _ E t _ Hc) as [Hbad|(c0 & Hc0 & [[Hq Hr Hd] Hv])]; [done|].
    unfold task_view in Hc0. simplify_eq. split; [by split|done].
  - eapply reowned_same; [exact E|exact Hc|done].
  - intros l Hl. apply (hi_fresh_buf _ _ _ _ E). eapply (owned_live _ _ _ _ t); [exact E|exact Hc|done].
Qed.

Lemma kill_co_inv : co_inv (views (tasks kill_world)) kill_world (s_waiting s ∖ {[ k ]}).
Proof using Type*.
  rewrite kill_views. eapply co_inv_abort; [apply Hinv|exact Hc|exact Haw| |].
  - intros c0 [= <-]. done.
  - intros k' y [_ Hne] Hy Hl. simpl. rewrite lookup_delete_ne by done. done.
Qed.

Lemma kill_inv : sys_inv kill_state pl mk dl.
Proof using Type*.
  pose proof (hi_nodup _ _ _ _ (si_heap _ _ _ _ Hinv)) as Hnd.
  pose proof kill_views as Hv.
  split; simpl; try apply Hinv.
  - pose proof (si_queue _ _ _ _ Hinv) as A.
    destruct (queues w !! s_tq s) as [q|]; [|done].
    destruct A as [[A0 A1 A2] A3 A4 A5 A6 A7]. split; try done.
    eapply queue_repr_frame; [apply kill_links|done].
  - eapply queue_repr_frame; [apply kill_links|apply Hinv].
  - apply kill_heap.
  - apply kill_co_inv.
  - intros m Hm. destruct (si_marker _ _ _ _ Hinv m Hm) as [? Hmv]. split; [done|].
    simpl in Hv. rewrite Hv, lookup_insert_ne; [done|].
    intros ->. rewrite Hc in Hmv. done.
  - intros y Hy. simpl in Hv. rewrite Hv. destruct (decide (y = t)) as [->|Hne].
    + rewrite lookup_insert_eq. by eexists.
    + rewrite lookup_insert_ne by done. by apply (si_tasks _ _ _ _ Hinv).
  - intros y c0 Hy. simpl in Hv. rewrite Hv. destruct (decide (y = t)) as [->|Hne].
    + rewrite lookup_insert_eq. intros [= <-]. exact (si_unanswered _ _ _ _ Hinv t c Hy Hc).
    + rewrite lookup_insert_ne by done. by apply (si_unanswered _ _ _ _ Hinv).
  - intros m Hm. simpl in Hv. rewrite Hv, lookup_insert_ne; [by apply (si_marks _ _ _ _ Hinv)|].
    intros <-. by rewrite (si_marks _ _ _ _ Hinv t Hm) in Hc.
Qed.
End kill.

Lemma waiting_task s pl mk dl k :
  sys_inv s pl mk dl → k ∈ s_waiting s →
  ∃ t c, views (tasks (sw s)) !! t = Some (task_view t c) ∧ awaits (task_view t c) k.
Proof.
  intros Hinv Hk. destruct (ci_wait _ _ _ (si_co _ _ _ _ Hinv) k Hk) as (t & x & Hx & Haw).
  destruct (hi_wf _ _ _ _ (si_heap _ _ _ _ Hinv) t x Hx) as [->|(c & -> & _)].
  - by destruct Haw as (c & [=] & _).
  - eauto.
Qed.

Lemma step_kill k s pl mk dl :
  sys_inv s pl mk dl → enabled s (EKill k) = true →
  ∃ s', exec_kill k s = Ok s' ∧ simulates s pl mk dl (EKill k) s'.
Proof.
  intros Hinv Hk%bool_decide_eq_true.
  destruct (waiting_task _ _ _ _ _ Hinv Hk) as (t & c & Hc & Haw).
  eexists. split; [by eapply kill_exec|]. exists pl, mk, dl.
  split; [by eapply kill_inv|]. split; [by apply spec_kills|].
  split; [done| |done|by eapply kill_contents]. intros l _ _. apply kill_links.
Qed.

(** ** nginx takes the done queue *)

Lemma step_take {pool : NgxPool} {plaws : NgxPoolLaws pool} s pl mk dl :
  sys_inv s pl mk dl → ∃ s', exec_take s = Ok s' ∧ simulates s pl mk dl ETake s'.
Proof.
  intros Hinv. unfold exec_take.
  erewrite pool_take_law; [|apply Hinv|apply Hinv].
  eexists. split; [done|]. exists pl, mk, [].
  split; [|split; [apply spec_takes|by apply untouched_tasks]]. pose proof Hinv as [A B C D E G M H I J K L N O P Q].
  split; simpl; try done.
  - destruct (queues (sw s) !! s_tq s); [|done]. by apply (queue_inv_ext (sw s)).
  - split; [done|done|apply NoDup_nil_2].
  - eapply heap_inv_perm; [|exact E]. simpl. by rewrite (Permutation_app_comm (s_inflight s) dl), <-app_assoc.
  - by apply (co_inv_same _ (sw s)).
  - intros t Ht. apply H. rewrite !elem_of_app in *. tauto.
  - rewrite K. f_equiv. rewrite app_assoc. by rewrite (Permutation_app_comm dl).
Qed.

(** ** The event handler *)

Lemma drop_owned t c (m : gmap loc (list byte)) l :
  drop_buf (c_rsp c) (drop_buf (c_req c) m) !! l =
    if decide (l ∈ owned (task_view t c)) then None else m !! l.
Proof.
  unfold owned, owned_ctx. simpl. destruct (c_req c) as [p|], (c_rsp c) as [p'|]; simpl;
    rewrite ?lookup_delete; repeat case_decide; try done; set_solver.
Qed.

Section handle.
Context (s : sys) (pl : list loc) (mk : option loc) (dl : list loc).
Context (t : loc) (rest : list loc) (c : ffi_task_ctx_t) (b : task_block).
Hypothesis Hinv : sys_inv s pl mk dl.
Hypothesis Hfl : s_inflight s = t :: rest.
Hypothesis Hb : tasks (sw s) !! t = Some b.
Hypothesis Hcx : tb_ctx b = Some c.
Hypothesis Hview : view b = task_view t c.

Local Abbreviation w := (sw s).

Lemma handle_view : views (tasks w) !! t = Some (task_view t c).
Proof using Hb Hview. rewrite <-Hview. by apply views_some. Qed.

Lemma handle_wf : ctx_wf (bufs w) c.
Proof using Type*.
  destruct (hi_wf _ _ _ _ (si_heap _ _ _ _ Hinv) t _ handle_view) as [?|(c0 & Hc0 & ?)]; [done|].
  unfold task_view in Hc0. by simplify_eq.
Qed.

Lemma handle_answered : answered_task w t b c.
Proof using Type*.
  split; [done|done| |apply handle_wf]. unfold view, task_view in Hview. by simplify_eq.
Qed.

(** The coroutine [t] resumes is no longer waiting. *)
Definition still_waiting : gset cid :=
  match resumes w t with Some k => s_waiting s ∖ {[ k ]} | None => s_waiting s end.

Lemma resumes_awaits k : resumes w t = Some k ↔ awaits (task_view t c) k.
Proof using Hb Hcx.
  unfold resumes. rewrite Hb. simpl. rewrite Hcx. simpl. split.
  - destruct (c_is_abort c =? 0) eqn:E; [|done]. apply Z.eqb_eq in E.
    intros Hk. by exists c.
  - intros (c0 & [= <-] & -> & ->). done.
Qed.

Lemma elem_of_still_waiting k :
  k ∈ still_waiting ↔ k ∈ s_waiting s ∧ elsewhere (views (tasks w)) t k.
Proof using Type*.
  assert (elsewhere (views (tasks w)) t k ↔ resumes w t ≠ Some k) as ->.
  { rewrite resumes_awaits. split.
    - intros He. by apply He, handle_view.
    - intros Hna x Hx. rewrite handle_view in Hx. by simplify_eq. }
  unfold still_waiting. destruct (resumes w t) as [k'|].
  - rewrite elem_of_difference, elem_of_singleton. naive_solver.
  - naive_solver.
Qed.

Definition handle_state (w' : world) : sys :=
  Sys w' (s_tq s) (s_finished s) (s_held s) rest still_waiting
      (s_posted s) (s_polled s) (s_handled s ++ [t]) (s_lost s).

(** What the three outcomes of the handler have in common. *)
Record after_handle (w' : world) : Prop := {
  ah_tasks : tasks w' = delete t (tasks w);
  ah_bufs : bufs w' = drop_buf (c_rsp c) (drop_buf (c_req c) (bufs w));
  ah_queues : queues w' = queues w;
  ah_brk : brk w' = brk w;
  ah_done : pool_done w' = pool_done w;
  ah_lock : done_lock w' = done_lock w;
  ah_co : co_frame (λ k, k ∈ still_waiting) w w';
}.

Lemma handle_nodup :
  t ∉ pl ++ marker_list mk ++ s_held s ++ dl ++ rest ++ f_marks F ∧
  NoDup (pl ++ marker_list mk ++ s_held s ++ dl ++ rest ++ f_marks F).
Proof using Hinv Hfl.
  pose proof (hi_nodup _ _ _ _ (si_heap _ _ _ _ Hinv)) as Hnd. rewrite Hfl in Hnd. simpl in Hnd.
  rewrite <-!Permutation_middle in Hnd. by apply NoDup_cons in Hnd.
Qed.

Lemma handle_heap w' :
  after_handle w' →
  heap_inv (views (tasks w')) (bufs w') (pl ++ marker_list mk ++ s_held s ++ dl ++ rest ++ f_marks F) (brk w').
Proof using Type*.
  intros []. destruct handle_nodup as [Hnt Hnd].
  rewrite ah_tasks0, ah_brk0, ah_bufs0, views_delete.
  eapply heap_inv_remove; [apply Hinv|exact handle_view|done| |apply drop_owned].
  intros y. rewrite Hfl. simpl. rewrite <-!Permutation_middle, elem_of_cons. split.
  - intros Hy. split; [by right|]. by intros ->.
  - intros [[->|?] ?]; done.
Qed.

Lemma handle_lookup w' y :
  after_handle w' → y ∈ pl ++ marker_list mk ++ s_held s ++ dl ++ rest ++ f_marks F →
  views (tasks w') !! y = views (tasks w) !! y.
Proof using Type*.
  intros [] Hy. rewrite ah_tasks0, views_delete, lookup_delete_ne; [done|].
  intros <-. by apply handle_nodup.
Qed.

Lemma handle_links w' l : after_handle w' → t ∉ l → same_links (tasks w) (tasks w') l.
Proof using Type. intros []. rewrite ah_tasks0. apply same_links_delete. Qed.

Lemma handle_inv w' : after_handle w' → sys_inv (handle_state w') pl mk dl.
Proof using Type*.
  intros Hw'. pose proof Hw' as [Et Eb Eq Ebr Ed El Ec]. destruct handle_nodup as [Hnt _].
  split; simpl; try apply Hinv; rewrite ?Eq, ?Ebr, ?Ed, ?El; try apply Hinv.
  - pose proof (si_queue _ _ _ _ Hinv) as A.
    destruct (queues w !! s_tq s) as [q|] eqn:Hq; [|done].
    destruct A as [[A0 A1 A2] A3 A4 A5 A6 A7]. split; try done; [by split; rewrite ?Eq|].
    eapply queue_repr_frame; [|done]. apply handle_links; [done|].
    intros ?. apply Hnt. mem.
  - eapply queue_repr_frame; [|apply Hinv]. apply handle_links; [done|]. intros ?. apply Hnt. mem.
  - rewrite <-Ebr. by apply handle_heap.
  - rewrite Et, views_delete. eapply co_inv_remove; [apply Hinv|apply elem_of_still_waiting|].
    intros k y Hk. apply Ec. by apply elem_of_still_waiting.
  - intros m Hm. destruct (si_marker _ _ _ _ Hinv m Hm). split; [done|].
    rewrite handle_lookup; [done|done|]. rewrite Hm. simpl. mem.
  - intros y Hy. rewrite handle_lookup; [|done|mem]. apply (si_tasks _ _ _ _ Hinv).
    rewrite Hfl. rewrite !elem_of_app in *. rewrite elem_of_cons. tauto.
  - intros y c0 Hy. rewrite handle_lookup; [|done|mem]. by apply (si_unanswered _ _ _ _ Hinv).
  - rewrite (si_polled _ _ _ _ Hinv), Hfl. do 2 f_equiv. rewrite app_assoc.
    by rewrite <-Permutation_cons_append.
  - intros m Hm. rewrite handle_lookup; [by apply (si_marks _ _ _ _ Hinv)|done|mem].
Qed.

Lemma handle_contents w' : after_handle w' → contents w EHandle w'.
Proof using Hinv Hb Hview.
  intros [Et Eb _ _ _ _ _]. pose proof (si_heap _ _ _ _ Hinv) as E.
  apply contents_kept; [| | |done]; rewrite Et, views_delete.
  - intros y x x' Hx [_ Hx']%lookup_delete_Some. congruence.
  - intros env r req y c0 _ Hn [_ Hc0]%lookup_delete_Some. congruence.
  - intros y x l Hx [x' [Hne _]%lookup_delete_Some] Hl. rewrite Eb, (drop_owned t c), decide_False; [done|].
    intros Hl'. apply Hne. symmetry.
    by apply (hi_excl _ _ _ _ E y t x (task_view t c) l); [|apply handle_view|..].
Qed.

Lemma handle_untouched w' :
  after_handle w' → untouched s EHandle (handle_state w') (s_held s ++ f_marks F).
Proof using Hinv Hfl Hb Hview.
  intros Hw'.
  split; simpl; [intros j _; by rewrite (ah_queues _ Hw')| |by rewrite (ah_brk _ Hw')|by apply handle_contents].
  intros l Hl _. apply handle_links; [done|]. intros Hin%Hl. destruct handle_nodup as [Hnt _]. apply Hnt. mem.
Qed.
End handle.

Section handle_outcomes.
Context {ops : NgxLua} {laws : NgxLuaLaws ops}.
Context (s : sys) (pl : list loc) (mk : option loc) (dl : list loc).
Context (t : loc) (rest : list loc) (c : ffi_task_ctx_t) (b : task_block).
Hypothesis Hinv : sys_inv s pl mk dl.
Hypothesis Hfl : s_inflight s = t :: rest.
Hypothesis Hb : tasks (sw s) !! t = Some b.
Hypothesis Hcx : tb_ctx b = Some c.
Hypothesis Hview : view b = task_view t c.

Lemma after_released : after_handle s t c (released t c (sw s)).
Proof using Type. by split. Qed.

(** A coroutine that still waits is awaited by another task. *)
Lemma still_awaited k w' :
  tasks w' = delete t (tasks (sw s)) → k ∈ still_waiting s t → awaited w' k.
Proof using Hinv Hfl Hb Hcx Hview.
  intros Ht Hk. eapply elem_of_still_waiting in Hk as [Hk He]; [|done..].
  destruct (ci_wait _ _ _ (si_co _ _ _ _ Hinv) k Hk) as (t' & x' & Hx' & Haw).
  assert (t ≠ t') as Hne by (intros ->; by apply (He x')).
  apply views_lookup in Hx' as (b' & Hb' & <-). destruct Haw as (c' & Hc' & Ha' & Hk').
  exists t', b', c'. by rewrite Ht, lookup_delete_ne.
Qed.

Lemma after_delivered k L r v w' :
  resumes (sw s) t = Some k →
  lua_frame (delivered t c k L r v (sw s)) w' → after_handle s t c w'.
Proof using Hinv Hfl Hb Hcx Hview.
  intros Hres [Et Eb Eq Ebr Ed El Hco]. split; try done. intros k' y Hk' Hy Hl. apply Hco.
  - by apply still_awaited.
  - simpl. rewrite lookup_alter_ne; [done|]. intros ->.
    eapply elem_of_still_waiting in Hk' as [_ He]; [|done..].
    eapply He; [by eapply handle_view|]. by eapply (resumes_awaits s t c b).
  - destruct Hl as (th & Hth & Hlive). unfold live_thread. simpl.
    rewrite lookup_alter. case_decide as HL; [rewrite HL|]; rewrite Hth;
      (eexists; split; [done|]); intros r' Hr'; rewrite is_Some_alter; by apply Hlive.
Qed.

Lemma handle_runs :
  ∃ w', ngx_http_lua_ffi_event_handler (Some (Ptr t 0)) (sw s) = Ok ((), w') ∧
        after_handle s t c w'.
Proof using Type*.
  pose proof (handle_answered _ _ _ _ _ _ _ _ Hinv Hfl Hb Hcx Hview) as Hat.
  pose proof (handle_view _ _ _ _ Hb Hview) as Hv.
  destruct (decide (c_is_abort c = 0)) as [Ha|Ha].
  2: { eexists. split; [by eapply handler_aborted|apply after_released]. }
  destruct (ci_task _ _ _ (si_co _ _ _ _ Hinv) t _ c Hv eq_refl Ha)
    as (k & Hk & Hkw & y & Hy & Hcl & Hd & th & Hth & Hlive).
  destruct (l_req th) as [r|] eqn:Hr.
  2: { eexists. split; [|apply after_released].
       eapply handler_gone; [exact Hat|done|exact Hk|exact Hy|exact Hth|by left]. }
  destruct (Hlive r) as [rq Hrq]; [done|].
  destruct (r_ctx rq) as [lc|] eqn:Hlc.
  2: { eexists. split; [|apply after_released].
       eapply handler_gone; [exact Hat|done|exact Hk|exact Hy|exact Hth|right; eauto]. }
  pose proof (handle_wf _ _ _ _ _ _ _ _ Hinv Hfl Hb Hcx Hview) as [_ [v Hval]].
  destruct (handler_delivers (sw s) t b c Hat k y th Ha Hk Hy Hth r rq lc v Hr Hrq Hlc Hval)
    as (w' & Hrun & Hframe).
  exists w'. split; [done|]. eapply after_delivered; [|exact Hframe].
  eapply (resumes_awaits s t c b); [done|done|]. by exists c.
Qed.
End handle_outcomes.

(** A resumed coroutine was waiting. *)
Lemma resumes_suspended s pl mk dl t k :
  sys_inv s pl mk dl → t ∈ s_inflight s → resumes (sw s) t = Some k → k ∈ s_waiting s.
Proof.
  intros Hinv Ht Hk. destruct (si_tasks _ _ _ _ Hinv t) as [c Hc]; [mem|].
  pose proof Hc as (b & Hb & Hview)%views_lookup.
  assert (tb_ctx b = Some c) as Hcx by (unfold view, task_view in Hview; by simplify_eq).
  apply (co_inv_awaits _ _ _ t _ k (si_co _ _ _ _ Hinv) Hc).
  by apply (resumes_awaits s t c b).
Qed.

Lemma step_handle {ops : NgxLua} {laws : NgxLuaLaws ops} s pl mk dl :
  sys_inv s pl mk dl → ∃ s', exec_handle s = Ok s' ∧ simulates s pl mk dl EHandle s'.
Proof.
  intros Hinv. unfold exec_handle. destruct (s_inflight s) as [|t rest] eqn:Hfl.
  { exists s. split; [done|]. exists pl, mk, dl. split; [done|]. split; [|by apply untouched_tasks].
    eapply eq_rect; [by apply (spec_handles None)|]. unfold spec_handle. simpl. by rewrite Hfl. }
  destruct (si_tasks _ _ _ _ Hinv t) as [c Hc]; [rewrite Hfl; mem|].
  pose proof Hc as (b & Hb & Hview)%views_lookup.
  assert (tb_ctx b = Some c) as Hcx by (unfold view, task_view in Hview; by simplify_eq).
  destruct (handle_runs _ _ _ _ _ _ _ _ Hinv Hfl Hb Hcx Hview) as (w' & -> & Hw').
  eexists. split; [done|]. exists pl, mk, dl. split; [by eapply handle_inv|].
  split; [|by eapply handle_untouched]. eapply eq_rect; [apply (spec_handles (resumes (sw s) t))|].
  - intros k Hk. eapply (resumes_suspended s); [exact Hinv| |exact Hk]. rewrite Hfl. by left.
  - unfold spec_handle, abs. simpl. by rewrite Hfl, (ah_queues _ _ _ _ Hw').
Qed.
End framed.
