(* ===== verification/Safety.v ===== *)
(** * Safety: executions of the whole protocol

    The steps of [System] composed.  From a fresh queue, whatever the threads,
    nginx and the Lua side do under the protocol, every step succeeds, the
    invariant holds and the abstract machine of [Spec] makes the same steps.
    While the runtime is not unloaded its requests can always be served, and with
    a single polling thread an unloaded runtime can always be drained. *)

From S2P Require Import Prelude World TaskQueue FfiTask FfiQueue EventHandler Ownership System.
From S2P Require Import Spec Invariant Posting Polling Answering.

(** ** The initial state *)

(** Nothing of the program is allocated; Lua, nginx and the requests are
    arbitrary. *)
Record idle_world (w : world) : Prop := {
  iw_tasks : tasks w = ∅;
  iw_bufs : bufs w = ∅;
  iw_queues : queues w = ∅;
  iw_done : pool_done w = ngx_task_queue_init SDoneFirst;
  iw_lock : done_lock w = false;
}.

(** [load_ffi] of resty_ffi.lua creates the queue of a runtime. *)
Definition boot (env : sysenv) (max : Z) (w : world) : res (option sys) :=
  match ngx_http_lua_ffi_create_task_queue env max w with
  | UB f => UB f
  | Ok (None, _) => Ok None
  | Ok (Some p, w) => Ok (Some (Sys w (p_blk p) false [] [] ∅ [] [] [] 0))
  end.

Lemma fresh_queue_inv w max :
  queues w !! brk w = None →
  queue_inv (upd_queues <[brk w := fresh_queue (brk w) max]> (upd_brk S w)) (brk w)
    (fresh_queue (brk w) max) [] 0 None.
Proof.
  intros Hf. split; simpl; try done; try lia.
  - split; [simpl; by rewrite lookup_insert_eq|done|done].
  - split; [done|done|apply NoDup_nil_2].
  - apply NoDup_nil_2.
Qed.

Lemma empty_heap n : heap_inv ∅ ∅ [] n.
Proof.
  split; try done.
  - apply NoDup_nil_2.
  - intros t. rewrite lookup_empty. split; [intros Hin; by apply elem_of_nil in Hin|by intros []].
  - intros t. rewrite lookup_empty. by intros [].
  - intros l. rewrite lookup_empty. by intros [].
  - intros l. rewrite lookup_empty. split; [by intros []|]. by intros (t & x & Hx & _).
Qed.

Lemma boot_inv env max w s :
  idle_world w → e_calloc env = true → boot env max w = Ok (Some s) →
  sys_inv s [] None [] ∧ abs s [] None [] = Spec (Some max) false [] false ∅ 0 [] [] [] [] ∅.
Proof.
  intros [Ht Hb Hq Hd Hl] Ha. unfold boot.
  assert (queues w !! brk w = None) as Hf by by rewrite Hq.
  rewrite (create_task_queue_run _ _ _ Ha Hf).
  destruct (_ && _); [|done]. intros [= <-]. split.
  - assert (views ∅ = ∅) as Hv by apply fmap_empty.
    split; simpl; rewrite ?Ht, ?Hb, ?Hd, ?Hl, ?Hv; try done.
    + rewrite lookup_insert_eq. by apply fresh_queue_inv.
    + intros l [q Hl']. rewrite Hq, lookup_insert_Some in Hl'. left. by destruct Hl' as [[-> _]|[_ ?]].
    + split; [done|done|apply NoDup_nil_2].
    + apply empty_heap.
    + intros t Hin. by apply elem_of_nil in Hin.
    + apply NoDup_nil_2.
    + intros t Hin. by apply elem_of_nil in Hin.
    + intros m Hin. by apply elem_of_nil in Hin.
    + intros m Hin. by apply elem_of_nil in Hin.
  - unfold abs. simpl. by rewrite lookup_insert_eq.
Qed.

(** ** Executions *)

Inductive spec_run : list event → spec → spec → Prop :=
  | spec_run_nil a : spec_run [] a a
  | spec_run_cons e es a b c : spec_step e a b → spec_run es b c → spec_run (e :: es) a c.

Section executions.
Context {ops : NgxLua} {laws : NgxLuaLaws ops} {pool : NgxPool} {plaws : NgxPoolLaws pool}.

(** Every enabled step succeeds, and the abstract machine makes it too. *)
Lemma step_simulates {F} s pl mk dl e :
  sys_inv_in F s pl mk dl → enabled s e = true →
  ∃ s', exec e s = Ok s' ∧ simulates F s pl mk dl e s'.
Proof using laws plaws.
  intros Hinv Hen. destruct e; simpl exec.
  - by eapply step_post.
  - by eapply step_finish.
  - by eapply step_enter.
  - by eapply step_wake.
  - eexists. split; [done|]. by eapply step_spurious.
  - by eapply step_respond.
  - by eapply step_kill.
  - by eapply step_take.
  - by eapply step_handle.
Qed.

Lemma run_simulates es s pl mk dl r :
  sys_inv s pl mk dl → run_events es s = Some r →
  ∃ s' pl' mk' dl', r = Ok s' ∧ sys_inv s' pl' mk' dl' ∧
    spec_run es (abs s pl mk dl) (abs s' pl' mk' dl').
Proof using laws plaws.
  revert s pl mk dl. induction es as [|e es IH]; simpl; intros s pl mk dl Hinv.
  - intros [= <-]. exists s, pl, mk, dl.
    split; [done|]. split; [done|]. apply spec_run_nil.
  - destruct (enabled s e) eqn:Hen; [|done].
    destruct (step_simulates _ _ _ _ _ Hinv Hen) as (s1 & -> & pl1 & mk1 & dl1 & Hinv1 & Hst & _).
    intros Hr. destruct (IH _ _ _ _ Hinv1 Hr) as (s' & pl' & mk' & dl' & -> & Hinv' & Hrun).
    exists s', pl', mk', dl'.
    split; [done|]. split; [done|]. by eapply spec_run_cons.
Qed.
End executions.

Lemma run_events_app {ops : NgxLua} {pool : NgxPool} es es' s s' :
  run_events es s = Some (Ok s') → run_events (es ++ es') s = run_events es' s'.
Proof.
  revert s. induction es as [|e es IH]; simpl; intros s.
  - by intros [= ->].
  - destruct (enabled s e); [|done]. destruct (exec e s); [apply IH|done].
Qed.

(** ** Nothing is left behind *)

Lemma sys_inv_only s pl mk dl l : sys_inv s pl mk dl → is_Some (queues (sw s) !! l) → l = s_tq s.
Proof. intros H Hl. by destruct (si_only _ _ _ _ H l Hl) as [?|?%elem_of_empty]. Qed.

(** When every list is empty and the queue is closed, no block is allocated and
    no coroutine waits. *)
Lemma quiescent s :
  sys_inv s [] None [] → s_held s = [] → s_inflight s = [] →
  tasks (sw s) = ∅ ∧ bufs (sw s) = ∅ ∧ s_waiting s = ∅ ∧ s_handled s ≡ₚ s_posted s.
Proof.
  intros Hinv Hh Hi. pose proof Hinv as [_ _ _ _ E F _ _ _ J K _ _ _ _ _].
  rewrite Hh, Hi in *. simpl in *.
  assert (views (tasks (sw s)) = ∅) as Hv.
  { apply map_eq. intros t. rewrite lookup_empty. apply eq_None_not_Some.
    rewrite <-(hi_dom _ _ _ _ E). by apply not_elem_of_nil. }
  repeat split.
  - by apply fmap_empty_inv in Hv.
  - apply map_eq. intros l. rewrite lookup_empty. apply eq_None_not_Some.
    rewrite (hi_owned _ _ _ _ E). intros (t & x & Hx & _). by rewrite Hv, lookup_empty in Hx.
  - apply set_eq. intros k. split; [|by intros ?%elem_of_empty].
    intros Hk. destruct (ci_wait _ _ _ F k Hk) as (t & x & Hx & _).
    by rewrite Hv, lookup_empty in Hx.
  - by rewrite J, app_nil_r, K.
Qed.

(** ** Draining *)

Definition all_tasks (a : spec) : list loc :=
  a_pending a ++ a_held a ++ a_done a ++ a_inflight a ++ a_handled a.

(** The number of steps that are left, weighted by how far each task is. *)
Definition work (a : spec) : nat :=
  4 * length (a_pending a) + (if a_closing a then 1 else 0) + 3 * length (a_held a) +
  2 * length (a_done a) + length (a_inflight a).

(** The steps by which requests get on: no post, unload, kill or spurious
    wake-up. *)
Definition serving (e : event) : bool :=
  match e with
  | EPoll _ _ | EWake _ _ | ERespond _ _ _ _ | ETake | EHandle => true
  | EPost _ _ _ | EFinish _ | ESpurious _ | EKill _ => false
  end.

(** The queue is closed or about to be. *)
Definition shut (a : spec) : Prop := a_closing a = true ∨ a_open a = None.

(** A property of states that no answer, and nothing nginx does, spoils. *)
Record stable (P : spec → Prop) : Prop := {
  st_respond t a : P a → P (spec_respond t a);
  st_take a : P a → P (spec_take a);
  st_handle k a : P a → P (spec_handle k a);
}.

Record progress (P : spec → Prop) (a a' : spec) : Prop := {
  pr_work : (work a' < work a)%nat;
  pr_stable : P a';
  pr_all : all_tasks a' ≡ₚ all_tasks a;
  pr_shut : shut a → shut a';
}.

Section progress.
Context (P : spec → Prop) (HP : stable P).

Lemma progress_poll env me a :
  P (spec_poll env me a) → a_pending a ≠ [] ∨ a_closing a = true → progress P a (spec_poll env me a).
Proof using Type.
  intros Hs Hw. split; [|done|..]; clear Hs; unfold spec_poll, all_tasks, work, shut;
    (destruct (a_pending a) as [|t rest] eqn:Ep; [destruct Hw as [Hw|Hc]; [done|]; rewrite Hc|]); simpl.
  - lia.
  - rewrite length_app. simpl. lia.
  - done.
  - rewrite <-!app_assoc. simpl. by rewrite !Permutation_middle.
  - by right.
  - done.
Qed.

Lemma progress_respond t a :
  P a → NoDup (a_held a) → t ∈ a_held a → progress P a (spec_respond t a).
Proof using HP.
  intros Hs Hn Ht. pose proof (filter_ne_perm t _ Hn Ht) as Hp.
  split; [|by apply HP|..]; unfold work, all_tasks, shut; simpl.
  - pose proof (Permutation_length Hp). simpl in H. rewrite length_app. simpl. lia.
  - rewrite Hp at 2. simpl. f_equiv. rewrite <-!app_assoc. simpl. by rewrite !Permutation_middle.
  - done.
Qed.

Lemma progress_take a : P a → a_done a ≠ [] → progress P a (spec_take a).
Proof using HP.
  intros Hs Hd. split; [|by apply HP|..]; unfold work, all_tasks, shut; simpl.
  - rewrite length_app. destruct (a_done a); [done|simpl; lia].
  - do 2 f_equiv. rewrite !app_assoc. f_equiv. apply Permutation_app_comm.
  - done.
Qed.

Lemma progress_handle k a : P a → a_inflight a ≠ [] → progress P a (spec_handle k a).
Proof using HP.
  intros Hs Hd. split; [|by apply HP|..]; unfold spec_handle, work, all_tasks, shut;
    (destruct (a_inflight a) as [|t rest] eqn:Ei; [done|]); simpl.
  - lia.
  - do 3 f_equiv. rewrite app_assoc. by rewrite <-Permutation_cons_append.
  - done.
Qed.
End progress.

Section drain.
Context {ops : NgxLua} {laws : NgxLuaLaws ops} {pool : NgxPool} {plaws : NgxPoolLaws pool}.
Context (P : spec → Prop) (HP : stable P).

(** While something is queued, some thread can take it. *)
Hypothesis poller : ∀ s pl mk dl q,
  sys_inv s pl mk dl → P (abs s pl mk dl) → queues (sw s) !! s_tq s = Some q → pl ++ marker_list mk ≠ [] →
  ∃ e x, serving e = true ∧ enabled s e = true ∧
    ∀ a', spec_step e (abs s pl mk dl) a' → a' = spec_poll env_ok x (abs s pl mk dl) ∧ P a'.

Lemma next_event s pl mk dl :
  sys_inv s pl mk dl → P (abs s pl mk dl) → work (abs s pl mk dl) ≠ 0%nat →
  ∃ e, serving e = true ∧ enabled s e = true ∧
    ∀ a', spec_step e (abs s pl mk dl) a' → progress P (abs s pl mk dl) a'.
Proof using HP poller.
  intros Hinv Hs Hw.
  destruct (s_inflight s) as [|t rest] eqn:Ei.
  2: { exists EHandle. split; [done|]. split; [simpl; by rewrite Ei|]. inversion 1.
       apply progress_handle; [done..|simpl; by rewrite Ei]. }
  destruct dl as [|t rest].
  2: { exists ETake. split; [done|]. split; [done|]. inversion 1. by apply progress_take. }
  destruct (s_held s) as [|t rest] eqn:Eh.
  2: { exists (ERespond t 0 None 0). split; [done|]. split.
       - simpl. by rewrite bool_decide_true by (rewrite Eh; by left).
       - inversion 1; subst. apply progress_respond; [done..| |done]. simpl.
         pose proof (hi_nodup _ _ _ _ (si_heap _ _ _ _ Hinv)) as Hnd.
         by repeat (apply NoDup_app in Hnd as (? & _ & Hnd)). }
  assert (pl ≠ [] ∨ is_Some mk) as Hne.
  { unfold work in Hw. simpl in Hw. rewrite Ei, Eh in Hw. destruct pl; [|by left].
    destruct mk; [right; by eexists|]. by rewrite bool_decide_false in Hw by (by intros []). }
  destruct (queues (sw s) !! s_tq s) as [q|] eqn:Hq.
  2: { pose proof (si_queue _ _ _ _ Hinv) as H. rewrite Hq in H. destruct H as (-> & -> & _).
       destruct Hne as [?|[? ?]]; done. }
  destruct (poller _ _ _ _ q Hinv Hs Hq) as (e & x & Hse & He & Ha).
  { intros [E1 E2]%app_eq_nil. destruct Hne as [?|[m ->]]; done. }
  exists e. split; [done|]. split; [done|]. intros a' Ha'. destruct (Ha a' Ha') as [-> HPa].
  apply progress_poll; [done|]. destruct Hne as [?|?]; [by left|right]. simpl. by apply bool_decide_true.
Qed.

Lemma drain n s pl mk dl :
  sys_inv s pl mk dl → P (abs s pl mk dl) → (work (abs s pl mk dl) ≤ n)%nat →
  ∃ es s', (length es ≤ n)%nat ∧ forallb serving es = true ∧ run_events es s = Some (Ok s') ∧
    ∃ pl' mk' dl', sys_inv s' pl' mk' dl' ∧ work (abs s' pl' mk' dl') = 0%nat ∧
      all_tasks (abs s' pl' mk' dl') ≡ₚ all_tasks (abs s pl mk dl) ∧
      (shut (abs s pl mk dl) → shut (abs s' pl' mk' dl')).
Proof using HP poller laws plaws.
  revert s pl mk dl. induction n as [|n IH]; intros s pl mk dl Hinv Hs Hn;
    (destruct (decide (work (abs s pl mk dl) = 0%nat)) as [Hz|Hz];
      [exists [], s; split; [simpl; lia|]; split; [done|]; split; [done|]; by exists pl, mk, dl|]); [lia|].
  destruct (next_event _ _ _ _ Hinv Hs Hz) as (e & Hse & He & Hpr).
  destruct (step_simulates _ _ _ _ _ Hinv He) as (s1 & Hex & pl1 & mk1 & dl1 & Hinv1 & Hst & _).
  destruct (Hpr _ Hst) as [Hwk Hs1 Hall Hsh].
  destruct (IH s1 pl1 mk1 dl1 Hinv1 Hs1 ltac:(lia))
    as (es & s' & Hlen & Hses & Hrun & pl' & mk' & dl' & Hinv' & Hz' & Hall' & Hsh').
  exists (e :: es), s'. split; [simpl; lia|]. split; [simpl; by rewrite Hse|].
  split; [simpl; by rewrite He, Hex|].
  exists pl', mk', dl'. split; [done|]. split; [done|]. split; [by rewrite Hall', Hall|auto].
Qed.
End drain.

(** *** Who polls *)

(** A blocked thread means that enough threads were woken. *)
Lemma woken_thread {F} s pl mk dl q :
  sys_inv_in F s pl mk dl → queues (sw s) !! s_tq s = Some q → pl ++ marker_list mk ≠ [] →
  inside q = [] ∨ ∃ x, x ∈ cv_woken (cond q).
Proof.
  intros Hinv Hq Hne. pose proof (si_queue _ _ _ _ Hinv) as Hqi. rewrite Hq in Hqi.
  pose proof (qi_wakeup _ _ _ _ _ _ Hqi) as Hwk. unfold inside.
  destruct (cv_woken (cond q)) as [|x l]; [|right; exists x; by left].
  destruct (cv_waiters (cond q)) as [|y k]; [by left|].
  specialize (Hwk ltac:(done)). destruct (pl ++ marker_list mk); [done|simpl in Hwk; lia].
Qed.

Definition single (me : tid) (a : spec) : Prop := ∀ x, x ∈ a_pollers a → x = me.

Lemma single_stable me : stable (single me).
Proof. split; [done..|]. intros k a Ha. unfold spec_handle. by destruct (a_inflight a). Qed.

Lemma single_poll me env a : single me a → single me (spec_poll env me a).
Proof.
  intros Hs. unfold spec_poll. destruct (a_pending _); [|intros x [Hx _]%elem_of_difference; by apply Hs].
  destruct (a_closing _); [by intros x ?%elem_of_empty|].
  destruct (_ =? _); [|intros x [Hx _]%elem_of_difference; by apply Hs].
  intros x [->%elem_of_singleton|Hx]%elem_of_union; [done|by apply Hs].
Qed.

(** Thread [x] can take what is first in the queue. *)
Definition can_poll (s : sys) (x : tid) : Prop :=
  enabled s (EPoll env_ok x) = true ∨ enabled s (EWake env_ok x) = true.

(** The only poller is blocked only when there is nothing to poll. *)
Lemma single_can_poll {F} me s pl mk dl q :
  sys_inv_in F s pl mk dl → single me (abs s pl mk dl) → queues (sw s) !! s_tq s = Some q →
  pl ++ marker_list mk ≠ [] → can_poll s me.
Proof.
  intros Hinv Hs Hq Hne.
  assert (∀ x, x ∈ inside q → x = me) as Hall.
  { intros x Hx. apply Hs. unfold abs. simpl. rewrite Hq. by apply elem_of_list_to_set. }
  assert (alone me q = true) as Hal.
  { unfold alone. apply forallb_forall. intros x Hx. apply Nat.eqb_eq, Hall.
    by apply list_elem_of_In. }
  destruct (woken_thread _ _ _ _ _ Hinv Hq Hne) as [Hin|[x Hx]]; [left|right]; simpl; rewrite Hq, Hal.
  - fold (inside q). rewrite Hin, bool_decide_true by apply not_elem_of_nil. by destruct (marker_first _ _).
  - assert (x = me) as -> by (apply Hall; unfold inside; mem).
    rewrite bool_decide_true by done. by destruct (marker_first _ _).
Qed.

Lemma single_runs me s pl mk dl q :
  sys_inv s pl mk dl → single me (abs s pl mk dl) → queues (sw s) !! s_tq s = Some q →
  pl ++ marker_list mk ≠ [] →
  ∃ e x, serving e = true ∧ enabled s e = true ∧
    ∀ a', spec_step e (abs s pl mk dl) a' → a' = spec_poll env_ok x (abs s pl mk dl) ∧ single me a'.
Proof.
  intros Hinv Hs Hq Hne. pose proof (single_poll me env_ok _ Hs) as Hsp.
  destruct (single_can_poll _ _ _ _ _ _ Hinv Hs Hq Hne) as [He|He].
  - exists (EPoll env_ok me), me. split; [done|]. split; [done|]. by inversion 1.
  - exists (EWake env_ok me), me. split; [done|]. split; [done|]. by inversion 1.
Qed.

(** No finish marker is queued. *)
Definition staying (a : spec) : Prop := a_closing a = false.

Lemma staying_stable : stable staying.
Proof. split; [done..|]. intros k a Ha. unfold spec_handle. by destruct (a_inflight a). Qed.

(** A request can be polled whatever threads there are. *)
Lemma request_can_be_polled {F} s t pl dl q :
  sys_inv_in F s (t :: pl) None dl → queues (sw s) !! s_tq s = Some q → ∃ x, can_poll s x.
Proof.
  intros Hinv Hq. assert (marker_first (sw s) q = false) as Hmf.
  { pose proof (si_queue _ _ _ _ Hinv) as Hqi. rewrite Hq in Hqi.
    destruct (qr_chain _ _ _ _ (qi_repr _ _ _ _ _ _ Hqi)) as [Hf _]. unfold marker_first. rewrite Hf. simpl.
    destruct (si_tasks _ _ _ _ Hinv t) as (c & Hc); [by left|].
    apply views_lookup in Hc as (b & Hb & Hv). rewrite Hb. injection Hv as Hv _ _. by rewrite Hv. }
  destruct (woken_thread _ _ _ _ _ Hinv Hq) as [Hin|[x Hx]]; [done| |].
  - exists 0%nat. left. simpl. rewrite Hq, Hmf. fold (inside q).
    by rewrite Hin, bool_decide_true by apply not_elem_of_nil.
  - exists x. right. simpl. by rewrite Hq, Hmf, bool_decide_true.
Qed.

Lemma staying_runs s pl mk dl q :
  sys_inv s pl mk dl → staying (abs s pl mk dl) → queues (sw s) !! s_tq s = Some q →
  pl ++ marker_list mk ≠ [] →
  ∃ e x, serving e = true ∧ enabled s e = true ∧
    ∀ a', spec_step e (abs s pl mk dl) a' → a' = spec_poll env_ok x (abs s pl mk dl) ∧ staying a'.
Proof.
  intros Hinv Hs Hq Hne. unfold staying in Hs. simpl in Hs. apply bool_decide_eq_false in Hs.
  destruct mk as [m|]; [by destruct Hs; eexists|]. clear Hs. destruct pl as [|t pl]; [done|].
  assert (∀ x, staying (spec_poll env_ok x (abs s (t :: pl) None dl))) as Hsp by done.
  destruct (request_can_be_polled _ _ _ _ _ Hinv Hq) as [x [He|He]].
  - exists (EPoll env_ok x), x. split; [done|]. split; [done|]. by inversion 1.
  - exists (EWake env_ok x), x. split; [done|]. split; [done|]. by inversion 1.
Qed.

(** ** Reachable states *)

Lemma spec_step_open e a b : spec_step e a b → a_open b = a_open a ∨ a_open b = None.
Proof.
  inversion 1; subst; simpl; auto; unfold spec_poll, spec_handle; repeat case_match; simpl; auto.
Qed.

Lemma spec_run_open es a b : spec_run es a b → a_open b = a_open a ∨ a_open b = None.
Proof.
  induction 1 as [|e es a b c Hs _ IH]; [by left|].
  destruct IH as [->|]; [|by right]. by eapply spec_step_open.
Qed.

(** The abstract state of a new runtime. *)
Definition spec_init (max : Z) : spec := Spec (Some max) false [] false ∅ 0 [] [] [] [] ∅.

(** [s] occurs in an execution of the protocol on a new queue of [max] slots. *)
Definition reachable {ops : NgxLua} {pool : NgxPool} (max : Z) (s : sys) : Prop :=
  ∃ env w s0 es, idle_world w ∧ e_calloc env = true ∧ boot env max w = Ok (Some s0) ∧
    run_events es s0 = Some (Ok s).

Section reachable.
Context {ops : NgxLua} {laws : NgxLuaLaws ops} {pool : NgxPool} {plaws : NgxPoolLaws pool}.

Lemma reachable_inv max s :
  reachable max s →
  ∃ pl mk dl, sys_inv s pl mk dl ∧
    ∀ q, queues (sw s) !! s_tq s = Some q → max_queue q = max.
Proof using laws plaws.
  intros (env & w & s0 & es & Hi & Ha & Hb & Hr).
  destruct (boot_inv _ _ _ _ Hi Ha Hb) as [Hinv Habs].
  destruct (run_simulates _ _ _ _ _ _ Hinv Hr) as (s' & pl & mk & dl & [= <-] & Hinv' & Hrun).
  exists pl, mk, dl. split; [done|]. intros q Hq.
  pose proof (spec_run_open _ _ _ Hrun) as Ho. rewrite Habs in Ho. unfold abs in Ho. simpl in Ho.
  rewrite Hq in Ho. simpl in Ho. by destruct Ho as [[= ->]|[=]].
Qed.
End reachable.

(** ** Unloading *)

Lemma all_tasks_posted s pl mk dl : sys_inv s pl mk dl → all_tasks (abs s pl mk dl) ≡ₚ s_posted s.
Proof.
  intros H. unfold all_tasks, abs. simpl.
  rewrite (si_posted _ _ _ _ H), (si_polled _ _ _ _ H). by rewrite Permutation_app_comm.
Qed.

(** An abstract state without work is quiescent. *)
Lemma no_work s pl mk dl :
  work (abs s pl mk dl) = 0%nat → pl = [] ∧ mk = None ∧ s_held s = [] ∧ dl = [] ∧ s_inflight s = [].
Proof.
  intros Hw. unfold work, abs in Hw. simpl in Hw.
  repeat split; try (apply nil_length_inv; lia). destruct mk; [|done].
  rewrite bool_decide_true in Hw by (by eexists). lia.
Qed.

Lemma drained s pl mk dl :
  sys_inv s pl mk dl → work (abs s pl mk dl) = 0%nat → shut (abs s pl mk dl) →
  queues (sw s) = ∅ ∧ tasks (sw s) = ∅ ∧ bufs (sw s) = ∅ ∧ s_waiting s = ∅ ∧
  s_handled s ≡ₚ all_tasks (abs s pl mk dl).
Proof.
  intros Hinv Hw Hs. apply no_work in Hw as (-> & -> & Hh & -> & Hi).
  assert (queues (sw s) !! s_tq s = None) as Hq.
  { destruct Hs as [Hs|Hs]; simpl in Hs; [done|].
    by apply fmap_None in Hs. }
  destruct (quiescent _ Hinv Hh Hi) as (? & ? & ? & Hp).
  split; [|repeat (split; [done|]); by rewrite Hp, (all_tasks_posted _ _ _ _ Hinv)].
  apply map_eq. intros l. rewrite lookup_empty. apply eq_None_not_Some. intros Hl.
  rewrite (sys_inv_only _ _ _ _ _ Hinv Hl), Hq in Hl. by destruct Hl.
Qed.

Lemma work_finish a :
  (work (spec_finish true a) ≤ 4 * length (all_tasks a) + 1)%nat.
Proof. unfold work, all_tasks. simpl. rewrite !length_app. lia. Qed.

Lemma spec_finish_ok a b : spec_step (EFinish env_ok) a b → b = spec_finish true a.
Proof. by inversion 1. Qed.

Section unload.
Context {ops : NgxLua} {laws : NgxLuaLaws ops} {pool : NgxPool} {plaws : NgxPoolLaws pool}.

Lemma unload s pl mk dl me :
  sys_inv s pl mk dl → s_finished s = false → single me (abs s pl mk dl) →
  ∃ es s', (length es ≤ 4 * length (s_posted s) + 1)%nat ∧
    run_events (EFinish env_ok :: es) s = Some (Ok s') ∧
    queues (sw s') = ∅ ∧ tasks (sw s') = ∅ ∧ bufs (sw s') = ∅ ∧ s_waiting s' = ∅ ∧
    s_handled s' ≡ₚ s_posted s.
Proof using laws plaws.
  intros Hinv Hf Hs.
  assert (enabled s (EFinish env_ok) = true) as Hen by (simpl; by rewrite Hf).
  destruct (step_simulates _ _ _ _ _ Hinv Hen) as (s1 & Hex & pl1 & mk1 & dl1 & Hinv1 & Hst & _).
  apply spec_finish_ok in Hst.
  pose proof (work_finish (abs s pl mk dl)) as Hw. rewrite <-Hst in Hw.
  rewrite (Permutation_length (all_tasks_posted _ _ _ _ Hinv)) in Hw.
  assert (single me (abs s1 pl1 mk1 dl1)) as Hs1 by (rewrite Hst; exact Hs).
  destruct (drain _ (single_stable me) (single_runs me) _ _ _ _ _ Hinv1 Hs1 Hw)
    as (es & s' & Hlen & _ & Hrun & pl' & mk' & dl' & Hinv' & Hz & Hall & Hsh).
  destruct (drained _ _ _ _ Hinv' Hz) as (Hq & Ht & Hb & Hwt & Hp).
  { apply Hsh. rewrite Hst. by left. }
  exists es, s'. split; [done|]. split; [simpl; by rewrite Hf; simpl in Hex; rewrite Hex|].
  repeat (split; [done|]). rewrite Hp, Hall, Hst.
  by rewrite <-(all_tasks_posted _ _ _ _ Hinv).
Qed.

(** The requests of a runtime that is not unloaded can be served. *)
Lemma serve s pl mk dl :
  sys_inv s pl mk dl → s_finished s = false →
  ∃ es s', (length es ≤ 4 * length (s_posted s))%nat ∧ forallb serving es = true ∧
    run_events es s = Some (Ok s') ∧
    tasks (sw s') = ∅ ∧ bufs (sw s') = ∅ ∧ s_waiting s' = ∅ ∧ s_handled s' ≡ₚ s_posted s.
Proof using laws plaws.
  intros Hinv Hf. assert (mk = None) as ->.
  { destruct mk as [m|]; [|done]. destruct (si_marker _ _ _ _ Hinv m eq_refl) as [E _]. congruence. }
  assert (work (abs s pl None dl) ≤ 4 * length (s_posted s))%nat as Hw.
  { rewrite <-(Permutation_length (all_tasks_posted _ _ _ _ Hinv)). unfold work, all_tasks. simpl.
    rewrite !length_app. lia. }
  destruct (drain _ staying_stable staying_runs _ _ _ _ _ Hinv eq_refl Hw)
    as (es & s' & Hlen & Hses & Hrun & pl' & mk' & dl' & Hinv' & Hz & Hall & _).
  exists es, s'. split; [done|]. split; [done|]. split; [done|].
  apply no_work in Hz as (-> & -> & Hh & -> & Hi).
  destruct (quiescent _ Hinv' Hh Hi) as (? & ? & ? & Hp). repeat (split; [done|]).
  by rewrite Hp, <-(all_tasks_posted _ _ _ _ Hinv'), Hall, (all_tasks_posted _ _ _ _ Hinv).
Qed.
End unload.
