(* ===== verification/Multi.v ===== *)
(** * Multi: several runtimes in one nginx worker

    Each library that Lua loads gets a queue of its own; the heap, the done queue
    of the thread pool, nginx and the coroutines are shared.  The state holds, per
    queue, what the history fields of [System] record for one runtime.  A step
    creates a queue, or is nginx's own, or a step of [System] on one of the queues: [focus] picks
    the queue, [unfocus] puts the result back, and the handlers run on the whole
    world in between. *)

From S2P Require Import Prelude World TaskQueue FfiTask FfiQueue EventHandler Ownership System.

Record runtime := Runtime {
  r_finished : bool;
  r_held : list loc;
  r_posted : list loc;
  r_polled : list loc;
  r_lost : nat;
}.

Definition new_runtime : runtime := Runtime false [] [] [] 0.

Record msys := MSys {
  m_world : world;
  m_runtimes : gmap loc runtime;   (* by the queue *)
  m_inflight : list loc;
  m_waiting : gset cid;
  m_handled : list loc;
}.

Definition focus (i : loc) (r : runtime) (m : msys) : sys :=
  Sys (m_world m) i (r_finished r) (r_held r) (m_inflight m) (m_waiting m)
      (r_posted r) (r_polled r) (m_handled m) (r_lost r).

Definition runtime_of (s : sys) : runtime :=
  Runtime (s_finished s) (s_held s) (s_posted s) (s_polled s) (s_lost s).

Definition unfocus (s : sys) (m : msys) : msys :=
  MSys (sw s) (<[s_tq s := runtime_of s]> (m_runtimes m)) (s_inflight s) (s_waiting s) (s_handled s).

Inductive mevent :=
  | MCreate (env : sysenv) (max : Z)    (* [load_ffi] creates a queue *)
  | MRun (i : loc) (e : event)          (* a step on queue [i] *)
  | MNginx (n : nat) (cs : gmap cid co_ctx) (ths : gmap lid lua_thread) (rqs : gmap rid request).

(** nginx and Lua start, switch and finish requests and coroutines as they like,
    and allocate [n] blocks of their own meanwhile. *)
Definition nginx_world (n : nat) (cs : gmap cid co_ctx) (ths : gmap lid lua_thread)
    (rqs : gmap rid request) (w : world) : world :=
  World (tasks w) (bufs w) (queues w) (n + brk w) (pool_done w) (done_lock w) cs ths rqs (calls w).

#[global] Instance cleanup_handler_eq_dec : EqDecision cleanup_handler.
Proof. solve_decision. Defined.
#[global] Instance co_ctx_eq_dec : EqDecision co_ctx.
Proof. solve_decision. Defined.

(** A suspended coroutine keeps its context, and its request stays while its Lua
    thread refers to it. *)
Definition spares (w w' : world) (k : cid) : bool :=
  bool_decide (cos w' !! k = cos w !! k) &&
  match cos w !! k with
  | Some x => implb (live_threadb w x) (live_threadb w' x)
  | None => true
  end.

Definition menabled (m : msys) (me : mevent) : bool :=
  match me with
  | MCreate env _ => e_calloc env
  | MRun i e => match m_runtimes m !! i with
                | Some r => enabled (focus i r m) e
                | None => false
                end
  | MNginx n cs ths rqs =>
      forallb (spares (m_world m) (nginx_world n cs ths rqs (m_world m))) (elements (m_waiting m))
  end.

Section steps.
Context {ops : NgxLua} {pool : NgxPool}.

Definition mexec (me : mevent) (m : msys) : res msys :=
  match me with
  | MCreate env max =>
      match ngx_http_lua_ffi_create_task_queue env max (m_world m) with
      | UB f => UB f
      | Ok (p, w) =>
          Ok (MSys w (match p with
                      | Some p => <[p_blk p := new_runtime]> (m_runtimes m)
                      | None => m_runtimes m
                      end) (m_inflight m) (m_waiting m) (m_handled m))
      end
  | MRun i e =>
      match m_runtimes m !! i with
      | None => Ok m
      | Some r => match exec e (focus i r m) with
                  | UB f => UB f
                  | Ok s => Ok (unfocus s m)
                  end
      end
  | MNginx n cs ths rqs =>
      Ok (MSys (nginx_world n cs ths rqs (m_world m)) (m_runtimes m) (m_inflight m) (m_waiting m) (m_handled m))
  end.

(** Executions; [None] when the protocol forbids a step. *)
Fixpoint mrun (es : list mevent) (m : msys) : option (res msys) :=
  match es with
  | [] => Some (Ok m)
  | e :: es =>
      if menabled m e then
        match mexec e m with
        | Ok m' => mrun es m'
        | UB f => Some (UB f)
        end
      else None
  end.

End steps.

(** The worker before any library is loaded. *)
Definition no_runtimes (w : world) : msys := MSys w ∅ [] ∅ [].

(** ** Lists gathered from all runtimes *)

Definition gather (f : loc → runtime → list loc) (m : gmap loc runtime) : list loc :=
  map_to_list m ≫= λ x, f x.1 x.2.

Lemma gather_insert f m i r :
  m !! i = None → gather f (<[i := r]> m) ≡ₚ f i r ++ gather f m.
Proof. intros Hi. unfold gather. rewrite (map_to_list_insert m i r Hi). done. Qed.

Lemma gather_delete f m i r : m !! i = Some r → gather f m ≡ₚ f i r ++ gather f (delete i m).
Proof.
  intros Hi. rewrite <-(insert_delete_id m i r Hi) at 1. apply gather_insert, lookup_delete_eq.
Qed.

Lemma gather_update f m i r : gather f (<[i := r]> m) ≡ₚ f i r ++ gather f (delete i m).
Proof. rewrite (gather_delete f _ i r) by apply lookup_insert_eq. by rewrite delete_insert_eq. Qed.

Lemma gather_ext f g m : (∀ i r, m !! i = Some r → f i r = g i r) → gather f m = gather g m.
Proof.
  intros Hfg. unfold gather.
  assert (∀ x, x ∈ map_to_list m → f x.1 x.2 = g x.1 x.2) as Hl.
  { intros [i r] Hx%elem_of_map_to_list. by apply Hfg. }
  induction (map_to_list m) as [|x l IH]; [done|]. simpl.
  rewrite (Hl x) by (by left). f_equal. apply IH. intros y Hy. apply Hl. by right.
Qed.

Lemma elem_of_gather f m t : t ∈ gather f m ↔ ∃ i r, m !! i = Some r ∧ t ∈ f i r.
Proof.
  unfold gather. rewrite list_elem_of_bind. split.
  - intros ([i r] & Ht & Hi%elem_of_map_to_list). eauto.
  - intros (i & r & Hi & Ht). exists (i, r). by rewrite elem_of_map_to_list.
Qed.

Lemma gather_nil m : gather (λ _ _, []) m = [].
Proof. unfold gather. by induction (map_to_list m). Qed.

Lemma gather_empty f : gather f ∅ = [].
Proof. unfold gather. by rewrite map_to_list_empty. Qed.

(** A member of one runtime's list is in no other runtime's. *)
Lemma gather_apart f m i j r r' t :
  NoDup (gather f m) → m !! i = Some r → m !! j = Some r' → t ∈ f i r → t ∈ f j r' → i = j.
Proof.
  intros Hn Hi Hj Ht Ht'. destruct (decide (i = j)) as [|Hne]; [done|]. exfalso.
  rewrite (gather_delete f m i r Hi) in Hn. apply NoDup_app in Hn as (_ & Hd & _).
  apply (Hd t Ht), elem_of_gather. exists j, r'. by rewrite lookup_delete_ne.
Qed.

Lemma gather_app f g m : gather (λ i r, f i r ++ g i r) m ≡ₚ gather f m ++ gather g m.
Proof.
  unfold gather. induction (map_to_list m) as [|x l IH]; simpl; [done|].
  rewrite IH, <-!app_assoc. apply Permutation_app_head. rewrite !app_assoc.
  apply Permutation_app_tail, Permutation_app_comm.
Qed.
