(* ===== verification/MultiInvariant.v ===== *)
(** * MultiInvariant: the invariant of a worker with several runtimes

    [multi_inv] puts the invariants of the runtimes side by side over one heap,
    one done queue and one set of waiting coroutines.  Seen from one runtime, the
    tasks that the others have queued or hold are tasks in other hands: [widen]
    adds them to the held ones, and their finish markers are the [frame] of
    [Invariant].  A step of one runtime is therefore a step of [System] as proved
    in [Posting], [Polling] and [Answering]; that it touches neither the queues
    nor the links of the others is [untouched]. *)

From S2P Require Import Prelude World TaskQueue FfiTask FfiQueue EventHandler Ownership System.
From S2P Require Import Spec Invariant Posting Polling Answering Safety Multi.
From AAC_tactics Require Import AAC.
From AAC_tactics Require Instances.
Import Instances.Lists.

(** Permutations of concatenations, modulo associativity and commutativity. *)
#[local] Instance permutation_lift : AAC_lift (@Permutation loc) (@Permutation loc) :=
  Build_AAC_lift _ _.

(** ** More tasks in other hands *)

Definition widen (H Q : list loc) (s : sys) : sys :=
  Sys (sw s) (s_tq s) (s_finished s) (H ++ s_held s) (s_inflight s) (s_waiting s)
      (Q ++ s_posted s) (Q ++ s_polled s) (s_handled s) (s_lost s).

(** Event [e] answers none of the tasks [H]. *)
Definition answers_none (e : event) (H : list loc) : Prop :=
  ∀ t rc rsp len, e = ERespond t rc rsp len → t ∉ H.

Lemma filter_ne_app t (H l : list loc) :
  t ∉ H → filter (λ x, x ≠ t) (H ++ l) = H ++ filter (λ x, x ≠ t) l.
Proof. intros Ht. by rewrite filter_app, (filter_ne_notin t H Ht). Qed.

Section widen.
Context {ops : NgxLua} {pool : NgxPool}.
Context (H Q : list loc).

Lemma exec_widen e s :
  answers_none e H →
  exec e (widen H Q s) = match exec e s with Ok s' => Ok (widen H Q s') | UB f => UB f end.
Proof using Type.
  intros Hn. destruct e as [env r req|env|env me|env me|me|t rc rsp len|k| |]; simpl.
  - unfold exec_post. simpl. destruct (lua_post _ _ _ _ _) as [[rc w]|]; [|done].
    destruct (rc =? NGX_OK); [|done]. unfold widen. simpl. by rewrite <-app_assoc.
  - unfold exec_finish. simpl. destruct (ngx_http_lua_ffi_task_finish _ _ _) as [[? ?]|]; done.
  - unfold exec_poll, widen. destruct (task_poll_enter _ _ _ _) as [[[[t|]|] w]|]; simpl; try done.
    by rewrite <-!app_assoc.
  - unfold exec_poll, widen. destruct (task_poll_wake _ _ _ _) as [[[[t|]|] w]|]; simpl; try done.
    by rewrite <-!app_assoc.
  - done.
  - unfold exec_respond, widen. simpl. destruct (respond_with _ _ _ _ _) as [[? ?]|]; [|done].
    simpl. by rewrite filter_ne_app by by eapply Hn.
  - unfold exec_kill. simpl. destruct (kill_co _ _) as [[? ?]|]; done.
  - unfold exec_take. simpl. destruct (ngx_pool_take _) as [[? ?]|]; done.
  - unfold exec_handle. simpl. destruct (s_inflight s); [done|].
    destruct (ngx_http_lua_ffi_event_handler _ _) as [[? ?]|]; done.
Qed.

Lemma enabled_widen e s : enabled s e = true → enabled (widen H Q s) e = true.
Proof using Type.
  destruct e; try done. simpl. intros [Ht ->]%andb_true_iff. rewrite andb_true_r.
  apply bool_decide_eq_true in Ht. apply bool_decide_eq_true. mem.
Qed.
End widen.

(** *** The abstract machine *)

Definition awiden (H : list loc) (a : spec) : spec :=
  Spec (a_open a) (a_finished a) (a_pending a) (a_closing a) (a_pollers a) (a_lost a)
       (H ++ a_held a) (a_done a) (a_inflight a) (a_handled a) (a_suspended a).

Lemma abs_widen H Q s pl mk dl : abs (widen H Q s) pl mk dl = awiden H (abs s pl mk dl).
Proof. done. Qed.

#[global] Instance awiden_inj H : Inj (=) (=) (awiden H).
Proof.
  intros [] [] E. injection E as -> -> -> -> -> -> E -> -> -> ->. f_equal. by apply (inj (app H)).
Qed.

Lemma spec_poll_widen H env me a : spec_poll env me (awiden H a) = awiden H (spec_poll env me a).
Proof.
  unfold spec_poll, awiden. simpl. destruct (a_pending a); [by repeat case_match|]. simpl.
  by rewrite <-app_assoc.
Qed.

Lemma spec_handle_widen H k a : spec_handle k (awiden H a) = awiden H (spec_handle k a).
Proof. unfold spec_handle. simpl. by destruct (a_inflight a). Qed.

(** Without the additional tasks the machine makes the same step. *)
Lemma spec_step_unwiden H e a b :
  answers_none e H → (∀ t rc rsp len, e = ERespond t rc rsp len → t ∈ a_held a) →
  spec_step e (awiden H a) (awiden H b) → spec_step e a b.
Proof.
  intros Hn Hh Hs. remember (awiden H a) as x eqn:Ex. remember (awiden H b) as y eqn:Ey.
  destruct Hs as [env r req x t k Had Hk Ht| |env x| | | | |t rc rsp len x Ht|k x Hk|x|k x Hk]; rewrite Ex in *.
  - change (awiden H (spec_accept t k a) = awiden H b) in Ey. simplify_eq.
    apply spec_post_accepted; [done|done|]. simpl in *. rewrite !elem_of_app in *. tauto.
  - simplify_eq. by apply spec_post_refused.
  - match type of Ey with spec_finish ?z _ = _ => change (awiden H (spec_finish z a) = awiden H b) in Ey end.
    simplify_eq. apply spec_finishes.
  - rewrite spec_poll_widen in Ey. simplify_eq. by apply spec_poll_locked.
  - simplify_eq. by apply spec_poll_unlocked.
  - rewrite spec_poll_widen in Ey. simplify_eq. apply spec_wakes.
  - simplify_eq. apply spec_spurious.
  - assert (spec_respond t (awiden H a) = awiden H (spec_respond t a)) as E.
    { unfold spec_respond, awiden. simpl. by rewrite filter_ne_app by by eapply Hn. }
    rewrite E in Ey. simplify_eq. apply spec_responds. by eapply Hh.
  - change (awiden H (spec_kill k a) = awiden H b) in Ey. simplify_eq. by apply spec_kills.
  - change (awiden H (spec_take a) = awiden H b) in Ey. simplify_eq. apply spec_takes.
  - rewrite spec_handle_widen in Ey. simplify_eq. by apply spec_handles.
Qed.

(** ** The invariant *)

Record runtime_inv (w : world) (i : loc) (r : runtime) (pl : list loc) (mk : option loc) : Prop := {
  ri_queue : match queues w !! i with
             | None => pl = [] ∧ mk = None ∧ r_finished r = true
             | Some q => queue_inv w i q (pl ++ marker_list mk) (r_lost r) mk
             end;
  ri_marker : ∀ t, mk = Some t → r_finished r = true ∧ views (tasks w) !! t = Some marker_view;
  ri_posted : r_posted r = r_polled r ++ pl;
  ri_held : ∀ t, t ∈ r_held r → t ∈ r_polled r;
}.

(** What the queues represent: the requests and the finish marker of each. *)
Record shape := Shape {
  sh_pending : loc → list loc;
  sh_marker : loc → option loc;
  sh_done : list loc;
}.

Definition gpending (h : shape) : gmap loc runtime → list loc := gather (λ i _, sh_pending h i).
Definition gmarks (h : shape) : gmap loc runtime → list loc := gather (λ i _, marker_list (sh_marker h i)).
Definition gheld : gmap loc runtime → list loc := gather (λ _, r_held).
Definition gposted : gmap loc runtime → list loc := gather (λ _, r_posted).
Definition gpolled : gmap loc runtime → list loc := gather (λ _, r_polled).

Record multi_inv (m : msys) (h : shape) : Prop := {
  mi_runtime : ∀ i r, m_runtimes m !! i = Some r →
                 runtime_inv (m_world m) i r (sh_pending h i) (sh_marker h i);
  mi_only : ∀ i, is_Some (queues (m_world m) !! i) → is_Some (m_runtimes m !! i);
  mi_id : ∀ i, is_Some (m_runtimes m !! i) → (i < brk (m_world m))%nat;
  mi_done : queue_repr (tasks (m_world m)) SDoneFirst (pool_done (m_world m)) (sh_done h);
  mi_lock : done_lock (m_world m) = false;
  mi_heap : heap_inv (views (tasks (m_world m))) (bufs (m_world m))
              (gpending h (m_runtimes m) ++ gmarks h (m_runtimes m) ++ gheld (m_runtimes m) ++
               sh_done h ++ m_inflight m) (brk (m_world m));
  mi_co : co_inv (views (tasks (m_world m))) (m_world m) (m_waiting m);
  mi_tasks : ∀ t, t ∈ gpending h (m_runtimes m) ++ gheld (m_runtimes m) ++ sh_done h ++ m_inflight m →
               ∃ c, views (tasks (m_world m)) !! t = Some (task_view t c);
  mi_unanswered : ∀ t c, t ∈ gpending h (m_runtimes m) ++ gheld (m_runtimes m) →
               views (tasks (m_world m)) !! t = Some (task_view t c) → c_rsp c = None;
  mi_polled : gpolled (m_runtimes m) ≡ₚ gheld (m_runtimes m) ++ sh_done h ++ m_inflight m ++ m_handled m;
  mi_nodup : NoDup (gposted (m_runtimes m));
  mi_old : ∀ t, t ∈ gposted (m_runtimes m) → (t < brk (m_world m))%nat;
  mi_apart : ∀ t, t ∈ gmarks h (m_runtimes m) → t ∉ gposted (m_runtimes m);
}.

(** ** One runtime and the others *)

Section focus.
Context (m : msys) (h : shape) (i : loc) (r : runtime).
Hypothesis Hi : m_runtimes m !! i = Some r.

Let others := delete i (m_runtimes m).

(** The frame and the foreign tasks of runtime [i]. *)
Definition others_frame : frame := Frame (dom others) (gmarks h others).
Definition others_tasks : list loc := gpending h others ++ gheld others.
Definition others_posted : list loc := gposted others.

(** The worker as runtime [i] sees it. *)
Definition seen : sys := widen others_tasks others_posted (focus i r m).

Lemma gpending_split : gpending h (m_runtimes m) ≡ₚ sh_pending h i ++ gpending h others.
Proof using Hi. by apply (gather_delete (λ i _, sh_pending h i) _ i r). Qed.
Lemma gmarks_split : gmarks h (m_runtimes m) ≡ₚ marker_list (sh_marker h i) ++ gmarks h others.
Proof using Hi. by apply (gather_delete (λ i _, marker_list (sh_marker h i)) _ i r). Qed.
Lemma gheld_split : gheld (m_runtimes m) ≡ₚ r_held r ++ gheld others.
Proof using Hi. by apply (gather_delete (λ _, r_held) _ i r). Qed.
Lemma gposted_split : gposted (m_runtimes m) ≡ₚ r_posted r ++ gposted others.
Proof using Hi. by apply (gather_delete (λ _, r_posted) _ i r). Qed.
Lemma gpolled_split : gpolled (m_runtimes m) ≡ₚ r_polled r ++ gpolled others.
Proof using Hi. by apply (gather_delete (λ _, r_polled) _ i r). Qed.

(** The part of the invariant that is about the others. *)
Record others_inv : Prop := {
  oi_runtime : ∀ j r', others !! j = Some r' →
                 runtime_inv (m_world m) j r' (sh_pending h j) (sh_marker h j);
  oi_held : ∀ t, t ∈ r_held r → t ∈ r_polled r;
  oi_id : ∀ j, is_Some (m_runtimes m !! j) → (j < brk (m_world m))%nat;
  oi_polled : gposted others ≡ₚ gpolled others ++ gpending h others;
}.

Lemma others_posted_perm :
  (∀ j r', others !! j = Some r' → runtime_inv (m_world m) j r' (sh_pending h j) (sh_marker h j)) →
  gposted others ≡ₚ gpolled others ++ gpending h others.
Proof using Type.
  intros Hr. unfold gposted, gpolled, gpending. rewrite <-gather_app.
  rewrite (gather_ext (λ _, r_posted) (λ j r', r_polled r' ++ sh_pending h j)); [done|].
  intros j r' Hj. apply (ri_posted _ _ _ _ _ (Hr j r' Hj)).
Qed.

Lemma marker_in t k : t ∈ marker_list k ↔ k = Some t.
Proof using Type.
  destruct k as [x|]; simpl; [rewrite list_elem_of_singleton|rewrite elem_of_nil]; naive_solver.
Qed.

(** The invariant of the worker is that of runtime [i] among the others. *)
Lemma multi_inv_seen : multi_inv m h →
  sys_inv_in others_frame seen (sh_pending h i) (sh_marker h i) (sh_done h) ∧ others_inv.
Proof using Hi.
  intros [A B C D E G Hc T U V N O P].
  assert (∀ j r', others !! j = Some r' →
    runtime_inv (m_world m) j r' (sh_pending h j) (sh_marker h j)) as Ho.
  { intros j r' [_ Hj]%lookup_delete_Some. by apply A. }
  pose proof (others_posted_perm Ho) as Hop. destruct (A i r Hi) as [Aq Am Ap Ah].
  split; [|by split]. rewrite gpolled_split, gheld_split in V. rewrite gposted_split in N.
  setoid_rewrite gpending_split in T. setoid_rewrite gheld_split in T.
  setoid_rewrite gpending_split in U. setoid_rewrite gheld_split in U.
  setoid_rewrite gposted_split in O. setoid_rewrite gposted_split in P. setoid_rewrite gmarks_split in P.
  split; simpl; unfold others_tasks, others_posted; fold others; try done.
  - intros l Hl. destruct (decide (l = i)) as [->|Hne]; [by left|right].
    apply elem_of_dom. unfold others. rewrite lookup_delete_ne by done. by apply B.
  - eapply heap_inv_perm; [|exact G]. rewrite gpending_split, gmarks_split, gheld_split. aac_reflexivity.
  - intros t Ht. apply T. rewrite !elem_of_app in *. tauto.
  - intros t c Ht. apply U. rewrite !elem_of_app in *. tauto.
  - by rewrite Ap, app_assoc.
  - rewrite Hop. trans (gpending h others ++ r_polled r ++ gpolled others); [aac_reflexivity|].
    rewrite V. aac_reflexivity.
  - by rewrite Permutation_app_comm.
  - intros t Ht. apply O. rewrite !elem_of_app in *. tauto.
  - intros t Ht Hin. apply (P t); rewrite elem_of_app; [left; by apply marker_in|].
    rewrite elem_of_app in Hin. tauto.
  - intros t (j & r' & Hj & Ht%marker_in)%elem_of_gather. by apply (ri_marker _ _ _ _ _ (Ho j r' Hj)).
  - intros t Ht Hin. apply (P t); rewrite elem_of_app; [by right|]. rewrite elem_of_app in Hin. tauto.
Qed.

Lemma multi_inv_unseen :
  sys_inv_in others_frame seen (sh_pending h i) (sh_marker h i) (sh_done h) → others_inv → multi_inv m h.
Proof using Hi.
  intros [A B C D E G M T U V W N O P Q R] [Ho Ah I Hop].
  simpl in *. unfold others_tasks, others_posted in *. fold others in E, T, U, V, W, N, O, P, Q, R, B |- *.
  assert (r_posted r = r_polled r ++ sh_pending h i) as Ap.
  { rewrite <-app_assoc in V. by apply (inj (app _)) in V. }
  split; try done.
  - intros j r' Hj. destruct (decide (j = i)) as [->|Hne]; [|apply Ho; by apply lookup_delete_Some].
    simplify_eq. by split.
  - intros j [->|[r' Hj]%elem_of_dom]%B; [by eexists|]. apply lookup_delete_Some in Hj as [_ ?]. by eexists.
  - eapply heap_inv_perm; [|exact E]. rewrite gpending_split, gmarks_split, gheld_split. aac_reflexivity.
  - intros t. rewrite gpending_split, gheld_split. intros Ht. apply T. rewrite !elem_of_app in *. tauto.
  - intros t c. rewrite gpending_split, gheld_split. intros Ht. apply U. rewrite !elem_of_app in *. tauto.
  - rewrite gpolled_split, gheld_split. rewrite Hop in W.
    apply (Permutation_app_inv_l (gpending h others)).
    trans ((gpolled others ++ gpending h others) ++ r_polled r); [aac_reflexivity|].
    rewrite W. aac_reflexivity.
  - rewrite gposted_split. by rewrite Permutation_app_comm.
  - intros t. rewrite gposted_split. intros Ht. apply O. rewrite !elem_of_app in *. tauto.
  - intros t. rewrite gposted_split, gmarks_split, !elem_of_app. intros [Ht%marker_in|Ht] Hin.
    + apply (P t Ht). rewrite elem_of_app. tauto.
    + apply (R t Ht). rewrite elem_of_app. tauto.
Qed.
End focus.

(** ** Steps *)

Definition reshape (i : loc) (pl : list loc) (mk : option loc) (dl : list loc) (h : shape) : shape :=
  Shape (λ j, if decide (j = i) then pl else sh_pending h j)
        (λ j, if decide (j = i) then mk else sh_marker h j) dl.

Lemma queue_inv_links w w' tp q ql lost mk :
  queues w' !! tp = queues w !! tp → same_links (tasks w) (tasks w') ql →
  queue_inv w tp q ql lost mk → queue_inv w' tp q ql lost mk.
Proof.
  intros Hq Ht [[Hx ? ?] Hr ? ? ? ?]. split; try done; [by split; rewrite ?Hq|].
  by eapply queue_repr_frame.
Qed.

Section steps.
Context {ops : NgxLua} {pool : NgxPool}.

(** What a step keeps of the history fields. *)
Lemma exec_history e s s' :
  exec e s = Ok s' →
  s_tq s' = s_tq s ∧ ((∀ t, t ∈ s_held s → t ∈ s_polled s) → ∀ t, t ∈ s_held s' → t ∈ s_polled s').
Proof using Type.
  destruct e; simpl; unfold exec_post, exec_finish, exec_poll, exec_respond, exec_kill, exec_take, exec_handle.
  all: repeat case_match; try done; intros [= <-]; (split; [done|]); simpl; try done.
  1, 2: intros Hs x; rewrite !elem_of_app; naive_solver.
  intros Hs x Hx%elem_of_filter_ne. naive_solver.
Qed.

Section step.
Context (m : msys) (h : shape) (i : loc) (r : runtime).
Hypothesis Hi : m_runtimes m !! i = Some r.
Context (s' : sys) (pl : list loc) (mk : option loc) (dl : list loc).
Hypothesis Htq : s_tq s' = i.

Let m' := unfocus s' m.
Let h' := reshape i pl mk dl h.

Lemma unfocus_lookup : m_runtimes m' !! i = Some (runtime_of s').
Proof using Htq. simpl. rewrite Htq. apply lookup_insert_eq. Qed.

Lemma unfocus_others : delete i (m_runtimes m') = delete i (m_runtimes m).
Proof using Htq. simpl. by rewrite Htq, delete_insert_eq. Qed.

Lemma reshape_others (A : Type) (f : shape → loc → A) :
  (∀ j, j ≠ i → f h' j = f h j) → ∀ j r', delete i (m_runtimes m) !! j = Some r' → f h' j = f h j.
Proof using Type. intros Hf j r' [Hne _]%lookup_delete_Some. by apply Hf. Qed.

Lemma unfocus_pending : gpending h' (delete i (m_runtimes m)) = gpending h (delete i (m_runtimes m)).
Proof using Type.
  apply gather_ext. apply (reshape_others _ sh_pending). intros j Hj. simpl. by rewrite decide_False.
Qed.

Lemma unfocus_marks : gmarks h' (delete i (m_runtimes m)) = gmarks h (delete i (m_runtimes m)).
Proof using Type.
  apply gather_ext. apply (reshape_others _ (λ h j, marker_list (sh_marker h j))).
  intros j Hj. simpl. by rewrite decide_False.
Qed.

Lemma unfocus_frame : others_frame m' h' i = others_frame m h i.
Proof using Htq. unfold others_frame. by rewrite unfocus_others, unfocus_marks. Qed.

Lemma unfocus_seen :
  seen m' h' i (runtime_of s') = widen (others_tasks m h i) (others_posted m i) s'.
Proof using Htq.
  unfold seen, others_tasks, others_posted. rewrite unfocus_others, unfocus_pending. f_equal.
  rewrite <-Htq. by destruct s'.
Qed.

Lemma others_kept e :
  others_inv m h i r →
  sys_inv_in (others_frame m h i) (widen (others_tasks m h i) (others_posted m i) s') pl mk dl →
  answers_none e (others_tasks m h i ++ f_marks (others_frame m h i)) →
  untouched (seen m h i r) e (widen (others_tasks m h i) (others_posted m i) s')
    (s_held (seen m h i r) ++ f_marks (others_frame m h i)) →
  (∀ t, t ∈ s_held s' → t ∈ s_polled s') →
  others_inv m' h' i (runtime_of s').
Proof using Hi Htq.
  intros [Ho Ah I Hop] Hinv Hn [Uq Ul Ub] Hh. simpl in *.
  split; [|done| |by rewrite unfocus_others, unfocus_pending].
  - intros j r' Hj. rewrite unfocus_others in Hj. pose proof Hj as [Hne _]%lookup_delete_Some.
    destruct (Ho j r' Hj) as [Aq Am Ap Ah']. simpl. rewrite !decide_False by done. split; try done.
    + rewrite (Uq j) by done. destruct (queues (m_world m) !! j) as [q|] eqn:Eq; [|done].
      eapply queue_inv_links; [by rewrite (Uq j)| |exact Aq]. apply Ul.
      * intros y [Hy|Hy]%elem_of_app; rewrite elem_of_app; [left|right].
        -- apply elem_of_app. left. apply elem_of_app. left. apply elem_of_gather. by exists j, r'.
        -- apply elem_of_gather. by exists j, r'.
      * intros t rc rsp len He [Ht|Ht]%elem_of_app; eapply (Hn t); [done| |done|].
        -- apply elem_of_app. left. apply elem_of_app. left. apply elem_of_gather. by exists j, r'.
        -- apply elem_of_app. right. apply elem_of_gather. by exists j, r'.
    + intros t Ht. destruct (Am t Ht) as [Hf _]. split; [done|].
      apply (si_marks _ _ _ _ Hinv). apply elem_of_gather. exists j, r'. split; [done|].
      by apply marker_in.
  - intros j. simpl. rewrite Htq, lookup_insert_is_Some. intros [<-|[_ Hj]].
    + assert (i < brk (m_world m))%nat; [|lia]. apply I. by eexists.
    + specialize (I j Hj). lia.
Qed.
End step.

(** Runtime [i] answers only its own tasks. *)
Lemma focus_answers_none m h i r e :
  sys_inv_in (others_frame m h i) (seen m h i r) (sh_pending h i) (sh_marker h i) (sh_done h) →
  enabled (focus i r m) e = true →
  answers_none e (others_tasks m h i ++ f_marks (others_frame m h i)).
Proof using Type.
  intros Hinv Hen t rc rsp len -> Hin. simpl in Hen. apply andb_true_iff in Hen as [Ht _].
  apply bool_decide_eq_true in Ht. pose proof (hi_nodup _ _ _ _ (si_heap _ _ _ _ Hinv)) as Hnd.
  simpl in Hnd. apply NoDup_app in Hnd as (_ & _ & Hnd). apply NoDup_app in Hnd as (_ & _ & Hnd).
  apply NoDup_app in Hnd as (Hnd & Hd & _). apply elem_of_app in Hin as [Hin|Hin].
  - apply NoDup_app in Hnd as (_ & Hd' & _). by apply (Hd' t Hin).
  - apply (Hd t); [by apply elem_of_app; right|]. mem.
Qed.

Context {laws : NgxLuaLaws ops} {plaws : NgxPoolLaws pool}.

(** Runtime [j] is as it was: its history, its queue and what the queue holds. *)
Record kept (m : msys) (h : shape) (j : loc) (m' : msys) (h' : shape) : Prop := {
  kp_runtime : m_runtimes m' !! j = m_runtimes m !! j;
  kp_queue : queues (m_world m') !! j = queues (m_world m) !! j;
  kp_pending : sh_pending h' j = sh_pending h j;
  kp_marker : sh_marker h' j = sh_marker h j;
}.

(** What a step on queue [i] does, from the state before it, represented by
    [h], to the state after it, represented by [h']. *)
Record multi_stepped (m : msys) (h : shape) (i : loc) (e : event) (m' : msys) (h' : shape) : Prop := {
  ms_inv : multi_inv m' h';
  ms_spec : ∀ r, m_runtimes m !! i = Some r → ∃ r', m_runtimes m' !! i = Some r' ∧
    spec_step e (abs (focus i r m) (sh_pending h i) (sh_marker h i) (sh_done h))
                (abs (focus i r' m') (sh_pending h' i) (sh_marker h' i) (sh_done h'));
  ms_kept : ∀ j, j ≠ i → kept m h j m' h';
  ms_brk : (brk (m_world m) ≤ brk (m_world m'))%nat;
  ms_contents : contents (m_world m) e (m_world m');
}.

Lemma multi_step m h i r e :
  multi_inv m h → m_runtimes m !! i = Some r → enabled (focus i r m) e = true →
  ∃ s' h', exec e (focus i r m) = Ok s' ∧ multi_stepped m h i e (unfocus s' m) h'.
Proof using laws plaws.
  intros Hm Hi Hen. destruct (multi_inv_seen _ _ _ _ Hi Hm) as [Hinv Ho].
  pose proof (focus_answers_none _ _ _ _ _ Hinv Hen) as Hn.
  assert (answers_none e (others_tasks m h i)) as Hn'.
  { intros t rc rsp len He Hin. eapply Hn; [done|]. apply elem_of_app. by left. }
  destruct (step_simulates _ _ _ _ _ Hinv (enabled_widen _ _ _ _ Hen))
    as (s1 & Hex & pl & mk & dl & Hinv1 & Hst & Hun).
  unfold seen in Hex. rewrite exec_widen in Hex by done.
  destruct (exec e (focus i r m)) as [s'|] eqn:He; [|done]. injection Hex as <-.
  destruct (exec_history _ _ _ He) as [Htq Hheld]. simpl in Htq.
  exists s', (reshape i pl mk dl h). split; [done|].
  assert (s' = focus i (runtime_of s') (unfocus s' m)) as Hs' by (rewrite <-Htq; by destruct s').
  split.
  - eapply (multi_inv_unseen _ _ i (runtime_of s')); [by apply unfocus_lookup| |].
    + rewrite unfocus_frame, unfocus_seen by done. simpl. by rewrite !decide_True.
    + eapply others_kept; [exact Hi|exact Htq|exact Ho|exact Hinv1|exact Hn|exact Hun|].
      apply Hheld, Ho.
  - intros r0 Hr0. rewrite Hi in Hr0. injection Hr0 as <-. exists (runtime_of s').
    split; [by apply unfocus_lookup|]. rewrite <-Hs'. simpl. rewrite !decide_True by done.
    eapply spec_step_unwiden; [exact Hn'| |].
    + intros t rc rsp len ->. simpl in Hen. apply andb_true_iff in Hen as [Ht _].
      by apply bool_decide_eq_true in Ht.
    + unfold seen in Hst. by rewrite !abs_widen in Hst.
  - intros j Hj. split; simpl; [|by apply Hun|by rewrite decide_False..].
    rewrite Htq. by apply lookup_insert_ne.
  - apply Hun.
  - apply Hun.
Qed.
End steps.

(** ** New queues *)

Definition set_m_world (w : world) (m : msys) : msys :=
  MSys w (m_runtimes m) (m_inflight m) (m_waiting m) (m_handled m).

Lemma runtime_inv_ext w w' i r pl mk :
  tasks w' = tasks w → queues w' !! i = queues w !! i → runtime_inv w i r pl mk → runtime_inv w' i r pl mk.
Proof.
  intros Ht Hq [A B C D]. split; rewrite ?Ht, ?Hq; try done.
  destruct (queues w !! i) eqn:E; [|done]. apply (queue_inv_links w); [congruence| |done].
  rewrite Ht. intros x b _ Hx. eauto.
Qed.

(** Worlds that differ only in what the program does not own. *)
Lemma multi_inv_quiet m h w' :
  multi_inv m h →
  tasks w' = tasks (m_world m) → bufs w' = bufs (m_world m) → queues w' = queues (m_world m) →
  pool_done w' = pool_done (m_world m) → done_lock w' = done_lock (m_world m) →
  (brk (m_world m) ≤ brk w')%nat → co_frame (λ k, k ∈ m_waiting m) (m_world m) w' →
  multi_inv (set_m_world w' m) h.
Proof.
  intros [A B C D E G Hc T U V N O P] Ht Hb Hq Hd Hl Hn Hf.
  split; simpl; rewrite ?Ht, ?Hb, ?Hq, ?Hd, ?Hl; try done.
  - intros i r Hi. eapply runtime_inv_ext; [done|by rewrite Hq|by apply A].
  - intros i Hi. specialize (C i Hi). lia.
  - by eapply heap_inv_brk.
  - by eapply co_inv_frame.
  - intros t Hp. specialize (O t Hp). lia.
Qed.

(** The world in which queue [i] was created. *)
Definition with_queue (max : Z) (w : world) : world :=
  upd_queues <[brk w := fresh_queue (brk w) max]> (upd_brk S w).

Definition add_runtime (max : Z) (m : msys) : msys :=
  MSys (with_queue max (m_world m)) (<[brk (m_world m) := new_runtime]> (m_runtimes m))
       (m_inflight m) (m_waiting m) (m_handled m).

Section create.
Context (m : msys) (h : shape) (max : Z).
Hypothesis Hm : multi_inv m h.

Let i := brk (m_world m).
Let h' := reshape i [] None (sh_done h) h.

Lemma fresh_runtime : m_runtimes m !! i = None ∧ queues (m_world m) !! i = None.
Proof using Hm.
  assert (m_runtimes m !! i = None) as Hi.
  { apply eq_None_not_Some. intros Hi%(mi_id _ _ Hm). subst i. lia. }
  split; [done|]. apply eq_None_not_Some. intros Hq%(mi_only _ _ Hm). rewrite Hi in Hq. by destruct Hq.
Qed.

Lemma gather_new (f : shape → loc → runtime → list loc) :
  f h' i new_runtime = [] → (∀ j r, j ≠ i → f h' j r = f h j r) →
  gather (f h') (m_runtimes (add_runtime max m)) ≡ₚ gather (f h) (m_runtimes m).
Proof using Hm.
  intros Hnew Hold. destruct fresh_runtime as [Hi _]. simpl. fold i.
  rewrite (gather_insert _ _ _ _ Hi), Hnew. simpl.
  rewrite (gather_ext (f h') (f h)); [done|]. intros j r Hj. apply Hold. intros ->. congruence.
Qed.

Lemma multi_inv_create : multi_inv (add_runtime max m) h'.
Proof using Hm.
  destruct fresh_runtime as [Hi Hq].
  assert (gpending h' (m_runtimes (add_runtime max m)) ≡ₚ gpending h (m_runtimes m)) as Sp.
  { apply (gather_new (λ h i _, sh_pending h i)); simpl; [by rewrite decide_True|].
    intros j _ Hj. by rewrite decide_False. }
  assert (gmarks h' (m_runtimes (add_runtime max m)) ≡ₚ gmarks h (m_runtimes m)) as Sm.
  { apply (gather_new (λ h i _, marker_list (sh_marker h i))); simpl; [by rewrite decide_True|].
    intros j _ Hj. by rewrite decide_False. }
  assert (∀ f, f i new_runtime = [] →
    gather f (m_runtimes (add_runtime max m)) ≡ₚ gather f (m_runtimes m)) as Sg.
  { intros f Hf. by apply (gather_new (λ _, f)). }
  pose proof (Sg (λ _, r_held) eq_refl) as Sh. pose proof (Sg (λ _, r_posted) eq_refl) as So.
  pose proof (Sg (λ _, r_polled) eq_refl) as Sl. clear Sg.
  destruct Hm as [A B C D E G Hc T U V N O P].
  split; try done.
  - intros j r. simpl. fold i. intros [[<- <-]|[Hne Hj]]%lookup_insert_Some.
    + rewrite !decide_True by done. split; simpl; [|done..|by intros t Ht].
      rewrite lookup_insert_eq. by apply fresh_queue_inv.
    + rewrite !decide_False by done. eapply runtime_inv_ext; [| |by apply A]; [done|].
      simpl. by rewrite lookup_insert_ne.
  - intros j. simpl. fold i. rewrite !lookup_insert_is_Some. naive_solver.
  - intros j. simpl. fold i. rewrite lookup_insert_is_Some. intros [<-|[_ Hj]]; [unfold i; lia|].
    specialize (C j Hj). lia.
  - eapply heap_inv_perm; [|eapply heap_inv_brk; [|exact G]]; [|simpl; lia].
    rewrite Sp, Sm. unfold gheld. by rewrite Sh.
  - by apply (co_inv_same _ (m_world m)).
  - intros t. rewrite Sp. unfold gheld. rewrite Sh. apply T.
  - intros t c. rewrite Sp. unfold gheld. rewrite Sh. apply U.
  - unfold gpolled, gheld. by rewrite Sl, Sh.
  - unfold gposted. by rewrite So.
  - intros t. unfold gposted. rewrite So. intros Ht. specialize (O t Ht). simpl. lia.
  - intros t. unfold gposted. rewrite So, Sm. apply P.
Qed.
End create.

Definition empty_shape : shape := Shape (λ _, []) (λ _, None) [].

Lemma multi_inv_init w : idle_world w → multi_inv (no_runtimes w) empty_shape.
Proof.
  intros [Ht Hb Hq Hd Hl]. unfold gpending, gmarks, gheld, gposted, gpolled.
  assert (views ∅ = ∅) as Hv by apply fmap_empty.
  split; simpl; unfold gpending, gmarks, gheld, gposted, gpolled;
    rewrite ?gather_empty, ?Ht, ?Hb, ?Hq, ?Hd, ?Hv; simpl; try done.
  all: try (intros t Hin; by apply elem_of_nil in Hin).
  1, 2: intros i [? Hi]; by rewrite lookup_empty in Hi.
  - split; [done|done|apply NoDup_nil_2].
  - apply empty_heap.
  - apply NoDup_nil_2.
Qed.
