(* ===== verification/Demo.v ===== *)
(** * Demo: a concrete nginx, a concrete Lua and small executions

    Instances of the interfaces [NgxLua] and [NgxPool] that satisfy their laws,
    and the worlds on which the theorems are instantiated. *)

From S2P Require Import Prelude World TaskQueue FfiTask FfiQueue EventHandler Ownership System.
From S2P Require Import Spec Invariant Posting Polling Answering Safety.

(** ** A Lua that runs to completion without touching the world *)

#[global] Instance quiet_lua : NgxLua := {
  ngx_http_lua_run_thread _ _ := mret NGX_DONE;
  ngx_http_lua_run_posted_threads _ := mret NGX_DONE;
  ngx_http_lua_finalize_request _ _ := mret ();
  ngx_http_core_run_phases _ := mret ();
  ngx_http_run_posted_requests _ := mret ();
}.

#[global] Instance quiet_lua_laws : NgxLuaLaws quiet_lua.
Proof.
  split; intros; try apply total_frame_ret.
  exists NGX_DONE, w. split; [done|]. split; [done|]. by intros _ [].
Qed.

(** ** [ngx_thread_pool_handler]: detach the done queue, then walk it *)

Fixpoint walk (fuel : nat) (m : gmap loc task_block) (p : option ptr) : list loc :=
  match fuel, p with
  | S fuel, Some p =>
      p_blk p :: match m !! p_blk p with Some b => walk fuel m (t_next (tb_task b)) | None => [] end
  | _, _ => []
  end.

#[global] Instance list_pool : NgxPool := {
  ngx_pool_take :=
    l ← gets done_lock;
    assume (negb l) Deadlock;;
    w ← gets id;
    modify (upd_pool_done (λ _, ngx_task_queue_init SDoneFirst));;
    mret (walk (size (tasks w)) (tasks w) (q_first (pool_done w)));
}.

Lemma walk_chain m l p fuel : chain m p l → (length l ≤ fuel)%nat → walk fuel m p = l.
Proof.
  revert p fuel. induction l as [|t l IH]; intros p fuel; simpl.
  - intros -> _. by destruct fuel.
  - intros (-> & b & Hb & Hl) Hf. destruct fuel as [|fuel]; [lia|]. simpl. rewrite Hb.
    f_equal. apply IH; [done|lia].
Qed.

Lemma chain_length m q head l : queue_repr m head q l → (length l ≤ size m)%nat.
Proof.
  intros Hr. pose proof (qr_nodup _ _ _ _ Hr) as Hn.
  rewrite <-(size_list_to_set (C := gset loc) l Hn), <-size_dom.
  apply subseteq_size. intros t Ht%elem_of_list_to_set.
  destruct (queue_repr_live _ _ _ _ _ Hr Ht) as [b Hb]. apply elem_of_dom. by eexists.
Qed.

#[global] Instance list_pool_laws : NgxPoolLaws list_pool.
Proof.
  split. intros w dl Hl Hr. simpl. unfold gets, assume, modify, mbind, M_bind. simpl. rewrite Hl. simpl.
  rewrite ret_run. f_equal. f_equal. apply walk_chain; [apply Hr|]. by eapply chain_length.
Qed.

(** ** A request with one Lua coroutine *)

(** Request 7 is in its content phase; coroutine 3, on Lua thread 5, runs. *)
Definition demo_world : world :=
  World ∅ ∅ ∅ 0 (ngx_task_queue_init SDoneFirst) false
    {[ 3%nat := CoCtx 5 None None ]} {[ 5%nat := LuaThread (Some 7%nat) [] ]}
    {[ 7%nat := Request (Some (LuaCtx (Some 3%nat) HWevHandler true)) 0 ]} [].

Lemma demo_idle : idle_world demo_world.
Proof. by split. Qed.

Definition demo_sys : sys :=
  match boot env_ok 2 demo_world with Ok (Some s) => s | _ => Sys demo_world 0 false [] [] ∅ [] [] [] 0 end.

Lemma demo_boot : boot env_ok 2 demo_world = Ok (Some demo_sys).
Proof. vm_compute. reflexivity. Qed.

(** "hi", answered with "ok" by thread 1. *)
Definition hi : list byte := [x68; x69].
Definition ok : list byte := [x6f; x6b; x00].

(** Block 0 is the queue, block 1 the request and block 2 its task. *)
Definition demo_call : list event :=
  [EPoll env_ok 1; EPost env_ok 7 (Some hi); EWake env_ok 1; ERespond 2 0 (Some ok) 0; ETake; EHandle].

Definition demo_unload : list event := [EPoll env_ok 1; EFinish env_ok; EWake env_ok 1].

Definition sys_of (r : option (res sys)) : sys :=
  match r with Some (Ok s) => s | _ => demo_sys end.

(** ** Worlds for single operations *)

(** Queue 0 is empty. *)
Definition demo_empty : world := sw demo_sys.

Lemma demo_ready : queue_ready demo_empty 0 (fresh_queue 0 2).
Proof. by split. Qed.

Lemma demo_repr m : queue_repr m (SQueueFirst (Ptr 0 0)) (queue (fresh_queue 0 2)) [].
Proof. split; [done|done|apply NoDup_nil_2]. Qed.

Lemma demo_poster : poster demo_empty 7 3.
Proof. split; [by eexists _, _|by eexists]. Qed.

(** The mutex works, the condition's signal fails. *)
Definition env_no_signal : sysenv := SysEnv true 0 0 0 0 (-1) 0 0.
Definition env_no_memory : sysenv := SysEnv false 0 0 0 0 0 0 0.

(** Block 9 is a task of coroutine 3 that is with the runtime, block 8 a buffer
    without NUL. *)
Definition demo_ctx (rsp : option ptr) (abort : Z) : ffi_task_ctx_t :=
  FfiCtx (Some 3%nat) 0 None 0 rsp 0 abort.
Definition demo_block (rsp : option ptr) (abort : Z) : task_block :=
  TaskBlock (tb_task (created_block (Some 3%nat) 9)) (Some (demo_ctx rsp abort)).
Definition demo_held (rsp : option ptr) (abort : Z) : world :=
  upd_bufs <[8%nat := [x41]]> (upd_tasks <[9%nat := demo_block rsp abort]> demo_empty).

Lemma demo_answered rsp abort :
  buf_live {[ 8%nat := [x41] ]} rsp →
  answered_task (demo_held rsp abort) 9 (demo_block rsp abort) (demo_ctx rsp abort).
Proof. intros H. split; [done|done|done|]. by split. Qed.

(** The finish marker of queue 0 is block 9, and thread 4 is blocked. *)
Definition demo_marker_queue : ffi_task_queue_t :=
  FfiTaskQueue MtxFree (NgxTaskQueue (Some (Ptr 9 0)) (STaskNext (Ptr 9 0))) 0 (Cond true [4%nat] []) 2.
Definition demo_marker : world :=
  upd_queues <[0%nat := demo_marker_queue]> (upd_tasks <[9%nat := finish_block]> demo_empty).

(** A request in block 9 is first in queue 0. *)
Definition demo_pending_queue : ffi_task_queue_t :=
  FfiTaskQueue MtxFree (NgxTaskQueue (Some (Ptr 9 0)) (STaskNext (Ptr 9 0))) 1 (Cond true [] []) 2.
Definition demo_pending : world :=
  upd_queues <[0%nat := demo_pending_queue]> (upd_tasks <[9%nat := demo_block None 0]> demo_empty).

Lemma single_repr m q b :
  queue q = NgxTaskQueue (Some (Ptr 9 0)) (STaskNext (Ptr 9 0)) → m !! 9%nat = Some b →
  t_next (tb_task b) = None → queue_repr m (SQueueFirst (Ptr 0 0)) (queue q) [9%nat].
Proof.
  intros -> Hb Hn. split; [|done|apply NoDup_singleton]. simpl. split; [done|].
  exists b. by rewrite Hn.
Qed.

(** ** Reachable states *)

Lemma demo_reachable es :
  (∃ s, run_events es demo_sys = Some (Ok s)) → reachable 2 (sys_of (run_events es demo_sys)).
Proof.
  intros [s Hs]. exists env_ok, demo_world, demo_sys, es.
  split; [apply demo_idle|]. split; [done|]. split; [apply demo_boot|]. by rewrite Hs.
Qed.

(** A reachable state of [Demo], by computation. *)
Ltac demo := apply demo_reachable; eexists; vm_compute; reflexivity.
