(* ===== verification/Contract.v ===== *)
(** * Contract: what the library guarantees to the runtimes and to Lua

    The system-level properties, for every state reachable under the protocol,
    each with an instance on the executions of [Demo]. *)

From S2P Require Import Prelude World TaskQueue FfiTask FfiQueue EventHandler Ownership System.
From S2P Require Import Spec Invariant Posting Polling Answering Safety Demo.

(** ** Typed queues *)

(** The pointers of a queue header whose own [first] field is [head]. *)
Definition queue_typed (m : gmap loc task_block) (head : slot) (q : ngx_task_queue_t) : Prop :=
  match q_first q with
  | None => q_last q = head
  | Some p => p_off p = 0 ∧ is_Some (m !! p_blk p) ∧ ∃ t, q_last q = STaskNext (Ptr t 0) ∧ is_Some (m !! t)
  end.

Lemma queue_repr_typed m head q l : queue_repr m head q l → queue_typed m head q.
Proof.
  intros Hr. pose proof Hr as [Hc Hl _]. unfold queue_typed, last_slot in *.
  destruct l as [|t l]; simpl in Hc; [by rewrite Hc|]. destruct Hc as [-> _].
  assert (∀ x, x ∈ t :: l → is_Some (m !! x)) as Hlive by (intros x; by eapply queue_repr_live).
  split; [done|]. split; [apply Hlive; by left|].
  destruct (last (t :: l)) as [x|] eqn:E; [|by apply last_None in E].
  exists x. split; [done|]. by apply Hlive, last_Some_elem_of.
Qed.

(** ** Typed memory, and coroutines that wait *)

(** Each pointer field of a live structure is NULL or points where its type says.
    A task that is no finish marker refers twice to the context behind itself; the
    request and the response of a context are distinct live buffers; the coroutine
    it resumes, unless aborted, exists; [first] of a queue is a live task, and
    [last] is its own [first] or the [next] field of a live task. *)
Definition well_typed (w : world) : Prop :=
  (∀ t b, tasks w !! t = Some b →
     match tb_ctx b with
     | None => t_ctx (tb_task b) = None ∧ ev_data (t_event (tb_task b)) = None
     | Some c =>
         t_ctx (tb_task b) = Some (Ptr t 1) ∧ ev_data (t_event (tb_task b)) = Some (Ptr t 1) ∧
         ctx_bufs_ok (bufs w) c ∧
         (c_is_abort c = 0 → ∃ k, c_wait_co_ctx c = Some k ∧ is_Some (cos w !! k))
     end) ∧
  (∀ l q, queues w !! l = Some q → queue_typed (tasks w) (SQueueFirst (Ptr l 0)) (queue q)) ∧
  queue_typed (tasks w) SDoneFirst (pool_done w).

Lemma tasks_typed w W all n t b :
  heap_inv (views (tasks w)) (bufs w) all n → co_inv (views (tasks w)) w W → tasks w !! t = Some b →
  match tb_ctx b with
  | None => t_ctx (tb_task b) = None ∧ ev_data (t_event (tb_task b)) = None
  | Some c =>
      t_ctx (tb_task b) = Some (Ptr t 1) ∧ ev_data (t_event (tb_task b)) = Some (Ptr t 1) ∧
      ctx_bufs_ok (bufs w) c ∧
      (c_is_abort c = 0 → ∃ k, c_wait_co_ctx c = Some k ∧ is_Some (cos w !! k))
  end.
Proof.
  intros Hh Hco Hb. pose proof (views_some _ _ _ Hb) as Hv.
  destruct (hi_wf _ _ _ _ Hh _ _ Hv) as [E|(c & E & Hc & _)]; injection E as E1 E2 E3; rewrite E3; [done|].
  split_and!; [done..|]. intros Ha. destruct (ci_task _ _ _ Hco t (view b) c Hv E3 Ha) as (k & Hk & _ & y & Hy & _).
  exists k. split; [done|by eexists].
Qed.

(** A coroutine of [W], which wait, and its task point at each other.  The
    cleanup handler of every coroutine that waits refers to a live task that
    resumes it, and no other live task does; a live task that was not aborted
    resumes a waiting coroutine whose Lua thread and request still exist. *)
Definition agrees (w : world) (W : gset cid) : Prop :=
  (∀ k, k ∈ W → ∃ x t b c,
     cos w !! k = Some x ∧ cleanup x = Some HFfiCleanup ∧ co_data x = Some (Ptr t 1) ∧
     tasks w !! t = Some b ∧ tb_ctx b = Some c ∧ c_is_abort c = 0 ∧ c_wait_co_ctx c = Some k) ∧
  (∀ t b c, tasks w !! t = Some b → tb_ctx b = Some c → c_is_abort c = 0 →
     ∃ k x, c_wait_co_ctx c = Some k ∧ k ∈ W ∧ cos w !! k = Some x ∧ co_data x = Some (Ptr t 1) ∧ live_thread w x).

Lemma co_inv_agrees w W : co_inv (views (tasks w)) w W → agrees w W.
Proof.
  intros Hco. split.
  - intros k Hk. destruct (ci_wait _ _ _ Hco k Hk) as (t & v & Hv & Haw).
    destruct (co_inv_awaits _ _ _ _ _ _ Hco Hv Haw) as (_ & x & Hx & Hcl & Hd & _).
    apply views_lookup in Hv as (b & Hb & <-). destruct Haw as (c & Hc & Ha & Hw).
    by exists x, t, b, c.
  - intros t b c Hb Hc Ha.
    destruct (ci_task _ _ _ Hco t (view b) c) as (k & Hk & Hw & x & Hx & _ & Hd & Hl);
      [by apply views_some|done|done|]. by exists k, x.
Qed.

(** ** The properties *)

Section contract.
Context {ops : NgxLua} {laws : NgxLuaLaws ops} {pool : NgxPool} {plaws : NgxPoolLaws pool}.

(** In every reachable state, every call the protocol allows (by the Lua
    side, a polling thread, a worker that answers, or nginx) runs to its end:
    it dereferences no NULL or freed pointer, frees nothing twice, never reads
    past a buffer, and misuses no mutex or condition variable. *)
Theorem handlers_are_safe max s e :
  reachable max s → enabled s e = true → ∃ s', exec e s = Ok s'.
Proof using laws plaws.
  intros (pl & mk & dl & Hinv & _)%reachable_inv Hen.
  destruct (step_simulates _ _ _ _ _ Hinv Hen) as (s' & Hs & _). eauto.
Qed.

(** C4: The handlers implement the abstract machine of [Spec].  After any
    execution from a new queue, the memory represents lists of pending requests
    and answered tasks, and the abstract machine, started empty, reaches exactly
    that abstract state by the same events. *)
Theorem handlers_refine_spec env max w s0 es s :
  idle_world w → e_calloc env = true → boot env max w = Ok (Some s0) →
  run_events es s0 = Some (Ok s) →
  ∃ pl mk dl, sys_inv s pl mk dl ∧ spec_run es (spec_init max) (abs s pl mk dl).
Proof using laws plaws.
  intros Hi Ha Hb Hr. destruct (boot_inv _ _ _ _ Hi Ha Hb) as [Hinv Habs].
  destruct (run_simulates _ _ _ _ _ _ Hinv Hr) as (s' & pl & mk & dl & [= <-] & Hinv' & Hrun).
  exists pl, mk, dl. split; [done|]. by rewrite Habs in Hrun.
Qed.

(** Requests are polled in the order they were posted, none twice: the
    polled tasks are a prefix of the posted ones, which are distinct. *)
Theorem polling_is_fifo max s :
  reachable max s → s_polled s `prefix_of` s_posted s ∧ NoDup (s_posted s).
Proof using laws plaws.
  intros (pl & mk & dl & Hinv & _)%reachable_inv. split; [|apply Hinv].
  exists pl. apply Hinv.
Qed.

(** The tasks that are not handled, among the posted ones. *)
Lemma live_unhandled s pl mk dl t :
  sys_inv s pl mk dl → t ∈ s_posted s →
  NoDup (pl ++ s_held s ++ dl ++ s_inflight s ++ s_handled s) →
  is_Some (tasks (sw s) !! t) ↔ t ∉ s_handled s.
Proof.
  intros Hinv Ht Hn.
  assert (is_Some (tasks (sw s) !! t) ↔ is_Some (views (tasks (sw s)) !! t)) as ->.
  { unfold views. by rewrite lookup_fmap, fmap_is_Some. }
  rewrite <-(hi_dom _ _ _ _ (si_heap _ _ _ _ Hinv)). simpl. rewrite app_nil_r.
  assert (t ∉ marker_list mk) as Hm.
  { intros Hin. destruct mk as [m|]; simpl in Hin; [|by apply elem_of_nil in Hin].
    apply list_elem_of_singleton in Hin as ->. by apply (si_apart _ _ _ _ Hinv m). }
  rewrite (si_posted _ _ _ _ Hinv), elem_of_app, (si_polled _ _ _ _ Hinv) in Ht.
  rewrite !app_assoc in Hn. apply NoDup_app in Hn as (_ & Hn & _). specialize (Hn t).
  rewrite !elem_of_app in *. tauto.
Qed.

(** No request is lost or duplicated.  Every posted task is in exactly one
    of: the request queue, the hands of the runtime, the done queue, nginx's
    batch, or handled; the task is allocated exactly while it is not handled. *)
Theorem every_task_in_one_place max s :
  reachable max s →
  ∃ pl dl, s_posted s ≡ₚ pl ++ s_held s ++ dl ++ s_inflight s ++ s_handled s ∧
    NoDup (pl ++ s_held s ++ dl ++ s_inflight s ++ s_handled s) ∧
    queue_repr (tasks (sw s)) SDoneFirst (pool_done (sw s)) dl ∧
    ∀ t, t ∈ s_posted s → (is_Some (tasks (sw s) !! t) ↔ t ∉ s_handled s).
Proof using laws plaws.
  intros (pl & mk & dl & Hinv & _)%reachable_inv. exists pl, dl.
  assert (s_posted s ≡ₚ pl ++ s_held s ++ dl ++ s_inflight s ++ s_handled s) as Hp.
  { rewrite (si_posted _ _ _ _ Hinv), (si_polled _ _ _ _ Hinv). by rewrite Permutation_app_comm. }
  assert (NoDup (pl ++ s_held s ++ dl ++ s_inflight s ++ s_handled s)) as Hn.
  { rewrite <-Hp. apply Hinv. }
  split; [done|]. split; [done|]. split; [apply Hinv|]. intros t Ht.
  by eapply live_unhandled.
Qed.

(** The queue is bounded.  [waiting] is the number of queued entries less
    the threads inside [task_poll] (and less the slots lost to failed waits); it
    never exceeds [max_queue] by more than the finish marker, so the queue holds
    at most [max_queue] entries more than there are threads to take them. *)
Theorem queue_is_bounded max s q :
  reachable max s → queues (sw s) !! s_tq s = Some q →
  ∃ ql, queue_repr (tasks (sw s)) (SQueueFirst (Ptr (s_tq s) 0)) (queue q) ql ∧
    waiting q = Z.of_nat (length ql) - Z.of_nat (length (inside q)) - Z.of_nat (s_lost s) ∧
    waiting q ≤ Z.max 0 max + 1 ∧
    (s_finished s = false → waiting q ≤ Z.max 0 max) ∧
    Z.of_nat (length ql) ≤ Z.max 0 max + 1 + Z.of_nat (length (inside q)) + Z.of_nat (s_lost s).
Proof using laws plaws.
  intros (pl & mk & dl & Hinv & Hmax)%reachable_inv Hq.
  pose proof (si_queue _ _ _ _ Hinv) as Hqi. rewrite Hq in Hqi.
  destruct Hqi as [_ Hr Hw Hb _ _]. rewrite (Hmax q Hq) in Hb.
  assert (length (marker_list mk) ≤ 1)%nat as Hm by (destruct mk; simpl; lia).
  exists (pl ++ marker_list mk). split; [done|]. split; [lia|]. split; [lia|].
  split; [|lia]. intros Hf. rewrite (finished_marker _ _ _ _ Hinv Hf) in Hb. simpl in Hb. lia.
Qed.

(** No wake-up is lost: while some thread is still blocked in
    [task_poll], every entry of the queue has a woken thread on its way to take
    it. *)
Theorem no_lost_wakeup max s q :
  reachable max s → queues (sw s) !! s_tq s = Some q → cv_waiters (cond q) ≠ [] →
  ∃ ql, queue_repr (tasks (sw s)) (SQueueFirst (Ptr (s_tq s) 0)) (queue q) ql ∧
    (length ql ≤ length (cv_woken (cond q)))%nat.
Proof using laws plaws.
  intros (pl & mk & dl & Hinv & _)%reachable_inv Hq Hne.
  pose proof (si_queue _ _ _ _ Hinv) as Hqi. rewrite Hq in Hqi.
  destruct Hqi as [_ Hr _ _ _ Hwk]. eauto.
Qed.

(** The shutdown is graceful: once the queue is freed, the runtime was
    unloaded and every posted request was handed to it. *)
Theorem shutdown_is_graceful max s :
  reachable max s → queues (sw s) !! s_tq s = None →
  s_finished s = true ∧ s_polled s = s_posted s ∧ queues (sw s) = ∅.
Proof using laws plaws.
  intros (pl & mk & dl & Hinv & _)%reachable_inv Hq.
  pose proof (si_queue _ _ _ _ Hinv) as Hqi. rewrite Hq in Hqi. destruct Hqi as (-> & _ & Hf).
  split; [done|]. split; [by rewrite (si_posted _ _ _ _ Hinv), app_nil_r|].
  apply map_eq. intros l. rewrite lookup_empty. apply eq_None_not_Some. intros Hs.
  rewrite (sys_inv_only _ _ _ _ _ Hinv Hs), Hq in Hs. by destruct Hs.
Qed.

(** Nothing leaks: when the queue is closed and no task is with the
    runtime, in the done queue or with nginx, no task and no buffer is
    allocated, no coroutine waits, and every request was handled. *)
Theorem nothing_leaks max s :
  reachable max s → queues (sw s) !! s_tq s = None →
  s_held s = [] → s_inflight s = [] → q_first (pool_done (sw s)) = None →
  tasks (sw s) = ∅ ∧ bufs (sw s) = ∅ ∧ s_waiting s = ∅ ∧ s_handled s ≡ₚ s_posted s.
Proof using laws plaws.
  intros (pl & mk & dl & Hinv & _)%reachable_inv Hq Hh Hi Hd.
  pose proof (si_queue _ _ _ _ Hinv) as Hqi. rewrite Hq in Hqi. destruct Hqi as (-> & -> & _).
  rewrite (queue_repr_nil _ _ _ _ (si_done _ _ _ _ Hinv) Hd) in Hinv. by apply quiescent.
Qed.

(** A runtime with one polling thread can always be unloaded: from every
    reachable state, after [task_finish] there is a continuation, of at most
    four steps per posted request and one, in which the runtime polls and
    answers, nginx delivers, and everything is released. *)
Theorem unload_terminates max me s q :
  reachable max s → s_finished s = false →
  queues (sw s) !! s_tq s = Some q → (∀ x, x ∈ inside q → x = me) →
  ∃ es s', (length es ≤ 4 * length (s_posted s) + 1)%nat ∧
    run_events (EFinish env_ok :: es) s = Some (Ok s') ∧
    queues (sw s') = ∅ ∧ tasks (sw s') = ∅ ∧ bufs (sw s') = ∅ ∧ s_waiting s' = ∅ ∧
    s_handled s' ≡ₚ s_posted s.
Proof using laws plaws.
  intros (pl & mk & dl & Hinv & _)%reachable_inv Hf Hq Hall.
  eapply (unload _ pl mk dl me); [done|done|]. intros x. unfold abs. simpl. rewrite Hq.
  rewrite elem_of_list_to_set. apply Hall.
Qed.

(** A waiting coroutine and its task point at each other. *)
Theorem coroutines_and_tasks_agree max s : reachable max s → agrees (sw s) (s_waiting s).
Proof using laws plaws. intros (pl & mk & dl & Hinv & _)%reachable_inv. apply co_inv_agrees, Hinv. Qed.

(** Requests can always be served: from every reachable state of a runtime
    that was not unloaded, whatever its threads are doing, at most four steps per
    posted request in which only the runtime polls and answers and nginx delivers
    lead to a state where every request was handled, no coroutine waits and
    no task or buffer is allocated. *)
Theorem requests_can_be_served max s :
  reachable max s → s_finished s = false →
  ∃ es s', (length es ≤ 4 * length (s_posted s))%nat ∧ forallb serving es = true ∧
    run_events es s = Some (Ok s') ∧
    tasks (sw s') = ∅ ∧ bufs (sw s') = ∅ ∧ s_waiting s' = ∅ ∧ s_handled s' ≡ₚ s_posted s.
Proof using laws plaws. intros (pl & mk & dl & Hinv & _)%reachable_inv Hf. by eapply serve. Qed.

(** Memory is well typed in every reachable state. *)
Theorem memory_is_well_typed max s : reachable max s → well_typed (sw s).
Proof using laws plaws.
  intros (pl & mk & dl & Hinv & _)%reachable_inv. split; [|split].
  - intros t b. by apply (tasks_typed _ _ _ _ _ _ (si_heap _ _ _ _ Hinv) (si_co _ _ _ _ Hinv)).
  - intros l q Hq. assert (l = s_tq s) as -> by (eapply sys_inv_only; [done|by eexists]).
    pose proof (si_queue _ _ _ _ Hinv) as Hqi. rewrite Hq in Hqi.
    eapply queue_repr_typed, Hqi.
  - eapply queue_repr_typed, Hinv.
Qed.

End contract.

(** ** Instances *)

(** A poller is blocked, then a request is posted, polled, answered and
    delivered. *)
Lemma handlers_are_safe_witness :
  ∃ s', exec (ERespond 2 0 (Some ok) 0) (sys_of (run_events (take 3 demo_call) demo_sys)) = Ok s'.
Proof. apply (handlers_are_safe 2); [demo|vm_compute; reflexivity]. Defined.

Lemma handlers_refine_spec_witness :
  ∃ pl mk dl, sys_inv (sys_of (run_events demo_call demo_sys)) pl mk dl ∧
    spec_run demo_call (spec_init 2) (abs (sys_of (run_events demo_call demo_sys)) pl mk dl).
Proof.
  apply (handlers_refine_spec env_ok 2 demo_world demo_sys);
    [apply demo_idle|reflexivity|apply demo_boot|vm_compute; reflexivity].
Defined.

(** Two requests are queued, one is polled. *)
Definition demo_two : list event :=
  [EPost env_ok 7 (Some hi); EPoll env_ok 1; ERespond 2 1 None 0; ETake; EHandle;
   EPost env_ok 7 None].

Definition demo_mid : sys := sys_of (run_events demo_two demo_sys).

Example demo_mid_lists : s_posted demo_mid = [2; 3]%nat ∧ s_handled demo_mid = [2]%nat.
Proof. split; vm_compute; reflexivity. Qed.

Lemma polling_is_fifo_witness :
  s_polled demo_mid `prefix_of` s_posted demo_mid ∧
  NoDup (s_posted demo_mid).
Proof. apply (polling_is_fifo 2). demo. Defined.

Lemma every_task_in_one_place_witness :
  ∃ pl dl,
    s_posted demo_mid ≡ₚ pl ++ s_held demo_mid ++ dl ++ s_inflight demo_mid ++ s_handled demo_mid ∧
    NoDup (pl ++ s_held demo_mid ++ dl ++ s_inflight demo_mid ++ s_handled demo_mid) ∧
    queue_repr (tasks (sw demo_mid)) SDoneFirst (pool_done (sw demo_mid)) dl ∧
    ∀ t, t ∈ s_posted demo_mid → (is_Some (tasks (sw demo_mid) !! t) ↔ t ∉ s_handled demo_mid).
Proof. apply (every_task_in_one_place 2). unfold demo_mid. demo. Defined.

Definition demo_queue (es : list event) : ffi_task_queue_t :=
  default zero_queue (queues (sw (sys_of (run_events es demo_sys))) !! 0%nat).

Lemma queue_is_bounded_witness :
  ∃ ql, queue_repr (tasks (sw demo_mid)) (SQueueFirst (Ptr 0 0))
      (queue (demo_queue demo_two)) ql ∧
    waiting (demo_queue demo_two) = Z.of_nat (length ql) - 0 - 0 ∧
    waiting (demo_queue demo_two) ≤ Z.max 0 2 + 1 ∧
    (false = false → waiting (demo_queue demo_two) ≤ Z.max 0 2) ∧
    Z.of_nat (length ql) ≤ Z.max 0 2 + 1 + 0 + 0.
Proof. apply (queue_is_bounded 2 demo_mid); [demo|vm_compute; reflexivity]. Defined.

(** Thread 1 is blocked, thread 2 was woken by a request. *)
Definition demo_blocked : list event :=
  [EPoll env_ok 1; EPoll env_ok 2; EPost (SysEnv true 0 0 0 0 0 0 2) 7 None].

Lemma no_lost_wakeup_witness :
  ∃ ql, queue_repr (tasks (sw (sys_of (run_events demo_blocked demo_sys)))) (SQueueFirst (Ptr 0 0))
      (queue (demo_queue demo_blocked)) ql ∧
    (length ql ≤ length (cv_woken (cond (demo_queue demo_blocked))))%nat.
Proof.
  apply (no_lost_wakeup 2 (sys_of (run_events demo_blocked demo_sys)));
    [demo|vm_compute; reflexivity|vm_compute; discriminate].
Defined.

Definition demo_end : sys := sys_of (run_events (demo_call ++ demo_unload) demo_sys).

Lemma shutdown_is_graceful_witness :
  s_finished demo_end = true ∧ s_polled demo_end = s_posted demo_end ∧ queues (sw demo_end) = ∅.
Proof. apply (shutdown_is_graceful 2); [demo|vm_compute; reflexivity]. Defined.

Lemma nothing_leaks_witness :
  tasks (sw demo_end) = ∅ ∧ bufs (sw demo_end) = ∅ ∧ s_waiting demo_end = ∅ ∧
  s_handled demo_end ≡ₚ s_posted demo_end.
Proof. apply (nothing_leaks 2); [demo|vm_compute; reflexivity..]. Defined.

Lemma unload_terminates_witness :
  ∃ es s', (length es ≤ 5)%nat ∧
    run_events (EFinish env_ok :: es) (sys_of (run_events (take 2 demo_call) demo_sys)) = Some (Ok s') ∧
    queues (sw s') = ∅ ∧ tasks (sw s') = ∅ ∧ bufs (sw s') = ∅ ∧ s_waiting s' = ∅ ∧
    s_handled s' ≡ₚ [2%nat].
Proof.
  apply (unload_terminates 2 1 (sys_of (run_events (take 2 demo_call) demo_sys))
           (demo_queue (take 2 demo_call)));
    [demo|vm_compute; reflexivity|vm_compute; reflexivity|].
  intros x Hx. vm_compute in Hx. by apply list_elem_of_singleton in Hx.
Defined.

Lemma coroutines_and_tasks_agree_witness :
  ∃ x t b c,
    cos (sw demo_mid) !! 3%nat = Some x ∧
    cleanup x = Some HFfiCleanup ∧ co_data x = Some (Ptr t 1) ∧
    tasks (sw demo_mid) !! t = Some b ∧ tb_ctx b = Some c ∧
    c_is_abort c = 0 ∧ c_wait_co_ctx c = Some 3%nat.
Proof.
  apply (coroutines_and_tasks_agree 2 demo_mid ltac:(demo)).
  vm_compute. reflexivity.
Defined.

(** Two threads are blocked, and a request wakes one of them. *)
Definition demo_busy : sys :=
  sys_of (run_events [EPoll env_ok 1; EPoll env_ok 2; EPost env_ok 7 (Some hi)] demo_sys).

Lemma requests_can_be_served_witness :
  ∃ es s', (length es ≤ 4)%nat ∧ forallb serving es = true ∧ run_events es demo_busy = Some (Ok s') ∧
    tasks (sw s') = ∅ ∧ bufs (sw s') = ∅ ∧ s_waiting s' = ∅ ∧ s_handled s' ≡ₚ [2%nat].
Proof.
  apply (requests_can_be_served 2 demo_busy); [unfold demo_busy; demo|vm_compute; reflexivity].
Defined.

Lemma memory_is_well_typed_witness :
  queue_typed (tasks (sw demo_busy)) (SQueueFirst (Ptr 0 0)) (queue (default zero_queue (queues (sw demo_busy)
    !! 0%nat))).
Proof.
  destruct (memory_is_well_typed 2 demo_busy) as (_ & H & _); [unfold demo_busy; demo|].
  apply H. vm_compute. reflexivity.
Defined.
