(* ===== verification/MultiContract.v ===== *)
(** * MultiContract: what the library guarantees with several runtimes

    The system-level properties for a worker in which any number of libraries is
    loaded, at any time, and all their threads, nginx and Lua interleave: each
    runtime behaves as if it were alone, and the requests of all of them are
    served. *)

From S2P Require Import Prelude World TaskQueue FfiTask FfiQueue EventHandler Ownership System.
From S2P Require Import Spec Invariant Posting Polling Answering Safety Multi MultiInvariant Demo Allocation Contract.

(** [m] occurs in an execution of the protocol on a worker that starts with no
    library loaded. *)
Definition mreachable {ops : NgxLua} {pool : NgxPool} (m : msys) : Prop :=
  ∃ w es, idle_world w ∧ mrun es (no_runtimes w) = Some (Ok m).

(** The abstract state of runtime [i]. *)
Definition mabs (m : msys) (h : shape) (i : loc) (r : runtime) : spec :=
  abs (focus i r m) (sh_pending h i) (sh_marker h i) (sh_done h).

(** A step that is on no queue keeps the tasks. *)
Record idled (m : msys) (h : shape) (m' : msys) (h' : shape) : Prop := {
  id_tasks : tasks (m_world m') = tasks (m_world m);
  id_bufs : bufs (m_world m') = bufs (m_world m);
  id_done : sh_done h' = sh_done h;
  id_inflight : m_inflight m' = m_inflight m;
  id_handled : m_handled m' = m_handled m;
}.

(** ** Executions *)

Section executions.
Context {ops : NgxLua} {laws : NgxLuaLaws ops} {pool : NgxPool} {plaws : NgxPoolLaws pool}.

Lemma multi_create m h env max :
  multi_inv m h → e_calloc env = true →
  ∃ m' h', mexec (MCreate env max) m = Ok m' ∧ multi_inv m' h' ∧
    (∀ j, is_Some (m_runtimes m !! j) → kept m h j m' h') ∧ idled m h m' h' ∧
    (brk (m_world m) ≤ brk (m_world m'))%nat.
Proof using Type.
  intros Hm Ha. destruct (fresh_runtime _ _ Hm) as [Hi Hq].
  simpl. rewrite (create_task_queue_run _ _ _ Ha Hq).
  destruct (_ && _).
  - eexists _, (reshape (brk (m_world m)) [] None (sh_done h) h). split; [done|].
    split; [exact (multi_inv_create _ _ max Hm)|]. split; [|split; [done|simpl; lia]]. intros j Hj.
    assert (j ≠ brk (m_world m)) as Hne by (intros ->; rewrite Hi in Hj; by destruct Hj).
    split; simpl; [by rewrite lookup_insert_ne..|by rewrite decide_False|by rewrite decide_False].
  - eexists _, h. split; [done|]. split; [|split; [done|split; [done|simpl; lia]]].
    apply (multi_inv_quiet m h (upd_brk S (m_world m))); simpl; try done; lia.
Qed.

Lemma multi_run_step m h i e :
  multi_inv m h → menabled m (MRun i e) = true →
  ∃ m' h', mexec (MRun i e) m = Ok m' ∧ multi_stepped m h i e m' h'.
Proof using laws plaws.
  intros Hm Hen. simpl in *. destruct (m_runtimes m !! i) as [r|] eqn:Hi; [|done].
  destruct (multi_step _ _ _ _ _ Hm Hi Hen) as (s' & h' & -> & Hst). by eexists _, h'.
Qed.

Lemma multi_nginx m h n cs ths rqs :
  multi_inv m h → menabled m (MNginx n cs ths rqs) = true →
  multi_inv (set_m_world (nginx_world n cs ths rqs (m_world m)) m) h.
Proof using Type.
  intros Hm Hen. apply multi_inv_quiet; [done..|simpl; lia|].
  simpl in Hen. rewrite forallb_forall in Hen. intros k x Hk Hx Hl.
  assert (spares (m_world m) (nginx_world n cs ths rqs (m_world m)) k = true) as Hs.
  { apply Hen, list_elem_of_In. by apply elem_of_elements. }
  unfold spares in Hs. rewrite Hx in Hs. apply andb_true_iff in Hs as [Hc Hs].
  apply bool_decide_eq_true in Hc. split; [done|]. apply live_threadb_spec in Hl.
  rewrite Hl in Hs. by apply live_threadb_spec.
Qed.

Lemma multi_any_step m h me :
  multi_inv m h → menabled m me = true →
  ∃ m' h', mexec me m = Ok m' ∧ multi_inv m' h' ∧
    (∀ j, (∀ e, me ≠ MRun j e) → is_Some (m_runtimes m !! j) → kept m h j m' h') ∧
    (∀ i e, me = MRun i e → multi_stepped m h i e m' h') ∧
    ((∀ i e, me ≠ MRun i e) → idled m h m' h') ∧
    (brk (m_world m) ≤ brk (m_world m'))%nat.
Proof using laws plaws.
  intros Hm Hen. destruct me as [env max|i e|n cs ths rqs].
  - destruct (multi_create _ _ env max Hm Hen) as (m' & h' & Hex & Hm' & Hk & Hid & Hb).
    exists m', h'. by split_and!; [done|done|intros j _; apply Hk|..].
  - destruct (multi_run_step _ _ _ _ Hm Hen) as (m' & h' & Hex & Hst).
    exists m', h'. split_and!; [done|apply Hst| |by intros ?? [= <- <-]| |apply Hst].
    + intros j Hj _. apply Hst. intros ->. by destruct (Hj e).
    + intros H. by destruct (H i e).
  - exists (set_m_world (nginx_world n cs ths rqs (m_world m)) m), h.
    split_and!; [done|by apply multi_nginx|by intros j _ _|done|done|simpl; lia].
Qed.

Lemma multi_run_inv es m h r :
  multi_inv m h → mrun es m = Some r → ∃ m' h', r = Ok m' ∧ multi_inv m' h'.
Proof using laws plaws.
  revert m h. induction es as [|e es IH]; simpl; intros m h Hm.
  - intros [= <-]. eauto.
  - destruct (menabled m e) eqn:Hen; [|done].
    destruct (multi_any_step _ _ _ Hm Hen) as (m1 & h1 & -> & Hm1 & _). by eapply IH.
Qed.

Lemma multi_fresh_buf m h : multi_inv m h → bufs (m_world m) !! brk (m_world m) = None.
Proof using Type.
  intros Hm. apply eq_None_not_Some. intros Hl. pose proof (hi_fresh_buf _ _ _ _ (mi_heap _ _ Hm) _ Hl). lia.
Qed.

Lemma mreachable_inv m : mreachable m → ∃ h, multi_inv m h.
Proof using laws plaws.
  intros (w & es & Hw & Hr).
  destruct (multi_run_inv _ _ _ _ (multi_inv_init _ Hw) Hr) as (m' & h & [= <-] & Hm). eauto.
Qed.
End executions.

Lemma mrun_app {ops : NgxLua} {pool : NgxPool} es es' m m' :
  mrun es m = Some (Ok m') → mrun (es ++ es') m = mrun es' m'.
Proof.
  revert m. induction es as [|e es IH]; simpl; intros m.
  - by intros [= ->].
  - destruct (menabled m e); [|done]. destruct (mexec e m); [apply IH|done].
Qed.

(** ** What a runtime sees *)

(** The part of the abstract state that belongs to one runtime: its queue, its
    pollers and the tasks it holds. *)
Definition private (a : spec) : spec :=
  Spec (a_open a) (a_finished a) (a_pending a) (a_closing a) (a_pollers a) (a_lost a)
       (a_held a) [] [] [] ∅.

(** Runs of the abstract machine, seen through [private]. *)
Inductive private_run : list event → spec → spec → Prop :=
  | private_nil p : private_run [] p p
  | private_cons e es a b p : spec_step e a b → private_run es (private b) p →
      private_run (e :: es) (private a) p.

(** The events of a run that are on queue [i]. *)
Definition event_of (i : loc) (me : mevent) : option event :=
  match me with
  | MRun j e => if decide (j = i) then Some e else None
  | MCreate _ _ | MNginx _ _ _ _ => None
  end.
Definition events_of (i : loc) (es : list mevent) : list event := omap (event_of i) es.

Lemma event_of_spec i me :
  match event_of i me with Some e => me = MRun i e | None => ∀ e, me ≠ MRun i e end.
Proof. destruct me as [?|j e|]; simpl; [done| |done]. case_decide; naive_solver. Qed.

Lemma private_kept m h i r m' h' :
  kept m h i m' h' → private (mabs m' h' i r) = private (mabs m h i r).
Proof. intros [_ Hq Hp Hm]. unfold private, mabs, abs. simpl. by rewrite Hq, Hp, Hm. Qed.

Section isolation.
Context {ops : NgxLua} {laws : NgxLuaLaws ops} {pool : NgxPool} {plaws : NgxPoolLaws pool}.

Lemma run_projects i es m h r m' :
  multi_inv m h → m_runtimes m !! i = Some r → mrun es m = Some (Ok m') →
  ∃ h' r', multi_inv m' h' ∧ m_runtimes m' !! i = Some r' ∧
    private_run (events_of i es) (private (mabs m h i r)) (private (mabs m' h' i r')).
Proof using laws plaws.
  revert m h r. induction es as [|me es IH]; simpl; intros m h r Hm Hi.
  - intros [= <-]. exists h, r. split_and!; [done..|apply private_nil].
  - destruct (menabled m me) eqn:Hen; [|done].
    destruct (multi_any_step _ _ _ Hm Hen) as (m1 & h1 & -> & Hm1 & Hk & Hs & _). intros Hr.
    pose proof (event_of_spec i me) as He. destruct (event_of i me) as [e|].
    + destruct (Hs i e He) as [_ Hsp _ _ _]. destruct (Hsp r Hi) as (r1 & Hi1 & Hst).
      destruct (IH m1 h1 r1 Hm1 Hi1 Hr) as (h' & r' & Hm' & Hi' & Hrun).
      exists h', r'. split; [done|]. split; [done|]. by eapply private_cons.
    + assert (kept m h i m1 h1) as Hkp by (apply Hk; [done|by eexists]).
      rewrite <-(private_kept _ _ _ r _ _ Hkp). apply (IH m1 h1 r); [done| |done].
      by rewrite (kp_runtime _ _ _ _ _ Hkp).
Qed.
End isolation.

(** ** Serving all runtimes *)

Definition mserving (me : mevent) : bool :=
  match me with MRun _ e => serving e | MCreate _ _ | MNginx _ _ _ _ => false end.

(** The steps that are left, weighted as in [work]. *)
Definition mwork (m : msys) (h : shape) : nat :=
  4 * length (gpending h (m_runtimes m)) + 3 * length (gheld (m_runtimes m)) +
  2 * length (sh_done h) + length (m_inflight m).

(** The work for runtime [i] and on the shared queues, and the rest. *)
Lemma mwork_split m h i r :
  m_runtimes m !! i = Some r → sh_marker h i = None →
  mwork m h = (work (mabs m h i r) + 4 * length (gpending h (delete i (m_runtimes m))) +
               3 * length (gheld (delete i (m_runtimes m))))%nat.
Proof.
  intros Hi Hk. unfold mwork, work, mabs. simpl. rewrite Hk, bool_decide_false by (by intros []).
  rewrite (gpending_split m h i r Hi), (gheld_split m i r Hi), !length_app. lia.
Qed.

Section serve.
Context {ops : NgxLua} {laws : NgxLuaLaws ops} {pool : NgxPool} {plaws : NgxPoolLaws pool}.

Lemma others_same m h i e m' h' :
  multi_stepped m h i e m' h' →
  delete i (m_runtimes m') = delete i (m_runtimes m) ∧
  gpending h' (delete i (m_runtimes m)) = gpending h (delete i (m_runtimes m)).
Proof using Type.
  intros [_ _ Hk _ _]. split.
  - apply map_eq. intros j. rewrite !lookup_delete. case_decide as Hj; [done|].
    apply Hk. by intros ->.
  - apply gather_ext. intros j r [Hne _]%lookup_delete_Some. by apply Hk.
Qed.

Lemma exec_serving e s s' : serving e = true → exec e s = Ok s' → s_posted s' = s_posted s.
Proof using Type.
  destruct e; try done; intros _; simpl; unfold exec_poll, exec_respond, exec_take, exec_handle.
  all: repeat case_match; try done; by intros [= <-].
Qed.

Lemma mserving_posted me m m' :
  mserving me = true → mexec me m = Ok m' → gposted (m_runtimes m') ≡ₚ gposted (m_runtimes m).
Proof using Type.
  destruct me as [?|i e|]; [done| |done]. simpl. intros Hs.
  destruct (m_runtimes m !! i) as [r|] eqn:Hi; [|by intros [= <-]].
  destruct (exec e _) as [s|] eqn:He; [|done]. intros [= <-].
  pose proof (exec_serving _ _ _ Hs He) as Hp. destruct (exec_history _ _ _ He) as [Htq _].
  simpl in *. unfold gposted. rewrite Htq, gather_update. simpl. rewrite Hp.
  symmetry. by apply (gather_delete (λ _, r_posted)).
Qed.

Lemma no_marker m h i r :
  gmarks h (m_runtimes m) = [] → m_runtimes m !! i = Some r → sh_marker h i = None.
Proof using Type.
  intros Hmk Hi. destruct (sh_marker h i) as [t|] eqn:E; [|done].
  assert (t ∈ gmarks h (m_runtimes m)) as Hin.
  { apply elem_of_gather. exists i, r. by rewrite E, marker_in. }
  rewrite Hmk in Hin. by apply elem_of_nil in Hin.
Qed.

(** A serving step on [i] with the effect of [progress] on the abstract state
    reduces the work. *)
Lemma mwork_step m h i r e m' h' :
  multi_stepped m h i e m' h' → m_runtimes m !! i = Some r → gmarks h (m_runtimes m) = [] →
  (∀ a', spec_step e (mabs m h i r) a' → progress staying (mabs m h i r) a') →
  (mwork m' h' < mwork m h)%nat ∧ gmarks h' (m_runtimes m') = [].
Proof using Type.
  intros Hst Hi Hmk Hp. destruct (others_same _ _ _ _ _ _ Hst) as [Ho Hpe].
  destruct Hst as [Hm' Hsp Hk _ _]. destruct (Hsp r Hi) as (r' & Hi' & Hs).
  destruct (Hp _ Hs) as [Hw Hst _ _].
  pose proof (λ j r0, no_marker m h j r0 Hmk) as Hnone.
  assert (sh_marker h' i = None) as Hk'.
  { unfold staying in Hst. simpl in Hst. apply bool_decide_eq_false in Hst.
    destruct (sh_marker h' i); [|done]. by destruct Hst; eexists. }
  split.
  - rewrite (mwork_split _ _ _ _ Hi) by by eapply Hnone.
    rewrite (mwork_split _ _ _ _ Hi' Hk'), Ho, Hpe. unfold mabs in *. lia.
  - apply Permutation_nil. symmetry. rewrite (gmarks_split m' h' i r' Hi'), Hk', Ho. simpl.
    assert (gmarks h' (delete i (m_runtimes m)) = gather (λ _ _, []) (delete i (m_runtimes m))) as ->.
    { apply gather_ext. intros j r0 [Hne Hj]%lookup_delete_Some.
      rewrite (kp_marker _ _ _ _ _ (Hk j ltac:(congruence))). by rewrite (Hnone j r0). }
    by rewrite gather_nil.
Qed.

(** A task that nginx has is of some runtime. *)
Lemma polled_by_some m h t :
  multi_inv m h → t ∈ gheld (m_runtimes m) ++ sh_done h ++ m_inflight m ++ m_handled m →
  ∃ i r, m_runtimes m !! i = Some r ∧ t ∈ r_polled r.
Proof using Type. intros Hm. rewrite <-(mi_polled _ _ Hm). by intros ?%elem_of_gather. Qed.

Definition next_step (m : msys) (h : shape) (i : loc) (r : runtime) (e : event) : Prop :=
  m_runtimes m !! i = Some r ∧ serving e = true ∧ enabled (focus i r m) e = true ∧
  ∀ a', spec_step e (mabs m h i r) a' → progress staying (mabs m h i r) a'.

Lemma next_poll m h t :
  multi_inv m h → gmarks h (m_runtimes m) = [] → t ∈ gpending h (m_runtimes m) →
  ∃ i r e, next_step m h i r e.
Proof using Type.
  intros Hm Hmk (i & r & Hi & Ht)%elem_of_gather.
  pose proof (no_marker _ _ _ _ Hmk Hi) as Hk. destruct (multi_inv_seen _ _ _ _ Hi Hm) as [Hinv _].
  rewrite Hk in Hinv. destruct (sh_pending h i) as [|t' pl] eqn:Ep; [by apply elem_of_nil in Ht|].
  destruct (queues (m_world m) !! i) as [q|] eqn:Hq.
  2: { pose proof (si_queue _ _ _ _ Hinv) as A. simpl in A. rewrite Hq in A. by destruct A as [? _]. }
  destruct (request_can_be_polled _ _ _ _ _ Hinv Hq) as [x Hx].
  assert (progress staying (mabs m h i r) (spec_poll env_ok x (mabs m h i r))) as Hp.
  { apply progress_poll; [|left; unfold mabs; simpl; by rewrite Ep].
    unfold staying, spec_poll, mabs. simpl. rewrite Ep. simpl. by rewrite Hk. }
  destruct Hx as [Hx|Hx]; [exists i, r, (EPoll env_ok x)|exists i, r, (EWake env_ok x)];
    (split_and!; [done|done|exact Hx|]); by inversion 1; subst.
Qed.

Lemma next_exists m h :
  multi_inv m h → gmarks h (m_runtimes m) = [] → mwork m h ≠ 0%nat → ∃ i r e, next_step m h i r e.
Proof using Type.
  intros Hm Hmk Hw.
  assert (∀ i r, m_runtimes m !! i = Some r → staying (mabs m h i r)) as Hs.
  { intros i r Hi. unfold staying. simpl. by rewrite (no_marker _ _ _ _ Hmk Hi). }
  destruct (m_inflight m) as [|t l] eqn:Ei.
  2: { destruct (polled_by_some m h t Hm) as (i & r & Hi & _); [rewrite Ei; mem|].
       exists i, r, EHandle. split_and!; [done|done|simpl; by rewrite Ei|]. inversion 1.
       apply progress_handle; [apply staying_stable|by apply Hs|simpl; by rewrite Ei]. }
  destruct (sh_done h) as [|t l] eqn:Ed.
  2: { destruct (polled_by_some m h t Hm) as (i & r & Hi & _); [rewrite Ed; mem|].
       exists i, r, ETake. split_and!; [done|done|done|]. inversion 1.
       apply progress_take; [apply staying_stable|by apply Hs|simpl; by rewrite Ed]. }
  destruct (gheld (m_runtimes m)) as [|t l] eqn:Eh.
  2: { assert (t ∈ gheld (m_runtimes m)) as Ht by (rewrite Eh; by left).
       apply elem_of_gather in Ht as (i & r & Hi & Ht). exists i, r, (ERespond t 0 None 0).
       split_and!; [done|done|simpl; by rewrite bool_decide_true|]. inversion 1; subst.
       apply progress_respond; [apply staying_stable|by apply Hs| |done].
       pose proof (hi_nodup _ _ _ _ (mi_heap _ _ Hm)) as Hnd. rewrite (gheld_split m i r Hi) in Hnd.
       apply NoDup_app in Hnd as (_ & _ & Hnd). apply NoDup_app in Hnd as (_ & _ & Hnd).
       apply NoDup_app in Hnd as (Hnd & _ & _). by apply NoDup_app in Hnd as (Hnd & _ & _). }
  destruct (gpending h (m_runtimes m)) as [|t l] eqn:Ep.
  - unfold mwork in Hw. by rewrite Ei, Ed, Eh, Ep in Hw.
  - eapply (next_poll m h t); [done|done|]. rewrite Ep. by left.
Qed.

Lemma multi_drain n m h :
  multi_inv m h → gmarks h (m_runtimes m) = [] → (mwork m h ≤ n)%nat →
  ∃ es m' h', (length es ≤ n)%nat ∧ forallb mserving es = true ∧ mrun es m = Some (Ok m') ∧
    multi_inv m' h' ∧ gmarks h' (m_runtimes m') = [] ∧ mwork m' h' = 0%nat ∧
    gposted (m_runtimes m') ≡ₚ gposted (m_runtimes m).
Proof using laws plaws.
  revert m h. induction n as [|n IH]; intros m h Hm Hmk Hn;
    (destruct (decide (mwork m h = 0%nat)) as [Hz|Hz];
      [exists [], m, h; split_and!; [simpl; lia|done..]|]); [lia|].
  destruct (next_exists _ _ Hm Hmk Hz) as (i & r & e & Hi & Hse & Hen & Hpr).
  assert (menabled m (MRun i e) = true) as Hme by (simpl; by rewrite Hi).
  destruct (multi_run_step _ _ _ _ Hm Hme) as (m1 & h1 & Hex & Hst).
  destruct (mwork_step _ _ _ _ _ _ _ Hst Hi Hmk Hpr) as [Hw Hmk1].
  destruct (IH m1 h1 (ms_inv _ _ _ _ _ _ Hst) Hmk1 ltac:(lia))
    as (es & m' & h' & Hlen & Hses & Hrun & Hm' & Hmk' & Hz' & Hp).
  exists (MRun i e :: es), m', h'. split_and!; [simpl; lia|simpl; by rewrite Hse| |done|done|done|].
  - cbn [mrun]. by rewrite Hme, Hex.
  - rewrite Hp. by apply (mserving_posted (MRun i e)).
Qed.
End serve.

(** When nothing is queued, with a runtime or with nginx, nothing is allocated
    and no coroutine waits. *)
Lemma multi_quiescent m h :
  multi_inv m h → gmarks h (m_runtimes m) = [] → mwork m h = 0%nat →
  tasks (m_world m) = ∅ ∧ bufs (m_world m) = ∅ ∧ m_waiting m = ∅ ∧
  m_handled m ≡ₚ gposted (m_runtimes m).
Proof.
  intros Hm Hmk Hw. unfold mwork in Hw.
  assert (gpending h (m_runtimes m) = [] ∧ gheld (m_runtimes m) = [] ∧ sh_done h = [] ∧ m_inflight m = [])
    as (Ep & Eh & Ed & Ei) by (repeat split; apply nil_length_inv; lia).
  pose proof (mi_heap _ _ Hm) as E. pose proof (mi_polled _ _ Hm) as V.
  rewrite Ep, Hmk, Eh, Ed, Ei in E. rewrite Eh, Ed, Ei in V. simpl in E, V.
  assert (views (tasks (m_world m)) = ∅) as Hv.
  { apply map_eq. intros t. rewrite lookup_empty. apply eq_None_not_Some.
    rewrite <-(hi_dom _ _ _ _ E). by apply not_elem_of_nil. }
  split_and!.
  - by apply fmap_empty_inv in Hv.
  - apply map_eq. intros l. rewrite lookup_empty. apply eq_None_not_Some.
    rewrite (hi_owned _ _ _ _ E). intros (t & x & Hx & _). by rewrite Hv, lookup_empty in Hx.
  - apply set_eq. intros k. split; [|by intros ?%elem_of_empty].
    intros Hk. destruct (ci_wait _ _ _ (mi_co _ _ Hm) k Hk) as (t & x & Hx & _).
    by rewrite Hv, lookup_empty in Hx.
  - rewrite <-V. apply eq_subrelation; [apply _|]. apply gather_ext. intros i r Hi.
    rewrite (ri_posted _ _ _ _ _ (mi_runtime _ _ Hm i r Hi)).
    assert (sh_pending h i = []) as ->; [|by rewrite app_nil_r].
    destruct (sh_pending h i) as [|t l] eqn:Et; [done|].
    assert (t ∈ gpending h (m_runtimes m)) as Hin.
    { apply elem_of_gather. exists i, r. rewrite Et. split; [done|by left]. }
    rewrite Ep in Hin. by apply elem_of_nil in Hin.
Qed.

Lemma multi_served {ops : NgxLua} {laws : NgxLuaLaws ops} {pool : NgxPool} {plaws : NgxPoolLaws pool} m h :
  multi_inv m h →
  (∀ i r, m_runtimes m !! i = Some r → r_finished r = false ∨ queues (m_world m) !! i = None) →
  ∃ es m', (length es ≤ 4 * length (gposted (m_runtimes m)))%nat ∧ forallb mserving es = true ∧
    mrun es m = Some (Ok m') ∧ tasks (m_world m') = ∅ ∧ bufs (m_world m') = ∅ ∧ m_waiting m' = ∅ ∧
    m_handled m' ≡ₚ gposted (m_runtimes m).
Proof.
  intros Hm Hf.
  assert (gmarks h (m_runtimes m) = []) as Hmk.
  { unfold gmarks. rewrite (gather_ext _ (λ _ _, [])); [apply gather_nil|]. intros i r Hi.
    destruct (mi_runtime _ _ Hm i r Hi) as [A B _ _]. destruct (sh_marker h i) as [t|]; [|done].
    destruct (B t eq_refl) as [Hfi _]. destruct (Hf i r Hi) as [?|Hq]; [congruence|].
    rewrite Hq in A. by destruct A as (_ & ? & _). }
  assert (mwork m h ≤ 4 * length (gposted (m_runtimes m)))%nat as Hw.
  { assert (gposted (m_runtimes m) ≡ₚ gpolled (m_runtimes m) ++ gpending h (m_runtimes m)) as ->.
    { unfold gposted, gpolled, gpending. rewrite <-gather_app. apply eq_subrelation; [apply _|].
      apply gather_ext. intros i r Hi. apply (ri_posted _ _ _ _ _ (mi_runtime _ _ Hm i r Hi)). }
    rewrite (mi_polled _ _ Hm), !length_app. unfold mwork. lia. }
  destruct (multi_drain _ _ _ Hm Hmk Hw) as (es & m' & h' & Hlen & Hs & Hr & Hm' & Hmk' & Hz & Hp).
  destruct (multi_quiescent _ _ Hm' Hmk' Hz) as (Ht & Hb & Hwt & Hh).
  exists es, m'. split_and!; [done..|]. by rewrite Hh.
Qed.

(** ** Unloading one runtime among others *)

Section close.
Context {ops : NgxLua} {laws : NgxLuaLaws ops} {pool : NgxPool} {plaws : NgxPoolLaws pool}.
Context (i : loc) (me : tid).

Definition polls_of (e : event) : Prop := e = EPoll env_ok me ∨ e = EWake env_ok me.

(** The queue of [i] was closed, and the other runtimes are as they were. *)
Record closed_to (m : msys) (r : runtime) (m' : msys) : Prop := {
  ct_closed : queues (m_world m') !! i = None;
  ct_runtime : ∃ r', m_runtimes m' !! i = Some r' ∧ r_finished r' = true ∧ r_polled r' = r_posted r ∧
                 r_posted r' = r_posted r;
  ct_others : ∀ j, j ≠ i → m_runtimes m' !! j = m_runtimes m !! j ∧
                queues (m_world m') !! j = queues (m_world m) !! j;
}.

Lemma poll_step m h r q :
  multi_inv m h → m_runtimes m !! i = Some r → queues (m_world m) !! i = Some q →
  single me (mabs m h i r) → is_Some (sh_marker h i) →
  ∃ e m' h' r', polls_of e ∧ menabled m (MRun i e) = true ∧ mexec (MRun i e) m = Ok m' ∧
    multi_stepped m h i e m' h' ∧ m_runtimes m' !! i = Some r' ∧ r_posted r' = r_posted r ∧
    mabs m' h' i r' = spec_poll env_ok me (mabs m h i r).
Proof using laws plaws.
  intros Hm Hi Hq Hs [t Hk]. destruct (multi_inv_seen _ _ _ _ Hi Hm) as [Hinv _].
  assert (can_poll (seen m h i r) me) as Hcan.
  { eapply single_can_poll; [exact Hinv|exact Hs|exact Hq|]. rewrite Hk. by destruct (sh_pending h i). }
  assert (∃ e, polls_of e ∧ enabled (focus i r m) e = true) as (e & He & Hen).
  { destruct Hcan as [Hen|Hen]; [exists (EPoll env_ok me)|exists (EWake env_ok me)];
      (split; [|exact Hen]); [by left|by right]. }
  assert (menabled m (MRun i e) = true) as Hme by (simpl; by rewrite Hi).
  destruct (multi_run_step _ _ _ _ Hm Hme) as (m' & h' & Hex & Hst).
  destruct (ms_spec _ _ _ _ _ _ Hst r Hi) as (r' & Hi' & Hsp).
  exists e, m', h', r'. split_and!; [done..| |].
  - simpl in Hex. rewrite Hi in Hex. destruct (exec e _) as [s|] eqn:Es; [|done]. injection Hex as <-.
    destruct (exec_history _ _ _ Es) as [Htq _]. simpl in Htq, Hi'. rewrite Htq, lookup_insert_eq in Hi'.
    injection Hi' as <-. simpl. assert (serving e = true) as Hse by by destruct He as [->| ->].
    apply (exec_serving _ _ _ Hse Es).
  - destruct He as [->| ->]; by inversion Hsp.
Qed.

Lemma close_queue n m h r q :
  multi_inv m h → m_runtimes m !! i = Some r → queues (m_world m) !! i = Some q →
  single me (mabs m h i r) → is_Some (sh_marker h i) → length (sh_pending h i) = n →
  ∃ es m', length es = S n ∧ Forall polls_of es ∧ mrun (MRun i <$> es) m = Some (Ok m') ∧ closed_to m r m'.
Proof using laws plaws.
  revert m h r q. induction n as [|n IH]; intros m h r q Hm Hi Hq Hs Hk Hn.
  all: destruct (poll_step _ _ _ _ Hm Hi Hq Hs Hk) as (e & m1 & h1 & r1 & He & Hen & Hex & Hst & Hi1 & Hp1 & Ha).
  all: pose proof (mi_runtime _ _ (ms_inv _ _ _ _ _ _ Hst) _ _ Hi1) as R1.
  - apply nil_length_inv in Hn. unfold spec_poll, mabs, abs in Ha. simpl in Ha.
    rewrite Hn, (bool_decide_true (is_Some (sh_marker h i))) in Ha by done. injection Ha as Hq1 _ Ep _ _ _ _ _ _ _ _.
    apply fmap_None in Hq1. exists [e], m1. split_and!; [done|by constructor| |].
    { cbn [fmap list_fmap mrun]. by rewrite Hen, Hex. }
    pose proof (ri_queue _ _ _ _ _ R1) as A. rewrite Hq1 in A. destruct A as (_ & _ & Hf).
    pose proof (ri_posted _ _ _ _ _ R1) as Hpo. rewrite Ep, app_nil_r in Hpo.
    split; [done|exists r1; split_and!; [done|done|congruence|done]|].
    intros j Hj. by split; apply (ms_kept _ _ _ _ _ _ Hst j).
  - destruct (sh_pending h i) as [|t l] eqn:Et; [done|]. injection Hn as Hn.
    assert (single me (mabs m1 h1 i r1)) as Hs1 by (rewrite Ha; by apply single_poll).
    unfold spec_poll, mabs, abs in Ha. simpl in Ha. rewrite Et in Ha. simpl in Ha.
    injection Ha as Hq1 _ Ep Ek _ _ _ _ _ _ _.
    rewrite Hq in Hq1. simpl in Hq1. destruct (queues (m_world m1) !! i) as [q1|] eqn:Hq1'; [|done].
    rewrite (bool_decide_true (is_Some (sh_marker h i))) in Ek by done. apply bool_decide_eq_true in Ek.
    destruct (IH m1 h1 r1 q1 (ms_inv _ _ _ _ _ _ Hst) Hi1 Hq1' Hs1 Ek ltac:(by rewrite Ep))
      as (es & m' & Hlen & Hall & Hrun & [Hc Hr Ho]).
    exists (e :: es), m'. split_and!; [simpl; by rewrite Hlen|by constructor| |].
    { cbn [fmap list_fmap mrun]. by rewrite Hen, Hex. }
    rewrite Hp1 in Hr. split; [done|done|]. intros j Hj. destruct (Ho j Hj) as [-> ->].
    by split; apply (ms_kept _ _ _ _ _ _ Hst j).
Qed.
End close.

(** ** Types and order *)

Lemma multi_inv_typed m h : multi_inv m h → well_typed (m_world m).
Proof.
  intros Hm. split; [|split].
  - intros t b. by apply (tasks_typed _ _ _ _ _ _ (mi_heap _ _ Hm) (mi_co _ _ Hm)).
  - intros l q Hq. destruct (mi_only _ _ Hm l) as [r Hr]; [by eexists|].
    pose proof (ri_queue _ _ _ _ _ (mi_runtime _ _ Hm l r Hr)) as Hqi. rewrite Hq in Hqi.
    eapply queue_repr_typed, Hqi.
  - eapply queue_repr_typed, Hm.
Qed.

Lemma multi_inv_fifo m h i r :
  multi_inv m h → m_runtimes m !! i = Some r →
  r_polled r `prefix_of` r_posted r ∧ (∀ t, t ∈ r_held r → t ∈ r_polled r) ∧ NoDup (r_posted r).
Proof.
  intros Hm Hi. destruct (mi_runtime _ _ Hm i r Hi) as [_ _ Hp Hh]. split_and!; [by eexists|done|].
  pose proof (mi_nodup _ _ Hm) as Hn. rewrite (gposted_split m i r Hi) in Hn. by apply NoDup_app in Hn as (? & _ & _).
Qed.

(** ** The properties *)

Section contract.
Context {ops : NgxLua} {laws : NgxLuaLaws ops} {pool : NgxPool} {plaws : NgxPoolLaws pool}.

(** C1: with any number of runtimes in the worker, loaded at any time, and with
    requests and coroutines that come and go, every call the protocol allows
    succeeds without undefined behaviour, and it changes only the runtime it is
    about: the history and the queue of every other one are as before. *)
Theorem runtimes_are_safe m me :
  mreachable m → menabled m me = true →
  ∃ m', mexec me m = Ok m' ∧
    ∀ j, (∀ e, me ≠ MRun j e) → is_Some (m_runtimes m !! j) →
      m_runtimes m' !! j = m_runtimes m !! j ∧ queues (m_world m') !! j = queues (m_world m) !! j.
Proof using laws plaws.
  intros [h Hm]%mreachable_inv Hen.
  destruct (multi_any_step _ _ _ Hm Hen) as (m' & h' & Hex & _ & Hk & _).
  exists m'. split; [done|]. intros j Hj Hl. by destruct (Hk j Hj Hl).
Qed.

(** A runtime cannot tell that it is not alone.  In any execution, whatever
    the other runtimes, their posters and nginx do in between, the queue, the
    pollers and the tasks in the hands of a runtime go through the steps of the
    abstract machine of [Spec] for the events on its own queue, and for no
    others. *)
Theorem runtimes_are_isolated m i r es m' :
  mreachable m → m_runtimes m !! i = Some r → mrun es m = Some (Ok m') →
  ∃ h h' r', multi_inv m h ∧ multi_inv m' h' ∧ m_runtimes m' !! i = Some r' ∧
    private_run (events_of i es) (private (mabs m h i r)) (private (mabs m' h' i r')).
Proof using laws plaws.
  intros [h Hm]%mreachable_inv Hi Hr.
  destruct (run_projects _ _ _ _ _ _ Hm Hi Hr) as (h' & r' & ? & ? & ?). by exists h, h', r'.
Qed.

(** C5: each runtime polls its own requests, in the order they were posted, none
    twice, and answers only what it polled; no request belongs to two runtimes. *)
Theorem runtimes_are_fifo m :
  mreachable m →
  (∀ i r, m_runtimes m !! i = Some r →
     r_polled r `prefix_of` r_posted r ∧ (∀ t, t ∈ r_held r → t ∈ r_polled r) ∧ NoDup (r_posted r)) ∧
  (∀ i j r r' t, m_runtimes m !! i = Some r → m_runtimes m !! j = Some r' →
     t ∈ r_posted r → t ∈ r_posted r' → i = j).
Proof using laws plaws.
  intros [h Hm]%mreachable_inv. pose proof (mi_nodup _ _ Hm) as Hn. split.
  - intros i r Hi. by apply (multi_inv_fifo m h i r).
  - intros i j r r' t Hi Hj. by apply (gather_apart (λ _, r_posted) (m_runtimes m)).
Qed.

(** Where the posted tasks are. *)
Lemma posted_perm m h :
  multi_inv m h →
  gposted (m_runtimes m) ≡ₚ
    gpending h (m_runtimes m) ++ gheld (m_runtimes m) ++ sh_done h ++ m_inflight m ++ m_handled m.
Proof using Type.
  intros Hm. rewrite <-(mi_polled _ _ Hm), Permutation_app_comm. unfold gposted, gpolled, gpending.
  rewrite <-gather_app. apply eq_subrelation; [apply _|]. apply gather_ext.
  intros i r Hi. apply (ri_posted _ _ _ _ _ (mi_runtime _ _ Hm i r Hi)).
Qed.

Lemma unhandled_live m h t :
  multi_inv m h → t ∈ gposted (m_runtimes m) →
  is_Some (tasks (m_world m) !! t) ↔ t ∉ m_handled m.
Proof using Type.
  intros Hm Ht. pose proof (posted_perm _ _ Hm) as Hp. pose proof (mi_nodup _ _ Hm) as Hn. rewrite Hp in Hn.
  assert (is_Some (tasks (m_world m) !! t) ↔ is_Some (views (tasks (m_world m)) !! t)) as ->.
  { unfold views. by rewrite lookup_fmap, fmap_is_Some. }
  rewrite <-(hi_dom _ _ _ _ (mi_heap _ _ Hm)).
  assert (t ∉ gmarks h (m_runtimes m)) as Hmk by (intros Hin; by apply (mi_apart _ _ Hm t)).
  rewrite Hp in Ht. rewrite !app_assoc in Hn. apply NoDup_app in Hn as (_ & Hn & _).
  specialize (Hn t). rewrite !elem_of_app in *. tauto.
Qed.

(** C6: no request of any runtime is lost or duplicated.  All posted tasks are, each
    once: queued in the queue of the runtime they were posted to, in the hands of
    the runtime that polled them, in the done queue, in nginx's batch, or handled;
    and a task is allocated exactly while it is not handled. *)
Theorem every_request_in_one_place m :
  mreachable m →
  ∃ h, gposted (m_runtimes m) ≡ₚ
      gpending h (m_runtimes m) ++ gheld (m_runtimes m) ++ sh_done h ++ m_inflight m ++ m_handled m ∧
    NoDup (gposted (m_runtimes m)) ∧
    queue_repr (tasks (m_world m)) SDoneFirst (pool_done (m_world m)) (sh_done h) ∧
    (∀ i r, m_runtimes m !! i = Some r → r_posted r = r_polled r ++ sh_pending h i) ∧
    (∀ i r q, m_runtimes m !! i = Some r → queues (m_world m) !! i = Some q →
       queue_repr (tasks (m_world m)) (SQueueFirst (Ptr i 0)) (queue q)
         (sh_pending h i ++ marker_list (sh_marker h i))) ∧
    (∀ t, t ∈ gposted (m_runtimes m) → (is_Some (tasks (m_world m) !! t) ↔ t ∉ m_handled m)).
Proof using laws plaws.
  intros [h Hm]%mreachable_inv. exists h.
  split_and!; [by apply posted_perm|apply Hm|apply Hm| | |].
  - intros i r Hi. apply (mi_runtime _ _ Hm i r Hi).
  - intros i r q Hi Hq. pose proof (ri_queue _ _ _ _ _ (mi_runtime _ _ Hm i r Hi)) as A.
    rewrite Hq in A. apply A.
  - intros t Ht. by eapply unhandled_live.
Qed.

(** C7: each queue is bounded on its own: [waiting] of a queue counts its entries
    less the threads inside its [task_poll] and the slots lost to failed waits,
    and stays within its [max_queue] and one finish marker, whatever is queued
    elsewhere. *)
Theorem runtime_queues_are_bounded m i r q :
  mreachable m → m_runtimes m !! i = Some r → queues (m_world m) !! i = Some q →
  ∃ ql, queue_repr (tasks (m_world m)) (SQueueFirst (Ptr i 0)) (queue q) ql ∧
    waiting q = Z.of_nat (length ql) - Z.of_nat (length (inside q)) - Z.of_nat (r_lost r) ∧
    waiting q ≤ Z.max 0 (max_queue q) + 1 ∧
    (r_finished r = false → waiting q ≤ Z.max 0 (max_queue q)) ∧
    (cv_waiters (cond q) ≠ [] → (length ql ≤ length (cv_woken (cond q)))%nat).
Proof using laws plaws.
  intros [h Hm]%mreachable_inv Hi Hq. destruct (mi_runtime _ _ Hm i r Hi) as [A B _ _].
  rewrite Hq in A. destruct A as [_ Hr Hw Hb _ Hwk].
  assert (length (marker_list (sh_marker h i)) ≤ 1)%nat as Hl by (destruct (sh_marker h i); simpl; lia).
  exists (sh_pending h i ++ marker_list (sh_marker h i)). split; [done|]. split; [lia|]. split; [lia|].
  split; [|done]. intros Hf. destruct (sh_marker h i) as [t|]; [|simpl in Hb; lia].
  destruct (B t eq_refl). congruence.
Qed.

(** C10: a runtime is closed gracefully: when the queue of a runtime is gone, it
    was unloaded, and every request posted to it was handed to it. *)
Theorem runtime_shutdown_is_graceful m i r :
  mreachable m → m_runtimes m !! i = Some r → queues (m_world m) !! i = None →
  r_finished r = true ∧ r_polled r = r_posted r.
Proof using laws plaws.
  intros [h Hm]%mreachable_inv Hi Hq. destruct (mi_runtime _ _ Hm i r Hi) as [A _ Hp _].
  rewrite Hq in A. destruct A as (E & _ & Hf). split; [done|]. by rewrite Hp, E, app_nil_r.
Qed.

(** C11: nothing leaks: whenever the queues that are still open are empty and no
    task is with a runtime, in the done queue or with nginx, no task and no buffer
    is allocated, no coroutine waits, and every request was handled. *)
Theorem runtimes_leak_nothing m :
  mreachable m →
  (∀ i q, queues (m_world m) !! i = Some q → q_first (queue q) = None) →
  (∀ i r, m_runtimes m !! i = Some r → r_held r = []) →
  q_first (pool_done (m_world m)) = None → m_inflight m = [] →
  tasks (m_world m) = ∅ ∧ bufs (m_world m) = ∅ ∧ m_waiting m = ∅ ∧ m_handled m ≡ₚ gposted (m_runtimes m).
Proof using laws plaws.
  intros [h Hm]%mreachable_inv Hq Hh Hd Hi. pose proof (queue_repr_nil _ _ _ _ (mi_done _ _ Hm) Hd) as Ed.
  assert (∀ i r, m_runtimes m !! i = Some r → sh_pending h i = [] ∧ sh_marker h i = None) as He.
  { intros i r Hr. destruct (mi_runtime _ _ Hm i r Hr) as [A _ _ _].
    destruct (queues (m_world m) !! i) as [q|] eqn:E; [|by destruct A as (? & ? & _)].
    destruct (app_eq_nil _ _ (queue_repr_nil _ _ _ _ (qi_repr _ _ _ _ _ _ A) (Hq i q E))) as [? Hk].
    by destruct (sh_marker h i). }
  assert (∀ f, (∀ i r, m_runtimes m !! i = Some r → f i r = []) → gather f (m_runtimes m) = []) as Hg.
  { intros f Hf. rewrite (gather_ext f (λ _ _, [])) by done. apply gather_nil. }
  apply (multi_quiescent m h Hm).
  - apply Hg. intros i r Hr. by destruct (He i r Hr) as [_ ->].
  - unfold mwork, gpending, gheld. rewrite Ed, Hi, !Hg; [done|apply Hh|]. intros i r Hr. by destruct (He i r Hr).
Qed.

(** A waiting coroutine and its task point at each other.  In every reachable
    state of a worker, the cleanup handler of every coroutine that waits refers to
    a live task that resumes it, and no other live task does; a live task that was
    not aborted resumes a waiting coroutine whose Lua thread and request still
    exist. *)
Theorem worker_coroutines_agree m : mreachable m → agrees (m_world m) (m_waiting m).
Proof using laws plaws. intros [h Hm]%mreachable_inv. apply co_inv_agrees, Hm. Qed.

(** Memory is well typed: in every reachable state of a worker each pointer
    field of a live structure is NULL or points where its type says.  A task that
    is no finish marker refers twice to the context behind itself; the request and
    the response of a context are distinct live buffers; the coroutine it resumes,
    unless aborted, exists; [first] of a queue is a live task, and [last] is its
    own [first] or the [next] field of a live task. *)
Theorem worker_memory_is_well_typed m : mreachable m → well_typed (m_world m).
Proof using laws plaws. intros [h Hm]%mreachable_inv. by apply (multi_inv_typed m h). Qed.

(** All runtimes can be served: while none of them is being unloaded,
    at most four steps per posted request, in which runtimes poll and answer and
    nginx delivers, lead from any reachable state to one where every request of
    every runtime was handled, no coroutine waits and no task or buffer is
    allocated. *)
Theorem runtimes_can_be_served m :
  mreachable m →
  (∀ i r, m_runtimes m !! i = Some r → r_finished r = false ∨ queues (m_world m) !! i = None) →
  ∃ es m', (length es ≤ 4 * length (gposted (m_runtimes m)))%nat ∧ forallb mserving es = true ∧
    mrun es m = Some (Ok m') ∧ tasks (m_world m') = ∅ ∧ bufs (m_world m') = ∅ ∧ m_waiting m' = ∅ ∧
    m_handled m' ≡ₚ gposted (m_runtimes m).
Proof using laws plaws.
  intros [h Hm]%mreachable_inv Hf. by eapply multi_served.
Qed.

(** C12: one runtime can be unloaded while the others run: with a single polling
    thread, [task_finish] and as many polls of that thread as there are requests
    in the queue, and one more for the marker, hand over every request and close
    the queue; neither nginx nor any other runtime has to take a step, and the
    other runtimes do not change. *)
Theorem runtime_can_be_unloaded m i me r q :
  mreachable m → m_runtimes m !! i = Some r → r_finished r = false →
  queues (m_world m) !! i = Some q → (∀ x, x ∈ inside q → x = me) →
  ∃ es m', Forall (polls_of me) es ∧ (length (r_polled r) + length es = S (length (r_posted r)))%nat ∧
    mrun (MRun i <$> (EFinish env_ok :: es)) m = Some (Ok m') ∧ closed_to i m r m'.
Proof using laws plaws.
  intros [h Hm]%mreachable_inv Hi Hf Hq Hall.
  assert (menabled m (MRun i (EFinish env_ok)) = true) as Hen by (simpl; by rewrite Hi, Hf).
  destruct (multi_run_step _ _ _ _ Hm Hen) as (m1 & h1 & Hex & Hst).
  destruct (ms_spec _ _ _ _ _ _ Hst r Hi) as (r1 & Hi1 & Ha%spec_finish_ok).
  assert (r_posted r1 = r_posted r) as Hp1.
  { simpl in Hex. rewrite Hi in Hex. destruct (exec_finish _ _) as [s|] eqn:Es; [|done]. injection Hex as <-.
    unfold exec_finish in Es. destruct (ngx_http_lua_ffi_task_finish _ _ _) as [[rc w]|]; [|done].
    injection Es as <-. simpl in Hi1. rewrite lookup_insert_eq in Hi1. by injection Hi1 as <-. }
  assert (single me (mabs m h i r)) as Hs.
  { intros x. unfold mabs, abs. simpl. rewrite Hq. rewrite elem_of_list_to_set. apply Hall. }
  assert (single me (mabs m1 h1 i r1)) as Hs1 by (unfold mabs in *; rewrite Ha; exact Hs).
  unfold mabs, abs, spec_finish in Ha. simpl in Ha. rewrite Hq in Ha.
  injection Ha as Hq1 _ Ep Ek _ _ _ _ _ _ _. simpl in Hq1.
  destruct (queues (m_world m1) !! i) as [q1|] eqn:Hq1'; [|done].
  apply bool_decide_eq_true in Ek.
  destruct (close_queue i me _ _ _ _ _ (ms_inv _ _ _ _ _ _ Hst) Hi1 Hq1' Hs1 Ek eq_refl)
    as (es & m' & Hlen & Hes & Hrun & [Hc Hr Ho]).
  exists es, m'. split_and!; [done| | |].
  - rewrite (ri_posted _ _ _ _ _ (mi_runtime _ _ Hm i r Hi)), Hlen, Ep, length_app. lia.
  - rewrite fmap_cons. cbn [mrun]. by rewrite Hen, Hex.
  - rewrite Hp1 in Hr. split; [done|done|]. intros j Hj. destruct (Ho j Hj) as [-> ->].
    by split; apply (ms_kept _ _ _ _ _ _ Hst j).
Qed.

End contract.

(** ** Instances *)

(** Requests 7 and 8, with coroutines 3 and 4. *)
Definition demo_two_requests : world :=
  World ∅ ∅ ∅ 0 (ngx_task_queue_init SDoneFirst) false
    (<[3%nat := CoCtx 5 None None]> {[ 4%nat := CoCtx 6 None None ]})
    (<[5%nat := LuaThread (Some 7%nat) []]> {[ 6%nat := LuaThread (Some 8%nat) [] ]})
    (<[7%nat := Request (Some (LuaCtx (Some 3%nat) HWevHandler true)) 0]>
       {[ 8%nat := Request (Some (LuaCtx (Some 4%nat) HWevHandler true)) 0 ]}) [].

(** Queues 0 and 1; task 3 waits in queue 0, and runtime 1 has polled task 4. *)
Definition demo_runtimes : list mevent :=
  [MCreate env_ok 2; MCreate env_ok 1; MRun 0 (EPost env_ok 7 (Some hi)); MRun 1 (EPost env_ok 8 None);
   MRun 1 (EPoll env_ok 1)].

Definition msys_of (r : option (res msys)) : msys :=
  match r with Some (Ok m) => m | _ => no_runtimes demo_two_requests end.

Definition demo_both : msys := msys_of (mrun demo_runtimes (no_runtimes demo_two_requests)).

(** Runtime 0 is unloaded and closed, runtime 1 still has its task. *)
Definition demo_one_closed : list mevent :=
  demo_runtimes ++ [MRun 0 (EFinish env_ok); MRun 0 (EPoll env_ok 2); MRun 0 (EPoll env_ok 2)].

Lemma demo_mreachable es :
  (∃ m, mrun es (no_runtimes demo_two_requests) = Some (Ok m)) →
  mreachable (msys_of (mrun es (no_runtimes demo_two_requests))).
Proof. intros [m Hm]. exists demo_two_requests, es. split; [by split|]. by rewrite Hm. Qed.

Ltac mdemo := apply demo_mreachable; eexists; vm_compute; reflexivity.

Example demo_both_tasks :
  m_runtimes demo_both =
    {[ 0%nat := Runtime false [] [3%nat] [] 0; 1%nat := Runtime false [4%nat] [4%nat] [4%nat] 0 ]}.
Proof. vm_compute. reflexivity. Qed.

Lemma runtimes_are_safe_witness :
  ∃ m', mexec (MRun 1 (ERespond 4 0 (Some ok) 0)) demo_both = Ok m' ∧
    m_runtimes m' !! 0%nat = Some (Runtime false [] [3%nat] [] 0).
Proof.
  destruct (runtimes_are_safe demo_both (MRun 1 (ERespond 4 0 (Some ok) 0))) as (m' & Hex & Ho);
    [unfold demo_both; mdemo|vm_compute; reflexivity|].
  exists m'. split; [exact Hex|].
  destruct (Ho 0%nat) as [-> _]; [discriminate|vm_compute; by eexists|vm_compute; reflexivity].
Defined.

Lemma runtimes_are_isolated_witness :
  ∃ h h' r', multi_inv demo_both h ∧
    multi_inv (msys_of (mrun [MRun 1 (ERespond 4 0 (Some ok) 0); MRun 0 ETake; MRun 1 EHandle] demo_both)) h' ∧
    m_runtimes (msys_of (mrun [MRun 1 (ERespond 4 0 (Some ok) 0); MRun 0 ETake; MRun 1 EHandle] demo_both))
      !! 0%nat = Some r' ∧
    private_run [ETake] (private (mabs demo_both h 0 (Runtime false [] [3%nat] [] 0)))
      (private (mabs (msys_of (mrun [MRun 1 (ERespond 4 0 (Some ok) 0); MRun 0 ETake; MRun 1 EHandle] demo_both))
                  h' 0 r')).
Proof.
  apply (runtimes_are_isolated demo_both 0 (Runtime false [] [3%nat] [] 0)
           [MRun 1 (ERespond 4 0 (Some ok) 0); MRun 0 ETake; MRun 1 EHandle]);
    [unfold demo_both; mdemo|vm_compute; reflexivity..].
Defined.

Lemma runtimes_are_fifo_witness :
  [4%nat] `prefix_of` [4%nat] ∧ (∀ t, t ∈ [4%nat] → t ∈ [4%nat]) ∧ NoDup [4%nat].
Proof.
  apply (proj1 (runtimes_are_fifo demo_both ltac:(unfold demo_both; mdemo)) 1%nat
           (Runtime false [4%nat] [4%nat] [4%nat] 0)). vm_compute. reflexivity.
Defined.

Lemma every_request_in_one_place_witness :
  ∃ h, gposted (m_runtimes demo_both) ≡ₚ
      gpending h (m_runtimes demo_both) ++ gheld (m_runtimes demo_both) ++ sh_done h ++ [] ++ [] ∧
    NoDup (gposted (m_runtimes demo_both)).
Proof.
  destruct (every_request_in_one_place demo_both) as (h & Hp & Hn & _); [unfold demo_both; mdemo|].
  exists h. exact (conj Hp Hn).
Defined.

Lemma runtime_queues_are_bounded_witness :
  ∃ ql, queue_repr (tasks (m_world demo_both)) (SQueueFirst (Ptr 0 0))
      (queue (default zero_queue (queues (m_world demo_both) !! 0%nat))) ql ∧
    waiting (default zero_queue (queues (m_world demo_both) !! 0%nat)) = Z.of_nat (length ql) - 0 - 0.
Proof.
  destruct (runtime_queues_are_bounded demo_both 0 (Runtime false [] [3%nat] [] 0)
              (default zero_queue (queues (m_world demo_both) !! 0%nat))) as (ql & H & Hw & _);
    [unfold demo_both; mdemo|vm_compute; reflexivity..|]. exists ql. exact (conj H Hw).
Defined.

Lemma runtime_shutdown_is_graceful_witness : true = true ∧ [3%nat] = [3%nat].
Proof.
  apply (runtime_shutdown_is_graceful (msys_of (mrun demo_one_closed (no_runtimes demo_two_requests))) 0
           (Runtime true [3%nat] [3%nat] [3%nat] 0)); [mdemo|vm_compute; reflexivity..].
Defined.

Lemma runtimes_can_be_served_witness :
  ∃ es m', (length es ≤ 8)%nat ∧ forallb mserving es = true ∧ mrun es demo_both = Some (Ok m') ∧
    tasks (m_world m') = ∅ ∧ bufs (m_world m') = ∅ ∧ m_waiting m' = ∅ ∧
    m_handled m' ≡ₚ gposted (m_runtimes demo_both).
Proof.
  apply (runtimes_can_be_served demo_both); [unfold demo_both; mdemo|].
  rewrite demo_both_tasks. intros i r. rewrite lookup_insert_Some, lookup_singleton_Some.
  intros [[<- <-]|[_ [<- <-]]]; by left.
Defined.

Lemma runtime_can_be_unloaded_witness :
  ∃ es m', Forall (polls_of 2) es ∧ (0 + length es = 2)%nat ∧
    mrun (MRun 0 <$> (EFinish env_ok :: es)) demo_both = Some (Ok m') ∧
    closed_to 0 demo_both (Runtime false [] [3%nat] [] 0) m'.
Proof.
  apply (runtime_can_be_unloaded demo_both 0 2 (Runtime false [] [3%nat] [] 0)
           (default zero_queue (queues (m_world demo_both) !! 0%nat)));
    [unfold demo_both; mdemo|vm_compute; reflexivity..|].
  intros x Hx. vm_compute in Hx. by apply elem_of_nil in Hx.
Defined.

(** Everything of [demo_both] is answered and delivered, the queues stay. *)
Definition demo_quiet : msys :=
  msys_of (mrun (demo_runtimes ++ [MRun 1 (ERespond 4 0 None 0); MRun 0 (EPoll env_ok 2);
    MRun 0 (ERespond 3 0 (Some ok) 0); MRun 0 ETake; MRun 0 EHandle; MRun 1 EHandle]) (no_runtimes demo_two_requests)).

Example demo_quiet_runtimes :
  m_runtimes demo_quiet =
    {[ 0%nat := Runtime false [] [3%nat] [3%nat] 0; 1%nat := Runtime false [] [4%nat] [4%nat] 0 ]}.
Proof. vm_compute. reflexivity. Qed.

Example demo_quiet_queues :
  (queue <$> queues (m_world demo_quiet)) =
    {[ 0%nat := ngx_task_queue_init (SQueueFirst (Ptr 0 0)); 1%nat := ngx_task_queue_init (SQueueFirst (Ptr 1 0)) ]}.
Proof. vm_compute. reflexivity. Qed.

Lemma runtimes_leak_nothing_witness :
  tasks (m_world demo_quiet) = ∅ ∧ bufs (m_world demo_quiet) = ∅ ∧ m_waiting demo_quiet = ∅ ∧
  m_handled demo_quiet ≡ₚ gposted (m_runtimes demo_quiet).
Proof.
  apply (runtimes_leak_nothing demo_quiet); [unfold demo_quiet; mdemo| | |vm_compute; reflexivity..].
  - intros i q Hq. apply (f_equal (fmap queue)) in Hq. rewrite <-lookup_fmap, demo_quiet_queues in Hq.
    simpl in Hq. rewrite lookup_insert_Some, lookup_singleton_Some in Hq. by destruct Hq as [[_ <-]|[_ [_ <-]]].
  - intros i r. rewrite demo_quiet_runtimes, lookup_insert_Some, lookup_singleton_Some.
    by intros [[_ <-]|[_ [_ <-]]].
Defined.

Lemma worker_coroutines_agree_witness :
  ∃ x t b c,
    cos (m_world demo_both) !! 3%nat = Some x ∧
    cleanup x = Some HFfiCleanup ∧ co_data x = Some (Ptr t 1) ∧
    tasks (m_world demo_both) !! t = Some b ∧ tb_ctx b = Some c ∧
    c_is_abort c = 0 ∧ c_wait_co_ctx c = Some 3%nat.
Proof.
  destruct (worker_coroutines_agree demo_both) as [H _]; [unfold demo_both; mdemo|].
  apply H. vm_compute. reflexivity.
Defined.

Lemma worker_memory_is_well_typed_witness :
  queue_typed (tasks (m_world demo_both)) (SQueueFirst (Ptr 0 0))
    (queue (default zero_queue (queues (m_world demo_both) !! 0%nat))).
Proof.
  destruct (worker_memory_is_well_typed demo_both) as (_ & H & _); [unfold demo_both; mdemo|].
  apply H. vm_compute. reflexivity.
Defined.
