(* ===== verification/Integrity.v ===== *)
(** * Integrity: requests and responses arrive as they were sent

    What a runtime reads from a task is what Lua posted, and what a coroutine is
    resumed with is what the runtime answered to its task, whatever all the other
    runtimes, coroutines and nginx do in between. *)

From S2P Require Import Prelude World TaskQueue FfiTask FfiQueue EventHandler Ownership System.
From S2P Require Import Spec Invariant Posting Polling Answering Safety Multi MultiInvariant Demo Allocation.
From S2P Require Import MultiContract.

(** The value of a response, as the coroutine gets it. *)
Definition answer_value (rsp : option (list byte)) (len : Z) : option lua_value :=
  match rsp with
  | None => Some LNil
  | Some b => if len =? 0 then LStr <$> c_str b
              else if size_of_int len <=? Z.of_nat (length b) then Some (LStr (take (Z.to_nat (size_of_int len)) b))
              else None
  end.

Lemma has_response_value w c rc rsp len :
  has_response w c rc rsp len → rsp_value (bufs w) (c_rsp c) (c_rsp_len c) = answer_value rsp len.
Proof.
  intros (_ & -> & Hr). destruct rsp as [b|]; simpl; [|by rewrite Hr].
  destruct Hr as (p & -> & Ho & Hb). unfold rsp_value. by rewrite Ho, Hb.
Qed.

(** ** One task over time *)

(** From [w] to [w'], the task in block [t] keeps its coroutine and its request;
    once [settled], its response; and if [spared], it is not marked as aborted. *)
Record preserved (settled spared : Prop) (w : world) (t : loc) (c : ffi_task_ctx_t)
    (w' : world) (c' : ffi_task_ctx_t) : Prop := {
  pr_view : views (tasks w') !! t = Some (task_view t c');
  pr_wait : c_wait_co_ctx c' = c_wait_co_ctx c;
  pr_req : ∀ req, has_request w c req → has_request w' c' req;
  pr_rsp : settled → ∀ rc rsp len, has_response w c rc rsp len → has_response w' c' rc rsp len;
  pr_abort : spared → c_is_abort c' = c_is_abort c;
}.

Lemma preserved_refl (P Q : Prop) w t c :
  views (tasks w) !! t = Some (task_view t c) → preserved P Q w t c w c.
Proof. by split. Qed.

Lemma preserved_trans (P P' Q Q' : Prop) w t c w1 c1 w2 c2 :
  preserved P Q w t c w1 c1 → preserved P' Q' w1 t c1 w2 c2 → (P → P') →
  preserved P (Q ∧ Q') w t c w2 c2.
Proof.
  intros [_ A B C D] [E A' B' C' D'] HP. split; [done|congruence|auto| |].
  - intros HP0 rc rsp len Hr. apply C'; auto.
  - intros [HQ HQ']. rewrite D', D; auto.
Qed.

Lemma preserved_impl (P Q Q' : Prop) w t c w' c' : (Q' → Q) → preserved P Q w t c w' c' → preserved P Q' w t c w' c'.
Proof. intros HQ [A B C D E]. split; auto. Qed.

(** The buffers of a live task keep their bytes. *)
Lemma contents_preserved w e w' t c c' :
  contents w e w' → views (tasks w) !! t = Some (task_view t c) →
  views (tasks w') !! t = Some (task_view t c') →
  preserved (∀ rc rsp len, e ≠ ERespond t rc rsp len) (∀ k, e = EKill k → c_wait_co_ctx c ≠ Some k) w t c w' c'.
Proof.
  intros [A B C D _ _] Hc Hc'. destruct (A t c c' Hc Hc') as (Ew & Er & El).
  assert (∀ p, c_req c = Some p ∨ c_rsp c = Some p → bufs w' !! p_blk p = bufs w !! p_blk p) as Hb.
  { intros p Hp. apply (D t (task_view t c)); [done|by eexists|]. apply elem_of_owned_ctx. naive_solver. }
  split; [done|done| |intros He rc rsp len|by apply (C t c c')].
  - intros [b|]; simpl; rewrite Er, El; [|done]. intros (p & Hp & Ho & Hbuf & Hl).
    exists p. do 2 (split; [done|]). rewrite (Hb p) by (by left). done.
  - unfold has_response. destruct (B t c c' Hc Hc' He) as (-> & Es & El'). intros (Hrc & Hl & Hr).
    split; [done|]. split; [congruence|].
    destruct rsp as [b|]; rewrite Es; [|done]. destruct Hr as (p & Hp & Ho & Hbuf).
    exists p. split; [done|]. split; [done|]. rewrite (Hb p) by (by right). done.
Qed.

(** ** Histories only grow *)

Lemma spec_step_past e a b t :
  spec_step e a b → t ∈ a_done a ++ a_inflight a ++ a_handled a → t ∈ a_done b ++ a_inflight b ++ a_handled b.
Proof.
  destruct 1; unfold spec_finish, spec_poll, spec_respond, spec_handle; simpl;
    repeat case_match; simpl; rewrite ?elem_of_app; try tauto; set_solver.
Qed.

Lemma spec_step_settles t rc rsp len a b : spec_step (ERespond t rc rsp len) a b → t ∈ a_done b.
Proof. inversion 1; subst. simpl. mem. Qed.

(** The tasks no runtime can answer any more. *)
Definition past (m : msys) (h : shape) : list loc := sh_done h ++ m_inflight m ++ m_handled m.

(** What a step of the whole worker does to the tasks. *)
Record task_step (m : msys) (h : shape) (me : mevent) (m' : msys) (h' : shape) : Prop := {
  ts_inv : multi_inv m' h';
  ts_posted : ∀ t, t ∈ gposted (m_runtimes m) → t ∈ gposted (m_runtimes m');
  ts_handled : ∀ t, t ∈ m_handled m → t ∈ m_handled m';
  ts_past : ∀ t, t ∈ past m h → t ∈ past m' h';
  ts_contents : ∃ e, contents (m_world m) e (m_world m') ∧ (e = ETake ∨ ∃ i, me = MRun i e);
}.

Section steps.
Context {ops : NgxLua} {laws : NgxLuaLaws ops} {pool : NgxPool} {plaws : NgxPoolLaws pool}.

Lemma exec_grows e s s' :
  exec e s = Ok s' → (∀ t, t ∈ s_posted s → t ∈ s_posted s') ∧ (∀ t, t ∈ s_handled s → t ∈ s_handled s').
Proof using Type.
  destruct e; simpl; unfold exec_post, exec_finish, exec_poll, exec_respond, exec_kill, exec_take, exec_handle.
  all: repeat case_match; try done; intros [= <-]; simpl; split; try done; intros x Hx; apply elem_of_app; by left.
Qed.

Lemma mexec_task_step m h me m' :
  multi_inv m h → menabled m me = true → mexec me m = Ok m' → ∃ h', task_step m h me m' h'.
Proof using laws plaws.
  intros Hm Hen Hex'. destruct (multi_any_step _ _ _ Hm Hen) as (m1 & h' & Hex & Hm' & Hk & Hs & Hid & _).
  rewrite Hex in Hex'. injection Hex' as ->. exists h'.
  destruct me as [env max|i e|n cs ths rqs]; cycle 1.
  2, 3: destruct Hid as [It Ib Id If Ih]; [done|]; split;
    [done| |by rewrite Ih|unfold past; by rewrite Id, If, Ih|].
  2, 4: intros t (j & r & Hj & Ht)%elem_of_gather; apply elem_of_gather; exists j, r; split; [|done];
    rewrite <-Hj; apply Hk; [done|by eexists].
  2, 3: exists ETake; split; [by apply contents_same; [rewrite It|..]|by left].
  pose proof (Hs i e eq_refl) as Hst. simpl in Hen, Hex. destruct (m_runtimes m !! i) as [r|] eqn:Hi; [|done].
  destruct (exec e (focus i r m)) as [s|] eqn:He; [|done]. injection Hex as <-.
  destruct (exec_grows _ _ _ He) as [Hp Hh]. destruct (exec_history _ _ _ He) as [Htq _].
  destruct (ms_spec _ _ _ _ _ _ Hst r Hi) as (r' & Hi' & Hsp). split; [done| |done| |].
  - intros t (j & r0 & Hj & Ht)%elem_of_gather. apply elem_of_gather. simpl. destruct (decide (j = i)) as [->|Hne].
    + exists i, (runtime_of s). rewrite Htq. simpl. rewrite lookup_insert_eq. split; [done|]. apply Hp. simpl.
      rewrite Hi in Hj. by injection Hj as ->.
    + exists j, r0. rewrite Htq. simpl. by rewrite lookup_insert_ne.
  - intros t Ht. by apply (spec_step_past _ _ _ t Hsp).
  - exists e. split; [apply Hst|]. right. by exists i.
Qed.

Lemma live_task m h t :
  multi_inv m h → t ∈ gposted (m_runtimes m) → t ∉ m_handled m →
  ∃ c, views (tasks (m_world m)) !! t = Some (task_view t c).
Proof using Type.
  intros Hm Ht Hh. apply (mi_tasks _ _ Hm). rewrite (posted_perm _ _ Hm) in Ht. rewrite !elem_of_app in *. tauto.
Qed.

Lemma past_not_held m h t i r :
  multi_inv m h → t ∈ past m h → m_runtimes m !! i = Some r → t ∉ r_held r.
Proof using Type.
  intros Hm Hp Hi Ht. pose proof (mi_nodup _ _ Hm) as Hn. rewrite (posted_perm _ _ Hm) in Hn.
  apply NoDup_app in Hn as (_ & _ & Hn). apply NoDup_app in Hn as (_ & Hn & _).
  apply (Hn t); [|exact Hp]. apply elem_of_gather. by exists i, r.
Qed.

Lemma step_preserves m h me m' h' t c :
  multi_inv m h → menabled m me = true → task_step m h me m' h' →
  views (tasks (m_world m)) !! t = Some (task_view t c) → t ∈ gposted (m_runtimes m) → t ∉ m_handled m' →
  ∃ c', preserved (t ∈ past m h) (∀ j k, c_wait_co_ctx c = Some k → me ≠ MRun j (EKill k))
          (m_world m) t c (m_world m') c'.
Proof using Type.
  intros Hm Hen [Hm' Hp Hh Hpa (e & Hc & He)] Hv Ht Hn.
  destruct (live_task _ _ t Hm' (Hp t Ht) Hn) as [c' Hv']. exists c'.
  destruct (contents_preserved _ _ _ _ _ _ Hc Hv Hv') as [A B C D E]. split; [done..| |].
  - intros Hpast. apply D. intros rc rsp len ->. destruct He as [|[i ->]]; [done|].
    simpl in Hen. destruct (m_runtimes m !! i) as [r|] eqn:Hi; [|done].
    simpl in Hen. apply andb_true_iff in Hen as [Hin _]. apply bool_decide_eq_true in Hin.
    by apply (past_not_held _ _ _ _ _ Hm Hpast Hi).
  - intros Hs. apply E. intros k -> Hk. destruct He as [|[i ->]]; [done|]. by eapply Hs.
Qed.

Lemma run_handled es m h m' t :
  multi_inv m h → mrun es m = Some (Ok m') → t ∈ m_handled m → t ∈ m_handled m'.
Proof using laws plaws.
  revert m h. induction es as [|me es IH]; simpl; intros m h Hm; [by intros [= <-]|].
  destruct (menabled m me) eqn:Hen; [|done]. destruct (mexec me m) as [m1|] eqn:Hex; [|done].
  destruct (mexec_task_step _ _ _ _ Hm Hen Hex) as [h1 Hs]. intros Hr Ht.
  eapply IH; [apply Hs|done|]. by apply Hs.
Qed.

(** Over any execution in which the task is not handled. *)
Lemma run_preserves es m h m' t c :
  multi_inv m h → mrun es m = Some (Ok m') →
  views (tasks (m_world m)) !! t = Some (task_view t c) → t ∈ gposted (m_runtimes m) → t ∉ m_handled m' →
  ∃ h' c', multi_inv m' h' ∧ t ∈ gposted (m_runtimes m') ∧ (t ∈ past m h → t ∈ past m' h') ∧
    preserved (t ∈ past m h) (∀ j k, c_wait_co_ctx c = Some k → MRun j (EKill k) ∉ es)
      (m_world m) t c (m_world m') c'.
Proof using laws plaws.
  revert m h c. induction es as [|me es IH]; simpl; intros m h c Hm.
  - intros [= <-] Hv Ht _. exists h, c. split_and!; [done..|by apply preserved_refl].
  - destruct (menabled m me) eqn:Hen; [|done]. destruct (mexec me m) as [m1|] eqn:Hex; [|done].
    destruct (mexec_task_step _ _ _ _ Hm Hen Hex) as [h1 Hs]. intros Hr Hv Ht Hn.
    assert (t ∉ m_handled m1) as Hn1.
    { intros Hin. apply Hn. by eapply run_handled; [apply Hs|..]. }
    destruct (step_preserves _ _ _ _ _ _ _ Hm Hen Hs Hv Ht Hn1) as [c1 Hp1].
    destruct (IH m1 h1 c1) as (h' & c' & Hm' & Ht' & Hpa & Hp'); [apply Hs|done|apply Hp1|by apply Hs|done|].
    exists h', c'. split; [done|]. split; [done|]. split; [intros Hin; by apply Hpa, Hs|].
    eapply preserved_impl; [|eapply preserved_trans; [exact Hp1|exact Hp'|apply Hs]].
    intros Hsp. rewrite (pr_wait _ _ _ _ _ _ _ Hp1). split; intros j k Hk.
    + intros ->. apply (Hsp j k Hk). by left.
    + intros Hin. apply (Hsp j k Hk). by right.
Qed.
End steps.

(** ** Posting, polling, answering, delivering *)

Section contract.
Context {ops : NgxLua} {laws : NgxLuaLaws ops} {pool : NgxPool} {plaws : NgxPoolLaws pool}.

(** [ngx_http_lua_ffi_get_req] on the task in block [t] gives the bytes [req]. *)
Definition reads (w : world) (t : loc) (req : option (list byte)) : Prop :=
  ∃ p, ngx_http_lua_ffi_get_req (Some (Ptr t 0)) true w = Ok ((p, Some (post_len req)), w) ∧
    match req with
    | None => p = None
    | Some b => ∃ l, p = Some (Ptr l 0) ∧ bufs w !! l = Some (b ++ [x00])
    end.

Lemma has_request_reads w t c req :
  views (tasks w) !! t = Some (task_view t c) → has_request w c req → reads w t req.
Proof using Type.
  intros (b & Hb & Ht & _ & Hc)%view_task_block Hr. exists (c_req c).
  rewrite (get_req_run w t b c true Hb Ht Hc). destruct req as [x|]; simpl in *.
  - destruct Hr as ([l o] & -> & Ho & Hbuf & ->). simpl in *. subst o. eauto.
  - by destruct Hr as [-> ->].
Qed.

(** A step of the protocol in which Lua posts [req] for request [rq] to runtime [i], in block [t]. *)
Record posts (m : msys) (i : loc) (env : sysenv) (rq : rid) (req : option (list byte)) (t : loc) (m1 : msys) : Prop := {
  po_enabled : menabled m (MRun i (EPost env rq req)) = true;
  po_exec : mexec (MRun i (EPost env rq req)) m = Ok m1;
  po_task : ∃ r r1, m_runtimes m !! i = Some r ∧ m_runtimes m1 !! i = Some r1 ∧ r_posted r1 = r_posted r ++ [t];
}.

Lemma posts_fresh m h i env rq req t m1 h1 :
  multi_inv m h → posts m i env rq req t m1 → multi_stepped m h i (EPost env rq req) m1 h1 →
  t ∈ gposted (m_runtimes m1) ∧ views (tasks (m_world m)) !! t = None.
Proof using Type.
  intros Hm [Hen Hex (r & r1 & Hi & Hi1 & Hp)] [Hm1 _ Hk _ _].
  assert (t ∈ gposted (m_runtimes m1)) as Ht.
  { apply elem_of_gather. exists i, r1. rewrite Hp. split; [done|]. mem. }
  split; [done|]. apply eq_None_not_Some. intros Hv. apply (hi_dom _ _ _ _ (mi_heap _ _ Hm)) in Hv.
  assert (t ∉ gposted (m_runtimes m)) as Hn.
  { intros (j & r0 & Hj & Ht0)%elem_of_gather. pose proof (mi_nodup _ _ Hm1) as Hnd.
    destruct (decide (j = i)) as [->|Hne].
    - rewrite (gposted_split m1 i r1 Hi1), Hp in Hnd. apply NoDup_app in Hnd as (Hnd & _ & _).
      rewrite Hi in Hj. injection Hj as ->. apply NoDup_app in Hnd as (_ & Hnd & _). apply (Hnd t Ht0). by left.
    - rewrite <-(kp_runtime _ _ _ _ _ (Hk j Hne)) in Hj. apply Hne.
      apply (gather_apart (λ _, r_posted) (m_runtimes m1) j i r0 r1 t Hnd Hj Hi1 Ht0). rewrite Hp. mem. }
  rewrite (posted_perm _ _ Hm) in Hn. rewrite !elem_of_app in *.
  destruct Hv as [Hv|[Hv|Hv]]; [tauto| |tauto]. apply elem_of_gather in Hv as (j & r0 & Hj & Hmk).
  destruct (sh_marker h j) as [x|] eqn:E; [|by apply elem_of_nil in Hmk]. apply list_elem_of_singleton in Hmk as <-.
  destruct (decide (j = i)) as [->|Hne].
  - destruct (ri_marker _ _ _ _ _ (mi_runtime _ _ Hm i r0 Hj) t E) as [Hf _].
    simpl in Hen. rewrite Hj in Hen. simpl in Hen. by rewrite Hf in Hen.
  - apply (mi_apart _ _ Hm1 t); [|done]. apply elem_of_gather. exists j, r0.
    destruct (Hk j Hne) as [-> _ _ ->]. by rewrite E, marker_in.
Qed.

Lemma posts_contents m h i env rq req t m1 :
  multi_inv m h → posts m i env rq req t m1 → t ∉ m_handled m1 →
  ∃ h1 c, multi_inv m1 h1 ∧ t ∈ gposted (m_runtimes m1) ∧ views (tasks (m_world m1)) !! t = Some (task_view t c) ∧
    c_wait_co_ctx c = current (m_world m) rq ∧ c_is_abort c = 0 ∧ has_request (m_world m1) c req.
Proof using laws plaws.
  intros Hm Hp Hh. destruct (multi_run_step _ _ _ _ Hm (po_enabled _ _ _ _ _ _ _ Hp)) as (m1' & h1 & Hex & Hst).
  rewrite (po_exec _ _ _ _ _ _ _ Hp) in Hex. injection Hex as <-.
  destruct (posts_fresh _ _ _ _ _ _ _ _ _ Hm Hp Hst) as [Ht Hf]. destruct Hst as [Hm1 _ _ _ Hc].
  destruct (live_task _ _ _ Hm1 Ht Hh) as [c Hv]. exists h1, c.
  by destruct (cn_post _ _ _ Hc env rq req t c eq_refl Hf Hv) as (? & ? & _ & ?).
Qed.

(** What an execution from the post on leaves of the posted task. *)
Lemma post_run_keeps m h i env rq req t m1 es m2 :
  multi_inv m h → posts m i env rq req t m1 → mrun es m1 = Some (Ok m2) → t ∉ m_handled m2 →
  ∃ h2 c, multi_inv m2 h2 ∧ t ∈ gposted (m_runtimes m2) ∧
    views (tasks (m_world m2)) !! t = Some (task_view t c) ∧
    c_wait_co_ctx c = current (m_world m) rq ∧ has_request (m_world m2) c req ∧
    ((∀ x k, current (m_world m) rq = Some k → MRun x (EKill k) ∉ es) → c_is_abort c = 0).
Proof using laws plaws.
  intros Hm Hp Hr Hn.
  destruct (mexec_task_step _ _ _ _ Hm (po_enabled _ _ _ _ _ _ _ Hp) (po_exec _ _ _ _ _ _ _ Hp)) as [h0 Hs0].
  assert (t ∉ m_handled m1) as Hn1.
  { intros Hin. apply Hn. by eapply run_handled; [apply Hs0|..]. }
  destruct (posts_contents _ _ _ _ _ _ _ _ Hm Hp Hn1) as (h1 & c & Hm1 & Ht & Hv & Hw & Ha & Hq).
  destruct (run_preserves _ _ _ _ _ _ Hm1 Hr Hv Ht Hn) as (h2 & c2 & Hm2 & Ht2 & _ & [Hv2 Hw2 Hq2 _ Ha2]).
  exists h2, c2. split_and!; [done..|congruence|by apply Hq2|].
  intros Hk. rewrite Ha2; [done|]. intros x k Hk'. apply Hk. congruence.
Qed.

(** The request a runtime reads is the one Lua posted.  From the post to the
    delivery of the answer, whatever runtimes, coroutines and nginx do in
    between, [ngx_http_lua_ffi_get_req] on the task gives the bytes of the posted
    string, followed by a NUL, and its length. *)
Theorem posted_request_is_read m i env rq req t m1 es m2 :
  mreachable m → posts m i env rq req t m1 → mrun es m1 = Some (Ok m2) → t ∉ m_handled m2 →
  reads (m_world m2) t req.
Proof using laws plaws.
  intros [h Hm]%mreachable_inv Hp Hr Hn.
  destruct (post_run_keeps _ _ _ _ _ _ _ _ _ _ Hm Hp Hr Hn) as (h2 & c & _ & _ & Hv & _ & Hq & _).
  by eapply has_request_reads.
Qed.

Lemma mrun_app_inv es es' m m' :
  mrun (es ++ es') m = Some (Ok m') → ∃ m1, mrun es m = Some (Ok m1) ∧ mrun es' m1 = Some (Ok m').
Proof using Type.
  revert m. induction es as [|e es IH]; simpl; intros m; [by exists m|].
  destruct (menabled m e); [|done]. destruct (mexec e m); [apply IH|done].
Qed.

(** The answered task, and that no one can answer it again. *)
Lemma respond_settles m h j t rc rsp len m' c :
  multi_inv m h → menabled m (MRun j (ERespond t rc rsp len)) = true →
  mexec (MRun j (ERespond t rc rsp len)) m = Ok m' →
  t ∈ gposted (m_runtimes m) → t ∉ m_handled m' → views (tasks (m_world m)) !! t = Some (task_view t c) →
  ∃ h' c', multi_inv m' h' ∧ t ∈ gposted (m_runtimes m') ∧ t ∈ past m' h' ∧
    views (tasks (m_world m')) !! t = Some (task_view t c') ∧ has_response (m_world m') c' rc rsp len ∧
    c_wait_co_ctx c' = c_wait_co_ctx c ∧ c_is_abort c' = c_is_abort c.
Proof using laws plaws.
  intros Hm Hen Hex Ht Hn Hv. destruct (multi_run_step _ _ _ _ Hm Hen) as (m1 & h' & Hex' & Hst).
  rewrite Hex in Hex'. injection Hex' as <-.
  destruct (mexec_task_step _ _ _ _ Hm Hen Hex) as [h0 [_ Hp _ _ _]]. specialize (Hp t Ht).
  destruct Hst as [Hm' Hsp _ _ Hc]. destruct (live_task _ _ _ Hm' Hp Hn) as [c' Hv'].
  exists h', c'. do 2 (split; [done|]). split; [|split; [done|split; [by apply (cn_answer _ _ _ Hc t rc rsp len)|]]].
  - simpl in Hen. destruct (m_runtimes m !! j) as [r|] eqn:Hj; [|done].
    destruct (Hsp r eq_refl) as (r' & _ & Hs%spec_step_settles). unfold past. simpl in Hs. mem.
  - split; [by apply (cn_request _ _ _ Hc t)|]. by apply (cn_abort _ _ _ Hc t).
Qed.
(** The request a Lua thread belongs to, with its Lua context. *)
Definition req_ctx (w : world) (th : lua_thread) : option (rid * request * lua_ctx) :=
  r ← l_req th; y ← reqs w !! r; lc ← r_ctx y; Some (r, y, lc).

(** What nginx does with the answered task [t], whose coroutine [k] was not
    killed.  The task holds the result [rc] and [rsp].  Either the Lua thread of [k]
    has no request left, and the task is freed and nothing else happens; or the
    whole world from which Lua and nginx go on is known: that of before with the
    results on the stack of [k], its cleanup handler gone, [k] the current
    coroutine of its request, and the task and its buffers released; and the next
    state is where they get to from it. *)
Record delivers (m : msys) (t : loc) (k : cid) (rc : Z) (rsp : option (list byte)) (len : Z) (m' : msys) : Prop := {
  de_waited : k ∈ m_waiting m;
  de_resumed : k ∉ m_waiting m';
  de_results : ∃ b c x th, tasks (m_world m) !! t = Some b ∧ tb_ctx b = Some c ∧
    cos (m_world m) !! k = Some x ∧ threads (m_world m) !! co x = Some th ∧
    c_rc c = rc ∧ rsp_value (bufs (m_world m)) (c_rsp c) (c_rsp_len c) = answer_value rsp len ∧
    match req_ctx (m_world m) th with
    | None => m_world m' = released t c (m_world m)
    | Some (r, y, lc) => ∃ v, answer_value rsp len = Some v ∧
        let wd := delivered t c k (co x) r v (m_world m) in
        resume_caller r (r_connection y) (entered_content_phase lc) wd = Ok ((), m_world m') ∧
        threads wd = <[co x := push_all (call_results rc v) th]> (threads (m_world m)) ∧
        cos wd = <[k := set_cleanup None x]> (cos (m_world m)) ∧
        reqs wd = <[r := Request (Some (set_cur_co_ctx (Some k) lc)) (r_connection y)]> (reqs (m_world m))
    end;
}.

Lemma handle_delivers m h i r t rest c k rc rsp len :
  multi_inv m h → m_runtimes m !! i = Some r → m_inflight m = t :: rest →
  views (tasks (m_world m)) !! t = Some (task_view t c) →
  c_wait_co_ctx c = Some k → c_is_abort c = 0 → has_response (m_world m) c rc rsp len →
  ∃ m', mexec (MRun i EHandle) m = Ok m' ∧ m_inflight m' = rest ∧ m_handled m' = m_handled m ++ [t] ∧
    delivers m t k rc rsp len m'.
Proof using laws plaws.
  intros Hm Hi Hfl Hv Hk Ha Hrsp. destruct (view_task_block _ _ _ Hv) as (b & Hb & Ht & Hd & Hc).
  assert (ctx_wf (bufs (m_world m)) c) as [Hbufs [v Hval]].
  { destruct (hi_wf _ _ _ _ (mi_heap _ _ Hm) t _ Hv) as [?|(c0 & Hc0 & ?)]; [done|].
    unfold task_view in Hc0. by simplify_eq. }
  destruct (ci_task _ _ _ (mi_co _ _ Hm) t _ c Hv eq_refl Ha)
    as (k' & Hk' & Hkw & y & Hy & Hcl & Hda & th & Hth & Hlive).
  rewrite Hk in Hk'. injection Hk' as <-.
  assert (resumes (m_world m) t = Some k) as Hres.
  { unfold resumes. rewrite Hb. simpl. rewrite Hc. simpl. by rewrite Ha. }
  assert (answered_task (m_world m) t b c) as Hat by by split.
  destruct (multi_step m h i r EHandle Hm Hi) as (s' & h' & Hex & _).
  { simpl. rewrite Hfl. by rewrite bool_decide_false. }
  simpl. rewrite Hi. simpl in Hex. unfold exec_handle in *. simpl in *. rewrite Hfl in *.
  destruct (ngx_http_lua_ffi_event_handler (Some (Ptr t 0)) (m_world m)) as [[[] w']|] eqn:Hrun; [|done].
  rewrite Hres. eexists. split; [done|]. simpl. split; [done|]. split; [done|].
  split; simpl; [done|set_solver|]. exists b, c, y, th. do 4 (split; [done|]).
  split; [apply Hrsp|]. split; [by rewrite (has_response_value _ _ _ _ _ Hrsp)|].
  destruct (req_ctx (m_world m) th) as [[[rq rqx] lc]|] eqn:Hrc; unfold req_ctx in Hrc;
    destruct (l_req th) as [rq'|] eqn:Hl; simpl in Hrc; simplify_eq.
  - destruct (reqs (m_world m) !! rq') as [rqx'|] eqn:Hrq; simpl in Hrc; [|done].
    destruct (r_ctx rqx') as [lc'|] eqn:Hlc; simpl in Hrc; simplify_eq. exists v.
    split; [by rewrite <-Hval, (has_response_value _ _ _ _ _ Hrsp)|]. cbv zeta.
    rewrite <-Hrun, (handler_run (m_world m) t b c Hat k y th Ha Hk Hy Hth rq rqx lc v) by done.
    split; [done|]. destruct Hrsp as (<- & _). simpl. erewrite !alter_alt_Some by done. by rewrite Hlc.
  - rewrite (handler_gone (m_world m) t b c Hat k y th Ha Hk Hy Hth) in Hrun; [by injection Hrun as <-|].
    right. destruct (Hlive rq' eq_refl) as [rqx' Hrq]. rewrite Hrq in Hrc. simpl in Hrc. exists rq', rqx'.
    by destruct (r_ctx rqx').
  - rewrite (handler_gone (m_world m) t b c Hat k y th Ha Hk Hy Hth) in Hrun; [by injection Hrun as <-|by left].
Qed.

Lemma inflight_unhandled m h t rest : multi_inv m h → m_inflight m = t :: rest → t ∉ m_handled m.
Proof using Type.
  intros Hm Hfl. pose proof (mi_nodup _ _ Hm) as Hnd. rewrite (posted_perm _ _ Hm), Hfl, !app_assoc in Hnd.
  apply NoDup_app in Hnd as (_ & Hnd & _). apply Hnd. mem.
Qed.

Lemma held_unhandled m h i r t : multi_inv m h → m_runtimes m !! i = Some r → t ∈ r_held r → t ∉ m_handled m.
Proof using Type.
  intros Hm Hi Ht. pose proof (mi_nodup _ _ Hm) as Hnd. rewrite (posted_perm _ _ Hm), !app_assoc in Hnd.
  apply NoDup_app in Hnd as (_ & Hnd & _). apply Hnd. rewrite !elem_of_app. left. left. right.
  apply elem_of_gather. by exists i, r.
Qed.

(** The answer of a task of coroutine [k], from the response to the delivery. *)
Lemma answer_arrives ma ha j t rc rsp len mb c k es m2 rest i r :
  multi_inv ma ha → menabled ma (MRun j (ERespond t rc rsp len)) = true →
  mexec (MRun j (ERespond t rc rsp len)) ma = Ok mb →
  t ∈ gposted (m_runtimes ma) → views (tasks (m_world ma)) !! t = Some (task_view t c) →
  c_wait_co_ctx c = Some k → c_is_abort c = 0 →
  mrun es mb = Some (Ok m2) → (∀ x, MRun x (EKill k) ∉ es) →
  m_inflight m2 = t :: rest → m_runtimes m2 !! i = Some r →
  ∃ m3, mexec (MRun i EHandle) m2 = Ok m3 ∧ m_inflight m3 = rest ∧ m_handled m3 = m_handled m2 ++ [t] ∧
    delivers m2 t k rc rsp len m3.
Proof using laws plaws.
  intros Hma Hen Hex Hta Hva Hwa Haa Hr Hsp Hfl Hi.
  destruct (mexec_task_step _ _ _ _ Hma Hen Hex) as [hb0 Hsb].
  destruct (multi_run_inv _ _ _ _ (ts_inv _ _ _ _ _ Hsb) Hr) as (? & h2 & [= <-] & Hm2).
  pose proof (inflight_unhandled _ _ _ _ Hm2 Hfl) as Hn2.
  assert (t ∉ m_handled mb) as Hnb by (intros Hin; apply Hn2; by eapply run_handled; [apply Hsb|..]).
  destruct (respond_settles _ _ _ _ _ _ _ _ _ Hma Hen Hex Hta Hnb Hva)
    as (hb & cb & Hmb & Htb & Hpb & Hvb & Hrb & Hwb & Hab).
  destruct (run_preserves _ _ _ _ _ _ Hmb Hr Hvb Htb Hn2) as (h3 & c2 & _ & _ & _ & [Hv2 Hw2 _ Hr2 Ha2]).
  eapply handle_delivers; [exact Hm2|done|done|exact Hv2|congruence| |by apply Hr2].
  rewrite Ha2, Hab; [done|]. intros x k' Hk' Hin. apply (Hsp x). congruence.
Qed.

(** The answer a coroutine gets is the one the runtime gave to its request.
    Coroutine [k] posts a request; the library polls and answers it, with anything
    else going on before and after, but [k] is not killed.  When nginx comes to
    the task, it resumes [k] and no other coroutine: unless the request of [k]
    has ended, the values on its stack are those of the answer, its cleanup
    handler is gone and it is the current coroutine of its request. *)
Theorem answer_reaches_the_poster m i env rq req t m1 k es1 j rc rsp len es2 m2 rest i' r' :
  mreachable m → posts m i env rq req t m1 → current (m_world m) rq = Some k →
  mrun (es1 ++ MRun j (ERespond t rc rsp len) :: es2) m1 = Some (Ok m2) →
  (∀ x, MRun x (EKill k) ∉ es1 ++ es2) → m_inflight m2 = t :: rest → m_runtimes m2 !! i' = Some r' →
  ∃ m3, mexec (MRun i' EHandle) m2 = Ok m3 ∧ m_inflight m3 = rest ∧ m_handled m3 = m_handled m2 ++ [t] ∧
    delivers m2 t k rc rsp len m3.
Proof using laws plaws.
  intros [h Hm]%mreachable_inv Hp Hcur Hr Hsp Hfl Hi'.
  apply mrun_app_inv in Hr as (ma & Hra & Hr).
  cbn [mrun] in Hr. destruct (menabled ma _) eqn:Hen; [|done]. destruct (mexec _ ma) as [mb|] eqn:Hex; [|done].
  destruct (mexec_task_step _ _ _ _ Hm (po_enabled _ _ _ _ _ _ _ Hp) (po_exec _ _ _ _ _ _ _ Hp)) as [h0 Hs0].
  destruct (multi_run_inv _ _ _ _ (ts_inv _ _ _ _ _ Hs0) Hra) as (? & ha0 & [= <-] & Hma0).
  destruct (mexec_task_step _ _ _ _ Hma0 Hen Hex) as [hb Hsb].
  destruct (multi_run_inv _ _ _ _ (ts_inv _ _ _ _ _ Hsb) Hr) as (? & h2 & [= <-] & Hm2).
  assert (t ∉ m_handled ma) as Hna.
  { intros Hin%(ts_handled _ _ _ _ _ Hsb). apply (inflight_unhandled _ _ _ _ Hm2 Hfl).
    by eapply run_handled; [apply Hsb|..]. }
  destruct (post_run_keeps _ _ _ _ _ _ _ _ _ _ Hm Hp Hra Hna) as (ha & c & Hma & Hta & Hva & Hwa & _ & Haa).
  eapply answer_arrives; try done; [congruence| |].
  - apply Haa. intros x k' Hk' Hin. apply (Hsp x), elem_of_app. left. congruence.
  - intros x Hin. apply (Hsp x), elem_of_app. by right.
Qed.
End contract.

(** ** Instances *)

(** Two runtimes; request 7 has posted to the first, in block 3. *)
Definition demo_before : msys := msys_of (mrun [MCreate env_ok 2; MCreate env_ok 1] (no_runtimes demo_two_requests)).
Definition demo_after : msys :=
  msys_of (mrun [MCreate env_ok 2; MCreate env_ok 1; MRun 0 (EPost env_ok 7 (Some hi))] (no_runtimes demo_two_requests)).

Lemma demo_posts : posts demo_before 0 env_ok 7 (Some hi) 3 demo_after.
Proof.
  split; [vm_compute; reflexivity..|]. exists new_runtime, (Runtime false [] [3%nat] [] 0).
  split; [vm_compute; reflexivity|]. by split; [vm_compute; reflexivity|].
Qed.

(** The second runtime answers its own request meanwhile. *)
Definition demo_meanwhile : list mevent :=
  [MRun 1 (EPost env_ok 8 None); MRun 0 (EPoll env_ok 1); MRun 1 (EPoll env_ok 2); MRun 1 (ERespond 4 9 None 0)].

Lemma posted_request_is_read_witness : reads (m_world (msys_of (mrun demo_meanwhile demo_after))) 3 (Some hi).
Proof.
  apply (posted_request_is_read demo_before 0 env_ok 7 (Some hi) 3 demo_after demo_meanwhile);
    [unfold demo_before; mdemo|exact demo_posts|vm_compute; reflexivity|].
  apply (bool_decide_unpack _). vm_compute. exact I.
Defined.

(** The first runtime answers too, and nginx has delivered the other answer. *)
Definition demo_answer : list mevent :=
  demo_meanwhile ++ MRun 0 (ERespond 3 0 (Some ok) 0) :: [MRun 0 ETake; MRun 0 EHandle].
Definition demo_answered : msys := msys_of (mrun demo_answer demo_after).


Lemma demo_answer_runs : mrun demo_answer demo_after = Some (Ok demo_answered).
Proof. vm_compute. reflexivity. Qed.
Lemma demo_no_kill x : MRun x (EKill 3) ∉ demo_meanwhile ++ [MRun 0 ETake; MRun 0 EHandle].
Proof. unfold demo_meanwhile. set_solver. Qed.

Lemma answer_reaches_the_poster_witness :
  ∃ m3, mexec (MRun 1 EHandle) demo_answered = Ok m3 ∧ delivers demo_answered 3 3 0 (Some ok) 0 m3.
Proof.
  destruct (answer_reaches_the_poster demo_before 0 env_ok 7 (Some hi) 3 demo_after 3 demo_meanwhile 0 0 (Some ok) 0
              [MRun 0 ETake; MRun 0 EHandle] demo_answered [] 1 (Runtime false [] [4%nat] [4%nat] 0))
    as (m3 & Hex & _ & _ & Hd);
    [unfold demo_before; mdemo|exact demo_posts|vm_compute; reflexivity|exact demo_answer_runs|exact demo_no_kill
    |vm_compute; reflexivity|vm_compute; reflexivity|].
  exact (ex_intro _ m3 (conj Hex Hd)).
Defined.
