(* ===== verification/EchoRuntimes.v ===== *)
(** * EchoRuntimes: the example runtimes that send requests back

    The threads of src/examples/go/echo.go, of the echo-demo in Java, of
    src/examples/python/ffi/echo.py and of src/examples/rust/echo: clients of
    [ngx_http_lua_ffi_task_poll], [get_req] and [respond] that allocate their
    responses with malloc or strdup.  The class [EchoLaws] is what they promise;
    that Lua gets its own string back is proved from it for any worker in which
    they run. *)

From S2P Require Import Prelude World TaskQueue FfiTask FfiQueue EventHandler Ownership System.
From S2P Require Import Spec Invariant Posting Polling Answering Safety Multi MultiInvariant Demo Allocation.
From S2P Require Import MultiContract Integrity.

(** ** The C library, as the runtimes call it *)

(** [malloc(n)]: what the memory holds is not known. *)
Definition c_malloc (alloc : bool) (junk : nat → byte) (n : Z) : M world (option ptr) :=
  if alloc then p ← alloc_buf (junk <$> seq 0 (Z.to_nat n)); mret (Some p) else mret None.

Definition c_memcpy (dst src : option ptr) (n : Z) : M world () :=
  s ← load_bytes src;
  d ← load_bytes dst;
  assume ((n <=? Z.of_nat (length s)) && (n <=? Z.of_nat (length d))) OutOfBounds;;
  p ← from dst NullDeref;
  modify (upd_bufs <[p_blk p := take (Z.to_nat n) s ++ drop (Z.to_nat n) d]>).

Definition c_strdup (alloc : bool) (s : option ptr) : M world (option ptr) :=
  b ← load_bytes s;
  v ← from (c_str b) OutOfBounds;
  if alloc then p ← alloc_buf (v ++ [x00]); mret (Some p) else mret None.

(** ** The threads *)

(** One turn of the endless loop of a thread, from the result of
    [ngx_http_lua_ffi_task_poll] on.  As there, a call that blocks is cut. *)
Inductive turn := Waits | Ended | Again.

Definition poll_loop (body : option ptr → M world ()) (r : poll_res) : M world turn :=
  match r with
  | PBlocked => mret Waits
  | PReturn None => mret Ended
  | PReturn task => body task;; mret Again
  end.

(** Go: the program ends when [C.malloc] has no memory, so it does not return
    nil. *)
Definition go_body (junk : nat → byte) (task : option ptr) : M world () :=
  '(r, rlen) ← ngx_http_lua_ffi_get_req task true;
  rlen ← from rlen Uninit;
  res ← c_malloc true junk (size_of_int rlen);
  c_memcpy res r (size_of_int rlen);;
  ngx_http_lua_ffi_respond task 0 res rlen.

Definition go_loop (junk : nat → byte) : poll_res → M world turn := poll_loop (go_body junk).

(** Java: the same with the calls of jnr-ffi, where [malloc] may return null. *)
Definition java_body (alloc : bool) (junk : nat → byte) (task : option ptr) : M world () :=
  '(req, ap) ← ngx_http_lua_ffi_get_req task true;
  len ← from ap Uninit;
  rsp ← c_malloc alloc junk (size_of_int len);
  c_memcpy rsp req (size_of_int len);;
  ngx_http_lua_ffi_respond task 0 rsp len.

Definition java_run (alloc : bool) (junk : nat → byte) : poll_res → M world turn :=
  poll_loop (java_body alloc junk).

(** Python and Rust copy the request as a C string. *)
Definition python_body (alloc : bool) (task : option ptr) : M world () :=
  '(req, _) ← ngx_http_lua_ffi_get_req task false;
  res ← c_strdup alloc req;
  ngx_http_lua_ffi_respond task 0 res 0.

Definition python_poll (alloc : bool) : poll_res → M world turn := poll_loop (python_body alloc).

Definition rust_body (alloc : bool) (task : option ptr) : M world () :=
  '(req, _) ← ngx_http_lua_ffi_get_req task false;
  res ← c_strdup alloc req;
  ngx_http_lua_ffi_respond task 0 res 0.

Definition rust_loop (alloc : bool) : poll_res → M world turn := poll_loop (rust_body alloc).

(** ** Their [libffi_init]: the result, and whether a thread was started *)

Definition go_init (cfg : option ptr) : M world (Z * bool) := mret (0, true).
Definition java_init (cfg : option ptr) : M world (Z * bool) := mret (0, true).
Definition python_init (cfg : option ptr) : M world (Z * bool) := mret (0, true).

(** Rust reads the configuration as JSON: [is_json] is [serde_json::from_str] on
    the text that [to_string_lossy] makes of these bytes. *)
Definition rust_init (is_json : list byte → bool) (cfg : option ptr) : M world (Z * bool) :=
  b ← load_bytes cfg;
  cfg ← from (c_str b) OutOfBounds;
  if negb (is_json cfg) then mret (1, false) else mret (0, true).

(** Without a configuration [load_ffi] passes NULL, which [CStr::from_ptr] must
    not get; one that is no JSON is refused, and nothing is written. *)
Lemma rust_init_branches is_json w l s :
  bufs w !! l = Some (s ++ [x00]) → x00 ∉ s →
  rust_init is_json None w = UB NullDeref ∧
  rust_init is_json (Some (Ptr l 0)) w = Ok (if is_json s then (0, true) else (1, false), w).
Proof.
  intros Hl Hs. split; [done|]. unfold rust_init. erewrite bind_ok by by apply load_bytes_ok.
  erewrite bind_ok by apply from_run, c_str_nul. rewrite before_nul_id by done. by destruct (is_json s).
Qed.

(** ** What an echo promises *)

(** For a request that fits: the body is one response on the task, with the
    bytes [ec_rsp] and the length [ec_len], which Lua gets as [ec_value]. *)
Record echo := Echo {
  ec_body : option ptr → M world ();
  ec_fits : list byte → Prop;
  ec_rsp : list byte → list byte;
  ec_len : list byte → Z;
  ec_value : list byte → list byte;
}.

Class EchoLaws (E : echo) : Prop := {
  echo_body_law w t req : ec_fits E req → reads w t (Some req) → bufs w !! brk w = None →
    ec_body E (Some (Ptr t 0)) w = respond_with t 0 (Some (ec_rsp E req)) (ec_len E req) w;
  echo_value_law req : ec_fits E req →
    answer_value (Some (ec_rsp E req)) (ec_len E req) = Some (LStr (ec_value E req));
}.

Lemma echo_rsp_fits E req : EchoLaws E → ec_fits E req → rsp_fits (Some (ec_rsp E req)) (ec_len E req) = true.
Proof.
  intros HE Hf. pose proof (echo_value_law req Hf) as Hv. unfold answer_value, rsp_fits in *.
  destruct (ec_len E req =? 0); [|by destruct (size_of_int _ <=? _)].
  apply bool_decide_eq_true. destruct (c_str (ec_rsp E req)); [by eexists|done].
Qed.

(** Go and Java need a request that is not empty, Python and Rust cut it at its
    first NUL. *)
Definition sized (req : list byte) : Prop := req ≠ [] ∧ Z.of_nat (length req) < 2 ^ 31.
Definition go_echo (junk : nat → byte) : echo :=
  Echo (go_body junk) sized (λ req, req) (λ req, Z.of_nat (length req)) (λ req, req).
Definition java_echo (junk : nat → byte) : echo :=
  Echo (java_body true junk) sized (λ req, req) (λ req, Z.of_nat (length req)) (λ req, req).
Definition python_echo : echo :=
  Echo (python_body true) (λ _, True) (λ req, before_nul req ++ [x00]) (λ _, 0) before_nul.
Definition rust_echo : echo :=
  Echo (rust_body true) (λ _, True) (λ req, before_nul req ++ [x00]) (λ _, 0) before_nul.

(** *** The calls *)

Lemma reads_with_len w t req :
  reads w t (Some req) → ∃ l, bufs w !! l = Some (req ++ [x00]) ∧
    ngx_http_lua_ffi_get_req (Some (Ptr t 0)) true w = Ok ((Some (Ptr l 0), Some (Z.of_nat (length req))), w).
Proof. by intros (p & Hp & l & -> & Hl); exists l. Qed.

Lemma reads_without_len w t req :
  reads w t (Some req) → ∃ l, bufs w !! l = Some (req ++ [x00]) ∧
    ngx_http_lua_ffi_get_req (Some (Ptr t 0)) false w = Ok ((Some (Ptr l 0), None), w).
Proof.
  intros (l & Hl & Hr)%reads_with_len. exists l. split; [done|].
  unfold ngx_http_lua_ffi_get_req, mbind, M_bind, mret, M_ret in *.
  destruct (load_task _ w) as [[tk w1]|]; [|done]. destruct (load_ctx _ w1) as [[c w2]|]; [|done].
  by injection Hr as -> _ ->.
Qed.

Lemma size_of_length n : (Z.of_nat n < 2 ^ 31) → size_of_int (Z.of_nat n) = Z.of_nat n.
Proof. intros Hn. unfold size_of_int. apply Z.mod_small. lia. Qed.

Lemma upd_bufs_insert2 l b b' w : upd_bufs <[l := b]> (upd_brk S (upd_bufs <[l := b']> w)) =
  upd_brk S (upd_bufs <[l := b]> w).
Proof. unfold upd_bufs, upd_brk; simpl. by rewrite insert_insert_eq. Qed.

(** [malloc] and [memcpy] of a request give a copy of it. *)
Lemma copy_request {A} junk l req (w : world) (k : option ptr → M world A) :
  bufs w !! l = Some (req ++ [x00]) → bufs w !! brk w = None →
  (res ← c_malloc true junk (Z.of_nat (length req)); c_memcpy res (Some (Ptr l 0)) (Z.of_nat (length req));; k res) w =
    k (Some (Ptr (brk w) 0)) (upd_brk S (upd_bufs <[brk w := req]> w)).
Proof.
  intros Hl Hb. assert (l ≠ brk w) as Hne by (intros ->; congruence).
  unfold c_malloc. rewrite bind_assoc. erewrite bind_ok by apply alloc_buf_ok. erewrite bind_ok by apply ret_run.
  rewrite Nat2Z.id. unfold c_memcpy. rewrite bind_assoc.
  erewrite bind_ok by (apply load_bytes_ok; simpl; by rewrite lookup_insert_ne).
  rewrite bind_assoc. erewrite bind_ok by (apply load_bytes_ok; simpl; apply lookup_insert_eq).
  rewrite bind_assoc. erewrite bind_ok.
  2: { apply assume_run, andb_true_iff. rewrite length_app, length_fmap, length_seq. split; apply Z.leb_le; lia. }
  rewrite bind_assoc. erewrite bind_ok by by apply from_run. erewrite bind_ok by apply modify_run. simpl.
  rewrite Nat2Z.id, take_app_length, drop_ge by (rewrite length_fmap, length_seq; lia).
  by rewrite app_nil_r, upd_bufs_insert2.
Qed.

Lemma strdup_request {A} l req (w : world) (k : option ptr → M world A) :
  bufs w !! l = Some (req ++ [x00]) →
  (res ← c_strdup true (Some (Ptr l 0)); k res) w =
    k (Some (Ptr (brk w) 0)) (upd_brk S (upd_bufs <[brk w := before_nul req ++ [x00]]> w)).
Proof.
  intros Hl. unfold c_strdup. rewrite bind_assoc. erewrite bind_ok by by apply load_bytes_ok.
  rewrite bind_assoc. erewrite bind_ok by apply from_run, c_str_nul. rewrite bind_assoc.
  erewrite bind_ok by apply alloc_buf_ok. by erewrite bind_ok by apply ret_run.
Qed.

(** *** The four runtimes *)

Lemma sized_value req : sized req → answer_value (Some req) (Z.of_nat (length req)) = Some (LStr req).
Proof.
  intros [Hne Hb]. unfold answer_value. rewrite size_of_length by done.
  rewrite (proj2 (Z.eqb_neq _ _)) by (destruct req; simpl; [done|lia]).
  rewrite (proj2 (Z.leb_le _ _)) by lia. by rewrite Nat2Z.id, firstn_all.
Qed.

Lemma nul_terminated_value s : answer_value (Some (before_nul s ++ [x00])) 0 = Some (LStr (before_nul s)).
Proof. unfold answer_value. simpl. by rewrite c_str_nul, before_nul_idem. Qed.

#[global] Instance go_laws junk : EchoLaws (go_echo junk).
Proof.
  split; [|apply sized_value]. intros w t req [_ Hb] (l & Hl & Hr)%reads_with_len Hf. simpl. unfold go_body.
  erewrite bind_ok by exact Hr. cbn beta iota. erewrite bind_ok by by apply from_run. cbn beta iota.
  rewrite size_of_length by done. rewrite (copy_request _ l req) by done.
  unfold respond_with. by erewrite bind_ok by apply alloc_buf_ok.
Qed.

#[global] Instance java_laws junk : EchoLaws (java_echo junk).
Proof. split; apply go_laws. Qed.

#[global] Instance python_laws : EchoLaws python_echo.
Proof.
  split; [|intros req _; apply nul_terminated_value]. intros w t req _ (l & Hl & Hr)%reads_without_len _. simpl.
  unfold python_body. erewrite bind_ok by exact Hr. cbn beta iota. rewrite (strdup_request l req) by done.
  unfold respond_with. by erewrite bind_ok by apply alloc_buf_ok.
Qed.

#[global] Instance rust_laws : EchoLaws rust_echo.
Proof. split; apply python_laws. Qed.

(** ** A thread of an echo in a worker *)



Section worker.
Context {ops : NgxLua} {laws : NgxLuaLaws ops} {pool : NgxPool} {plaws : NgxPoolLaws pool}.
Context (E : echo) {HE : EchoLaws E}.



Lemma mreachable_step m me m' : mreachable m → menabled m me = true → mexec me m = Ok m' → mreachable m'.
Proof using Type.
  intros (w & es & Hi & Hr) Hen Hex. exists w, (es ++ [me]). split; [done|].
  rewrite (mrun_app _ _ _ _ Hr). simpl. by rewrite Hen, Hex.
Qed.

Lemma mreachable_run m es m' : mreachable m → mrun es m = Some (Ok m') → mreachable m'.
Proof using Type. intros (w & es0 & Hi & Hr0) Hr. exists w, (es0 ++ es). split; [done|]. by rewrite (mrun_app _ _ _ _ Hr0). Qed.

(** The turn of a task that the runtime holds is a response the protocol
    allows. *)
Lemma echo_responds m i r t req :
  mreachable m → m_runtimes m !! i = Some r → t ∈ r_held r → reads (m_world m) t (Some req) → ec_fits E req →
  ∃ m', menabled m (MRun i (ERespond t 0 (Some (ec_rsp E req)) (ec_len E req))) = true ∧
    mexec (MRun i (ERespond t 0 (Some (ec_rsp E req)) (ec_len E req))) m = Ok m' ∧ mreachable m' ∧
    poll_loop (ec_body E) (PReturn (Some (Ptr t 0))) (m_world m) = Ok (Again, m_world m').
Proof using laws plaws HE.
  intros Hm Hi Ht Hr Hf. destruct (mreachable_inv _ Hm) as [h Hinv].
  assert (menabled m (MRun i (ERespond t 0 (Some (ec_rsp E req)) (ec_len E req))) = true) as Hen.
  { simpl. rewrite Hi. simpl. rewrite bool_decide_true by done. by apply echo_rsp_fits. }
  destruct (multi_run_step _ _ _ _ Hinv Hen) as (m' & h' & Hex & _). exists m'.
  do 2 (split; [done|]). split; [by eapply mreachable_step|]. unfold poll_loop, mbind at 1, M_bind at 1.
  rewrite (echo_body_law (m_world m) t req Hf Hr) by (by apply multi_fresh_buf with h).
  simpl in Hex. rewrite Hi in Hex. unfold exec, exec_respond in Hex. simpl sw in Hex.
  destruct (respond_with t 0 _ _ (m_world m)) as [[[] w']|]; [|done]. by injection Hex as <-.
Qed.


(** C15: an echo comes back to the coroutine that posted it.  Coroutine [k] posts
    [req], which the echo can serve (for Go and Java it is not empty and its length
    an [int]); once the library holds the task, whatever else has happened, the
    turn of its thread runs without fault and is a step of the protocol; and when
    nginx comes to the answered task, whatever happens in between but a kill of
    [k], Lua and nginx go on from the world with exactly [true], the echoed string and
    [nil] on the stack of [k]. *)
Theorem echo_comes_back m i env rq req t m1 k es1 ma j r :
  mreachable m → posts m i env rq (Some req) t m1 → current (m_world m) rq = Some k → ec_fits E req →
  mrun es1 m1 = Some (Ok ma) → m_runtimes ma !! j = Some r → t ∈ r_held r →
  ∃ mb, poll_loop (ec_body E) (PReturn (Some (Ptr t 0))) (m_world ma) = Ok (Again, m_world mb) ∧
    mexec (MRun j (ERespond t 0 (Some (ec_rsp E req)) (ec_len E req))) ma = Ok mb ∧ mreachable mb ∧
    answer_value (Some (ec_rsp E req)) (ec_len E req) = Some (LStr (ec_value E req)) ∧
    ∀ es2 m2 rest i' r', mrun es2 mb = Some (Ok m2) → (∀ x, MRun x (EKill k) ∉ es1 ++ es2) →
      m_inflight m2 = t :: rest → m_runtimes m2 !! i' = Some r' →
      ∃ m3, mexec (MRun i' EHandle) m2 = Ok m3 ∧ m_inflight m3 = rest ∧
        delivers m2 t k 0 (Some (ec_rsp E req)) (ec_len E req) m3.
Proof using laws plaws HE.
  intros Hmr Hp Hcur Hf Hr1 Hj Ht. destruct (mreachable_inv _ Hmr) as [h Hm].
  assert (mreachable ma) as Hma.
  { eapply mreachable_run; [|exact Hr1]. by eapply mreachable_step; [|apply Hp|apply Hp]. }
  destruct (mreachable_inv _ Hma) as [ha0 Hma0]. pose proof (held_unhandled _ _ _ _ _ Hma0 Hj Ht) as Hn.
  destruct (post_run_keeps _ _ _ _ _ _ _ _ _ _ Hm Hp Hr1 Hn) as (ha & c & Hinv & Hta & Hva & Hwa & Hq & Haa).
  destruct (echo_responds _ _ _ _ _ Hma Hj Ht (has_request_reads _ _ _ _ Hva Hq) Hf) as (mb & Hen & Hex & Hmb & Hb).
  exists mb. do 3 (split; [done|]). split; [by apply echo_value_law|].
  intros es2 m2 rest i' r' Hr2 Hsp Hfl Hi'.
  destruct (answer_arrives ma ha j t 0 _ _ mb c k es2 m2 rest i' r' Hinv Hen Hex Hta Hva)
    as (m3 & H3 & Hrest & _ & Hd); [congruence| |done| |done|done|by exists m3].
  - apply Haa. intros x k' Hk' Hin. apply (Hsp x), elem_of_app. left. congruence.
  - intros x Hin. apply (Hsp x), elem_of_app. by right.
Qed.
End worker.

(** ** Requests that do not fit *)

Lemma reads_nothing w t len :
  reads w t None → ngx_http_lua_ffi_get_req (Some (Ptr t 0)) len w = Ok ((None, if len then Some 0 else None), w).
Proof.
  intros (p & Hr & ->). unfold ngx_http_lua_ffi_get_req, mbind, M_bind, mret, M_ret in *.
  destruct (load_task _ w) as [[tk w1]|]; [|done]. destruct (load_ctx _ w1) as [[c w2]|]; [|done].
  injection Hr as -> Hl ->. destruct len; [|done]. by rewrite Hl.
Qed.

(** The edges of the echoes.  The empty string: Go and Java answer with a
    block of no bytes and length zero, which the event handler reads as a C
    string that is not there; Python and Rust send it back.  No request at all:
    every one of them passes NULL to memcpy or strdup.  No memory: Java writes to
    NULL, Python and Rust answer [nil] with the result of a success. *)
Theorem echo_boundaries junk w t req :
  bufs w !! brk w = None →
  (reads w t (Some []) → ∀ body, body = go_body junk ∨ body = java_body true junk →
     body (Some (Ptr t 0)) w = respond_with t 0 (Some []) 0 w ∧
     answer_value (Some []) 0 = None ∧ rsp_fits (Some []) 0 = false) ∧
  (reads w t None → ∀ body,
     body ∈ [go_body junk; java_body true junk; python_body true; rust_body true] →
     body (Some (Ptr t 0)) w = UB NullDeref) ∧
  (reads w t (Some req) → java_body false junk (Some (Ptr t 0)) w = UB NullDeref ∧
     ∀ body, body = python_body false ∨ body = rust_body false →
       body (Some (Ptr t 0)) w = respond_with t 0 None 0 w ∧ answer_value None 0 = Some LNil).
Proof.
  intros Hb. split; [|split].
  - intros (l & Hl & Hr)%reads_with_len body Hbody. split; [|done].
    assert (body (Some (Ptr t 0)) w = go_body junk (Some (Ptr t 0)) w) as -> by by destruct Hbody as [-> | ->].
    unfold go_body. erewrite bind_ok by exact Hr. cbn beta iota. erewrite bind_ok by by apply from_run.
    rewrite size_of_length by (simpl; lia). rewrite (copy_request _ l []) by done.
    unfold respond_with. by erewrite bind_ok by apply alloc_buf_ok.
  - intros Hr body Hbody. rewrite !elem_of_cons, elem_of_nil in Hbody.
    destruct Hbody as [-> |[-> |[-> |[-> |[]]]]];
      unfold go_body, java_body, python_body, rust_body; by erewrite bind_ok by apply (reads_nothing _ _ _ Hr).
  - intros Hreads. split; [|intros body Hbody; split; [|done]].
    + apply reads_with_len in Hreads as (l & Hl & Hr). unfold java_body. erewrite bind_ok by exact Hr. cbn beta iota.
      erewrite bind_ok by by apply from_run. unfold c_malloc. erewrite bind_ok by apply ret_run.
      unfold c_memcpy. rewrite bind_assoc. by erewrite bind_ok by by apply load_bytes_ok.
    + apply reads_without_len in Hreads as (l & Hl & Hr).
      assert (body (Some (Ptr t 0)) w = python_body false (Some (Ptr t 0)) w) as -> by by destruct Hbody as [-> | ->].
      unfold python_body. erewrite bind_ok by exact Hr. cbn beta iota. unfold c_strdup. rewrite bind_assoc.
      erewrite bind_ok by by apply load_bytes_ok. rewrite bind_assoc.
      by erewrite bind_ok by apply from_run, c_str_nul.
Qed.

(** ** Instances *)

Definition demo_junk : nat → byte := λ _, xff.

(** The request of [demo_after] was polled by the first runtime. *)
Definition demo_taken : msys := msys_of (mrun [MRun 0 (EPoll env_ok 1)] demo_after).
Definition demo_taker : runtime := Runtime false [3%nat] [3%nat] [3%nat] 0.

Lemma demo_hi_fits : sized hi.
Proof. by split. Qed.



Lemma echo_comes_back_witness :
  ∃ mb, go_loop demo_junk (PReturn (Some (Ptr 3 0))) (m_world demo_taken) = Ok (Again, m_world mb) ∧
    mreachable mb ∧ answer_value (Some hi) 2 = Some (LStr hi).
Proof.
  destruct (echo_comes_back (go_echo demo_junk) demo_before 0 env_ok 7 hi 3 demo_after 3 [MRun 0 (EPoll env_ok 1)]
              demo_taken 0 demo_taker) as (mb & H1 & _ & H2 & H3 & _);
    [unfold demo_before; mdemo|exact demo_posts|vm_compute; reflexivity|exact demo_hi_fits|vm_compute; reflexivity
    |vm_compute; reflexivity|by left|].
  exact (ex_intro _ mb (conj H1 (conj H2 H3))).
Defined.

Lemma demo_taken_reads : reads (m_world demo_taken) 3 (Some hi).
Proof. eexists. split; [vm_compute; reflexivity|]. by exists 2%nat. Qed.

Lemma echo_boundaries_witness :
  java_body false demo_junk (Some (Ptr 3 0)) (m_world demo_taken) = UB NullDeref.
Proof.
  destruct (echo_boundaries demo_junk (m_world demo_taken) 3 hi) as (_ & _ & H); [vm_compute; reflexivity|].
  by apply (H demo_taken_reads).
Defined.
