(* ===== verification/FineSteps.v ===== *)
(** * FineSteps: posts and responses in two halves

    In [System] and [Multi] a call is one step.  [ngx_http_lua_ffi_task_post] and
    [ngx_http_lua_ffi_respond] do a part of their work before they take a lock: the
    request and the task are allocated, or the result is stored in the task, while
    other threads run.  Here the two calls are cut at that point, into definitions
    whose sequence is the call, and a worker in which the halves are steps of their
    own: nginx's thread may have one prepared task, and any number of threads may
    have stored a result that they have not yet put into the done queue. *)

From S2P Require Import Prelude World TaskQueue FfiTask FfiQueue EventHandler Ownership System Multi.
From S2P Require Import Spec Invariant Posting Polling Answering Safety MultiInvariant.

(** ** The halves of a post *)

(** Before the queue is locked: the task with its context and its request. *)
Definition task_prepare (env : sysenv) (r : rid) (req : option ptr) (req_len : Z) : M world (option ptr * option ptr) :=
  task ← ngx_http_lua_ffi_create_task env r;
  t ← load_task task;
  modify_ctx (t_ctx t) (set_req req req_len);;
  mret (task, t_ctx t).

(** From [ngx_task_post] on. *)
Definition task_commit (env : sysenv) (tp task ctx : option ptr) : M world Z :=
  rc ← ngx_task_post env tp task;
  if negb (rc =? NGX_OK) then
    ngx_http_lua_ffi_task_free ctx;;
    mret NGX_ERROR
  else mret NGX_OK.

Definition post_prepare (env : sysenv) (r : rid) (req : option (list byte)) : M world (option ptr * option ptr) :=
  match req with
  | Some s =>
      buf ← alloc_buf (s ++ [x00]);
      task_prepare env r (Some buf) (Z.of_nat (length s))
  | None => task_prepare env r None 0
  end.

Lemma lua_post_halves env r tq req w :
  lua_post env r tq req w = ('(task, ctx) ← post_prepare env r req; task_commit env tq task ctx) w.
Proof.
  assert (∀ p len w0, ngx_http_lua_ffi_task_post env r tq p len w0 =
    ('(task, ctx) ← task_prepare env r p len; task_commit env tq task ctx) w0) as H.
  { intros p len w0. unfold ngx_http_lua_ffi_task_post, task_prepare, task_commit, mbind, M_bind, mret, M_ret.
    by repeat case_match. }
  destruct req as [s|]; simpl; [|apply H]. rewrite bind_assoc. unfold mbind, M_bind. simpl. apply H.
Qed.

(** ** The halves of a response *)

(** The result is stored in the task ... *)
Definition respond_set (t : loc) (rc : Z) (rsp : option (list byte)) (len : Z) : M world () :=
  p ← (match rsp with Some b => p ← alloc_buf b; mret (Some p) | None => mret None end);
  task ← load_task (Some (Ptr t 0));
  modify_ctx (t_ctx task) (set_rsp rc p len).

(** ... and the task goes into the done queue. *)
Definition respond_inject (t : loc) : M world () := ngx_thread_pool_notify_inject (Some (Ptr t 0)).

Lemma respond_halves t rc rsp len w :
  respond_with t rc rsp len w = (respond_set t rc rsp len;; respond_inject t) w.
Proof.
  unfold respond_with, respond_set, respond_inject, ngx_http_lua_ffi_respond.
  destruct rsp as [b|]; unfold mbind, M_bind, mret, M_ret; by repeat case_match.
Qed.

(** ** States *)

(** A post between its halves. *)
Record prepared := Prepared {
  p_queue : loc;
  p_env : sysenv;
  p_rid : rid;
  p_req : option (list byte);
  p_task : ptr;
  p_ctx : option ptr;
  p_co : option cid;
}.

Definition p_loc (p : prepared) : loc := p_blk (p_task p).

Record fine := Fine {
  f_sys : msys;
  f_prep : option prepared;
  f_ans : list loc;       (* answered tasks that are not in the done queue yet *)
}.

Inductive fevent :=
  | FStep (me : mevent)
  | FPrepare (i : loc) (env : sysenv) (r : rid) (req : option (list byte))
  | FCommit
  | FSet (i : loc) (t : loc) (rc : Z) (rsp : option (list byte)) (len : Z)
  | FInject (i : loc) (t : loc).

(** Posts and responses are only made in halves. *)
Definition whole_step (me : mevent) : bool :=
  match me with
  | MRun _ (EPost _ _ _) | MRun _ (ERespond _ _ _ _) => false
  | _ => true
  end.

(** The steps of the threads of the libraries; nginx's own thread takes none
    while it is inside a post. *)
Definition library_step (me : mevent) : bool :=
  match me with
  | MRun _ (EPoll _ _) | MRun _ (EWake _ _) | MRun _ (ESpurious _) => true
  | _ => false
  end.

Definition idle (f : fine) : bool := match f_prep f with None => true | Some _ => false end.

Definition fenabled (f : fine) (e : fevent) : bool :=
  match e with
  | FStep me => whole_step me && (library_step me || idle f) && menabled (f_sys f) me
  | FPrepare i env r req => idle f && menabled (f_sys f) (MRun i (EPost env r req))
  | FCommit => negb (idle f)
  | FSet i t rc rsp len => bool_decide (t ∉ f_ans f) && menabled (f_sys f) (MRun i (ERespond t rc rsp len))
  | FInject i t =>
      bool_decide (t ∈ f_ans f) &&
      match m_runtimes (f_sys f) !! i with Some r => bool_decide (t ∈ r_held r) | None => false end
  end.

(** ** Steps *)

Section steps.
Context {ops : NgxLua} {pool : NgxPool}.

Definition on_sys (f : fine) (r : res msys) : res fine :=
  match r with UB e => UB e | Ok m => Ok (Fine m (f_prep f) (f_ans f)) end.

Definition fexec_prepare (i : loc) (env : sysenv) (r : rid) (req : option (list byte)) (f : fine) : res fine :=
  let m := f_sys f in
  match post_prepare env r req (m_world m) with
  | UB e => UB e
  | Ok ((Some task, ctx), w) =>
      Ok (Fine (set_m_world w m) (Some (Prepared i env r req task ctx (current (m_world m) r))) (f_ans f))
  | Ok ((None, _), w) => Ok (Fine (set_m_world w m) None (f_ans f))
  end.

Definition post_runtime (t : loc) (r : runtime) : runtime :=
  Runtime (r_finished r) (r_held r) (r_posted r ++ [t]) (r_polled r) (r_lost r).

(** As in [exec_post], an accepted request suspends the coroutine. *)
Definition fexec_commit (f : fine) : res fine :=
  let m := f_sys f in
  match f_prep f with
  | None => Ok f
  | Some p =>
      match task_commit (p_env p) (Some (Ptr (p_queue p) 0)) (Some (p_task p)) (p_ctx p) (m_world m) with
      | UB e => UB e
      | Ok (rc, w) =>
          if rc =? NGX_OK then
            Ok (Fine (MSys w (alter (post_runtime (p_loc p)) (p_queue p) (m_runtimes m)) (m_inflight m)
                        (match p_co p with Some k => {[ k ]} | None => ∅ end ∪ m_waiting m) (m_handled m))
                     None (f_ans f))
          else Ok (Fine (set_m_world w m) None (f_ans f))
      end
  end.

Definition fexec_set (t : loc) (rc : Z) (rsp : option (list byte)) (len : Z) (f : fine) : res fine :=
  let m := f_sys f in
  match respond_set t rc rsp len (m_world m) with
  | UB e => UB e
  | Ok (_, w) => Ok (Fine (set_m_world w m) (f_prep f) (f_ans f ++ [t]))
  end.

Definition drop_held (t : loc) (r : runtime) : runtime :=
  Runtime (r_finished r) (filter (λ x, x ≠ t) (r_held r)) (r_posted r) (r_polled r) (r_lost r).

Definition fexec_inject (i t : loc) (f : fine) : res fine :=
  let m := f_sys f in
  match respond_inject t (m_world m) with
  | UB e => UB e
  | Ok (_, w) =>
      Ok (Fine (MSys w (alter (drop_held t) i (m_runtimes m)) (m_inflight m) (m_waiting m) (m_handled m))
               (f_prep f) (filter (λ x, x ≠ t) (f_ans f)))
  end.

Definition fexec (e : fevent) (f : fine) : res fine :=
  match e with
  | FStep me => on_sys f (mexec me (f_sys f))
  | FPrepare i env r req => fexec_prepare i env r req f
  | FCommit => fexec_commit f
  | FSet _ t rc rsp len => fexec_set t rc rsp len f
  | FInject i t => fexec_inject i t f
  end.

(** Executions; [None] when the protocol forbids a step. *)
Fixpoint frun (es : list fevent) (f : fine) : option (res fine) :=
  match es with
  | [] => Some (Ok f)
  | e :: es =>
      if fenabled f e then
        match fexec e f with
        | Ok f' => frun es f'
        | UB x => Some (UB x)
        end
      else None
  end.
End steps.

Definition at_rest (m : msys) : fine := Fine m None [].

(** [f] occurs in an execution on a worker that starts with no library loaded. *)
Definition freachable {ops : NgxLua} {pool : NgxPool} (f : fine) : Prop :=
  ∃ w es, idle_world w ∧ frun es (at_rest (no_runtimes w)) = Some (Ok f).

(** ** The worker between the halves

    The state of [Multi] that a fine state stands for: a task whose answer is
    stored counts as taken by nginx, and the prepared task as one that a runtime of
    its own holds, whose queue is gone. *)

Definition hide_runtime (ans : list loc) (r : runtime) : runtime :=
  Runtime (r_finished r) (filter (λ x, x ∉ ans) (r_held r)) (r_posted r) (r_polled r) (r_lost r).

Definition lone_runtime (t : loc) : runtime := Runtime true [t] [t] [t] 0.

Definition p_waits (p : prepared) : gset cid := match p_co p with Some k => {[ k ]} | None => ∅ end.

Definition with_prepared (o : option prepared) (m : msys) : msys :=
  match o with
  | None => m
  | Some p => MSys (m_world m) (<[p_loc p := lone_runtime (p_loc p)]> (m_runtimes m)) (m_inflight m)
                   (p_waits p ∪ m_waiting m) (m_handled m)
  end.

Definition with_answered (ans : list loc) (m : msys) : msys :=
  MSys (m_world m) (hide_runtime ans <$> m_runtimes m) (m_inflight m ++ ans) (m_waiting m) (m_handled m).

Definition whole (f : fine) : msys := with_prepared (f_prep f) (with_answered (f_ans f) (f_sys f)).
