(* ===== verification/FineInvariant.v ===== *)
(** * FineInvariant: the halves of a post and of a response keep the invariant

    For each half, that it runs without fault on a state that satisfies
    [multi_inv], and that [multi_inv] holds again of the state that [whole] makes
    of the result. *)

From S2P Require Import Prelude World TaskQueue FfiTask FfiQueue EventHandler Ownership System.
From S2P Require Import Spec Invariant Posting Polling Answering Safety Multi MultiInvariant.
From S2P Require Import FineSteps.
From AAC_tactics Require Import AAC.
From AAC_tactics Require Instances.
Import Instances.Lists.

(** Permutations of concatenations, modulo associativity and commutativity. *)
#[local] Instance permutation_lift : AAC_lift (@Permutation loc) (@Permutation loc) :=
  Build_AAC_lift _ _.

(** ** Where the tasks are *)

(** What queue [i] holds. *)
Definition queued (h : shape) (i : loc) : list loc := sh_pending h i ++ marker_list (sh_marker h i).

Lemma gqueued_perm h ms : gather (λ i _, queued h i) ms ≡ₚ gpending h ms ++ gmarks h ms.
Proof. apply (gather_app (λ i _, sh_pending h i) (λ i _, marker_list (sh_marker h i))). Qed.

Section places.
Context (m : msys) (h : shape).
Hypothesis Hm : multi_inv m h.

Lemma places_nodup :
  NoDup (gather (λ i _, queued h i) (m_runtimes m) ++ gheld (m_runtimes m) ++ sh_done h ++ m_inflight m).
Proof using Hm. rewrite gqueued_perm, <-app_assoc. apply (mi_heap _ _ Hm). Qed.

Lemma elem_of_queued i r y :
  m_runtimes m !! i = Some r → y ∈ queued h i → y ∈ gather (λ i _, queued h i) (m_runtimes m).
Proof using Type. intros Hi Hy. apply elem_of_gather. by exists i, r. Qed.

Lemma queued_apart i j r r' y :
  i ≠ j → m_runtimes m !! i = Some r → m_runtimes m !! j = Some r' → y ∈ queued h i → y ∉ queued h j.
Proof using Hm.
  intros Hne Hi Hj Hy Hy'. pose proof places_nodup as (Hn & _ & _)%NoDup_app. apply Hne.
  by eapply (gather_apart (λ i _, queued h i)).
Qed.

Lemma queued_not_out i r y :
  m_runtimes m !! i = Some r → y ∈ queued h i → y ∉ gheld (m_runtimes m) ++ sh_done h ++ m_inflight m.
Proof using Hm.
  intros Hi Hy. pose proof places_nodup as (_ & Hn & _)%NoDup_app. apply Hn. by eapply elem_of_queued.
Qed.

Lemma held_not_done y : y ∈ gheld (m_runtimes m) → y ∉ sh_done h ++ m_inflight m.
Proof using Hm.
  pose proof places_nodup as (_ & _ & Hn)%NoDup_app. apply NoDup_app in Hn as (_ & Hn & _). apply Hn.
Qed.

Lemma done_not_inflight y : y ∈ m_inflight m → y ∉ sh_done h.
Proof using Hm.
  pose proof places_nodup as (_ & _ & Hn)%NoDup_app. apply NoDup_app in Hn as (_ & _ & Hn).
  apply NoDup_app in Hn as (_ & Hn & _). intros Hy Hy'. by apply (Hn y).
Qed.
End places.

(** A runtime whose queue and whose queued tasks keep their links. *)
Lemma runtime_inv_frame w w' i r pl mk :
  queues w' !! i = queues w !! i → same_links (tasks w) (tasks w') (pl ++ marker_list mk) →
  (∀ t, mk = Some t → views (tasks w') !! t = views (tasks w) !! t) →
  runtime_inv w i r pl mk → runtime_inv w' i r pl mk.
Proof.
  intros Hq Hl Hv [A B C D]. split; [|intros t Ht; rewrite Hv by done; by apply B|done|done].
  rewrite Hq. destruct (queues w !! i) as [q|] eqn:E; [|done]. eapply queue_inv_links; [|done|exact A]. congruence.
Qed.

(** The links of tasks that are not changed by appending [t] behind [l]. *)
Lemma same_links_appended ms f l t ql :
  t ∉ ql → (∀ y, y ∈ l → y ∉ ql) → same_links ms (link l t (alter f t ms)) ql.
Proof.
  intros Ht Hl. eapply same_links_trans; [by apply same_links_alter_ne|].
  apply same_links_link. intros z Hz. by eapply link_last_notin.
Qed.

(** ** Putting an answered task into the done queue *)

Definition with_done (dl : list loc) (h : shape) : shape := Shape (sh_pending h) (sh_marker h) dl.

Lemma multi_inv_inflight m h l :
  m_inflight m ≡ₚ l → multi_inv m h → multi_inv (MSys (m_world m) (m_runtimes m) l (m_waiting m) (m_handled m)) h.
Proof.
  intros Hl [A B C D E G Hc T U V N O P]. split; simpl; try done.
  - eapply heap_inv_perm; [|exact G]. by rewrite Hl.
  - intros t. rewrite <-Hl. apply T.
  - by rewrite <-Hl.
Qed.

Section inject.
Context (m : msys) (h : shape) (t : loc) (l : list loc).
Hypothesis Hm : multi_inv m h.
Hypothesis Ht : m_inflight m ≡ₚ t :: l.

Let w := m_world m.
Definition inject_world : world :=
  upd_calls (λ l, l ++ [CNotify])
    (upd_pool_done (appended (sh_done h) t)
       (upd_tasks (λ ms, link (sh_done h) t (alter (map_tb_task (set_t_next None)) t ms)) w)).

Lemma inject_views : views (tasks inject_world) = views (tasks w).
Proof using Type. simpl. rewrite views_link. by apply views_alter_id. Qed.

Lemma inject_in : t ∈ m_inflight m.
Proof using Ht. rewrite Ht. by left. Qed.

Lemma inject_block : ∃ b, tasks w !! t = Some b.
Proof using Hm Ht.
  destruct (mi_tasks _ _ Hm t) as [c Hc]; [rewrite !elem_of_app; right; right; right; apply inject_in|].
  destruct (view_task_block _ _ _ Hc) as (b & Hb & _). by exists b.
Qed.

Lemma inject_runs : respond_inject t w = Ok ((), inject_world).
Proof using Hm Ht.
  destruct inject_block as [b Hb]. eapply inject_run; [exact Hb|apply Hm|apply Hm|].
  apply (done_not_inflight _ _ Hm), inject_in.
Qed.

Lemma inject_links ql :
  t ∉ ql → (∀ y, y ∈ sh_done h → y ∉ ql) → same_links (tasks w) (tasks inject_world) ql.
Proof using Type. apply same_links_appended. Qed.

Lemma inject_inv :
  multi_inv (MSys inject_world (m_runtimes m) l (m_waiting m) (m_handled m)) (with_done (sh_done h ++ [t]) h).
Proof using Hm Ht.
  pose proof inject_views as Hv. destruct inject_block as [b Hb].
  pose proof (done_not_inflight _ _ Hm t inject_in) as Htd. pose proof Hm as [A B C D E G Hc T U V N O P].
  split; try done; cbn [m_world m_runtimes m_inflight m_waiting m_handled sh_done with_done].
  - intros j r Hj. apply (runtime_inv_frame w); [done| |intros x _; by rewrite Hv|by apply A].
    apply inject_links; intros; intros Hin; eapply (queued_not_out _ _ Hm j r _ Hj Hin);
      rewrite !elem_of_app; [right; right; apply inject_in|by right; left].
  - eapply queue_repr_append.
    + eapply queue_repr_frame; [|exact D]. by apply same_links_alter_ne.
    + done.
    + fold w. by rewrite lookup_alter_eq, Hb.
    + done.
  - rewrite Hv. eapply heap_inv_perm; [|exact G]. by rewrite Ht, <-app_assoc.
  - rewrite Hv. by apply (co_inv_same _ w).
  - intros y Hy. rewrite Hv. apply T. rewrite Ht. rewrite !elem_of_app, list_elem_of_singleton in Hy.
    rewrite !elem_of_app, elem_of_cons. tauto.
  - rewrite Hv. exact U.
  - by rewrite V, Ht, <-app_assoc.
Qed.
End inject.

(** ** Storing a result in a task *)

Lemma gather_same f ms i r r' :
  ms !! i = Some r → f i r' = f i r → gather f (<[i := r']> ms) ≡ₚ gather f ms.
Proof. intros Hi Hf. rewrite gather_update, Hf. symmetry. by apply gather_delete. Qed.

Section set.
Context (m : msys) (h : shape) (i : loc) (r : runtime) (t : loc) (rc : Z) (rsp : option (list byte)) (len : Z).
Hypothesis Hm : multi_inv m h.
Hypothesis Hi : m_runtimes m !! i = Some r.
Hypothesis Ht : t ∈ r_held r.
Hypothesis Hfit : rsp_fits rsp len = true.

Let w := m_world m.
Let ms' := <[i := drop_held t r]> (m_runtimes m).

Lemma set_held : gheld (m_runtimes m) ≡ₚ t :: gheld ms'.
Proof using Hm Hi Ht.
  unfold ms', gheld. rewrite gather_update, (gather_delete _ _ i r Hi). simpl. rewrite app_comm_cons.
  apply Permutation_app_tail, filter_ne_perm; [|done].
  pose proof (places_nodup _ _ Hm) as (_ & _ & Hn)%NoDup_app. apply NoDup_app in Hn as (Hn & _ & _).
  rewrite (gheld_split _ _ _ Hi) in Hn. by apply NoDup_app in Hn as (Hn & _ & _).
Qed.

Lemma set_in : t ∈ gheld (m_runtimes m).
Proof using Hm Hi Ht. rewrite set_held. by left. Qed.

Lemma set_view : ∃ c, views (tasks w) !! t = Some (task_view t c) ∧ c_rsp c = None ∧ ctx_wf (bufs w) c.
Proof using Hm Hi Ht.
  pose proof set_in as Hin. destruct (mi_tasks _ _ Hm t) as [c Hc]; [rewrite !elem_of_app; by right; left|].
  exists c. split; [done|]. split; [eapply (mi_unanswered _ _ Hm t); [rewrite elem_of_app; by right|done]|].
  destruct (hi_wf _ _ _ _ (mi_heap _ _ Hm) t _ Hc) as [Hbad|(c0 & Hc0 & Hwf)]; [done|].
  unfold task_view in Hc0. by simplify_eq.
Qed.

Definition set_world' : world :=
  upd_tasks (alter (map_tb_ctx (set_rsp rc (rsp_ptr w rsp) len)) t) (rsp_world w rsp).

Lemma set_runs : respond_set t rc rsp len w = Ok ((), set_world').
Proof using Hm Hi Ht.
  clear Hfit. destruct set_view as (c & Hc & _). destruct (view_task_block _ _ _ Hc) as (b & Hb & Hp & _ & Hcx).
  destruct (rsp_world_facts w rsp) as (Et & _). unfold respond_set.
  erewrite bind_ok by (instantiate (1 := rsp_world w rsp); instantiate (1 := rsp_ptr w rsp); by destruct rsp).
  erewrite bind_ok by (apply load_task_ok; by rewrite Et). rewrite Hp.
  eapply modify_ctx_ok; [by rewrite Et|done].
Qed.

Lemma set_views c :
  views (tasks w) !! t = Some (task_view t c) →
  views (tasks set_world') = <[t := task_view t (set_rsp rc (rsp_ptr w rsp) len c)]> (views (tasks w)).
Proof using Type.
  intros Hc. destruct (view_task_block _ _ _ Hc) as (b & Hb & Hp & Hd & Hcx). simpl.
  rewrite (proj1 (rsp_world_facts w rsp)), (alter_alt_Some _ _ _ b Hb), views_insert. f_equal.
  unfold view, task_view, map_tb_ctx; simpl. by rewrite Hp, Hd, Hcx.
Qed.

Lemma set_links ql : same_links (tasks w) (tasks set_world') ql.
Proof using Type. simpl. rewrite (proj1 (rsp_world_facts w rsp)). by apply same_links_alter. Qed.

(** None of the queued tasks is the one that is answered. *)
Lemma set_not_queued y : y ∈ gpending h (m_runtimes m) ++ gmarks h (m_runtimes m) → y ≠ t.
Proof using Hm Hi Ht.
  intros Hy ->. rewrite <-gqueued_perm in Hy. apply elem_of_gather in Hy as (j & r' & Hj & Hy).
  apply (queued_not_out _ _ Hm j r' t Hj Hy). rewrite elem_of_app. left. apply set_in.
Qed.

Lemma set_runtime j r' : ms' !! j = Some r' → runtime_inv set_world' j r' (sh_pending h j) (sh_marker h j).
Proof using Hm Hi Ht.
  destruct set_view as (c & Hc & _). destruct (rsp_world_facts w rsp) as (_ & _ & _ & Eq & _).
  assert (∀ j r', m_runtimes m !! j = Some r' → runtime_inv set_world' j r' (sh_pending h j) (sh_marker h j)) as A'.
  { intros j0 r0 Hj. apply (runtime_inv_frame w); [simpl; by rewrite Eq|apply set_links| |by apply (mi_runtime _ _ Hm)].
    intros x Hx. rewrite (set_views c Hc), lookup_insert_ne; [done|]. apply not_eq_sym, set_not_queued.
    rewrite elem_of_app. right. apply elem_of_gather. exists j0, r0. by rewrite Hx, marker_in. }
  intros [[<- <-]|[Hne Hj]]%lookup_insert_Some; [|by apply A'].
  destruct (A' i r Hi) as [A1 A2 A3 A4]. split; try done. simpl. intros x [_ Hx]%elem_of_filter_ne. by apply A4.
Qed.

Lemma set_gather f : f i (drop_held t r) = f i r → gather f ms' ≡ₚ gather f (m_runtimes m).
Proof using Hi. intros Hf. by apply (gather_same f _ i r). Qed.

Lemma set_inv : multi_inv (MSys set_world' ms' (m_inflight m ++ [t]) (m_waiting m) (m_handled m)) h.
Proof using Hm Hi Ht Hfit.
  destruct set_view as (c & Hc & Hn & Hwf). pose proof (set_views c Hc) as Hv.
  destruct (rsp_world_facts w rsp) as (Et & Ed & El & Eq & Ec & Eth & Er & Hb). pose proof set_not_queued as Hpt.
  pose proof (set_gather (λ i _, sh_pending h i) eq_refl) as Gp. fold (gpending h) in Gp.
  pose proof (set_gather (λ i _, marker_list (sh_marker h i)) eq_refl) as Gm. fold (gmarks h) in Gm.
  pose proof (set_gather (λ _, r_posted) eq_refl) as Go. fold gposted in Go.
  pose proof (set_gather (λ _, r_polled) eq_refl) as Gl. fold gpolled in Gl.
  pose proof set_runtime as A'. pose proof Hm as [A B C D E G Hco T U V N O P].
  split; cbn [m_world m_runtimes m_inflight m_waiting m_handled]; [exact A'|..].
  - intros j. simpl. rewrite Eq. intros Hq%B. unfold ms'. rewrite lookup_insert_is_Some.
    destruct (decide (i = j)); [by left|by right].
  - intros j. unfold ms'. rewrite lookup_insert_is_Some. simpl. fold w in C. intros [<-|[_ Hj]].
    + pose proof (C i ltac:(by eexists)). lia.
    + specialize (C j Hj). lia.
  - simpl. rewrite Ed. eapply queue_repr_frame; [apply set_links|exact D].
  - simpl. rewrite El. exact E.
  - rewrite Hv. eapply heap_inv_update; [exact G|exact Hc| |exact Hb| | |].
    + rewrite Gp, Gm, set_held. do 2 apply Permutation_app_head. simpl. rewrite !app_assoc.
      apply Permutation_cons_append.
    + right. eexists. split; [done|]. by apply answered_ctx_wf; [apply G|..].
    + by eapply answered_reowned.
    + intros l. by eapply answered_owned.
  - rewrite Hv. eapply co_inv_update; [exact Hco|exact Hc| | |by apply co_frame_same].
    + intros k. split; intros (c0 & [= <-] & Ha & Hk); by eexists.
    + intros c0 [= <-] Ha. destruct (ci_task _ _ _ Hco t _ c Hc) as (k & Hk & _); [done..|].
      exists k. split; [done|]. by exists c.
  - intros y Hy. rewrite Hv. destruct (decide (y = t)) as [->|Hne]; [rewrite lookup_insert_eq; by eexists|].
    rewrite lookup_insert_ne by done. apply T. rewrite Gp in Hy. rewrite set_held.
    rewrite !elem_of_app, list_elem_of_singleton in Hy. rewrite !elem_of_app, elem_of_cons. tauto.
  - intros y c0. rewrite Gp, Hv, elem_of_app. intros Hy.
    assert (y ≠ t) as Hne; [|rewrite lookup_insert_ne by done; apply U; rewrite set_held, elem_of_app, elem_of_cons; tauto].
    destruct Hy as [Hy|Hy]; [apply Hpt; rewrite elem_of_app; by left|]. intros ->.
    pose proof (places_nodup _ _ Hm) as (_ & _ & Hnd)%NoDup_app. apply NoDup_app in Hnd as (Hnd & _ & _).
    rewrite set_held in Hnd. by apply NoDup_cons in Hnd as [? _].
  - rewrite Gl, V, set_held, <-!app_assoc. simpl. by rewrite !Permutation_middle.
  - by rewrite Go.
  - intros y. rewrite Go. intros Hy. specialize (O y Hy). simpl. fold w in O. lia.
  - intros y. rewrite Gm, Go. apply P.
Qed.
End set.

(** ** Preparing a post *)

Lemma post_prepare_split env r req w :
  post_prepare env r req w = task_prepare env r (post_ptr w req) (post_len req) (post_world w req).
Proof. by destruct req. Qed.

Lemma post_owned w req k t l :
  l ∈ owned (task_view t (posted_ctx k (post_ptr w req) (post_len req))) → (l < brk (post_world w req))%nat.
Proof.
  unfold owned, owned_ctx. simpl. rewrite app_nil_r.
  destruct req; simpl; [intros ->%list_elem_of_singleton; lia|by intros ?%elem_of_nil].
Qed.

(** A runtime whose key is not in use yet. *)
Section fresh.
Context (m : msys) (h : shape) (t : loc) (dl : list loc).
Hypothesis Hnew : m_runtimes m !! t = None.

Let ms' := <[t := lone_runtime t]> (m_runtimes m).
Let h' := reshape t [] None dl h.

Lemma fresh_gather (f : shape → loc → runtime → list loc) :
  (∀ j r, j ≠ t → f h' j r = f h j r) → gather (f h') ms' ≡ₚ f h' t (lone_runtime t) ++ gather (f h) (m_runtimes m).
Proof using Hnew.
  intros Hf. unfold ms'. rewrite (gather_insert _ _ _ _ Hnew). apply Permutation_app_head.
  rewrite (gather_ext (f h') (f h)); [done|]. intros j r Hj. apply Hf. intros ->. congruence.
Qed.

Lemma fresh_pending : gpending h' ms' ≡ₚ gpending h (m_runtimes m).
Proof using Hnew.
  rewrite (fresh_gather (λ h i _, sh_pending h i)); simpl; [by rewrite decide_True|].
  intros j _ Hj. by rewrite decide_False.
Qed.

Lemma fresh_marks : gmarks h' ms' ≡ₚ gmarks h (m_runtimes m).
Proof using Hnew.
  rewrite (fresh_gather (λ h i _, marker_list (sh_marker h i))); simpl; [by rewrite decide_True|].
  intros j _ Hj. by rewrite decide_False.
Qed.
End fresh.

Section prepare.
Context (m : msys) (h : shape) (i : loc) (rt : runtime) (env : sysenv) (r : rid) (req : option (list byte)).
Hypothesis Hm : multi_inv m h.
Hypothesis Hi : m_runtimes m !! i = Some rt.
Hypothesis Hen : enabled (focus i rt m) (EPost env r req) = true.

Let w := m_world m.
Let t := brk (post_world w req).

Definition prepare_world (k : cid) : world :=
  upd_cos (alter (armed t) k)
    (upd_tasks <[t := posted_block k t (post_ptr w req) (post_len req)]> (upd_brk S (post_world w req))).

Lemma prepare_facts :
  r_finished rt = false ∧ e_calloc env = true ∧ e_unlock env = NGX_OK ∧
  ∃ k x, current w r = Some k ∧ k ∉ m_waiting m ∧ cos w !! k = Some x ∧ live_thread w x.
Proof using Hm Hi Hen.
  destruct (multi_inv_seen _ _ _ _ Hi Hm) as [Hinv _].
  destruct (post_enabled_facts _ _ _ _ _ _ _ Hinv (enabled_widen _ _ _ _ Hen)) as (H1 & H2 & H3 & _ & _ & H4).
  by split_and!.
Qed.

Lemma prepare_fresh : tasks w !! t = None ∧ m_runtimes m !! t = None ∧ queues w !! t = None ∧ (brk w ≤ t)%nat.
Proof using Hm.
  assert (brk w ≤ t)%nat as Hle by apply post_world_facts.
  assert (m_runtimes m !! t = None) as Hr.
  { apply eq_None_not_Some. intros Hs%(mi_id _ _ Hm). fold w in Hs. lia. }
  split_and!; [|done| |done].
  - destruct (tasks w !! t) eqn:E; [|done].
    assert (t < brk w)%nat; [|lia]. eapply (hi_fresh _ _ _ _ (mi_heap _ _ Hm)). erewrite views_some; eauto.
  - apply eq_None_not_Some. intros Hs%(mi_only _ _ Hm). rewrite Hr in Hs. by destruct Hs.
Qed.

Lemma prepare_nowhere y :
  y ∈ gather (λ i _, queued h i) (m_runtimes m) ++ gheld (m_runtimes m) ++ sh_done h ++ m_inflight m → y ≠ t.
Proof using Hm.
  intros Hy ->. rewrite gqueued_perm, <-app_assoc in Hy. apply (hi_dom _ _ _ _ (mi_heap _ _ Hm)) in Hy.
  rewrite views_none in Hy; [by destruct Hy|]. apply prepare_fresh.
Qed.

Lemma prepare_runs k x :
  e_calloc env = true → current w r = Some k → cos w !! k = Some x →
  post_prepare env r req w = Ok ((Some (Ptr t 0), Some (Ptr t 1)), prepare_world k).
Proof using Type.
  intros Ha Hc Hx. destruct (post_world_facts w req) as (_ & _ & _ & _ & Ec & _ & Er & _).
  assert (∃ y lc, reqs w !! r = Some y ∧ r_ctx y = Some lc ∧ cur_co_ctx lc = Some k) as (y & lc & Hr & Hy & Hk).
  { unfold current in Hc. destruct (reqs w !! r) as [y|]; simpl in Hc; [|done].
    destruct (r_ctx y) as [lc|] eqn:E; simpl in Hc; [|done]. eauto. }
  rewrite post_prepare_split. unfold task_prepare.
  erewrite bind_ok by (eapply create_task_run; [done|by rewrite Er|done|done|by rewrite Ec]).
  erewrite bind_ok by (apply load_task_ok; simpl; apply lookup_insert_eq). simpl.
  erewrite bind_ok by (eapply modify_ctx_ok; [simpl; apply lookup_insert_eq|done]).
  rewrite ret_run. unfold prepare_world. by rewrite upd_tasks_cos, upd_tasks_insert_alter.
Qed.

Let h' := reshape t [] None (sh_done h) h.
Let c k := posted_ctx k (post_ptr w req) (post_len req).

Lemma prepare_views k : views (tasks (prepare_world k)) = <[t := task_view t (c k)]> (views (tasks w)).
Proof using Type. simpl. by rewrite (proj1 (post_world_facts w req)), views_insert. Qed.

Lemma prepare_links k ql : (∀ y, y ∈ ql → y ≠ t) → same_links (tasks w) (tasks (prepare_world k)) ql.
Proof using Type.
  intros Hql. simpl. rewrite (proj1 (post_world_facts w req)). apply same_links_insert_ne.
  intros Hin. by apply (Hql t).
Qed.

Lemma prepare_runtime k j r0 :
  <[t := lone_runtime t]> (m_runtimes m) !! j = Some r0 →
  runtime_inv (prepare_world k) j r0 (sh_pending h' j) (sh_marker h' j).
Proof using Hm.
  destruct prepare_fresh as (_ & Hrf & Hqf & _). destruct (post_world_facts w req) as (_ & Eq & _).
  intros [[<- <-]|[Hne Hj]]%lookup_insert_Some; simpl; rewrite ?decide_True, ?decide_False by done.
  - split; simpl; [by rewrite Eq, Hqf|done..].
  - apply (runtime_inv_frame w); [simpl; by rewrite Eq| | |by apply (mi_runtime _ _ Hm)].
    + apply prepare_links. intros y Hy. apply prepare_nowhere. rewrite elem_of_app. left. by eapply elem_of_queued.
    + intros y Hy. rewrite prepare_views, lookup_insert_ne; [done|]. apply not_eq_sym, prepare_nowhere.
      rewrite elem_of_app. left. eapply elem_of_queued; [exact Hj|]. unfold queued.
      rewrite Hy, elem_of_app. right. by left.
Qed.

Lemma prepare_heap k all :
  all ≡ₚ t :: gpending h (m_runtimes m) ++ gmarks h (m_runtimes m) ++ gheld (m_runtimes m) ++ sh_done h ++ m_inflight m →
  heap_inv (views (tasks (prepare_world k))) (bufs (prepare_world k)) all (brk (prepare_world k)).
Proof using Hm.
  intros Hall. destruct prepare_fresh as (Htf & _ & _ & Hle). rewrite prepare_views.
  eapply heap_inv_perm; [symmetry; exact Hall|].
  eapply heap_inv_new; [apply (mi_heap _ _ Hm)|by apply views_none| | | | |].
  - simpl. fold t. fold w. lia.
  - simpl. fold t. lia.
  - right. exists (c k). split; [done|]. apply posted_ctx_wf.
  - eapply posted_ctx_reowned; [apply (mi_heap _ _ Hm)|done|done|by apply views_none].
  - intros l Hy%post_owned. simpl. lia.
Qed.

Lemma prepare_co k x :
  k ∉ m_waiting m → cos w !! k = Some x → live_thread w x →
  co_inv (views (tasks (prepare_world k))) (prepare_world k) ({[ k ]} ∪ m_waiting m).
Proof using Hm.
  intros Hk Hx Hl. destruct prepare_fresh as (Htf & _). rewrite prepare_views.
  destruct (post_world_facts w req) as (_ & _ & _ & _ & Ec & Eth & Er & _).
  eapply co_inv_new; [apply (mi_co _ _ Hm)|by apply views_none| | |].
  - intros c0 [= <-] _. exists k. split; [done|]. split; [by rewrite elem_of_union, elem_of_singleton; left|]. exists (armed t x). simpl.
    rewrite Ec, lookup_alter_eq. fold w. rewrite Hx. repeat (split; [done|]).
    destruct Hl as (th & Hth & Hl'). exists th. simpl. by rewrite Eth, Er.
  - intros k'. rewrite elem_of_union, elem_of_singleton. split.
    + intros [->|Hk']; [right; by eexists|by left].
    + intros [?|(c0 & [= <-] & _ & [= <-])]; auto.
  - eapply (co_frame_armed _ _ _ t k); simpl; [by rewrite Ec|done|done|done].
Qed.

Lemma prepare_inv k x :
  k ∉ m_waiting m → cos w !! k = Some x → live_thread w x →
  multi_inv (MSys (prepare_world k) (<[t := lone_runtime t]> (m_runtimes m)) (m_inflight m)
               ({[ k ]} ∪ m_waiting m) (m_handled m)) h'.
Proof using Hm.
  intros Hk Hx Hl. destruct prepare_fresh as (Htf & Hrf & Hqf & Hle). pose proof (prepare_views k) as Hv.
  destruct (post_world_facts w req) as (Et & Eq & Ed & El & _).
  pose proof (fresh_pending m h t (sh_done h) Hrf) as Gp. pose proof (fresh_marks m h t (sh_done h) Hrf) as Gm.
  fold h' in Gp, Gm. pose proof (λ f, gather_insert f _ _ (lone_runtime t) Hrf) as Gi.
  pose proof (Gi (λ _, r_held)) as Gh. pose proof (Gi (λ _, r_posted)) as Go.
  pose proof (Gi (λ _, r_polled)) as Gl. clear Gi. simpl in Gh, Go, Gl.
  fold gheld in Gh. fold gposted in Go. fold gpolled in Gl.
  pose proof (prepare_runtime k) as A'. pose proof (prepare_heap k) as G'. pose proof (prepare_co k x Hk Hx Hl) as Hco'.
  pose proof Hm as [A B C D E G Hco T U V N O P].
  split; cbn [m_world m_runtimes m_inflight m_waiting m_handled]; [exact A'| | | | | |exact Hco'|..].
  - intros j. simpl. rewrite Eq. intros Hq%B. rewrite lookup_insert_is_Some. destruct (decide (t = j)); [by left|by right].
  - intros j. rewrite lookup_insert_is_Some. simpl. fold t. intros [<-|[_ Hj]]; [lia|].
    specialize (C j Hj). clear -C Hle. unfold w in *. lia.
  - simpl. rewrite Ed. eapply queue_repr_frame; [apply (prepare_links k)|exact D]. intros y Hy. apply prepare_nowhere. mem.
  - simpl. rewrite El. exact E.
  - apply G'. rewrite Gp, Gm, Gh. simpl. by rewrite !Permutation_middle.
  - intros y. rewrite Gp, Gh, Hv. destruct (decide (y = t)) as [E'|Hne]; [rewrite E', lookup_insert_eq; by eexists|].
    rewrite lookup_insert_ne by done. intros Hy. apply T. rewrite !elem_of_app, elem_of_cons in Hy.
    rewrite !elem_of_app. tauto.
  - intros y c0. rewrite Gp, Gh, Hv. destruct (decide (y = t)) as [E'|Hne].
    { rewrite E', lookup_insert_eq. by intros _ [= <-]. }
    rewrite lookup_insert_ne by done. intros Hy. apply U. rewrite !elem_of_app, elem_of_cons in Hy.
    rewrite !elem_of_app. tauto.
  - by rewrite Gl, Gh, V.
  - rewrite Go. apply NoDup_cons. split; [|done]. intros Hin%O. fold w in Hin. lia.
  - intros y. rewrite Go. simpl. fold t. fold w in O. intros [E'|Hy%O]%elem_of_cons; lia.
  - intros y. rewrite Gm, Go. intros Hy [E'|Hin]%elem_of_cons; [|by apply (P y)].
    apply (prepare_nowhere y); [|done]. rewrite gqueued_perm, !elem_of_app. tauto.
Qed.
End prepare.

(** ** Committing a prepared post *)

(** Block [t] is the task of a post in progress, for coroutine [k] and queue [i]. *)
Record pending_post (m : msys) (i t : loc) (k : cid) : Prop := {
  pp_lone : m_runtimes m !! t = Some (lone_runtime t);
  pp_ne : i ≠ t;
  pp_noqueue : queues (m_world m) !! t = None;
  pp_open : ∃ r, m_runtimes m !! i = Some r ∧ r_finished r = false;
  pp_block : ∃ b c, tasks (m_world m) !! t = Some b ∧ view b = task_view t c ∧
    ev_active (t_event (tb_task b)) = 0 ∧ c_wait_co_ctx c = Some k ∧ c_is_abort c = 0;
}.

(** A post that was refused: the task and its buffers are gone. *)
Record task_dropped (w : world) (t : loc) (c : ffi_task_ctx_t) (w' : world) : Prop := {
  td_tasks : tasks w' = delete t (tasks w);
  td_bufs : bufs w' = drop_buf (c_rsp c) (drop_buf (c_req c) (bufs w));
  td_queues : queues w' = queues w;
  td_done : pool_done w' = pool_done w;
  td_lock : done_lock w' = done_lock w;
  td_cos : cos w' = cos w;
  td_threads : threads w' = threads w;
  td_reqs : reqs w' = reqs w;
  td_brk : brk w' = brk w;
}.

Section commit.
Context (m : msys) (h : shape) (i t : loc) (k : cid) (env : sysenv) (r : runtime) (q : ffi_task_queue_t).
Context (b : task_block) (c : ffi_task_ctx_t).
Hypothesis Hm : multi_inv m h.
Hypothesis Hlone : m_runtimes m !! t = Some (lone_runtime t).
Hypothesis Hne : i ≠ t.
Hypothesis Hnq : queues (m_world m) !! t = None.
Hypothesis Hi : m_runtimes m !! i = Some r.
Hypothesis Hf : r_finished r = false.
Hypothesis Hq : queues (m_world m) !! i = Some q.
Hypothesis Hb : tasks (m_world m) !! t = Some b.
Hypothesis Hview : view b = task_view t c.
Hypothesis Hactive : ev_active (t_event (tb_task b)) = 0.
Hypothesis Hu : e_unlock env = NGX_OK.

Let w := m_world m.
Let pl := sh_pending h i.
Let rest := delete i (delete t (m_runtimes m)).

Lemma commit_view : views (tasks w) !! t = Some (task_view t c).
Proof using Hb Hview. rewrite <-Hview. by apply views_some. Qed.

Lemma commit_marker : sh_marker h i = None.
Proof using Hm Hi Hf.
  pose proof (ri_marker _ _ _ _ _ (mi_runtime _ _ Hm i r Hi)) as H.
  destruct (sh_marker h i) as [x|]; [|done]. destruct (H x eq_refl). congruence.
Qed.

Lemma commit_queue : queue_inv w i q pl (r_lost r) None.
Proof using Hm Hi Hf Hq.
  pose proof (ri_queue _ _ _ _ _ (mi_runtime _ _ Hm i r Hi)) as A. rewrite Hq, commit_marker in A.
  by rewrite app_nil_r in A.
Qed.

Lemma commit_lone : sh_pending h t = [] ∧ sh_marker h t = None.
Proof using Hm Hlone Hnq.
  pose proof (ri_queue _ _ _ _ _ (mi_runtime _ _ Hm t _ Hlone)) as A. rewrite Hnq in A. tauto.
Qed.

Lemma commit_gather f : gather f (m_runtimes m) ≡ₚ f t (lone_runtime t) ++ f i r ++ gather f rest.
Proof using Hlone Hi Hne.
  rewrite (gather_delete f _ t _ Hlone). apply Permutation_app_head. apply gather_delete.
  by rewrite lookup_delete_ne.
Qed.

Lemma commit_in : t ∈ gheld (m_runtimes m).
Proof using Hlone. apply elem_of_gather. exists t, (lone_runtime t). split; [done|by left]. Qed.

(** The task is in no queue and not on its way to nginx. *)
Lemma commit_apart j r' : m_runtimes m !! j = Some r' → t ∉ queued h j.
Proof using Hm Hlone.
  intros Hj Hin. apply (queued_not_out _ _ Hm j r' t Hj Hin). rewrite elem_of_app. left. apply commit_in.
Qed.

Lemma commit_not_done : t ∉ sh_done h ++ m_inflight m.
Proof using Hm Hlone. apply (held_not_done _ _ Hm), commit_in. Qed.

Lemma commit_pending y : y ∈ pl → y ∉ gheld (m_runtimes m) ++ sh_done h ++ m_inflight m.
Proof using Hm Hi. intros Hy. apply (queued_not_out _ _ Hm i r y Hi). unfold queued. rewrite elem_of_app. by left. Qed.

Lemma commit_bufs : ctx_bufs_ok (bufs w) c.
Proof using Hm Hb Hview.
  destruct (hi_wf _ _ _ _ (mi_heap _ _ Hm) t _ commit_view) as [Hbad|(c0 & Hc0 & [Hwf _])]; [done|].
  unfold task_view in Hc0. by simplify_eq.
Qed.

Lemma commit_ctx : t_ctx (tb_task b) = Some (Ptr t 1) ∧ tb_ctx b = Some c.
Proof using Hview. unfold view, task_view in Hview. by simplify_eq. Qed.

Definition commit_world : world :=
  upd_queues (alter (posted_queue env pl t) i)
    (upd_tasks (λ ms, link pl t (alter (map_tb_task mark_active) t ms)) w).

Lemma commit_posts :
  ngx_task_post env (Some (Ptr i 0)) (Some (Ptr t 0)) w = Ok (post_result env i t pl q b w).
Proof using Hm Hlone Hi Hf Hq Hb Hactive Hu.
  destruct commit_queue as [Hr Hrepr _ _ _ _]. apply ngx_task_post_run; try done.
  intros Hin. apply (commit_apart i r Hi). unfold queued. rewrite elem_of_app. by left.
Qed.

Lemma commit_runs :
  if refused env q
  then ∃ w', task_commit env (Some (Ptr i 0)) (Some (Ptr t 0)) (Some (Ptr t 1)) w = Ok (NGX_ERROR, w') ∧
         task_dropped w t c w'
  else task_commit env (Some (Ptr i 0)) (Some (Ptr t 0)) (Some (Ptr t 1)) w = Ok (NGX_OK, commit_world).
Proof using Hm Hlone Hi Hf Hq Hb Hview Hactive Hu.
  destruct commit_ctx as [Hp Hc]. unfold task_commit, refused.
  assert (overflowing b q = (max_queue q <=? waiting q)) as Ho.
  { unfold overflowing. by rewrite bool_decide_true by (rewrite Hp; by eexists). }
  pose proof commit_posts as Hrun. unfold post_result in Hrun. rewrite Ho in Hrun.
  assert (∀ w1 b1, tasks w1 !! t = Some b1 → tb_ctx b1 = Some c → bufs w1 = bufs w →
    ngx_http_lua_ffi_task_free (Some (Ptr t 1)) w1 =
      Ok ((), upd_tasks (delete t) (upd_bufs (λ m, drop_buf (c_rsp c) (drop_buf (c_req c) m)) w1))) as Hfree.
  { intros w1 b1 H1 H2 H3. apply (task_free_run w1 t b1 c H1 H2). rewrite H3. apply commit_bufs. }
  destruct (e_lock env =? NGX_OK); simpl in *.
  2: { erewrite bind_ok by exact Hrun. simpl. erewrite bind_ok by by eapply Hfree. by eexists. }
  destruct (max_queue q <=? waiting q); simpl in *.
  { erewrite bind_ok by exact Hrun. simpl. erewrite bind_ok by by eapply Hfree. by eexists. }
  destruct (e_signal env =? NGX_OK); simpl in *; [by erewrite bind_ok by exact Hrun|].
  erewrite bind_ok by exact Hrun. simpl.
  erewrite bind_ok by (eapply Hfree; [simpl; rewrite lookup_alter_eq; unfold w; by rewrite Hb|done|done]).
  eexists. split; [done|]. split; try done. simpl. by rewrite delete_alter_eq.
Qed.
(** *** Accepted *)

Let ms' := delete t (<[i := post_runtime t r]> (m_runtimes m)).
Let h' := reshape i (pl ++ [t]) None (sh_done h) h.

Lemma accepted_gather (f : shape → loc → runtime → list loc) :
  (∀ j r0, j ≠ i → f h' j r0 = f h j r0) → gather (f h') ms' ≡ₚ f h' i (post_runtime t r) ++ gather (f h) rest.
Proof using Hne.
  intros Hfe. unfold ms'. rewrite delete_insert_ne by done. rewrite gather_update. apply Permutation_app_head.
  rewrite (gather_ext (f h') (f h)); [done|]. intros j r0 [Hj _]%lookup_delete_Some. by apply Hfe.
Qed.

Lemma commit_views : views (tasks commit_world) = views (tasks w).
Proof using Type. simpl. rewrite views_link. by apply views_alter_id. Qed.

Lemma accepted_runtime j r0 :
  refused env q = false → ms' !! j = Some r0 → runtime_inv commit_world j r0 (sh_pending h' j) (sh_marker h' j).
Proof using Hm Hlone Hne Hi Hf Hq Hb.
  intros Hrf [Hjt Hj]%lookup_delete_Some. unfold h'. simpl. apply lookup_insert_Some in Hj as [[<- <-]|[Hji Hj]].
  - rewrite !decide_True by done. pose proof (mi_runtime _ _ Hm i r Hi) as [_ _ C D].
    split; simpl; [|done| |done].
    + rewrite lookup_alter_eq. unfold w at 1. rewrite Hq. simpl. rewrite app_nil_r.
      unfold refused in Hrf. apply orb_false_iff in Hrf as [[_ Hmax]%orb_false_iff _]. apply Z.leb_gt in Hmax.
      eapply (queue_inv_appended w _ env i q pl t (map_tb_task mark_active b)); [exact commit_queue| |done| |done|simpl; lia].
      * intros Hin. apply (commit_apart i r Hi). unfold queued. rewrite elem_of_app. by left.
      * simpl. unfold w. by rewrite (alter_alt_Some _ _ _ b Hb).
    + rewrite C. fold pl. by rewrite app_assoc.
  - rewrite !decide_False by done. apply (runtime_inv_frame w); [|  |intros x _; by rewrite commit_views|].
    + simpl. by rewrite lookup_alter_ne.
    + apply same_links_appended; [by apply (commit_apart j r0)|]. intros y Hy.
      eapply (queued_apart _ _ Hm i j); [done|exact Hi|exact Hj|]. unfold queued. rewrite elem_of_app. by left.
    + by apply (mi_runtime _ _ Hm).
Qed.

Lemma before_perms :
  gpending h (m_runtimes m) ≡ₚ pl ++ gpending h rest ∧ gmarks h (m_runtimes m) ≡ₚ gmarks h rest ∧
  gheld (m_runtimes m) ≡ₚ [t] ++ r_held r ++ gheld rest ∧
  gposted (m_runtimes m) ≡ₚ [t] ++ r_posted r ++ gposted rest ∧
  gpolled (m_runtimes m) ≡ₚ [t] ++ r_polled r ++ gpolled rest.
Proof using Hm Hlone Hne Hnq Hi Hf.
  destruct commit_lone as [Lp Lm]. pose proof commit_marker as Lk. unfold gpending, gmarks, gheld, gposted, gpolled.
  rewrite !commit_gather. rewrite Lp, Lm, Lk. by split_and!.
Qed.

Lemma after_perms :
  gpending h' ms' ≡ₚ pl ++ [t] ++ gpending h rest ∧ gmarks h' ms' ≡ₚ gmarks h rest ∧
  gheld ms' ≡ₚ r_held r ++ gheld rest ∧ gposted ms' ≡ₚ r_posted r ++ [t] ++ gposted rest ∧
  gpolled ms' ≡ₚ r_polled r ++ gpolled rest.
Proof using Hne.
  unfold gpending, gmarks, gheld, gposted, gpolled. split_and!.
  - rewrite (accepted_gather (λ h i _, sh_pending h i)); simpl; [|intros j _ Hj; by rewrite decide_False].
    rewrite decide_True by done. by rewrite <-app_assoc.
  - rewrite (accepted_gather (λ h i _, marker_list (sh_marker h i))); simpl; [|intros j _ Hj; by rewrite decide_False].
    by rewrite decide_True by done.
  - by apply (accepted_gather (λ _ _, r_held)).
  - rewrite (accepted_gather (λ _ _, r_posted)) by done. simpl. by rewrite <-app_assoc.
  - by apply (accepted_gather (λ _ _, r_polled)).
Qed.

Lemma accepted_inv : refused env q = false →
  multi_inv (MSys commit_world ms' (m_inflight m) (m_waiting m) (m_handled m)) h'.
Proof using Hm Hlone Hne Hnq Hi Hf Hq Hb.
  intros Hrf. pose proof commit_views as Hv.
  destruct before_perms as (Bp & Bm & Bh & Bo & Bl). destruct after_perms as (Ap & Am & Ah & Ao & Al).
  pose proof Hm as [A B C D E G Hco T U V N O P].
  split; cbn [m_world m_runtimes m_inflight m_waiting m_handled]; change (sh_done h') with (sh_done h).
  - intros j r0. by apply accepted_runtime.
  - intros j. simpl. rewrite is_Some_alter. intros Hqj. destruct (B j Hqj) as [r0 Hr0].
    assert (j ≠ t) as Hjt by (intros ->; destruct Hqj as [x Hx]; unfold w in Hx; congruence).
    unfold ms'. rewrite lookup_delete_ne, lookup_insert_is_Some by done. destruct (decide (i = j)); [by left|right].
    split; [done|by eexists].
  - intros j [r0 [_ Hj]%lookup_delete_Some]. apply lookup_insert_Some in Hj as [[<- _]|[_ Hj]]; apply C; by eexists.
  - apply queue_repr_frame with (tasks w); [|exact D]. apply same_links_appended.
    + intros Hin. apply commit_not_done. rewrite elem_of_app. by left.
    + intros y Hy Hin. apply (commit_pending y Hy). rewrite !elem_of_app. by right; left.
  - exact E.
  - rewrite Hv. eapply heap_inv_perm; [|exact G]. rewrite Bp, Bm, Bh, Ap, Am, Ah. aac_reflexivity.
  - rewrite Hv. by apply (co_inv_same _ w).
  - intros y. rewrite Hv, Ap, Ah. intros Hy. apply T. rewrite Bp, Bh. rewrite !elem_of_app in *. tauto.
  - intros y c0. rewrite Hv, Ap, Ah. intros Hy. apply U. rewrite Bp, Bh. rewrite !elem_of_app in *. tauto.
  - rewrite Al, Ah. rewrite Bl, Bh in V. apply (Permutation_app_inv_l [t]). rewrite V. aac_reflexivity.
  - rewrite Ao. rewrite Bo in N. eapply NoDup_Permutation_proper; [|exact N]. aac_reflexivity.
  - intros y. rewrite Ao. intros Hy. apply O. rewrite Bo. rewrite !elem_of_app in *. tauto.
  - intros y. rewrite Am, Ao. intros Hy Hin. apply (P y); [by rewrite Bm|]. rewrite Bo. rewrite !elem_of_app in *. tauto.
Qed.

(** *** Refused *)

Lemma dropped_perms :
  gpending h (m_runtimes m) ≡ₚ gpending h (delete t (m_runtimes m)) ∧
  gmarks h (m_runtimes m) ≡ₚ gmarks h (delete t (m_runtimes m)) ∧
  gheld (m_runtimes m) ≡ₚ t :: gheld (delete t (m_runtimes m)) ∧
  gposted (m_runtimes m) ≡ₚ t :: gposted (delete t (m_runtimes m)) ∧
  gpolled (m_runtimes m) ≡ₚ t :: gpolled (delete t (m_runtimes m)).
Proof using Hm Hlone Hnq.
  destruct commit_lone as [Lp Lm]. unfold gpending, gmarks, gheld, gposted, gpolled.
  rewrite !(gather_delete _ (m_runtimes m) t _ Hlone), Lp, Lm. by split_and!.
Qed.

Lemma dropped_bufs w' l :
  task_dropped w t c w' → bufs w' !! l = if decide (l ∈ owned (task_view t c)) then None else bufs w !! l.
Proof using Hm Hlone Hb Hview.
  intros [_ -> _ _ _ _ _ _ _].
  assert (c_rsp c = None) as Hn.
  { eapply (mi_unanswered _ _ Hm t); [|exact commit_view]. rewrite elem_of_app. right. apply commit_in. }
  unfold owned, owned_ctx. simpl. rewrite Hn, app_nil_r. simpl. destruct (c_req c) as [p|]; simpl; [|done].
  case_decide as Hl; [apply list_elem_of_singleton in Hl as ->; by rewrite lookup_delete_eq|].
  rewrite lookup_delete_ne; [done|]. intros <-. apply Hl. by left.
Qed.

Lemma dropped_inv w' :
  c_wait_co_ctx c = Some k → c_is_abort c = 0 → task_dropped w t c w' →
  multi_inv (MSys w' (delete t (m_runtimes m)) (m_inflight m) (m_waiting m ∖ {[ k ]}) (m_handled m)) h.
Proof using Hm Hlone Hne Hnq Hi Hf Hq Hb Hview.
  intros Hk Ha Hd. pose proof Hd as [Dt Db Dq Dd Dl Dc Dth Dr Dbk]. pose proof commit_view as Hvt.
  assert (views (tasks w') = delete t (views (tasks w))) as Hv by by rewrite Dt, views_delete.
  destruct dropped_perms as (Bp & Bm & Bh & Bo & Bl).
  assert (∀ ql, t ∉ ql → same_links (tasks w) (tasks w') ql) as Hlk.
  { intros ql Hql. rewrite Dt. by apply same_links_delete. }
  pose proof Hm as [A B C D E G Hco T U V N O P].
  assert (gpending h (m_runtimes m) ++ gmarks h (m_runtimes m) ++ gheld (m_runtimes m) ++ sh_done h ++ m_inflight m ≡ₚ
    t :: gpending h (delete t (m_runtimes m)) ++ gmarks h (delete t (m_runtimes m)) ++
    gheld (delete t (m_runtimes m)) ++ sh_done h ++ m_inflight m) as Hall.
  { rewrite Bp, Bm, Bh. simpl. by rewrite !Permutation_middle. }
  pose proof (hi_nodup _ _ _ _ G) as Hnd. rewrite Hall in Hnd. apply NoDup_cons in Hnd as [Htn Hnd].
  split; cbn [m_world m_runtimes m_inflight m_waiting m_handled].
  - intros j r0 [Hjt Hj]%lookup_delete_Some. pose proof (commit_apart j r0 Hj) as Ha'.
    apply (runtime_inv_frame w); [by rewrite Dq|by apply Hlk| |by apply A].
    intros x Hx. rewrite Hv, lookup_delete_ne; [done|]. intros <-. apply Ha'. unfold queued.
    rewrite Hx, elem_of_app. right. by left.
  - intros j. rewrite Dq. intros Hqj. rewrite lookup_delete_ne; [by apply B|].
    intros <-. destruct Hqj as [x Hx]. unfold w in Hx. congruence.
  - intros j [r0 [_ Hj]%lookup_delete_Some]. rewrite Dbk. apply C. by eexists.
  - rewrite Dd. eapply queue_repr_frame; [apply Hlk|exact D]. intros Hin. apply commit_not_done. mem.
  - rewrite Dl. exact E.
  - rewrite Hv, Dbk. eapply heap_inv_remove; [exact G|exact Hvt|exact Hnd| |intros l; by apply dropped_bufs].
    intros y. rewrite Hall, elem_of_cons. split; [|by intros [[->|?] ?]].
    intros Hy. split; [by right|]. by intros ->.
  - rewrite Hv. eapply co_inv_remove; [exact Hco| |by apply co_frame_same].
    intros k'. rewrite elem_of_difference, elem_of_singleton. split; intros [Hw Hk']; (split; [done|]).
    + intros x Hx (c0 & Hc0 & _ & Hk0). assert (x = task_view t c) as -> by (unfold w in *; congruence).
      injection Hc0 as <-. congruence.
    + intros ->. apply (Hk' _ Hvt). by exists c.
  - intros y Hy. rewrite Hv, lookup_delete_ne; [apply T; rewrite Bp, Bh; rewrite !elem_of_app, elem_of_cons in *; tauto|].
    intros <-. apply Htn. rewrite !elem_of_app in *. tauto.
  - intros y c0 Hy. rewrite Hv, lookup_delete_ne; [apply U; rewrite Bp, Bh; rewrite !elem_of_app, elem_of_cons in *; tauto|].
    intros <-. apply Htn. rewrite !elem_of_app in *. tauto.
  - rewrite Bl, Bh in V. by apply Permutation_cons_inv in V.
  - rewrite Bo in N. by apply NoDup_cons in N as [_ ?].
  - intros y Hy. rewrite Dbk. apply O. rewrite Bo. by right.
  - intros y. rewrite <-Bm. intros Hy Hin. apply (P y Hy). rewrite Bo. by right.
Qed.
End commit.
