(* ===== verification/FineStable.v ===== *)
(** * FineStable: what the steps of other threads leave alone

    While a post is between its halves, polling threads and workers that answer go
    on.  A polling thread frees tasks and writes none ([frees]); so the block of
    the prepared task, which is in no queue, is as it was.  And a step of [Multi]
    makes the same of the worker as of the state that [whole] shows. *)

From S2P Require Import Prelude World TaskQueue FfiTask FfiQueue EventHandler Ownership System.
From S2P Require Import Spec Invariant Posting Polling Answering Safety Multi MultiInvariant MultiContract.
From S2P Require Import Integrity FineSteps FineInvariant.

(** ** Calls that write no task *)

Definition frees {A} (c : M world A) : Prop :=
  ∀ w a w', c w = Ok (a, w') → tasks w' ⊆ tasks w.

Lemma frees_bind {A B} (c : M world A) (k : A → M world B) :
  frees c → (∀ a, frees (k a)) → frees (c ≫= k).
Proof.
  intros Hc Hk w b w' (a & w1 & H1 & H2)%bind_inv. trans (tasks w1); [by eapply Hk|by eapply Hc].
Qed.

Lemma frees_same {A} (c : M world A) : (∀ w a w', c w = Ok (a, w') → tasks w' = tasks w) → frees c.
Proof. intros Hc w a w' H. by rewrite (Hc _ _ _ H). Qed.

Lemma frees_lift {A} (f : world → res A) : frees (lift f).
Proof. apply frees_same. intros w a w'. unfold lift. destruct (f w); [|done]. by intros [= _ <-]. Qed.
Lemma frees_ret {A} (a : A) : frees (mret a).
Proof. apply frees_same. by intros w b w' [= _ <-]. Qed.
Lemma frees_gets {A} (f : world → A) : frees (gets f).
Proof. apply frees_same. by intros w b w' [= _ <-]. Qed.
Lemma frees_ub {A} f : frees (ub f : M world A).
Proof. by intros w b w'. Qed.
Lemma frees_assume b f : frees (assume b f).
Proof. apply frees_same. intros w a w'. unfold assume. destruct b; [by intros [= _ <-]|done]. Qed.
Lemma frees_from {A} (o : option A) f : frees (from o f).
Proof. apply frees_same. intros w a w'. unfold from. destruct o; [by intros [= _ <-]|done]. Qed.
Lemma frees_modify_queue p f : frees (modify_queue p f).
Proof.
  apply frees_same. intros w a w'. unfold modify_queue. destruct (deref _ _ _) as [[l q]|]; [|done].
  by intros [= _ <-].
Qed.
Lemma frees_load_queue p : frees (load_queue p). Proof. apply frees_lift. Qed.
Lemma frees_load_task p : frees (load_task p). Proof. apply frees_lift. Qed.

Create HintDb frees.
#[export] Hint Resolve frees_lift frees_ret frees_gets frees_ub frees_assume frees_from frees_modify_queue
  frees_load_queue frees_load_task : frees.

Ltac only_frees :=
  repeat first
    [ solve [eauto with frees nocore]
    | simple apply frees_bind; [|intros ?]
    | progress cbv zeta
    | case_match ].

Lemma frees_free_task p : frees (free_task p).
Proof. unfold free_task. only_frees. intros ? ? ? [= _ <-]. apply delete_subseteq. Qed.
Lemma frees_free_queue p : frees (free_queue p).
Proof. unfold free_queue. only_frees. apply frees_same. by intros ? ? ? [= _ <-]. Qed.
#[export] Hint Resolve frees_free_task frees_free_queue : frees.

Lemma frees_poll_loop env tp me : frees (task_poll_loop env tp me).
Proof.
  unfold task_poll_loop, task_poll_take, queue_take, cond_block, mutex_unlock, ngx_http_lua_ffi_free_task_queue,
    mutex_destroy, cond_destroy. only_frees.
Qed.
#[export] Hint Resolve frees_poll_loop : frees.

Lemma frees_poll env tp me : frees (task_poll_enter env tp me) ∧ frees (task_poll_wake env tp me).
Proof. unfold task_poll_enter, task_poll_wake, mutex_lock, cond_resume. split; only_frees. Qed.

(** The steps of a library's threads between the halves. *)
Definition polling (e : event) : bool :=
  match e with EPoll _ _ | EWake _ _ | ESpurious _ => true | _ => false end.

Section polling.
Context {ops : NgxLua} {pool : NgxPool}.

Lemma polling_frees e s s' :
  polling e = true → exec e s = Ok s' →
  tasks (sw s') ⊆ tasks (sw s) ∧ s_finished s' = s_finished s ∧ s_waiting s' = s_waiting s.
Proof using Type.
  destruct e as [| |env me|env me|me| | | |]; try done; intros _; simpl.
  - destruct (task_poll_enter _ _ _ _) as [[[[p|]|] w]|] eqn:E; simpl; [..|done];
      intros [= <-]; (split; [|done]); exact (proj1 (frees_poll _ _ _) _ _ _ E).
  - destruct (task_poll_wake _ _ _ _) as [[[[p|]|] w]|] eqn:E; simpl; [..|done];
      intros [= <-]; (split; [|done]); exact (proj2 (frees_poll _ _ _) _ _ _ E).
  - by intros [= <-].
Qed.
End polling.

(** ** A post in progress *)

(** Block [t] keeps its runtime, and what it needs of queue [i]. *)
Lemma pending_post_kept m m' i t k :
  pending_post m i t k →
  m_runtimes m' !! t = m_runtimes m !! t → queues (m_world m') !! t = queues (m_world m) !! t →
  tasks (m_world m') !! t = tasks (m_world m) !! t →
  (∀ r, m_runtimes m !! i = Some r → ∃ r', m_runtimes m' !! i = Some r' ∧ r_finished r' = r_finished r) →
  pending_post m' i t k.
Proof.
  intros [Hl Hn Hq (r & Hr & Hf) Hb] El Eq Et Ho. split; rewrite ?El, ?Eq, ?Et; try done.
  destruct (Ho r Hr) as (r' & Hr' & Hf'). exists r'. split; [done|congruence].
Qed.

Lemma lone_held (m : msys) t : m_runtimes m !! t = Some (lone_runtime t) → t ∈ gheld (m_runtimes m).
Proof. intros H. apply elem_of_gather. exists t, (lone_runtime t). split; [done|by left]. Qed.

Section pending.
Context {ops : NgxLua} {laws : NgxLuaLaws ops} {pool : NgxPool} {plaws : NgxPoolLaws pool}.

(** Polling threads do not disturb it. *)
Lemma pending_post_polled m h i t k j r e s' h' :
  pending_post m i t k → m_runtimes m !! j = Some r → j ≠ t → polling e = true →
  exec e (focus j r m) = Ok s' → multi_stepped m h j e (unfocus s' m) h' →
  pending_post (unfocus s' m) i t k.
Proof using Type.
  intros Hp Hj Hne He Hex Hst. destruct (polling_frees _ _ _ He Hex) as (Hsub & Hf & _).
  destruct (exec_history _ _ _ Hex) as [Htq _]. simpl in Htq, Hsub, Hf.
  assert (m_runtimes (unfocus s' m) !! t = m_runtimes m !! t) as Ht.
  { simpl. rewrite Htq. by rewrite lookup_insert_ne. }
  apply (pending_post_kept m); [done|done| | |].
  - apply (ms_kept _ _ _ _ _ _ Hst). congruence.
  - pose proof (pp_lone _ _ _ _ Hp) as Hl. rewrite <-Ht in Hl. apply lone_held in Hl.
    destruct (mi_tasks _ _ (ms_inv _ _ _ _ _ _ Hst) t) as [c Hc]; [mem|].
    destruct (view_task_block _ _ _ Hc) as (b & Hb & _). simpl in *. rewrite Hb. symmetry. by eapply lookup_weaken.
  - intros r0 Hr0. simpl. rewrite Htq. destruct (decide (j = i)) as [->|Hi].
    + rewrite lookup_insert_eq. eexists. split; [done|]. simpl. rewrite Hf. congruence.
    + rewrite lookup_insert_ne by done. by exists r0.
Qed.
End pending.

(** ** Steps of the worker that [whole] shows *)

(** Equal, but for the order of the tasks that nginx has. *)
Record alike (m m' : msys) : Prop := {
  ak_world : m_world m' = m_world m;
  ak_runtimes : m_runtimes m' = m_runtimes m;
  ak_inflight : m_inflight m' ≡ₚ m_inflight m;
  ak_waiting : m_waiting m' = m_waiting m;
  ak_handled : m_handled m' = m_handled m;
}.

Lemma alike_refl m : alike m m.
Proof. by split. Qed.

Lemma alike_inv m m' h : alike m m' → multi_inv m h → multi_inv m' h.
Proof.
  intros [A B C D E] Hm. apply (multi_inv_inflight _ _ (m_inflight m')) in Hm; [|done].
  rewrite <-A, <-B, <-D, <-E in Hm. by destruct m'.
Qed.

Lemma alike_past m m' h t : alike m m' → t ∈ past m h → t ∈ past m' h.
Proof. intros [_ _ C _ E]. unfold past. by rewrite E, C. Qed.

Lemma alike_pending m m' i t k : alike m m' → pending_post m i t k → pending_post m' i t k.
Proof. intros [A B _ _ _] Hp. apply (pending_post_kept m); [done|by rewrite ?A, ?B..|]. rewrite B. eauto. Qed.

(** The part of a runtime's abstract state that is its own. *)
Definition fabs (m : msys) (h : shape) (i : loc) (r : runtime) : spec := private (mabs m h i r).

Lemma alike_fabs m m' h i r : alike m m' → fabs m' h i r = fabs m h i r.
Proof. intros [A _ _ _ _]. unfold fabs, mabs, private, abs. simpl. by rewrite A. Qed.

(** What the coroutine of a post in progress adds to those that wait. *)
Definition waits (f : fine) : gset cid := match f_prep f with Some p => p_waits p | None => ∅ end.

(** The state of [System] behind that of [whole]. *)
Definition veil (ans : list loc) (K : gset cid) (s : sys) : sys :=
  Sys (sw s) (s_tq s) (s_finished s) (filter (λ x, x ∉ ans) (s_held s)) (s_inflight s ++ ans) (K ∪ s_waiting s)
      (s_posted s) (s_polled s) (s_handled s) (s_lost s).

(** Neither a post nor a response. *)
Definition ordinary (e : event) : bool :=
  match e with EPost _ _ _ | ERespond _ _ _ _ => false | _ => true end.

Lemma whole_focus f i r :
  focus i (hide_runtime (f_ans f) r) (whole f) = veil (f_ans f) (waits f) (focus i r (f_sys f)).
Proof.
  unfold whole, waits, focus, veil. destruct (f_prep f) as [p|]; simpl; [done|]. by rewrite union_empty_l_L.
Qed.

Lemma whole_lookup f i r :
  m_runtimes (f_sys f) !! i = Some r → (∀ p, f_prep f = Some p → p_loc p ≠ i) →
  m_runtimes (whole f) !! i = Some (hide_runtime (f_ans f) r).
Proof.
  intros Hi Hp. unfold whole. destruct (f_prep f) as [p|]; simpl.
  - rewrite lookup_insert_ne by by apply Hp. by rewrite lookup_fmap, Hi.
  - by rewrite lookup_fmap, Hi.
Qed.

Lemma whole_unfocus f i s' :
  s_tq s' = i → (∀ p, f_prep f = Some p → p_loc p ≠ i) →
  unfocus (veil (f_ans f) (waits f) s') (whole f) = whole (Fine (unfocus s' (f_sys f)) (f_prep f) (f_ans f)).
Proof.
  intros <- Hp. unfold whole, waits, unfocus. destruct (f_prep f) as [p|]; simpl.
  - unfold with_answered. simpl. rewrite fmap_insert. f_equal. apply insert_insert_ne. intros E. by apply (Hp p).
  - unfold with_answered. simpl. by rewrite fmap_insert, union_empty_l_L.
Qed.

Lemma enabled_veil ans K e s : ordinary e = true → enabled s e = true → enabled (veil ans K s) e = true.
Proof.
  destruct e; try done; intros _; simpl.
  - intros Hk%bool_decide_eq_true. apply bool_decide_eq_true. set_solver.
  - by destruct (s_inflight s).
Qed.

Section coarse.
Context {ops : NgxLua} {laws : NgxLuaLaws ops} {pool : NgxPool} {plaws : NgxPoolLaws pool}.

Lemma exec_veil ans K e s s1 m :
  ordinary e = true → (polling e = true ∨ K = ∅) → enabled s e = true →
  exec e (veil ans K s) = Ok s1 → (∀ t, t ∈ s_held s1 → t ∉ s_inflight s1) →
  ∃ s', exec e s = Ok s' ∧ s_tq s' = s_tq s ∧ alike (unfocus s1 m) (unfocus (veil ans K s') m).
Proof using Type.
  intros He HK Hen.
  assert (∀ l t, (∀ x, x ∈ filter (λ x, x ∉ ans) l ++ [t] → x ∉ ans) →
    filter (λ x, x ∉ ans) (l ++ [t]) = filter (λ x, x ∉ ans) l ++ [t]) as Hfilter.
  { intros l t Ht. rewrite filter_app. f_equal. rewrite filter_cons_True by (apply Ht; mem). done. }
  destruct e as [| |env me|env me|me| |k| |]; try done; simpl.
  - unfold exec_finish. simpl. destruct (ngx_http_lua_ffi_task_finish _ _ _) as [[? w]|]; [|done].
    intros [= <-] _. eexists. split; [done|]. by split.
  - unfold exec_poll. simpl. destruct (task_poll_enter _ _ _ _) as [[[[p|]|] w]|]; [..|done];
      intros [= <-] Hh; (eexists; split; [done|]); split; try done. simpl in Hh.
    by split; [|unfold veil, runtime_of; simpl; rewrite Hfilter by (intros x Hx ?; apply (Hh x Hx); mem)|..].
  - unfold exec_poll. simpl. destruct (task_poll_wake _ _ _ _) as [[[[p|]|] w]|]; [..|done];
      intros [= <-] Hh; (eexists; split; [done|]); split; try done. simpl in Hh.
    by split; [|unfold veil, runtime_of; simpl; rewrite Hfilter by (intros x Hx ?; apply (Hh x Hx); mem)|..].
  - intros [= <-] _. eexists. split; [done|]. by split.
  - destruct HK as [?| ->]; [done|]. unfold exec_kill. simpl. destruct (kill_co _ _) as [[? w]|]; [|done].
    intros [= <-] _. eexists. split; [done|]. split; [done|]. split; try done. simpl. by rewrite !union_empty_l_L.
  - unfold exec_take. simpl. destruct (ngx_pool_take _) as [[l w]|]; [|done].
    intros [= <-] _. eexists. split; [done|]. split; [done|]. split; try done. simpl.
    rewrite <-!app_assoc. apply Permutation_app_head, Permutation_app_comm.
  - destruct HK as [?| ->]; [done|]. unfold exec_handle. simpl in *. destruct (s_inflight s) as [|t l]; [done|].
    simpl. destruct (ngx_http_lua_ffi_event_handler _ _) as [[? w]|]; [|done].
    intros [= <-] _. eexists. split; [done|]. split; [done|]. split; try done. simpl.
    rewrite !union_empty_l_L. by destruct (resumes _ _).
Qed.

(** A step that is neither a post nor a response. *)
Lemma coarse_step f h i r e :
  multi_inv (whole f) h → m_runtimes (f_sys f) !! i = Some r → (∀ p, f_prep f = Some p → p_loc p ≠ i) →
  ordinary e = true → (polling e = true ∨ idle f = true) → enabled (focus i r (f_sys f)) e = true →
  ∃ s' s1 h', exec e (focus i r (f_sys f)) = Ok s' ∧ s_tq s' = i ∧
    exec e (focus i (hide_runtime (f_ans f) r) (whole f)) = Ok s1 ∧
    multi_stepped (whole f) h i e (unfocus s1 (whole f)) h' ∧
    alike (unfocus s1 (whole f)) (whole (Fine (unfocus s' (f_sys f)) (f_prep f) (f_ans f))).
Proof using laws plaws.
  intros Hm Hi Hp Ho Hid Hen.
  assert (enabled (focus i (hide_runtime (f_ans f) r) (whole f)) e = true) as Hen'.
  { rewrite whole_focus. by apply enabled_veil. }
  destruct (multi_step _ _ _ _ _ Hm (whole_lookup _ _ _ Hi Hp) Hen') as (s1 & h' & Hex & Hst).
  pose proof Hex as Hex'. rewrite whole_focus in Hex'.
  destruct (exec_veil (f_ans f) (waits f) e (focus i r (f_sys f)) s1 (whole f)) as (s' & Hs' & Htq & Hal);
    [done| |done|done|..].
  - destruct Hid as [?|Hid]; [by left|right]. unfold idle in Hid. unfold waits. by destruct (f_prep f).
  - intros t Ht Hin. destruct (exec_history _ _ _ Hex) as [Htq _]. simpl in Htq.
    apply (held_not_done _ _ (ms_inv _ _ _ _ _ _ Hst) t); [|mem].
    apply elem_of_gather. exists i, (runtime_of s1). split; [simpl; rewrite Htq; apply lookup_insert_eq|done].
  - exists s', s1, h'. simpl in Htq. split_and!; [done..|]. by rewrite <-(whole_unfocus f i).
Qed.
End coarse.
