(* ===== verification/FineProtocol.v ===== *)
(** * FineProtocol: every step between the halves is safe

    The invariant of a worker in which posts and responses are made in halves, that
    every step keeps it, and which call of the abstract machine of [Spec] a step
    is for each runtime. *)

From S2P Require Import Prelude World TaskQueue FfiTask FfiQueue EventHandler Ownership System.
From S2P Require Import Spec Invariant Posting Polling Answering Safety Multi MultiInvariant Demo.
From S2P Require Import Contract MultiContract Integrity FineSteps FineInvariant FineStable.

(** ** The invariant *)

Record post_in_progress (f : fine) (p : prepared) : Prop := {
  pg_task : p_task p = Ptr (p_loc p) 0;
  pg_ctx : p_ctx p = Some (Ptr (p_loc p) 1);
  pg_env : e_unlock (p_env p) = NGX_OK;
  pg_new : m_runtimes (f_sys f) !! p_loc p = None;
  pg_co : ∃ k, p_co p = Some k ∧ k ∉ m_waiting (f_sys f) ∧ pending_post (whole f) (p_queue p) (p_loc p) k;
}.

Record fine_inv (f : fine) (h : shape) : Prop := {
  fi_whole : multi_inv (whole f) h;
  fi_held : ∀ i r t, m_runtimes (f_sys f) !! i = Some r → t ∈ r_held r → t ∈ r_polled r;
  fi_ans : ∀ t, t ∈ f_ans f → ∃ i r, m_runtimes (f_sys f) !! i = Some r ∧ t ∈ r_held r;
  fi_prep : ∀ p, f_prep f = Some p → post_in_progress f p;
}.

(** ** The calls that take effect *)

(** The post in progress, as a call on its queue. *)
Definition posting (f : fine) : option (loc * event) :=
  (λ p, (p_queue p, EPost (p_env p) (p_rid p) (p_req p))) <$> f_prep f.

Definition posting_after (post : option (loc * event)) (e : fevent) : option (loc * event) :=
  match e with
  | FPrepare i env r req => Some (i, EPost env r req)
  | FCommit => None
  | FStep _ | FSet _ _ _ _ _ | FInject _ _ => post
  end.

(** The call on queue [i] that takes effect in step [e]. *)
Definition call_of (i : loc) (post : option (loc * event)) (e : fevent) : option event :=
  match e with
  | FStep me => event_of i me
  | FCommit => '(j, c) ← post; if decide (j = i) then Some c else None
  | FSet j t rc rsp len => if decide (j = i) then Some (ERespond t rc rsp len) else None
  | FPrepare _ _ _ _ | FInject _ _ => None
  end.

Fixpoint calls_of (i : loc) (post : option (loc * event)) (es : list fevent) : list event :=
  match es with
  | [] => []
  | e :: es => option_list (call_of i post e) ++ calls_of i (posting_after post e) es
  end.

Definition private_step (o : option event) (p p' : spec) : Prop :=
  match o with
  | None => p' = p
  | Some e => ∃ a b, spec_step e a b ∧ p = private a ∧ p' = private b
  end.

(** What runtime [i] sees of [f]. *)
Definition view_of (f : fine) (h : shape) (i : loc) (r : runtime) : spec :=
  fabs (whole f) h i (hide_runtime (f_ans f) r).

Record fine_stepped (f : fine) (h : shape) (e : fevent) (f' : fine) (h' : shape) : Prop := {
  fs_inv : fine_inv f' h';
  fs_calls : ∀ i r, m_runtimes (f_sys f) !! i = Some r → ∃ r', m_runtimes (f_sys f') !! i = Some r' ∧
    private_step (call_of i (posting f) e) (view_of f h i r) (view_of f' h' i r');
  fs_posting : posting f' = posting_after (posting f) e;
  fs_past : ∀ t, t ∈ past (whole f) h → t ∈ past (whole f') h';
}.

Definition fine_safe (f : fine) (h : shape) (e : fevent) (o : res fine) : Prop :=
  ∃ f' h', o = Ok f' ∧ fine_stepped f h e f' h'.

(** ** Held tasks *)

Section facts.
Context (f : fine) (h : shape).
Hypothesis Hf : fine_inv f h.

Lemma polled_nodup m : multi_inv m h → NoDup (gpolled (m_runtimes m)).
Proof using Type.
  intros Hm. pose proof (mi_nodup _ _ Hm) as Hn. rewrite (posted_perm _ _ Hm) in Hn.
  apply NoDup_app in Hn as (_ & _ & Hn). by rewrite <-(mi_polled _ _ Hm) in Hn.
Qed.

Lemma prep_apart p i r : f_prep f = Some p → m_runtimes (f_sys f) !! i = Some r → p_loc p ≠ i.
Proof using Hf. intros Hp Hi <-. pose proof (pg_new _ _ (fi_prep _ _ Hf p Hp)). congruence. Qed.

Lemma real_lookup i r :
  m_runtimes (f_sys f) !! i = Some r → m_runtimes (whole f) !! i = Some (hide_runtime (f_ans f) r).
Proof using Hf. intros Hi. apply whole_lookup; [done|]. intros p Hp. by eapply prep_apart. Qed.

(** A task is held once, and the prepared task by no runtime. *)
Lemma held_once i j r r' t :
  m_runtimes (f_sys f) !! i = Some r → m_runtimes (f_sys f) !! j = Some r' →
  t ∈ r_held r → t ∈ r_held r' → i = j.
Proof using Hf.
  intros Hi Hj Ht Ht'. eapply (gather_apart (λ _, r_polled) (m_runtimes (whole f))).
  - apply polled_nodup, Hf.
  - by apply real_lookup.
  - by apply real_lookup.
  - by apply (fi_held _ _ Hf i r).
  - by apply (fi_held _ _ Hf j r').
Qed.

Lemma held_not_prepared p i r t :
  f_prep f = Some p → m_runtimes (f_sys f) !! i = Some r → t ∈ r_held r → t ≠ p_loc p.
Proof using Hf.
  intros Hp Hi Ht ->. destruct (pg_co _ _ (fi_prep _ _ Hf p Hp)) as (k & _ & _ & Hpp).
  apply (prep_apart p i r Hp Hi). eapply (gather_apart (λ _, r_polled) (m_runtimes (whole f))).
  - apply polled_nodup, Hf.
  - apply Hpp.
  - by apply real_lookup.
  - by left.
  - by apply (fi_held _ _ Hf i r).
Qed.

(** Nothing is between the prepared task and its queue. *)
Lemma prepared_not_done p t :
  f_prep f = Some p → t = p_loc p → t ∉ sh_done h ++ m_inflight (whole f).
Proof using Hf.
  intros Hp ->. destruct (pg_co _ _ (fi_prep _ _ Hf p Hp)) as (k & _ & _ & Hpp).
  apply (held_not_done _ _ (fi_whole _ _ Hf)). by apply lone_held, Hpp.
Qed.
End facts.

Lemma view_kept f h f' h' i r r' :
  m_runtimes (whole f) !! i = Some (hide_runtime (f_ans f) r) →
  m_runtimes (whole f') !! i = Some (hide_runtime (f_ans f') r') →
  kept (whole f) h i (whole f') h' → view_of f' h' i r' = view_of f h i r.
Proof.
  intros Hi Hi' Hk. pose proof (kp_runtime _ _ _ _ _ Hk) as Hr. rewrite Hi, Hi' in Hr. injection Hr as Hr1 Hr2 Hr3 Hr4 Hr5.
  unfold view_of, fabs. rewrite <-(private_kept _ _ _ (hide_runtime (f_ans f) r) _ _ Hk).
  unfold hide_runtime. by rewrite Hr1, Hr2, Hr3, Hr4, Hr5.
Qed.

(** ** Whole calls *)

Section coarse.
Context {ops : NgxLua} {laws : NgxLuaLaws ops} {pool : NgxPool} {plaws : NgxPoolLaws pool}.
Context (f : fine) (h : shape).
Hypothesis Hf : fine_inv f h.

Lemma exec_keeps_held e s s' :
  ordinary e = true → exec e s = Ok s' → ∀ t, t ∈ s_held s → t ∈ s_held s'.
Proof using Type.
  destruct e; try done; intros _; simpl; unfold exec_finish, exec_poll, exec_kill, exec_take, exec_handle.
  all: repeat case_match; try done; intros [= <-] t Ht; simpl; rewrite ?elem_of_app; auto.
Qed.

(** On a queue. *)
Lemma fine_step_run i e :
  ordinary e = true → (polling e = true ∨ idle f = true) → menabled (f_sys f) (MRun i e) = true →
  fine_safe f h (FStep (MRun i e)) (on_sys f (mexec (MRun i e) (f_sys f))).
Proof using Hf laws plaws.
  intros Ho Hid Hen. simpl in *. destruct (m_runtimes (f_sys f) !! i) as [r|] eqn:Hi; [|done].
  assert (∀ p, f_prep f = Some p → p_loc p ≠ i) as Hap by (intros p Hp; by eapply prep_apart).
  destruct (coarse_step f h i r e (fi_whole _ _ Hf) Hi Hap Ho Hid Hen) as (s' & s1 & h' & Hex & Htq & Hex1 & Hst & Hal).
  destruct (exec_history _ _ _ Hex) as [_ Hh]. simpl in Hh. rewrite Hex. simpl.
  set (f' := Fine (unfocus s' (f_sys f)) (f_prep f) (f_ans f)) in *. exists f', h'. split; [done|].
  assert (∀ j, j ≠ i → m_runtimes (f_sys f') !! j = m_runtimes (f_sys f) !! j) as Hsame.
  { intros j Hj. simpl. rewrite Htq. by rewrite lookup_insert_ne. }
  assert (m_runtimes (f_sys f') !! i = Some (runtime_of s')) as Hi' by (simpl; rewrite Htq; apply lookup_insert_eq).
  split; [split| |done|].
  - eapply alike_inv; [exact Hal|]. apply Hst.
  - intros j r0 t Hj Ht. destruct (decide (j = i)) as [->|Hne].
    + rewrite Hi' in Hj. injection Hj as <-. apply Hh; [|done]. intros x. by apply (fi_held _ _ Hf i r).
    + rewrite Hsame in Hj by done. by apply (fi_held _ _ Hf j r0).
  - intros t Ht. destruct (fi_ans _ _ Hf t Ht) as (j & r0 & Hj & Hin). destruct (decide (j = i)) as [->|Hne].
    + rewrite Hi in Hj. injection Hj as <-. eexists i, _. split; [done|]. by apply (exec_keeps_held e _ _ Ho Hex).
    + exists j, r0. by rewrite Hsame.
  - intros p Hp. destruct (fi_prep _ _ Hf p Hp) as [A B C D (k & Hk & Hkw & Hpp)].
    assert (polling e = true) as He.
    { destruct Hid as [?|Hid]; [done|]. unfold idle in Hid. simpl in Hp. by rewrite Hp in Hid. }
    destruct (polling_frees _ _ _ He Hex) as (_ & _ & Hw). simpl in Hw.
    split; [done..| |].
    + rewrite Hsame; [done|]. by apply Hap.
    + exists k. split; [done|]. split; [simpl; by rewrite Hw|]. eapply alike_pending; [exact Hal|].
      eapply pending_post_polled;
        [exact Hpp|by apply (real_lookup f h)|by apply not_eq_sym, Hap|exact He|exact Hex1|exact Hst].
  - intros j r0 Hj. destruct (decide (j = i)) as [->|Hne].
    + rewrite Hi in Hj. injection Hj as <-. exists (runtime_of s'). split; [done|]. simpl. rewrite decide_True by done.
      destruct (ms_spec _ _ _ _ _ _ Hst _ (real_lookup _ _ Hf _ _ Hi)) as (r1 & Hr1 & Hs).
      assert (m_runtimes (whole f') !! i = Some r1) as Hr1' by by rewrite (ak_runtimes _ _ Hal).
      rewrite (whole_lookup f' i _ Hi' Hap) in Hr1'. injection Hr1' as <-.
      eexists _, _. split; [exact Hs|]. split; [done|]. unfold view_of. by rewrite (alike_fabs _ _ _ _ _ Hal).
    + exists r0. rewrite Hsame by done. split; [done|]. simpl. rewrite decide_False by done.
      unfold view_of. rewrite (alike_fabs _ _ _ _ _ Hal). apply private_kept. by apply Hst.
  - intros t Ht. eapply alike_past; [exact Hal|].
    destruct (ms_spec _ _ _ _ _ _ Hst _ (real_lookup _ _ Hf _ _ Hi)) as (r1 & _ & Hs). by apply (spec_step_past _ _ _ t Hs).
Qed.

(** On no queue. *)
Lemma mexec_answered me m ans m1 :
  (∀ i e, me ≠ MRun i e) → mexec me (with_answered ans m) = Ok m1 →
  ∃ m', mexec me m = Ok m' ∧ m1 = with_answered ans m' ∧
    ∀ i r, m_runtimes m' !! i = Some r → m_runtimes m !! i = Some r ∨ r = new_runtime.
Proof using Type.
  destruct me as [env max|i e|n cs ths rqs]; intros Hne; [|by destruct (Hne i e)|].
  - simpl. destruct (ngx_http_lua_ffi_create_task_queue _ _ _) as [[p w]|]; [|done]. intros [= <-].
    eexists. split; [done|]. split.
    + destruct p; [|done]. unfold with_answered. simpl. f_equal. by rewrite fmap_insert.
    + intros i r. simpl. destruct p as [p|]; [|by left].
      intros [[_ <-]|[_ ?]]%lookup_insert_Some; [by right|by left].
  - simpl. intros [= <-]. eexists. split; [done|]. split; [done|]. by left.
Qed.

Lemma fine_step_idle me :
  (∀ i e, me ≠ MRun i e) → f_prep f = None → menabled (f_sys f) me = true →
  fine_safe f h (FStep me) (on_sys f (mexec me (f_sys f))).
Proof using Hf laws plaws.
  intros Hne Hp Hen. pose proof (fi_whole _ _ Hf) as Hm. unfold whole in Hm. rewrite Hp in Hm. simpl in Hm.
  assert (menabled (with_answered (f_ans f) (f_sys f)) me = true) as Hen' by (destruct me; naive_solver).
  destruct (multi_any_step _ _ _ Hm Hen') as (m1 & h' & Hex & Hm1 & Hk & _ & Hid & _).
  destruct (mexec_answered _ _ _ _ Hne Hex) as (m' & Hex' & -> & Hr). rewrite Hex'. simpl.
  set (f' := Fine m' (f_prep f) (f_ans f)). exists f', h'. split; [done|].
  assert (whole f = with_answered (f_ans f) (f_sys f)) as Ew by (unfold whole; by rewrite Hp).
  assert (whole f' = with_answered (f_ans f) m') as Ew' by (unfold whole; simpl; by rewrite Hp).
  assert (∀ i r, m_runtimes (f_sys f) !! i = Some r → ∃ r', m_runtimes m' !! i = Some r' ∧
    hide_runtime (f_ans f) r' = hide_runtime (f_ans f) r ∧ kept (whole f) h i (whole f') h') as Hkeep.
  { intros i r Hi.
    assert (m_runtimes (with_answered (f_ans f) (f_sys f)) !! i = Some (hide_runtime (f_ans f) r)) as Hwi.
    { simpl. by rewrite lookup_fmap, Hi. }
    assert (kept (whole f) h i (whole f') h') as Hkp.
    { rewrite Ew, Ew'. apply Hk; [|by eexists]. intros e He. by apply (Hne i e). }
    pose proof (kp_runtime _ _ _ _ _ Hkp) as Hri. rewrite Ew, Ew', Hwi in Hri. simpl in Hri.
    apply lookup_fmap_Some in Hri as (r' & Hrr & Hi'). by exists r'. }
  split; [split| |done|].
  - by rewrite Ew'.
  - intros i r t [Hi| ->]%Hr Ht; [by apply (fi_held _ _ Hf i r)|]. by apply elem_of_nil in Ht.
  - intros t Ht. destruct (fi_ans _ _ Hf t Ht) as (i & r & Hi & Hin).
    destruct (Hkeep i r Hi) as (r' & Hi' & Hrr & _). exists i, r'. split; [done|].
    destruct (Hr i r' Hi') as [Hir| ->]; [congruence|]. apply (fi_held _ _ Hf i r) in Hin; [|done].
    apply (f_equal r_polled) in Hrr. simpl in Hrr. by rewrite <-Hrr in Hin.
  - intros p Hp'. simpl in Hp'. congruence.
  - intros i r Hi. destruct (Hkeep i r Hi) as (r' & Hi' & _ & Hkp). exists r'. split; [done|].
    assert (event_of i me = None) as He by (destruct me; [done|by destruct (Hne i0 e)|done]).
    simpl. rewrite He. simpl. apply (view_kept f h f' h'); [by apply (real_lookup f h)| |done].
    rewrite Ew'. simpl. by rewrite lookup_fmap, Hi'.
  - destruct (Hid Hne) as [_ _ Ed Ei Eh]. intros t. unfold past. by rewrite Ew, Ew', Ed, Ei, Eh.
Qed.
End coarse.

(** ** The halves of a post *)

Section prepare.
Context (f : fine) (h : shape).
Hypothesis Hf : fine_inv f h.

Lemma fine_step_prepare i env r req :
  fenabled f (FPrepare i env r req) = true →
  fine_safe f h (FPrepare i env r req) (fexec_prepare i env r req f).
Proof using Hf.
  intros [Hid Hen]%andb_true_iff. simpl in Hen. destruct (m_runtimes (f_sys f) !! i) as [rt|] eqn:Hi; [|done].
  assert (f_prep f = None) as Hp by (unfold idle in Hid; by destruct (f_prep f)).
  set (m := with_answered (f_ans f) (f_sys f)). assert (whole f = m) as Ew by (unfold whole; by rewrite Hp).
  pose proof (fi_whole _ _ Hf) as Hm. rewrite Ew in Hm. pose proof (real_lookup _ _ Hf _ _ Hi) as Hri. rewrite Ew in Hri.
  assert (enabled (focus i (hide_runtime (f_ans f) rt) m) (EPost env r req) = true) as Hen' by exact Hen.
  destruct (prepare_facts _ _ _ _ _ _ _ Hm Hri Hen') as (Hfin & Ha & Hu & k & x & Hc & Hk & Hx & Hl).
  pose proof (prepare_inv m h req Hm k x Hk Hx Hl) as Hm'.
  destruct (prepare_fresh m h req Hm) as (Htf & Hrf & Hqf & Hle).
  pose proof (prepare_runs m env r req k x Ha Hc Hx) as Hrun.
  set (t := brk (post_world (m_world m) req)) in *. change (m_world m) with (m_world (f_sys f)) in *.
  unfold fine_safe, fexec_prepare. cbv zeta. rewrite Hrun, Hc.
  set (p := Prepared i env r req (Ptr t 0) (Some (Ptr t 1)) (Some k)).
  set (f' := Fine (set_m_world (prepare_world m req k) (f_sys f)) (Some p) (f_ans f)).
  assert (whole f' = MSys (prepare_world m req k) (<[t := lone_runtime t]> (m_runtimes m)) (m_inflight m)
                       ({[ k ]} ∪ m_waiting m) (m_handled m)) as Ew' by done.
  rewrite <-Ew' in Hm'. exists f', (reshape t [] None (sh_done h) h). split; [done|].
  assert (m_runtimes (f_sys f) !! t = None) as Hrf'.
  { simpl in Hrf. rewrite lookup_fmap in Hrf. by destruct (m_runtimes (f_sys f) !! t). }
  assert (i ≠ t) as Hit by congruence.
  assert (∀ j, j ≠ t → kept (whole f) h j (whole f') (reshape t [] None (sh_done h) h)) as Hkp.
  { intros j Hj. rewrite Ew, Ew'. destruct (post_world_facts (m_world (f_sys f)) req) as (_ & Eq & _).
    split; simpl; rewrite ?decide_False by done; [by rewrite lookup_insert_ne|by rewrite Eq|done|done]. }
  split; [split; [done|apply Hf|apply Hf|]| |by simpl|intros y; by rewrite Ew, Ew'].
  - intros p' [= <-]. split; [done..|]. exists k. split; [done|]. split; [exact Hk|]. rewrite Ew'.
    destruct (post_world_facts (m_world (f_sys f)) req) as (Et & Eq & _).
    split; cbn [m_world m_runtimes]; [apply lookup_insert_eq|done|simpl; by rewrite Eq| |].
    + exists (hide_runtime (f_ans f) rt). by rewrite lookup_insert_ne.
    + exists (posted_block k t (post_ptr (m_world m) req) (post_len req)),
        (posted_ctx k (post_ptr (m_world m) req) (post_len req)).
      split; [simpl; by rewrite Et, lookup_insert_eq|done].
  - intros j r0 Hj. exists r0. split; [done|]. apply (view_kept f h f'); [by apply (real_lookup _ h)| |].
    + apply whole_lookup; [done|]. intros p' [= <-]. change (t ≠ j). congruence.
    + apply Hkp. congruence.
Qed.
End prepare.

Section commit.
Context (f : fine) (h : shape) (p : prepared) (k : cid).
Hypothesis Hf : fine_inv f h.
Hypothesis Hp : f_prep f = Some p.
Hypothesis Hk : p_co p = Some k.
Hypothesis Hkw : k ∉ m_waiting (f_sys f).
Hypothesis Hpp : pending_post (whole f) (p_queue p) (p_loc p) k.

Let i := p_queue p.
Let t := p_loc p.
Let ans := f_ans f.

Lemma commit_whole :
  whole f = MSys (m_world (f_sys f)) (<[t := lone_runtime t]> (hide_runtime ans <$> m_runtimes (f_sys f)))
              (m_inflight (f_sys f) ++ ans) ({[ k ]} ∪ m_waiting (f_sys f)) (m_handled (f_sys f)).
Proof using Hp Hk. unfold whole, with_prepared, p_waits. by rewrite Hp, Hk. Qed.

Lemma commit_call j :
  call_of j (posting f) FCommit = if decide (i = j) then Some (EPost (p_env p) (p_rid p) (p_req p)) else None.
Proof using Hp. unfold posting. by rewrite Hp. Qed.

(** The runtime and the queue that the post is for. *)
Lemma commit_target : ∃ r q, m_runtimes (f_sys f) !! i = Some r ∧ r_finished r = false ∧
  queues (m_world (f_sys f)) !! i = Some q.
Proof using Hf Hp Hk Hpp.
  destruct (pp_open _ _ _ _ Hpp) as (rw & Hrw & Hfin).
  pose proof (ri_queue _ _ _ _ _ (mi_runtime _ _ (fi_whole _ _ Hf) _ _ Hrw)) as Hq.
  rewrite commit_whole in Hrw, Hq. simpl in Hrw, Hq.
  rewrite lookup_insert_ne in Hrw by apply not_eq_sym, (pp_ne _ _ _ _ Hpp).
  apply lookup_fmap_Some in Hrw as (r & <- & Hr).
  destruct (queues (m_world (f_sys f)) !! p_queue p) as [q|] eqn:E; [by exists r, q|].
  destruct Hq as (_ & _ & Hq). simpl in *. congruence.
Qed.

Lemma commit_admits r q :
  m_runtimes (f_sys f) !! i = Some r → queues (m_world (f_sys f)) !! i = Some q →
  admits (p_env p) (view_of f h i r) = negb (refused (p_env p) q).
Proof using Hf Hp.
  intros Hi Hq. pose proof (real_lookup _ _ Hf _ _ Hi) as Hri.
  destruct (multi_inv_seen _ _ _ _ Hri (fi_whole _ _ Hf)) as [Hinv _].
  rewrite <-(admits_abs (p_env p) _ _ _ _ q Hinv); [done|]. unfold whole. simpl. by destruct (f_prep f).
Qed.

Lemma refused_step r q w' c :
  m_runtimes (f_sys f) !! i = Some r → queues (m_world (f_sys f)) !! i = Some q → refused (p_env p) q = true →
  task_dropped (m_world (whole f)) t c w' →
  multi_inv (MSys w' (delete t (m_runtimes (whole f))) (m_inflight (whole f)) (m_waiting (whole f) ∖ {[ k ]})
               (m_handled (whole f))) h →
  fine_stepped f h FCommit (Fine (set_m_world w' (f_sys f)) None ans) h.
Proof using Hf Hp Hk Hkw Hpp.
  intros Hi Hq Hrf Hd Hm'. set (f' := Fine (set_m_world w' (f_sys f)) None ans).
  pose proof (pg_new _ _ (fi_prep _ _ Hf p Hp)) as Hnew.
  assert (whole f' = MSys w' (delete t (m_runtimes (whole f))) (m_inflight (whole f))
    (m_waiting (whole f) ∖ {[ k ]}) (m_handled (whole f))) as Ew'.
  { rewrite commit_whole. unfold whole, with_answered. simpl. f_equal; [|set_solver].
    rewrite delete_insert_id; [done|]. rewrite lookup_fmap. unfold t. by rewrite Hnew. }
  rewrite <-Ew' in Hm'.
  assert (∀ j r0, m_runtimes (f_sys f) !! j = Some r0 → view_of f' h j r0 = view_of f h j r0) as Hview.
  { intros j r0 Hj. pose proof (prep_apart _ _ Hf p j r0 Hp Hj) as Hjt.
    apply (view_kept f h f'); [by apply (real_lookup _ h)|by apply whole_lookup|].
    rewrite Ew'. split; simpl; [by rewrite lookup_delete_ne|by rewrite (td_queues _ _ _ _ Hd)|done|done]. }
  split; [split; [done|apply Hf|apply Hf|done]| |done|intros y; by rewrite Ew'].
  intros j r0 Hj. exists r0. split; [done|]. rewrite commit_call. case_decide as Hij.
  - exists (view_of f h j r0), (view_of f h j r0). split; [|by rewrite Hview].
    apply spec_post_refused. subst j. rewrite (commit_admits r0 q) by done. by rewrite Hrf.
  - simpl. by apply Hview.
Qed.

(** The step of the abstract machine that an accepted post is. *)
Lemma accepted_view r q w' f' :
  m_runtimes (f_sys f) !! i = Some r → r_finished r = false → queues (m_world (f_sys f)) !! i = Some q →
  refused (p_env p) q = false →
  m_world (whole f') = w' → f_ans f' = ans → queues w' !! i = Some (posted_queue (p_env p) (sh_pending h i) t q) →
  private_step (Some (EPost (p_env p) (p_rid p) (p_req p))) (view_of f h i r)
    (view_of f' (reshape i (sh_pending h i ++ [t]) None (sh_done h) h) i (post_runtime t r)).
Proof using Hf Hp Hk Hpp.
  intros Hi Hfin Hq Hrf Ew Ea Hq'. pose proof (real_lookup _ _ Hf _ _ Hi) as Hri.
  assert (queues (m_world (whole f)) !! i = Some q) as Hqw by by rewrite commit_whole.
  pose proof (commit_queue _ _ _ _ q (fi_whole _ _ Hf) Hri Hfin Hqw) as Hqi.
  pose proof (commit_marker _ _ _ _ (fi_whole _ _ Hf) Hri Hfin) as Hmk.
  exists (view_of f h i r), (spec_accept t k (view_of f h i r)). split; [|split; [done|]].
  - apply spec_post_accepted; [by rewrite (commit_admits r q), Hrf|by apply not_elem_of_empty|].
    unfold view_of. simpl. rewrite app_nil_r. intros [Hin|Hin]%elem_of_app.
    + eapply (commit_apart _ _ t (fi_whole _ _ Hf) (pp_lone _ _ _ _ Hpp) i); [exact Hri|].
      unfold queued. by apply elem_of_app; left.
    + apply list_elem_of_filter in Hin as [_ Hin]. by apply (held_not_prepared _ _ Hf p i r t Hp Hi Hin).
  - pose proof (pollers_posted (p_env p) (sh_pending h i) t q (qi_nodup _ _ _ _ _ _ Hqi)) as Hpo. unfold inside in Hpo.
    unfold view_of, fabs, mabs, private, spec_accept, abs. simpl. rewrite Ew, Hq', Hqw, Ea, Hmk. simpl.
    rewrite !decide_True by done. f_equal. exact Hpo.
Qed.

Lemma accepted_step r q :
  m_runtimes (f_sys f) !! i = Some r → r_finished r = false → queues (m_world (f_sys f)) !! i = Some q →
  refused (p_env p) q = false →
  let h' := reshape i (sh_pending h i ++ [t]) None (sh_done h) h in
  let w' := commit_world (whole f) h i t (p_env p) in
  multi_inv (MSys w' (delete t (<[i := post_runtime t (hide_runtime ans r)]> (m_runtimes (whole f))))
               (m_inflight (whole f)) (m_waiting (whole f)) (m_handled (whole f))) h' →
  fine_stepped f h FCommit
    (Fine (MSys w' (alter (post_runtime t) i (m_runtimes (f_sys f))) (m_inflight (f_sys f))
             ({[ k ]} ∪ m_waiting (f_sys f)) (m_handled (f_sys f))) None ans) h'.
Proof using Hf Hp Hk Hpp.
  intros Hi Hfin Hq Hrf h' w' Hm'. set (f' := Fine _ None ans).
  pose proof (pg_new _ _ (fi_prep _ _ Hf p Hp)) as Hnew. pose proof (pp_ne _ _ _ _ Hpp) as Hit. fold i t in Hit, Hnew.
  assert (whole f' = MSys w' (delete t (<[i := post_runtime t (hide_runtime ans r)]> (m_runtimes (whole f))))
    (m_inflight (whole f)) (m_waiting (whole f)) (m_handled (whole f))) as Ew'.
  { rewrite commit_whole. unfold whole, with_answered. simpl. f_equal.
    rewrite delete_insert_ne, delete_insert_id; [|by rewrite lookup_fmap, Hnew|done].
    rewrite (alter_alt_Some _ _ _ _ Hi), fmap_insert. done. }
  rewrite <-Ew' in Hm'.
  assert (m_runtimes (f_sys f') !! i = Some (post_runtime t r)) as Hi' by (simpl; by rewrite lookup_alter_eq, Hi).
  assert (∀ j, j ≠ i → m_runtimes (f_sys f') !! j = m_runtimes (f_sys f) !! j) as Hsame.
  { intros j Hj. simpl. by rewrite lookup_alter_ne. }
  split; [split; [done| | |done]| |done|intros y; by rewrite Ew'].
  - intros j r0 x Hj Hx. destruct (decide (j = i)) as [Hji|Hji].
    + rewrite Hji, Hi' in Hj. injection Hj as <-. by apply (fi_held _ _ Hf i r).
    + rewrite Hsame in Hj by done. by apply (fi_held _ _ Hf j r0).
  - intros x Hx. destruct (fi_ans _ _ Hf x Hx) as (j & r0 & Hj & Hin). destruct (decide (j = i)) as [Hji|Hji].
    + rewrite Hji, Hi in Hj. injection Hj as <-. by eexists i, _.
    + exists j, r0. by rewrite Hsame.
  - intros j r0 Hj. rewrite commit_call. destruct (decide (i = j)) as [Hij|Hij].
    + rewrite <-Hij in *. rewrite Hi in Hj. injection Hj as <-. exists (post_runtime t r). split; [exact Hi'|].
      apply (accepted_view r q w'); try done. unfold w', commit_world. simpl. rewrite lookup_alter_eq.
      rewrite commit_whole. simpl. unfold i in *. by rewrite Hq.
    + exists r0. pose proof (prep_apart _ _ Hf p j r0 Hp Hj) as Hjt.
      assert (m_runtimes (f_sys f') !! j = Some r0) as Hj' by by rewrite Hsame by done.
      split; [exact Hj'|]. apply (view_kept f h f'); [by apply (real_lookup _ h)|by apply whole_lookup|].
      rewrite Ew'. split; simpl; rewrite ?decide_False by done; try done.
      * rewrite lookup_delete_ne, lookup_insert_ne by done. done.
      * by rewrite lookup_alter_ne.
Qed.
End commit.

Lemma fine_step_commit f h :
  fine_inv f h → f_prep f ≠ None → fine_safe f h FCommit (fexec_commit f).
Proof.
  intros Hf Hne. destruct (f_prep f) as [p|] eqn:Hp; [|done]. clear Hne.
  destruct (fi_prep _ _ Hf p Hp) as [Htk Hcx Hu Hnew (k & Hk & Hkw & Hpp)].
  destruct (commit_target f h p k Hf Hp Hk Hpp) as (r & q & Hi & Hfin & Hq).
  pose proof (real_lookup _ _ Hf _ _ Hi) as Hri. pose proof (commit_whole f p k Hp Hk) as Ew.
  assert (queues (m_world (whole f)) !! p_queue p = Some q) as Hqw by by rewrite Ew.
  pose proof Hpp as [Hl Hit Hnq _ (b & c & Hb & Hv & Hact & Hck & Hca)].
  pose proof (commit_runs _ _ _ _ _ _ _ _ _ (fi_whole _ _ Hf) Hl Hri Hfin Hqw Hb Hv Hact Hu) as Hrun.
  unfold fine_safe, fexec_commit. cbv zeta. rewrite Hp, Htk, Hcx.
  assert (m_world (f_sys f) = m_world (whole f)) as -> by by rewrite Ew.
  destruct (refused (p_env p) q) eqn:Hrf.
  - destruct Hrun as (w' & -> & Hd). simpl. eexists _, h. split; [done|].
    eapply (refused_step f h p k Hf Hp Hk Hkw Hpp r q); [done..|exact Hd|].
    eapply dropped_inv; [apply Hf|done..].
  - rewrite Hrun. simpl. rewrite Hk. eexists _, _. split; [done|].
    apply (accepted_step f h p k Hf Hp Hk Hpp r q); [done..|].
    eapply accepted_inv; [apply Hf|done..].
Qed.

(** ** The halves of a response *)

Lemma whole_world f : m_world (whole f) = m_world (f_sys f).
Proof. unfold whole. by destruct (f_prep f). Qed.

Lemma whole_inflight f : m_inflight (whole f) = m_inflight (f_sys f) ++ f_ans f.
Proof. unfold whole. by destruct (f_prep f). Qed.

Lemma drop_held_notin t r : t ∉ r_held r → drop_held t r = r.
Proof. intros Ht. unfold drop_held. rewrite filter_ne_notin by done. by destruct r. Qed.

Lemma hide_nil r : hide_runtime [] r = r.
Proof.
  destruct r as [fi hd po pl lo]. unfold hide_runtime. simpl. f_equal.
  induction hd as [|x l IH]; [done|]. rewrite filter_cons_True by apply not_elem_of_nil. by rewrite IH.
Qed.

Lemma hide_snoc ans t r : hide_runtime (ans ++ [t]) r = drop_held t (hide_runtime ans r).
Proof.
  unfold hide_runtime, drop_held. simpl. f_equal. rewrite list_filter_filter. apply list_filter_iff.
  intros x. rewrite not_elem_of_app, not_elem_of_cons. pose proof (not_elem_of_nil x). naive_solver.
Qed.

Lemma hide_dropped ans t r : t ∈ ans → hide_runtime (filter (λ x, x ≠ t) ans) (drop_held t r) = hide_runtime ans r.
Proof.
  intros Ht. unfold hide_runtime, drop_held. simpl. f_equal. rewrite list_filter_filter. apply list_filter_iff.
  intros x. rewrite elem_of_filter_ne. split; [tauto|]. intros Hx. split; [tauto|]. by intros ->.
Qed.

(** The block of a task that is not appended to, nor behind. *)
Lemma link_other l t x f ms : x ≠ t → x ∉ l → link l t (alter f t ms) !! x = ms !! x.
Proof.
  intros Hne Hl. unfold link. destruct (last l) as [y|] eqn:E.
  - rewrite lookup_alter_ne; [by rewrite lookup_alter_ne|]. intros ->. by apply Hl, last_Some_elem_of.
  - by rewrite lookup_alter_ne.
Qed.

Section respond.
Context (f : fine) (h : shape) (i t : loc) (r : runtime).
Hypothesis Hf : fine_inv f h.
Hypothesis Hi : m_runtimes (f_sys f) !! i = Some r.
Hypothesis Ht : t ∈ r_held r.

Lemma held_elsewhere j r' : m_runtimes (f_sys f) !! j = Some r' → j ≠ i → t ∉ r_held r'.
Proof using Hf Hi Ht. intros Hj Hne Hin. apply Hne. by apply (held_once f h Hf j i r' r t). Qed.

Lemma prepared_not_answered p : f_prep f = Some p → p_loc p ≠ t ∧ p_loc p ≠ i.
Proof using Hf Hi Ht.
  intros Hp. split; [|by eapply prep_apart]. apply not_eq_sym. by apply (held_not_prepared f h Hf p i r).
Qed.

(** The post in progress stays one when only task [t] and [i]'s held tasks change. *)
Lemma prep_kept f' :
  f_prep f' = f_prep f → m_waiting (f_sys f') = m_waiting (f_sys f) →
  (∀ j, j ≠ i → m_runtimes (f_sys f') !! j = m_runtimes (f_sys f) !! j) →
  (∃ r', m_runtimes (f_sys f') !! i = Some r' ∧ r_finished r' = r_finished r) →
  queues (m_world (f_sys f')) = queues (m_world (f_sys f)) →
  (∀ p, f_prep f = Some p → tasks (m_world (f_sys f')) !! p_loc p = tasks (m_world (f_sys f)) !! p_loc p) →
  ∀ p, f_prep f' = Some p → post_in_progress f' p.
Proof using Hf Hi Ht.
  intros Ep Ew Hsame (r' & Hr' & Hfin) Hq Htk p Hp'. pose proof Hp' as Hp. rewrite Ep in Hp.
  destruct (fi_prep _ _ Hf p Hp) as [A B C D (k & Hk & Hkw & Hpp)].
  destruct (prepared_not_answered p Hp) as [Hpt Hpi].
  assert (∀ j r0, m_runtimes (f_sys f') !! j = Some r0 →
    m_runtimes (whole f') !! j = Some (hide_runtime (f_ans f') r0)) as Hl.
  { intros j r0 Hj. apply whole_lookup; [done|]. intros p0. rewrite Hp'. intros [= <-] <-.
    rewrite Hsame in Hj by done. congruence. }
  split; [done..|by rewrite Hsame|]. exists k. split; [done|]. split; [by rewrite Ew|].
  apply (pending_post_kept (whole f)); [done| |by rewrite !whole_world, Hq|by rewrite !whole_world, Htk|].
  - unfold whole. rewrite Hp', Hp. simpl. by rewrite !lookup_insert_eq.
  - intros rw Hrw. unfold whole in Hrw. rewrite Hp in Hrw. simpl in Hrw.
    rewrite lookup_insert_ne in Hrw by apply not_eq_sym, (pp_ne _ _ _ _ Hpp).
    apply lookup_fmap_Some in Hrw as (r0 & <- & Hr0). destruct (decide (p_queue p = i)) as [E|Hne].
    + rewrite E in *. eexists. split; [by apply Hl|]. simpl. congruence.
    + exists (hide_runtime (f_ans f') r0). split; [|done]. apply Hl. by rewrite Hsame.
Qed.

Lemma fine_step_set rc rsp len :
  t ∉ f_ans f → rsp_fits rsp len = true → fine_safe f h (FSet i t rc rsp len) (fexec_set t rc rsp len f).
Proof using Hf Hi Ht.
  intros Hans Hfit. pose proof (real_lookup _ _ Hf _ _ Hi) as Hri. pose proof (fi_whole _ _ Hf) as Hm.
  assert (t ∈ r_held (hide_runtime (f_ans f) r)) as Htw by by apply list_elem_of_filter.
  pose proof (set_runs _ _ _ _ _ rc rsp len Hm Hri Htw) as Hrun.
  pose proof (set_inv _ _ _ _ _ rc rsp len Hm Hri Htw Hfit) as Hm'.
  rewrite whole_world in Hrun. unfold fine_safe, fexec_set. cbv zeta. rewrite Hrun.
  set (w' := set_world' (whole f) t rc rsp len) in *.
  set (f' := Fine (set_m_world w' (f_sys f)) (f_prep f) (f_ans f ++ [t])). exists f', h. split; [done|].
  destruct (rsp_world_facts (m_world (f_sys f)) rsp) as (Et & _ & _ & Eq & _).
  assert (hide_runtime (f_ans f ++ [t]) <$> m_runtimes (f_sys f) =
    <[i := drop_held t (hide_runtime (f_ans f) r)]> (hide_runtime (f_ans f) <$> m_runtimes (f_sys f))) as Eh.
  { apply map_eq. intros j. rewrite lookup_fmap. destruct (decide (i = j)) as [Hj|Hj].
    - rewrite <-Hj, Hi, lookup_insert_eq. simpl. by rewrite hide_snoc.
    - rewrite lookup_insert_ne, lookup_fmap by done. destruct (m_runtimes (f_sys f) !! j) as [r'|] eqn:Hr'; [|done].
      simpl. rewrite hide_snoc, drop_held_notin; [done|]. simpl. intros [_ Hin]%list_elem_of_filter.
      by apply (held_elsewhere j r' Hr' (not_eq_sym Hj)). }
  assert (whole f' = MSys w' (<[i := drop_held t (hide_runtime (f_ans f) r)]> (m_runtimes (whole f)))
    (m_inflight (whole f) ++ [t]) (m_waiting (whole f)) (m_handled (whole f))) as Ew'.
  { unfold whole at 1, with_answered. simpl. rewrite Eh. unfold whole. destruct (f_prep f) as [p|] eqn:Hp; simpl.
    - rewrite insert_insert_ne by apply prepared_not_answered, Hp. by rewrite <-app_assoc.
    - by rewrite <-app_assoc. }
  rewrite <-Ew' in Hm'. assert (queues w' = queues (m_world (f_sys f))) as Hq.
  { unfold w', set_world'. simpl. by rewrite whole_world, Eq. }
  split; [split; [done|apply Hf| |]| |done|].
  4: { intros x. rewrite Ew'. unfold past. simpl. rewrite !elem_of_app. tauto. }
  - intros x [Hx| ->%list_elem_of_singleton]%elem_of_app; [by apply (fi_ans _ _ Hf)|by exists i, r].
  - apply prep_kept; try done; [by exists r|]. intros p Hp. change (tasks w' !! p_loc p = tasks (m_world (f_sys f)) !! p_loc p).
    unfold w', set_world'. rewrite whole_world. simpl. rewrite lookup_alter_ne by apply not_eq_sym, (prepared_not_answered p Hp).
    by rewrite Et.
  - intros j r0 Hj. exists r0. split; [done|]. simpl.
    pose proof (real_lookup _ _ Hf _ _ Hj) as Hrj.
    destruct (decide (i = j)) as [Hij|Hij].
    + subst j. rewrite Hi in Hj. injection Hj as <-. exists (view_of f h i r), (spec_respond t (view_of f h i r)).
      split; [apply spec_responds; exact Htw|]. split; [done|].
      unfold view_of, fabs, mabs, private, spec_respond, abs. simpl. rewrite !whole_world.
      change (m_world (f_sys f')) with w'. rewrite Hq.
      pose proof (f_equal r_held (hide_snoc (f_ans f) t r)) as Es. simpl in Es. by rewrite Es.
    + apply (view_kept f h f'); [done|by apply whole_lookup; [|intros p Hp; by eapply prep_apart]|].
      rewrite Ew'. split; cbn [m_world m_runtimes]; [by rewrite lookup_insert_ne|by rewrite Hq, whole_world|done|done].
Qed.

Lemma fine_step_inject : t ∈ f_ans f → fine_safe f h (FInject i t) (fexec_inject i t f).
Proof using Hf Hi Ht.
  intros Hans. pose proof (fi_whole _ _ Hf) as Hm. set (l := m_inflight (f_sys f) ++ filter (λ x, x ≠ t) (f_ans f)).
  assert (m_inflight (whole f) ≡ₚ t :: l) as Hl.
  { unfold l. rewrite whole_inflight, Permutation_middle. apply Permutation_app_head, filter_ne_perm; [|done].
    pose proof (places_nodup _ _ Hm) as Hn. rewrite whole_inflight, !app_assoc in Hn.
    by apply NoDup_app in Hn as (_ & _ & Hn). }
  pose proof (inject_runs _ _ _ _ Hm Hl) as Hrun. pose proof (inject_inv _ _ _ _ Hm Hl) as Hm'.
  rewrite whole_world in Hrun. unfold fine_safe, fexec_inject. cbv zeta. rewrite Hrun.
  set (w' := inject_world (whole f) h t) in *.
  set (f' := Fine _ _ _). exists f', (with_done (sh_done h ++ [t]) h). split; [done|].
  assert (hide_runtime (filter (λ x, x ≠ t) (f_ans f)) <$> alter (drop_held t) i (m_runtimes (f_sys f)) =
    hide_runtime (f_ans f) <$> m_runtimes (f_sys f)) as Eh.
  { apply map_eq. intros j. rewrite !lookup_fmap. destruct (decide (i = j)) as [Hj|Hj].
    - rewrite <-Hj, lookup_alter_eq, Hi. simpl. by rewrite hide_dropped.
    - rewrite lookup_alter_ne by done. destruct (m_runtimes (f_sys f) !! j) as [r'|] eqn:Hr'; [|done]. simpl.
      rewrite <-(hide_dropped (f_ans f) t r') by done.
      rewrite drop_held_notin; [done|]. by apply (held_elsewhere j r' Hr'), not_eq_sym. }
  assert (whole f' = MSys w' (m_runtimes (whole f)) l (m_waiting (whole f)) (m_handled (whole f))) as Ew'.
  { unfold whole at 1, with_answered. simpl. rewrite Eh. unfold whole. by destruct (f_prep f). }
  rewrite <-Ew' in Hm'. assert (queues w' = queues (m_world (f_sys f))) as Hq.
  { unfold w', inject_world. simpl. by rewrite whole_world. }
  assert (∀ j, j ≠ i → m_runtimes (f_sys f') !! j = m_runtimes (f_sys f) !! j) as Hsame.
  { intros j Hj. simpl. by rewrite lookup_alter_ne. }
  assert (m_runtimes (f_sys f') !! i = Some (drop_held t r)) as Hi' by (simpl; by rewrite lookup_alter_eq, Hi).
  split; [split; [done| | |]| |done|].
  5: { intros x. rewrite Ew'. unfold past. simpl. rewrite Hl, !elem_of_app, !elem_of_cons. tauto. }
  - intros j r0 x Hj. destruct (decide (j = i)) as [Hji|Hji].
    + rewrite Hji, Hi' in Hj. injection Hj as <-. simpl. intros [_ Hx]%elem_of_filter_ne. by apply (fi_held _ _ Hf i r).
    + rewrite Hsame in Hj by done. by apply (fi_held _ _ Hf j r0).
  - intros x [Hxt Hx]%elem_of_filter_ne. destruct (fi_ans _ _ Hf x Hx) as (j & r0 & Hj & Hin).
    destruct (decide (j = i)) as [Hji|Hji]; [|exists j, r0; by rewrite Hsame].
    rewrite Hji, Hi in Hj. injection Hj as <-. eexists i, _. split; [done|]. by apply elem_of_filter_ne.
  - apply prep_kept; try done; [by eexists|]. intros p Hp. change (tasks w' !! p_loc p = tasks (m_world (f_sys f)) !! p_loc p).
    unfold w', inject_world. rewrite whole_world. simpl. apply link_other; [apply prepared_not_answered, Hp|].
    intros Hin. apply (prepared_not_done f h Hf p _ Hp eq_refl). rewrite elem_of_app. by left.
  - intros j r0 Hj. assert (∃ r', m_runtimes (f_sys f') !! j = Some r') as [r' Hj'].
    { destruct (decide (j = i)) as [->|Hne]; [by eexists|]. exists r0. by rewrite Hsame. }
    exists r'. split; [done|]. apply (view_kept f h f'); [by apply (real_lookup _ h)|apply whole_lookup; [done|]|].
    + intros p Hp. by eapply prep_apart.
    + rewrite Ew'. split; cbn [m_world m_runtimes]; [done|by rewrite Hq, whole_world|done|done].
Qed.
End respond.

(** ** Executions *)

Lemma whole_at_rest m : whole (at_rest m) = m.
Proof.
  unfold whole, with_answered. simpl. rewrite app_nil_r.
  assert (hide_runtime [] <$> m_runtimes m = m_runtimes m) as ->; [|by destruct m].
  apply map_eq. intros i. rewrite lookup_fmap. destruct (m_runtimes m !! i) as [r|]; [|done]. simpl. by rewrite hide_nil.
Qed.

Lemma fine_inv_rest m h : multi_inv m h → fine_inv (at_rest m) h.
Proof.
  intros Hm. split; [by rewrite whole_at_rest| | |done].
  - intros i r t Hi. apply (mi_runtime _ _ Hm i r Hi).
  - by intros t Ht%elem_of_nil.
Qed.

Section executions.
Context {ops : NgxLua} {laws : NgxLuaLaws ops} {pool : NgxPool} {plaws : NgxPoolLaws pool}.

Lemma fine_step f h e : fine_inv f h → fenabled f e = true → fine_safe f h e (fexec e f).
Proof using laws plaws.
  intros Hf Hen. destruct e as [me|i env r req| |i t rc rsp len|i t].
  - simpl in Hen. apply andb_true_iff in Hen as [[Hw Hl]%andb_true_iff Hen].
    assert ((∃ i e, me = MRun i e) ∨ ∀ i e, me ≠ MRun i e) as [(i & e & ->)|Hne]
      by (destruct me; [by right|left; by eexists _, _|by right]).
    + apply fine_step_run; [done|by destruct e| |done]. apply orb_true_iff in Hl as [?|?]; [left|by right]. by destruct e.
    + apply fine_step_idle; [done|done| |done]. apply orb_true_iff in Hl as [Hl|Hl].
      * destruct me as [|i e|]; [done|by destruct (Hne i e)|done].
      * unfold idle in Hl. by destruct (f_prep f).
  - by apply fine_step_prepare.
  - apply fine_step_commit; [done|]. simpl in Hen. unfold idle in Hen. by destruct (f_prep f).
  - simpl in Hen. apply andb_true_iff in Hen as [Ht Hen]. apply bool_decide_eq_true in Ht.
    destruct (m_runtimes (f_sys f) !! i) as [r|] eqn:Hi; [|done].
    apply andb_true_iff in Hen as [Hh Hfit]. apply bool_decide_eq_true in Hh. by apply (fine_step_set f h i t r).
  - simpl in Hen. apply andb_true_iff in Hen as [Ht Hen]. apply bool_decide_eq_true in Ht.
    destruct (m_runtimes (f_sys f) !! i) as [r|] eqn:Hi; [|done]. apply bool_decide_eq_true in Hen.
    by apply (fine_step_inject f h i t r).
Qed.

Lemma fine_run es f h o :
  fine_inv f h → frun es f = Some o →
  ∃ f' h', o = Ok f' ∧ fine_inv f' h' ∧
    ∀ i r, m_runtimes (f_sys f) !! i = Some r → ∃ r', m_runtimes (f_sys f') !! i = Some r' ∧
      private_run (calls_of i (posting f) es) (view_of f h i r) (view_of f' h' i r').
Proof using laws plaws.
  revert f h. induction es as [|e es IH]; simpl; intros f h Hf.
  { intros [= <-]. exists f, h. split_and!; [done..|]. intros i r Hi. exists r. split; [done|apply private_nil]. }
  destruct (fenabled f e) eqn:Hen; [|done].
  destruct (fine_step _ _ _ Hf Hen) as (f1 & h1 & -> & [Hf1 Hc Hp]). intros Hr.
  destruct (IH f1 h1 Hf1 Hr) as (f' & h' & -> & Hf' & Hc'). exists f', h'. split_and!; [done..|].
  intros i r Hi. destruct (Hc i r Hi) as (r1 & Hi1 & Hs). destruct (Hc' i r1 Hi1) as (r' & Hi' & Hrun).
  exists r'. split; [done|]. rewrite Hp in Hrun. destruct (call_of i (posting f) e) as [c|]; simpl in *.
  - destruct Hs as (a & b & Hs & -> & Eb). rewrite Eb in Hrun. by eapply private_cons.
  - by rewrite <-Hs.
Qed.

Lemma freachable_inv f : freachable f → ∃ h, fine_inv f h.
Proof using laws plaws.
  intros (w & es & Hw & Hr).
  destruct (fine_run _ _ _ _ (fine_inv_rest _ _ (multi_inv_init _ Hw)) Hr) as (f' & h & [= <-] & Hf & _). eauto.
Qed.
End executions.
