(* ===== verification/FineContract.v ===== *)
(** * FineContract: what the library guarantees between the halves

    Every interleaving of halves of posts, halves of responses and whole calls runs
    without fault, keeps the invariant, and is for each runtime a run of the
    abstract machine of [Spec]: a post takes effect when the queue is locked, a
    response when the result is stored. *)

From S2P Require Import Prelude World TaskQueue FfiTask FfiQueue EventHandler Ownership System.
From S2P Require Import Spec Invariant Posting Polling Answering Safety Multi MultiInvariant Demo.
From S2P Require Import Contract MultiContract FineSteps FineInvariant FineStable FineProtocol.

(** ** A call is the sequence of its halves *)

Definition split_call (me : mevent) : list fevent :=
  match me with
  | MRun i (EPost env r req) => [FPrepare i env r req; FCommit]
  | MRun i (ERespond t rc rsp len) => [FSet i t rc rsp len; FInject i t]
  | _ => [FStep me]
  end.

Lemma frun_app {ops : NgxLua} {pool : NgxPool} es es' f f' :
  frun es f = Some (Ok f') → frun (es ++ es') f = frun es' f'.
Proof.
  revert f. induction es as [|e es IH]; simpl; intros f; [by intros [= ->]|].
  destruct (fenabled f e); [|done]. destruct (fexec e f); [apply IH|done].
Qed.

(** The second half of a post allocates nothing. *)
Lemma commit_brk f h p rc w' :
  fine_inv f h → f_prep f = Some p →
  task_commit (p_env p) (Some (Ptr (p_queue p) 0)) (Some (p_task p)) (p_ctx p) (m_world (f_sys f)) = Ok (rc, w') →
  brk w' = brk (m_world (f_sys f)).
Proof.
  intros Hf Hp. destruct (fi_prep _ _ Hf p Hp) as [Htk Hcx Hu Hnew (k & Hk & Hkw & Hpp)].
  destruct (commit_target f h p k Hf Hp Hk Hpp) as (r & q & Hi & Hfin & Hq).
  pose proof (real_lookup _ _ Hf _ _ Hi) as Hri. rewrite <-whole_world in Hq |- *. rewrite Htk, Hcx.
  destruct Hpp as [Hl Hit Hnq _ (b & c & Hb & Hv & Hact & Hck & Hca)].
  pose proof (commit_runs _ _ _ _ _ _ _ _ _ (fi_whole _ _ Hf) Hl Hri Hfin Hq Hb Hv Hact Hu) as Hrun.
  destruct (refused (p_env p) q); [destruct Hrun as (w1 & -> & Hd)|rewrite Hrun]; intros [= <- <-]; [apply Hd|done].
Qed.

Section split.
Context {ops : NgxLua} {pool : NgxPool}.

Lemma split_respond m i t rc rsp len m' :
  menabled m (MRun i (ERespond t rc rsp len)) = true → mexec (MRun i (ERespond t rc rsp len)) m = Ok m' →
  frun [FSet i t rc rsp len; FInject i t] (at_rest m) = Some (Ok (at_rest m')).
Proof using Type.
  intros Hen Hex. simpl in Hen, Hex. destruct (m_runtimes m !! i) as [r|] eqn:Hi; [|done].
  unfold exec_respond in Hex. rewrite respond_halves in Hex.
  destruct ((respond_set t rc rsp len;; respond_inject t) (sw (focus i r m))) as [[[] w2]|] eqn:Hr; [|done].
  injection Hex as <-. apply bind_inv in Hr as ([] & w1 & Hset & Hinj). simpl in Hset.
  cbn [frun fenabled f_sys f_ans at_rest]. rewrite bool_decide_true by apply not_elem_of_nil. simpl. rewrite Hi, Hen. simpl.
  unfold fexec_set. simpl. rewrite Hset. cbn [frun fenabled f_sys f_ans]. simpl. rewrite Hi.
  apply andb_true_iff in Hen as [-> _]. rewrite bool_decide_true by by left. simpl.
  unfold fexec_inject. cbn [f_sys f_prep f_ans m_world set_m_world]. rewrite Hinj.
  rewrite filter_cons_False by (intros H; by apply H). unfold at_rest, unfocus. simpl.
  by rewrite (alter_alt_Some _ _ _ _ Hi).
Qed.

Lemma split_post m h i env r req m' :
  multi_inv m h → menabled m (MRun i (EPost env r req)) = true → mexec (MRun i (EPost env r req)) m = Ok m' →
  frun [FPrepare i env r req; FCommit] (at_rest m) = Some (Ok (at_rest m')).
Proof using Type.
  intros Hm Hen Hex. assert (fenabled (at_rest m) (FPrepare i env r req) = true) as Hen' by exact Hen.
  destruct (fine_step_prepare _ _ (fine_inv_rest _ _ Hm) _ _ _ _ Hen') as (f1 & h1 & Hf1 & [Hinv1 _ _]).
  cbn [frun]. rewrite Hen'. cbn [fexec]. rewrite Hf1.
  simpl in Hen, Hex. destruct (m_runtimes m !! i) as [rt|] eqn:Hi; [|done].
  destruct (prepare_facts m h i rt env r req Hm Hi Hen) as (_ & Ha & _ & k & x & Hc & _ & Hx & _).
  pose proof (prepare_runs m env r req k x Ha Hc Hx) as Hrun.
  unfold fexec_prepare in Hf1. cbv zeta in Hf1. cbn [f_sys at_rest] in Hf1. rewrite Hrun in Hf1.
  remember (Prepared _ _ _ _ _ _ _) as p eqn:Ep in Hf1.
  assert (f_prep f1 = Some p) as Hp by by injection Hf1 as <-.
  cbn [fenabled]. unfold idle, fexec_commit. rewrite Hp. cbn [negb]. cbv zeta.
  pose proof (commit_brk f1 h1 p) as Hbrk. injection Hf1 as <-.
  cbn [f_sys f_ans m_world set_m_world m_runtimes m_inflight m_waiting m_handled at_rest] in *.
  rewrite Ep in *. cbn [p_env p_queue p_task p_ctx p_co] in *.
  unfold exec_post in Hex. rewrite lua_post_halves in Hex. cbn [sw focus s_tq] in Hex.
  erewrite bind_ok in Hex by exact Hrun. cbv beta iota in Hex.
  destruct (task_commit _ _ _ _ _) as [[rc w2]|] eqn:Hcom; [|done].
  specialize (Hbrk rc w2 Hinv1 eq_refl eq_refl). destruct (rc =? NGX_OK).
  - injection Hex as <-. simpl. unfold at_rest, unfocus. simpl. rewrite (alter_alt_Some _ _ _ _ Hi), Hbrk. done.
  - injection Hex as <-. simpl. unfold at_rest, unfocus, set_m_world. simpl. do 3 f_equal.
    by rewrite insert_id by by destruct rt.
Qed.

Lemma split_step m h me m' :
  multi_inv m h → menabled m me = true → mexec me m = Ok m' →
  frun (split_call me) (at_rest m) = Some (Ok (at_rest m')).
Proof using Type.
  intros Hm Hen Hex.
  assert (whole_step me = true → frun [FStep me] (at_rest m) = Some (Ok (at_rest m'))) as Hwhole.
  { intros Hw. cbn [frun fenabled fexec f_sys at_rest]. rewrite Hw, Hen, orb_true_r. simpl. by rewrite Hex. }
  destruct me as [|i [env r req| | | | |t rc rsp len| | |]|]; try by apply Hwhole.
  - by eapply split_post.
  - by apply split_respond.
Qed.

Lemma split_run {laws : NgxLuaLaws ops} {plaws : NgxPoolLaws pool} es m h m' :
  multi_inv m h → mrun es m = Some (Ok m') →
  frun (es ≫= split_call) (at_rest m) = Some (Ok (at_rest m')).
Proof using Type.
  revert m h. induction es as [|me es IH]; simpl; intros m h Hm; [by intros [= ->]|].
  destruct (menabled m me) eqn:Hen; [|done].
  destruct (multi_any_step _ _ _ Hm Hen) as (m1 & h1 & Hex & Hm1 & _). rewrite Hex. intros Hr.
  rewrite (frun_app _ _ _ (at_rest m1)); [by eapply IH|by eapply split_step].
Qed.
End split.

(** ** Finishing the halves *)

(** No unload is under way. *)
Definition unclosing (f : fine) : Prop :=
  ∀ i r, m_runtimes (f_sys f) !! i = Some r → r_finished r = false ∨ queues (m_world (f_sys f)) !! i = None.

Definition second_half (e : fevent) : bool :=
  match e with FCommit | FInject _ _ => true | _ => false end.

(** When no task is allocated, all were handled. *)
Lemma all_handled m h : multi_inv m h → tasks (m_world m) = ∅ → m_handled m ≡ₚ gposted (m_runtimes m).
Proof.
  intros Hm Ht. pose proof (posted_perm _ _ Hm) as Hp.
  assert (∀ l, (∀ t, t ∈ l → t ∈ gpending h (m_runtimes m) ++ gmarks h (m_runtimes m) ++ gheld (m_runtimes m) ++
    sh_done h ++ m_inflight m) → l = []) as Hnil.
  { intros [|t l] Hl; [done|]. specialize (Hl t (list_elem_of_here _ _)).
    apply (hi_dom _ _ _ _ (mi_heap _ _ Hm)) in Hl. rewrite Ht in Hl. by destruct Hl. }
  rewrite (Hnil (gpending _ _)), (Hnil (gheld _)), (Hnil (sh_done h)), (Hnil (m_inflight m)) in Hp; [done|..].
  all: intros t Hin; rewrite !elem_of_app; tauto.
Qed.

Section finish.
Context {ops : NgxLua} {laws : NgxLuaLaws ops} {pool : NgxPool} {plaws : NgxPoolLaws pool}.

Lemma second_half_runtimes e f f' i r' :
  second_half e = true → fexec e f = Ok f' → m_runtimes (f_sys f') !! i = Some r' →
  is_Some (m_runtimes (f_sys f) !! i).
Proof using Type.
  destruct e as [| | | |j t]; try done; intros _; simpl.
  - unfold fexec_commit. destruct (f_prep f) as [p|]; [|by intros [= <-] ->].
    destruct (task_commit _ _ _ _ _) as [[rc w]|]; [|done]. destruct (rc =? NGX_OK); intros [= <-]; simpl; intros Hi.
    + by rewrite <-(is_Some_alter (post_runtime (p_loc p)) _ (p_queue p)), Hi.
    + by rewrite Hi.
  - unfold fexec_inject. destruct (respond_inject _ _) as [[u w]|]; [|done]. intros [= <-]. simpl. intros Hi.
    by rewrite <-(is_Some_alter (drop_held t) _ j), Hi.
Qed.

(** The second halves unload nothing. *)
Lemma second_half_unclosing f h e f' h' :
  second_half e = true → fexec e f = Ok f' → fine_stepped f h e f' h' → unclosing f → unclosing f'.
Proof using Type.
  intros Hs Hex [_ Hc _] Hu i r' Hi'.
  destruct (second_half_runtimes _ _ _ _ _ Hs Hex Hi') as [r Hi]. specialize (Hu i r Hi).
  destruct (Hc i r Hi) as (r1 & Hi1 & Hst). rewrite Hi' in Hi1. injection Hi1 as <-.
  assert (a_finished (view_of f' h' i r') = a_finished (view_of f h i r) ∧
    a_open (view_of f' h' i r') = a_open (view_of f h i r)) as [Ef Eo].
  { destruct (call_of i (posting f) e) as [c|] eqn:Ec; [|simpl in Hst; by rewrite Hst].
    destruct Hst as (a & b & Hst & -> & ->). destruct e; try done. simpl in Ec.
    unfold posting in Ec. destruct (f_prep f); [|done]. simpl in Ec. case_decide; [|done]. injection Ec as <-.
    by inversion Hst. }
  simpl in Ef, Eo. rewrite !whole_world in Eo. rewrite Ef. destruct Hu as [?|Hq]; [by left|right].
  rewrite Hq in Eo. by apply fmap_None in Eo.
Qed.

Lemma finish_answers n f h :
  fine_inv f h → unclosing f → length (f_ans f) = n →
  ∃ es f' h', length es = n ∧ frun es f = Some (Ok f') ∧ fine_inv f' h' ∧ unclosing f' ∧
    f_ans f' = [] ∧ f_prep f' = f_prep f.
Proof using laws plaws.
  revert f h. induction n as [|n IH]; intros f h Hf Hu Hn.
  { apply nil_length_inv in Hn. exists [], f, h. by split_and!. }
  destruct (f_ans f) as [|t l] eqn:Ea; [done|].
  destruct (fi_ans _ _ Hf t) as (i & r & Hi & Ht); [rewrite Ea; by left|].
  assert (fenabled f (FInject i t) = true) as Hen.
  { simpl. rewrite Hi, !bool_decide_true; [done|done|rewrite Ea; by left]. }
  destruct (fine_step f h _ Hf Hen) as (f1 & h1 & Hex & Hst).
  assert (NoDup (f_ans f)) as Hnd.
  { pose proof (places_nodup _ _ (fi_whole _ _ Hf)) as Hd. rewrite whole_inflight, !app_assoc in Hd.
    by apply NoDup_app in Hd as (_ & _ & Hd). }
  assert (f_ans f1 = l ∧ f_prep f1 = f_prep f) as [Ea1 Ep1].
  { simpl in Hex. unfold fexec_inject in Hex. destruct (respond_inject _ _) as [[u w]|]; [|done].
    injection Hex as <-. simpl. split; [|done]. rewrite Ea in Hnd |- *. apply NoDup_cons in Hnd as [Htl _].
    rewrite filter_cons_False by (intros H; by apply H). by apply filter_ne_notin. }
  destruct (IH f1 h1 (fs_inv _ _ _ _ _ Hst)) as (es & f' & h' & Hl & Hr & Hf' & Hu' & Ha' & Hp').
  { exact (second_half_unclosing _ _ (FInject i t) _ _ eq_refl Hex Hst Hu). }
  { rewrite Ea1. by injection Hn. }
  exists (FInject i t :: es), f', h'. split_and!; [simpl; by rewrite Hl| |done..|by rewrite Hp', Ep1].
  cbn [frun]. by rewrite Hen, Hex.
Qed.

(** One half per answered task and one for the post lead to a state between calls. *)
Lemma finish_halves f h :
  fine_inv f h → unclosing f →
  ∃ es m h', (length es ≤ S (length (f_ans f)))%nat ∧ frun es f = Some (Ok (at_rest m)) ∧ multi_inv m h' ∧
    unclosing (at_rest m).
Proof using laws plaws.
  intros Hf Hu. destruct (finish_answers _ f h Hf Hu eq_refl) as (es & f1 & h1 & Hl & Hr & Hf1 & Hu1 & Ha1 & _).
  assert (∀ f2 h2, fine_inv f2 h2 → f_ans f2 = [] → f_prep f2 = None →
    f2 = at_rest (f_sys f2) ∧ multi_inv (f_sys f2) h2) as Hrest.
  { intros f2 h2 H2 Ea Ep. assert (f2 = at_rest (f_sys f2)) as E by (destruct f2; simpl in *; by rewrite Ea, Ep).
    split; [done|]. apply fi_whole in H2. rewrite E in H2. by rewrite whole_at_rest in H2. }
  destruct (f_prep f1) as [p|] eqn:Ep.
  - assert (fenabled f1 FCommit = true) as Hen by (simpl; unfold idle; by rewrite Ep).
    destruct (fine_step f1 h1 _ Hf1 Hen) as (f2 & h2 & Hex & Hst).
    pose proof (second_half_unclosing _ _ FCommit _ _ eq_refl Hex Hst Hu1) as Hu2.
    assert (f_ans f2 = [] ∧ f_prep f2 = None) as [Ea2 Ep2].
    { simpl in Hex. unfold fexec_commit in Hex. rewrite Ep in Hex.
      destruct (task_commit _ _ _ _ _) as [[rc w]|]; [|done]. destruct (rc =? NGX_OK); by injection Hex as <-. }
    destruct (Hrest f2 h2 (fs_inv _ _ _ _ _ Hst) Ea2 Ep2) as [E Hm]. rewrite E in Hu2.
    exists (es ++ [FCommit]), (f_sys f2), h2. split_and!; [rewrite length_app; simpl; lia| |done|done].
    rewrite (frun_app _ _ _ f1 Hr). cbn [frun]. by rewrite Hen, Hex, <-E.
  - destruct (Hrest f1 h1 Hf1 Ha1 Ep) as [E Hm]. rewrite E in Hu1, Hr.
    exists es, (f_sys f1), h1. by split_and!; [lia|..].
Qed.
End finish.

(** ** The properties *)

Section contract.
Context {ops : NgxLua} {laws : NgxLuaLaws ops} {pool : NgxPool} {plaws : NgxPoolLaws pool}.

(** C2: calls need not be atomic.  In any interleaving of the halves of posts, in
    which the task is allocated and in which the queue is locked, of the halves of
    responses, in which the result is stored and in which the task goes into the
    done queue, and of all other calls, every step the protocol allows succeeds
    without undefined behaviour. *)
Theorem halves_are_safe f e : freachable f → fenabled f e = true → ∃ f', fexec e f = Ok f'.
Proof using laws plaws.
  intros [h Hf]%freachable_inv Hen. destruct (fine_step _ _ _ Hf Hen) as (f' & h' & Hex & _). by exists f'.
Qed.

(** C3: halves refine whole calls.  In any such interleaving each runtime still
    goes through the steps of the abstract machine of [Spec], for the calls on its
    own queue: a post takes effect, and is accepted or refused, in its second half,
    a response in its first. *)
Theorem halves_refine_spec f i r es f' :
  freachable f → m_runtimes (f_sys f) !! i = Some r → frun es f = Some (Ok f') →
  ∃ h h' r', multi_inv (whole f) h ∧ multi_inv (whole f') h' ∧ m_runtimes (f_sys f') !! i = Some r' ∧
    private_run (calls_of i (posting f) es) (view_of f h i r) (view_of f' h' i r').
Proof using laws plaws.
  intros [h Hf]%freachable_inv Hi Hr. destruct (fine_run _ _ _ _ Hf Hr) as (f1 & h' & [= <-] & Hf' & Hc).
  destruct (Hc i r Hi) as (r' & Hi' & Hrun). exists h, h', r'. split_and!; [apply Hf|apply Hf'|done..].
Qed.

(** C13: between the halves the state is consistent: memory is well typed; a
    coroutine that waits, or whose post is in progress, and its task point at each
    other; and each runtime polls its requests in the order of the second halves
    of their posts, none twice. *)
Theorem halves_keep_state_consistent f :
  freachable f →
  well_typed (m_world (f_sys f)) ∧ agrees (m_world (f_sys f)) (waits f ∪ m_waiting (f_sys f)) ∧
  ∀ i r, m_runtimes (f_sys f) !! i = Some r → r_polled r `prefix_of` r_posted r ∧ NoDup (r_posted r).
Proof using laws plaws.
  intros [h Hf]%freachable_inv. pose proof (fi_whole _ _ Hf) as Hm.
  split_and!.
  - rewrite <-whole_world. by apply (multi_inv_typed _ h).
  - rewrite <-whole_world. assert (waits f ∪ m_waiting (f_sys f) = m_waiting (whole f)) as ->.
    { unfold waits, whole. destruct (f_prep f); [done|]. apply union_empty_l_L. }
    apply co_inv_agrees, Hm.
  - intros i r Hi%(real_lookup _ _ Hf). by destruct (multi_inv_fifo _ _ _ _ Hm Hi) as (Hpre & _ & Hn).
Qed.

(** The finer steps include the whole calls.  Every execution of whole calls
    becomes one of halves, with the same result, when each post and each response
    is replaced by its two halves. *)
Theorem calls_are_their_halves m es m' :
  mreachable m → mrun es m = Some (Ok m') →
  frun (es ≫= split_call) (at_rest m) = Some (Ok (at_rest m')) ∧ freachable (at_rest m').
Proof using laws plaws.
  intros (w & es0 & Hw & Hr0) Hr. pose proof (multi_inv_init _ Hw) as Hm0.
  destruct (multi_run_inv _ _ _ _ Hm0 Hr0) as (m0 & h & [= <-] & Hm).
  split; [by eapply split_run|]. exists w, ((es0 ++ es) ≫= split_call). split; [done|].
  eapply split_run; [done|]. by rewrite (mrun_app _ _ _ m).
Qed.

(** C14: no interleaving gets stuck.  From any state between the halves, while no
    runtime is being unloaded, one step per answer that is not in the done queue,
    one for a post in progress and at most eight per request lead to a state
    between calls in which every request of every runtime was handled, no coroutine
    waits and no task or buffer is allocated. *)
Theorem halves_can_be_served f :
  freachable f → unclosing f →
  ∃ es m, (length es ≤ S (length (f_ans f)) + 8 * length (m_handled m))%nat ∧
    frun es f = Some (Ok (at_rest m)) ∧ tasks (m_world m) = ∅ ∧ bufs (m_world m) = ∅ ∧ m_waiting m = ∅ ∧
    m_handled m ≡ₚ gposted (m_runtimes m).
Proof using laws plaws.
  intros [h Hf]%freachable_inv Hu. destruct (finish_halves f h Hf Hu) as (es1 & m1 & h1 & Hl1 & Hr1 & Hm1 & Hu1).
  destruct (multi_served m1 h1 Hm1 Hu1) as (es & m & Hl & _ & Hr & Ht & Hb & Hw & Hh).
  exists (es1 ++ (es ≫= split_call)), m.
  assert (length (es ≫= split_call) ≤ 2 * length es)%nat as Hs.
  { clear. induction es as [|e es IH]; [done|]. rewrite bind_cons, length_app. simpl.
    assert (length (split_call e) ≤ 2)%nat; [|lia]. destruct e as [|i []|]; simpl; lia. }
  destruct (multi_run_inv _ _ _ _ Hm1 Hr) as (m2 & h2 & [= <-] & Hm2).
  split_and!; [rewrite length_app, Hh; lia| |done..|by eapply all_handled].
  rewrite (frun_app _ _ _ (at_rest m1) Hr1). by eapply split_run.
Qed.
End contract.

(** ** Instances *)

(** Queues 0 and 1.  The post to queue 1 is in progress while a thread starts to
    poll queue 0; its task 2 is polled and answered while the post to queue 0,
    with request 3 and task 4, is in progress. *)
Definition demo_halves : list fevent :=
  [FStep (MCreate env_ok 2); FStep (MCreate env_ok 1); FStep (MRun 1 (EPoll env_ok 1)); FPrepare 1 env_ok 8 None;
   FStep (MRun 0 (EPoll env_ok 2)); FCommit; FPrepare 0 env_ok 7 (Some hi); FStep (MRun 1 (EWake env_ok 1));
   FSet 1 2 0 (Some ok) 0].

(** The task enters the done queue before the post is through. *)
Definition demo_finish : list fevent := [FInject 1 2; FCommit; FStep (MRun 0 (EWake env_ok 2)); FStep (MRun 0 ETake)].

Definition fine_of (o : option (res fine)) : fine :=
  match o with Some (Ok f) => f | _ => at_rest (no_runtimes demo_two_requests) end.

Definition demo_between : fine := fine_of (frun demo_halves (at_rest (no_runtimes demo_two_requests))).

Lemma demo_freachable es :
  (∃ f, frun es (at_rest (no_runtimes demo_two_requests)) = Some (Ok f)) →
  freachable (fine_of (frun es (at_rest (no_runtimes demo_two_requests)))).
Proof. intros [f Hf]. exists demo_two_requests, es. split; [by split|]. by rewrite Hf. Qed.

Ltac fdemo := apply demo_freachable; eexists; vm_compute; reflexivity.

Example demo_between_state :
  f_ans demo_between = [2%nat] ∧ p_loc <$> f_prep demo_between = Some 4%nat ∧
  m_runtimes (f_sys demo_between) =
    {[ 0%nat := Runtime false [] [] [] 0; 1%nat := Runtime false [2%nat] [2%nat] [2%nat] 0 ]}.
Proof. split_and!; vm_compute; reflexivity. Qed.

Lemma halves_are_safe_witness : ∃ f', fexec FCommit demo_between = Ok f'.
Proof. apply (halves_are_safe demo_between FCommit); [unfold demo_between; fdemo|vm_compute; reflexivity]. Defined.

Lemma halves_refine_spec_witness :
  ∃ h h' r', multi_inv (whole demo_between) h ∧ multi_inv (whole (fine_of (frun demo_finish demo_between))) h' ∧
    m_runtimes (f_sys (fine_of (frun demo_finish demo_between))) !! 0%nat = Some r' ∧
    private_run [EPost env_ok 7 (Some hi); EWake env_ok 2; ETake]
      (view_of demo_between h 0 (Runtime false [] [] [] 0))
      (view_of (fine_of (frun demo_finish demo_between)) h' 0 r').
Proof.
  apply (halves_refine_spec demo_between 0 (Runtime false [] [] [] 0) demo_finish);
    [unfold demo_between; fdemo|vm_compute; reflexivity..].
Defined.

Lemma halves_keep_state_consistent_witness :
  well_typed (m_world (f_sys demo_between)) ∧
  agrees (m_world (f_sys demo_between)) (waits demo_between ∪ m_waiting (f_sys demo_between)) ∧
  [2%nat] `prefix_of` [2%nat] ∧ NoDup [2%nat].
Proof.
  destruct (halves_keep_state_consistent demo_between) as (Ht & Ha & Hr); [unfold demo_between; fdemo|].
  split_and!; [exact Ht|exact Ha|..]; apply (Hr 1%nat (Runtime false [2%nat] [2%nat] [2%nat] 0)); vm_compute; reflexivity.
Defined.

Lemma calls_are_their_halves_witness :
  frun ([MRun 1 (ERespond 4 0 (Some ok) 0); MRun 0 ETake] ≫= split_call) (at_rest demo_both) =
    Some (Ok (at_rest (msys_of (mrun [MRun 1 (ERespond 4 0 (Some ok) 0); MRun 0 ETake] demo_both)))).
Proof.
  apply (calls_are_their_halves demo_both); [unfold demo_both; mdemo|vm_compute; reflexivity].
Defined.

Lemma halves_can_be_served_witness :
  ∃ es m, (length es ≤ 2 + 8 * length (m_handled m))%nat ∧ frun es demo_between = Some (Ok (at_rest m)) ∧
    tasks (m_world m) = ∅ ∧ bufs (m_world m) = ∅ ∧ m_waiting m = ∅ ∧ m_handled m ≡ₚ gposted (m_runtimes m).
Proof.
  apply (halves_can_be_served demo_between); [unfold demo_between; fdemo|].
  intros i r. rewrite (proj2 (proj2 demo_between_state)), lookup_insert_Some, lookup_singleton_Some.
  intros [[_ <-]|[_ [_ <-]]]; by left.
Defined.
