(* ===== verification/FineIntegrity.v ===== *)
(** * FineIntegrity: calls carry their data across the halves

    [Integrity] for the finer steps: from the first half of a post to the delivery
    of the answer, a task keeps its request, its coroutine and, once it is stored,
    its response, whatever halves and calls of all runtimes come in between. *)

From S2P Require Import Prelude World TaskQueue FfiTask FfiQueue EventHandler Ownership System.
From S2P Require Import Spec Invariant Posting Polling Answering Safety Multi MultiInvariant Demo.
From S2P Require Import Contract MultiContract Integrity FineSteps FineInvariant FineStable FineProtocol FineContract.

(** ** What a step does to the tasks *)

(** The call of [Invariant.contents] that a step is. *)
Definition effect_of (e : fevent) : event :=
  match e with
  | FStep (MRun _ e) => e
  | FPrepare _ env r req => EPost env r req
  | FSet _ t rc rsp len => ERespond t rc rsp len
  | FStep _ | FCommit | FInject _ _ => ETake
  end.

(** Block [t] is the task of a call, made or in progress. *)
Definition tracked (f : fine) (t : loc) : Prop :=
  (∃ i r, m_runtimes (f_sys f) !! i = Some r ∧ t ∈ r_posted r) ∨ (∃ p, f_prep f = Some p ∧ p_loc p = t).

Record fine_effect (f : fine) (e : fevent) (f' : fine) : Prop := {
  fe_contents : contents (m_world (f_sys f)) (effect_of e) (m_world (f_sys f'));
  fe_brk : (brk (m_world (f_sys f)) ≤ brk (m_world (f_sys f')))%nat;
  fe_tracked : ∀ t, tracked f' t → (t < brk (m_world (f_sys f)))%nat → tracked f t;
  fe_handled : ∀ t, t ∈ m_handled (f_sys f) → t ∈ m_handled (f_sys f');
}.

Lemma tracked_whole f h t : fine_inv f h → tracked f t → t ∈ gposted (m_runtimes (whole f)).
Proof.
  intros Hf [(i & r & Hi & Ht)|(p & Hp & <-)]; apply elem_of_gather.
  - eexists i, _. split; [by apply (real_lookup _ _ Hf)|done].
  - exists (p_loc p), (lone_runtime (p_loc p)). split; [|by left]. unfold whole. rewrite Hp. apply lookup_insert_eq.
Qed.

Lemma whole_tracked f t : t ∈ gposted (m_runtimes (whole f)) → tracked f t.
Proof.
  intros (i & r & Hi & Ht)%elem_of_gather. unfold whole in Hi.
  assert (∀ j r0, (hide_runtime (f_ans f) <$> m_runtimes (f_sys f)) !! j = Some r0 → t ∈ r_posted r0 → tracked f t) as H.
  { intros j r0 (r1 & <- & Hj)%lookup_fmap_Some Ht0. left. by exists j, r1. }
  destruct (f_prep f) as [p|] eqn:Hp; simpl in Hi; [|by eapply H].
  apply lookup_insert_Some in Hi as [[<- <-]|[_ Hi]]; [|by eapply H].
  right. exists p. apply list_elem_of_singleton in Ht as ->. done.
Qed.

(** Runtimes whose histories of posts are the same. *)
Lemma tracked_same f f' t :
  f_prep f' = f_prep f →
  (∀ i r', m_runtimes (f_sys f') !! i = Some r' → ∃ r, m_runtimes (f_sys f) !! i = Some r ∧ r_posted r = r_posted r') →
  tracked f' t → tracked f t.
Proof.
  intros Ep Hr [(i & r' & Hi & Ht)|(p & Hp & <-)].
  - left. destruct (Hr i r' Hi) as (r & Hi' & E). exists i, r. by rewrite E.
  - right. exists p. by rewrite <-Ep.
Qed.

Section effects.
Context {ops : NgxLua} {laws : NgxLuaLaws ops} {pool : NgxPool} {plaws : NgxPoolLaws pool}.
Context (f : fine) (h : shape).
Hypothesis Hf : fine_inv f h.

Lemma exec_posted e s s' :
  ordinary e = true → exec e s = Ok s' → s_posted s' = s_posted s ∧ ∀ t, t ∈ s_handled s → t ∈ s_handled s'.
Proof using Type.
  destruct e; try done; intros _; simpl; unfold exec_finish, exec_poll, exec_kill, exec_take, exec_handle.
  all: repeat case_match; try done; intros [= <-]; simpl; (split; [done|]); intros x; rewrite ?elem_of_app; auto.
Qed.

Lemma effect_run i e f' :
  ordinary e = true → (polling e = true ∨ idle f = true) → menabled (f_sys f) (MRun i e) = true →
  on_sys f (mexec (MRun i e) (f_sys f)) = Ok f' → fine_effect f (FStep (MRun i e)) f'.
Proof using Hf laws plaws.
  intros Ho Hid Hen Hex. simpl in *. destruct (m_runtimes (f_sys f) !! i) as [r|] eqn:Hi; [|done].
  destruct (coarse_step f h i r e (fi_whole _ _ Hf) Hi) as (s' & s1 & h' & Hs' & Htq & _ & Hst & Hal);
    [intros p Hp; by eapply prep_apart|done..|].
  rewrite Hs' in Hex. injection Hex as <-. destruct (exec_posted _ _ _ Ho Hs') as [Hpo Hh].
  pose proof (ms_contents _ _ _ _ _ _ Hst) as Hc. pose proof (ms_brk _ _ _ _ _ _ Hst) as Hb.
  rewrite <-(ak_world _ _ Hal), !whole_world in Hc, Hb. split; [exact Hc|exact Hb| |exact Hh].
  intros t Ht _. revert Ht. apply tracked_same; [done|]. simpl. rewrite Htq. intros j r'.
  intros [[<- <-]|[_ Hj]]%lookup_insert_Some; [|by exists r']. exists r. split; [done|]. simpl. by rewrite Hpo.
Qed.

Lemma effect_idle me f' :
  (∀ i e, me ≠ MRun i e) → f_prep f = None → menabled (f_sys f) me = true →
  on_sys f (mexec me (f_sys f)) = Ok f' → fine_effect f (FStep me) f'.
Proof using Hf laws plaws.
  intros Hne Hp Hen Hex. pose proof (fi_whole _ _ Hf) as Hm. unfold whole in Hm. rewrite Hp in Hm. simpl in Hm.
  assert (menabled (with_answered (f_ans f) (f_sys f)) me = true) as Hen' by (destruct me; naive_solver).
  destruct (multi_any_step _ _ _ Hm Hen') as (m1 & h' & Hex1 & _ & _ & _ & Hid & Hb).
  destruct (mexec_answered _ _ _ _ Hne Hex1) as (m' & Hex' & -> & Hr). rewrite Hex' in Hex. injection Hex as <-.
  destruct (Hid Hne) as [Et Eb _ _ Eh]. simpl in Et, Eb, Eh, Hb. split; [|done| |simpl; by rewrite Eh].
  - assert (effect_of (FStep me) = ETake) as -> by (destruct me; [done|by destruct (Hne i e)|done]).
    by apply contents_same; simpl; [rewrite Et|..].
  - intros t [(i & r & [Hi| ->]%Hr & Ht)|Ht] _; [left; by exists i, r|by apply elem_of_nil in Ht|by right].
Qed.

Lemma effect_prepare i env r req f' :
  fenabled f (FPrepare i env r req) = true → fexec_prepare i env r req f = Ok f' →
  fine_effect f (FPrepare i env r req) f' ∧ ∃ p, f_prep f' = Some p ∧
    views (tasks (m_world (f_sys f))) !! p_loc p = None ∧ (brk (m_world (f_sys f)) ≤ p_loc p)%nat.
Proof using Hf.
  intros [Hid Hen]%andb_true_iff Hex. simpl in Hen. destruct (m_runtimes (f_sys f) !! i) as [rt|] eqn:Hi; [|done].
  assert (f_prep f = None) as Hp by (unfold idle in Hid; by destruct (f_prep f)).
  set (m := with_answered (f_ans f) (f_sys f)). assert (whole f = m) as Ew by (unfold whole; by rewrite Hp).
  pose proof (fi_whole _ _ Hf) as Hm. pose proof (real_lookup _ _ Hf _ _ Hi) as Hri. rewrite Ew in Hm, Hri.
  destruct (prepare_facts m h i _ env r req Hm Hri Hen) as (_ & Ha & _ & k & x & Hc & _ & Hx & _).
  destruct (prepare_fresh m h req Hm) as (Htf & _ & _ & Hle). pose proof (prepare_runs m env r req k x Ha Hc Hx) as Hrun.
  change (m_world m) with (m_world (f_sys f)) in *. unfold fexec_prepare in Hex. cbv zeta in Hex. rewrite Hrun in Hex.
  injection Hex as <-. cbn [f_sys f_prep set_m_world m_world m_handled].
  split; [|eexists; split; [done|]; split; [by apply views_none|done]]. split.
  - eapply contents_new; [by apply views_none|apply (prepare_views m req k)| |done..|].
    + intros y z l Hy Hl. simpl. destruct req as [b|]; simpl; [|done]. rewrite lookup_insert_ne; [done|]. intros <-.
      pose proof (owned_live _ _ _ _ _ _ _ (mi_heap _ _ Hm) Hy Hl) as Hs.
      apply (hi_fresh_buf _ _ _ _ (mi_heap _ _ Hm)) in Hs. change (m_world m) with (m_world (f_sys f)) in Hs. lia.
    + destruct req as [b|]; simpl; [|done]. eexists. do 2 (split; [done|]). simpl. by rewrite lookup_insert_eq.
  - simpl. lia.
  - intros t [Ht|(p & [= <-] & <-)] Hlt; [by left|]. unfold p_loc in Hlt. simpl in Hlt. lia.
  - done.
Qed.

Lemma effect_commit f' : f_prep f ≠ None → fexec_commit f = Ok f' → fine_effect f FCommit f'.
Proof using Hf.
  intros Hne Hex. destruct (f_prep f) as [p|] eqn:Hp; [|done]. clear Hne.
  destruct (fi_prep _ _ Hf p Hp) as [Htk Hcx Hu Hnew (k & Hk & Hkw & Hpp)].
  destruct (commit_target f h p k Hf Hp Hk Hpp) as (r & q & Hi & Hfin & Hq).
  pose proof (real_lookup _ _ Hf _ _ Hi) as Hri. rewrite <-whole_world in Hq. pose proof (fi_whole _ _ Hf) as Hm.
  pose proof Hpp as [Hl Hit Hnq _ (b & c & Hb & Hv & Hact & Hck & Hca)].
  pose proof (commit_runs _ _ _ _ _ _ _ _ _ Hm Hl Hri Hfin Hq Hb Hv Hact Hu) as Hrun.
  unfold fexec_commit in Hex. cbv zeta in Hex. rewrite Hp, Htk, Hcx, <-whole_world in Hex.
  assert (tracked f (p_loc p)) as Htr by (right; by exists p).
  destruct (refused (p_env p) q).
  - destruct Hrun as (w' & Hrun & Hd). rewrite Hrun in Hex. simpl in Hex. injection Hex as <-.
    split; simpl; rewrite <-?whole_world; [|by rewrite (td_brk _ _ _ _ Hd)| |done].
    + apply contents_kept; [| |intros y z l Hy Hs Hin|done]; rewrite ?(td_tasks _ _ _ _ Hd), ?views_delete in *.
      * intros y z z' Hy [_ Hy']%lookup_delete_Some. congruence.
      * done.
      * assert (y ≠ p_loc p) as Hyt by (intros ->; rewrite lookup_delete_eq in Hs; by destruct Hs).
        rewrite (dropped_bufs _ _ _ _ _ Hm Hl Hb Hv w' l Hd). rewrite decide_False; [done|]. intros Hin'.
        apply Hyt. eapply (hi_excl _ _ _ _ (mi_heap _ _ Hm)); [exact Hy| |exact Hin|exact Hin'].
        rewrite <-Hv. by apply views_some.
    + intros t [Ht|(p' & [=] & _)] _. by left.
  - rewrite Hrun in Hex. simpl in Hex. injection Hex as <-.
    split; simpl; rewrite <-?whole_world; [|done| |done].
    + apply contents_same; [apply (commit_views (whole f) h)|done|done].
    + intros t [(j & r' & Hj & Ht)|(p' & [=] & _)] _.
      simpl in Hj. apply lookup_alter_Some in Hj as [(<- & r0 & Hj & ->)|[_ Hj]]; [|left; by exists j, r'].
      simpl in Ht. apply elem_of_app in Ht as [Ht| ->%list_elem_of_singleton]; [left; by eexists _, _|done].
Qed.

Lemma effect_set i t rc rsp len r f' :
  m_runtimes (f_sys f) !! i = Some r → t ∈ r_held r → t ∉ f_ans f → fexec_set t rc rsp len f = Ok f' →
  fine_effect f (FSet i t rc rsp len) f'.
Proof using Hf.
  intros Hi Ht Hans Hex. pose proof (real_lookup _ _ Hf _ _ Hi) as Hri. pose proof (fi_whole _ _ Hf) as Hm.
  assert (t ∈ r_held (hide_runtime (f_ans f) r)) as Htw by by apply list_elem_of_filter.
  pose proof (set_runs _ _ _ _ _ rc rsp len Hm Hri Htw) as Hrun. destruct (set_view _ _ _ _ _ Hm Hri Htw) as (c & Hc & _).
  pose proof (set_views (whole f) t rc rsp len c Hc) as Hv. rewrite whole_world in *.
  unfold fexec_set in Hex. cbv zeta in Hex. rewrite Hrun in Hex. injection Hex as <-.
  pose proof (mi_heap _ _ Hm) as Hh. rewrite whole_world in Hh. unfold set_world' in *. rewrite whole_world in *.
  split; cbn [f_sys m_world set_m_world m_handled]; [|simpl; apply rsp_world_facts| |done].
  - eapply contents_answered; [exact Hh|exact Hc|exact Hv|done].
  - intros x Hx _. revert Hx. apply tracked_same; [done|]. intros j r'. by exists r'.
Qed.

Lemma effect_inject i t r f' :
  m_runtimes (f_sys f) !! i = Some r → t ∈ f_ans f → fexec_inject i t f = Ok f' → fine_effect f (FInject i t) f'.
Proof using Hf.
  intros Hi Hans Hex. pose proof (fi_whole _ _ Hf) as Hm.
  assert (t ∈ m_inflight (whole f)) as Hin by (rewrite whole_inflight; mem).
  apply elem_of_Permutation in Hin as [l Hl]. pose proof (inject_runs _ _ _ _ Hm Hl) as Hrun. rewrite whole_world in Hrun.
  unfold fexec_inject in Hex. cbv zeta in Hex. rewrite Hrun in Hex. injection Hex as <-.
  split; simpl; [|by rewrite whole_world| |done].
  - apply contents_same; [|simpl; by rewrite whole_world|done]. rewrite <-whole_world. apply inject_views.
  - intros x Hx _. revert Hx. apply tracked_same; [done|]. simpl. intros j r'.
    intros [(<- & r0 & Hj & ->)|[_ Hj]]%lookup_alter_Some; [by exists r0|by exists r'].
Qed.

Lemma effect_step e f' : fenabled f e = true → fexec e f = Ok f' → fine_effect f e f'.
Proof using Hf laws plaws.
  intros Hen Hex. destruct e as [me|i env r req| |i t rc rsp len|i t].
  - simpl in Hen. apply andb_true_iff in Hen as [[Hw Hl]%andb_true_iff Hen]. apply orb_true_iff in Hl.
    assert ((∃ i e, me = MRun i e) ∨ ∀ i e, me ≠ MRun i e) as [(i & e & ->)|Hne]
      by (destruct me; [by right|left; by eexists _, _|by right]).
    + apply effect_run; [by destruct e| |done|done]. destruct Hl as [?|?]; [left|by right]. by destruct e.
    + apply effect_idle; [done| |done|done]. destruct Hl as [Hl|Hl].
      * destruct me as [|i e|]; [done|by destruct (Hne i e)|done].
      * unfold idle in Hl. by destruct (f_prep f).
  - by apply effect_prepare.
  - apply effect_commit; [|done]. simpl in Hen. unfold idle in Hen. by destruct (f_prep f).
  - simpl in Hen. apply andb_true_iff in Hen as [Ht Hen]. apply bool_decide_eq_true in Ht.
    destruct (m_runtimes (f_sys f) !! i) as [r|] eqn:Hi; [|done].
    apply andb_true_iff in Hen as [Hh Hfit]. apply bool_decide_eq_true in Hh. by apply (effect_set i t rc rsp len r).
  - simpl in Hen. apply andb_true_iff in Hen as [Ht Hen]. apply bool_decide_eq_true in Ht.
    destruct (m_runtimes (f_sys f) !! i) as [r|] eqn:Hi; [|done]. by apply (effect_inject i t r).
Qed.
End effects.

(** ** One task over time *)

Section runs.
Context {ops : NgxLua} {laws : NgxLuaLaws ops} {pool : NgxPool} {plaws : NgxPoolLaws pool}.

Lemma step_effect f h e f' :
  fine_inv f h → fenabled f e = true → fexec e f = Ok f' → ∃ h', fine_stepped f h e f' h' ∧ fine_effect f e f'.
Proof using laws plaws.
  intros Hf Hen Hex. destruct (fine_step f h e Hf Hen) as (f1 & h' & Hex' & Hst).
  rewrite Hex in Hex'. injection Hex' as <-. exists h'. split; [done|]. by apply (effect_step f h Hf).
Qed.

Lemma fine_preserves_step f h e f' h' t c :
  fine_inv f h → fenabled f e = true → fine_stepped f h e f' h' → fine_effect f e f' →
  views (tasks (m_world (f_sys f))) !! t = Some (task_view t c) → tracked f' t → t ∉ m_handled (f_sys f') →
  ∃ c', preserved (t ∈ past (whole f) h) (∀ j k, c_wait_co_ctx c = Some k → e ≠ FStep (MRun j (EKill k)))
          (m_world (f_sys f)) t c (m_world (f_sys f')) c'.
Proof using Type.
  intros Hf Hen [Hf' _ _ _] [Hc _ _ _] Hv Ht Hn. pose proof (fi_whole _ _ Hf') as Hm'.
  destruct (live_task _ _ t Hm' (tracked_whole _ _ _ Hf' Ht)) as [c' Hv'].
  { unfold whole. by destruct (f_prep f'). }
  rewrite whole_world in Hv'. exists c'.
  destruct (contents_preserved _ _ _ _ _ _ Hc Hv Hv') as [A B C D E]. split; [done..| |].
  - intros Hpast. apply D. intros rc rsp len He. destruct e as [[|i e0|]| | |i t0 rc0 rsp0 len0|]; try done; simpl in He.
    + subst e0. done.
    + injection He as -> _ _ _. simpl in Hen. apply andb_true_iff in Hen as [Hans Hen]. apply bool_decide_eq_true in Hans.
      destruct (m_runtimes (f_sys f) !! i) as [r|] eqn:Hi; [|done]. apply andb_true_iff in Hen as [Hh _].
      apply bool_decide_eq_true in Hh.
      apply (past_not_held _ _ _ _ _ (fi_whole _ _ Hf) Hpast (real_lookup _ _ Hf _ _ Hi)).
      by apply list_elem_of_filter.
  - intros Hs. apply E. intros k He Hk. destruct e as [[|i e0|]| | | |]; try done. simpl in He. subst e0. by apply (Hs i k).
Qed.

Lemma frun_history es f h f' t :
  fine_inv f h → frun es f = Some (Ok f') →
  (tracked f' t → (t < brk (m_world (f_sys f)))%nat → tracked f t) ∧
  (t ∈ m_handled (f_sys f) → t ∈ m_handled (f_sys f')).
Proof using laws plaws.
  revert f h. induction es as [|e es IH]; simpl; intros f h Hf; [by intros [= <-]|].
  destruct (fenabled f e) eqn:Hen; [|done]. destruct (fexec e f) as [f1|] eqn:Hex; [|done].
  destruct (step_effect _ _ _ _ Hf Hen Hex) as (h1 & Hst & [_ Hb Ht Hh]). intros Hr.
  destruct (IH f1 h1 (fs_inv _ _ _ _ _ Hst) Hr) as [IHt IHh]. split; [|auto].
  intros Ht' Hlt. apply Ht; [apply IHt; [done|lia]|done].
Qed.

(** Over any execution in which the task is neither refused nor handled. *)
Lemma frun_preserves es f h f' t c :
  fine_inv f h → frun es f = Some (Ok f') → views (tasks (m_world (f_sys f))) !! t = Some (task_view t c) →
  tracked f' t → t ∉ m_handled (f_sys f') →
  ∃ h' c', fine_inv f' h' ∧ (t ∈ past (whole f) h → t ∈ past (whole f') h') ∧
    preserved (t ∈ past (whole f) h) (∀ j k, c_wait_co_ctx c = Some k → FStep (MRun j (EKill k)) ∉ es)
      (m_world (f_sys f)) t c (m_world (f_sys f')) c'.
Proof using laws plaws.
  revert f h c. induction es as [|e es IH]; simpl; intros f h c Hf.
  { intros [= <-] Hv _ _. exists h, c. split_and!; [done..|by apply preserved_refl]. }
  destruct (fenabled f e) eqn:Hen; [|done]. destruct (fexec e f) as [f1|] eqn:Hex; [|done].
  destruct (step_effect _ _ _ _ Hf Hen Hex) as (h1 & Hst & Hef). intros Hr Hv Ht Hn.
  pose proof (fs_inv _ _ _ _ _ Hst) as Hf1. destruct (frun_history es f1 h1 f' t Hf1 Hr) as [Htr Hha].
  assert (t < brk (m_world (f_sys f)))%nat as Hlt.
  { rewrite <-whole_world in Hv |- *. eapply (hi_fresh _ _ _ _ (mi_heap _ _ (fi_whole _ _ Hf))). by eexists. }
  pose proof (fe_brk _ _ _ Hef) as Hb.
  destruct (fine_preserves_step _ _ _ _ _ _ _ Hf Hen Hst Hef Hv) as [c1 Hp1]; [apply Htr; [done|lia]|auto|].
  destruct (IH f1 h1 c1 Hf1 Hr) as (h' & c' & Hf' & Hpa & Hp'); [apply Hp1|done|done|].
  exists h', c'. split; [done|]. split; [intros Hin; by apply Hpa, (fs_past _ _ _ _ _ Hst)|].
  eapply preserved_impl; [|eapply preserved_trans; [exact Hp1|exact Hp'|apply (fs_past _ _ _ _ _ Hst)]].
  intros Hsp. rewrite (pr_wait _ _ _ _ _ _ _ Hp1). split; intros j k Hk.
  - intros ->. apply (Hsp j k Hk). by left.
  - intros Hin. apply (Hsp j k Hk). by right.
Qed.

(** The task of a post in progress. *)
Lemma prepared_contents f h i env rq req f1 p :
  fine_inv f h → fenabled f (FPrepare i env rq req) = true → fexec (FPrepare i env rq req) f = Ok f1 →
  f_prep f1 = Some p →
  ∃ h1 c, fine_inv f1 h1 ∧ views (tasks (m_world (f_sys f1))) !! p_loc p = Some (task_view (p_loc p) c) ∧
    c_wait_co_ctx c = current (m_world (f_sys f)) rq ∧ c_is_abort c = 0 ∧ has_request (m_world (f_sys f1)) c req.
Proof using laws plaws.
  intros Hf Hen Hex Hp. destruct (step_effect _ _ _ _ Hf Hen Hex) as (h1 & Hst & _).
  destruct (effect_prepare f h Hf _ _ _ _ _ Hen Hex) as (Hef & p' & Hp' & Hnew & _).
  rewrite Hp in Hp'. injection Hp' as <-. pose proof (fs_inv _ _ _ _ _ Hst) as Hf1.
  destruct (pg_co _ _ (fi_prep _ _ Hf1 p Hp)) as (k & _ & _ & Hpp). pose proof (lone_held _ _ (pp_lone _ _ _ _ Hpp)) as Hl.
  destruct (mi_tasks _ _ (fi_whole _ _ Hf1) (p_loc p)) as [c Hc]; [mem|]. rewrite whole_world in Hc.
  exists h1, c. destruct (cn_post _ _ _ (fe_contents _ _ _ Hef) env rq req (p_loc p) c eq_refl Hnew Hc) as (? & ? & _ & ?).
  by split_and!.
Qed.

(** A stored answer, and that no one can answer the task again. *)
Lemma set_settles f h j t rc rsp len f' c :
  fine_inv f h → fenabled f (FSet j t rc rsp len) = true → fexec (FSet j t rc rsp len) f = Ok f' →
  views (tasks (m_world (f_sys f))) !! t = Some (task_view t c) →
  ∃ h' c', fine_inv f' h' ∧ t ∈ past (whole f') h' ∧ views (tasks (m_world (f_sys f'))) !! t = Some (task_view t c') ∧
    has_response (m_world (f_sys f')) c' rc rsp len ∧ c_wait_co_ctx c' = c_wait_co_ctx c ∧ c_is_abort c' = c_is_abort c.
Proof using laws plaws.
  intros Hf Hen Hex Hv. destruct (step_effect _ _ _ _ Hf Hen Hex) as (h' & Hst & [Hc _ _ _]).
  pose proof (fs_inv _ _ _ _ _ Hst) as Hf'.
  assert (t ∈ m_inflight (whole f')) as Hin.
  { simpl in Hex. unfold fexec_set in Hex. destruct (respond_set _ _ _ _ _) as [[u w]|]; [|done].
    injection Hex as <-. rewrite whole_inflight. simpl. mem. }
  destruct (mi_tasks _ _ (fi_whole _ _ Hf') t) as [c' Hc']; [mem|]. rewrite whole_world in Hc'.
  exists h', c'. split_and!; [done|unfold past; mem|done| | |].
  - by apply (cn_answer _ _ _ Hc t rc rsp len).
  - by apply (cn_request _ _ _ Hc t).
  - by apply (cn_abort _ _ _ Hc t).
Qed.

(** nginx comes to an answered task. *)
Lemma fine_delivers f h i r t rest c k rc rsp len :
  fine_inv f h → f_prep f = None → m_runtimes (f_sys f) !! i = Some r → m_inflight (f_sys f) = t :: rest →
  views (tasks (m_world (f_sys f))) !! t = Some (task_view t c) →
  c_wait_co_ctx c = Some k → c_is_abort c = 0 → has_response (m_world (f_sys f)) c rc rsp len →
  ∃ f', fexec (FStep (MRun i EHandle)) f = Ok f' ∧ delivers (f_sys f) t k rc rsp len (f_sys f').
Proof using laws plaws.
  intros Hf Hp Hi Hfl Hv Hk Ha Hrsp. pose proof (real_lookup _ _ Hf _ _ Hi) as Hri.
  assert (m_inflight (whole f) = t :: rest ++ f_ans f) as Hflw by by rewrite whole_inflight, Hfl.
  rewrite <-whole_world in Hv, Hrsp.
  destruct (handle_delivers _ _ _ _ _ _ _ _ _ _ _ (fi_whole _ _ Hf) Hri Hflw Hv Hk Ha Hrsp) as (m' & Hex & _ & _ & Hd).
  destruct (coarse_step f h i r EHandle (fi_whole _ _ Hf) Hi) as (s' & s1 & h' & Hs' & _ & Hs1 & _ & Hal).
  { intros p. by rewrite Hp. } { done. } { right. unfold idle. by rewrite Hp. }
  { simpl. rewrite Hfl. by rewrite bool_decide_false. }
  cbn [mexec] in Hex. rewrite Hri, Hs1 in Hex. injection Hex as <-.
  cbn [fexec mexec]. rewrite Hi, Hs'. cbn [on_sys]. eexists. split; [done|]. cbn [f_sys].
  pose proof (ak_world _ _ Hal) as Ew. pose proof (ak_waiting _ _ Hal) as Eq. rewrite whole_world in Ew. cbn [f_sys] in Ew.
  assert (m_waiting (whole f) = m_waiting (f_sys f)) as Eqf by (unfold whole; by rewrite Hp).
  assert (m_waiting (unfocus s' (f_sys f)) = m_waiting (unfocus s1 (whole f))) as Eq'.
  { rewrite <-Eq. unfold whole. simpl. by rewrite Hp. }
  destruct Hd as [A B C]. rewrite whole_world, <-Ew in C. split; [by rewrite <-Eqf|by rewrite Eq'|exact C].
Qed.

Lemma frun_app_inv es es' f f' :
  frun (es ++ es') f = Some (Ok f') → ∃ f1, frun es f = Some (Ok f1) ∧ frun es' f1 = Some (Ok f').
Proof using Type.
  revert f. induction es as [|e es IH]; simpl; intros f; [by exists f|].
  destruct (fenabled f e); [|done]. destruct (fexec e f); [apply IH|done].
Qed.
End runs.

(** ** The properties *)

Section contract.
Context {ops : NgxLua} {laws : NgxLuaLaws ops} {pool : NgxPool} {plaws : NgxPoolLaws pool}.

(** C9: a request can be read as it was posted at any time from the first half of
    its post to the delivery of the answer, unless the post is refused, whatever
    halves of whatever calls come in between. *)
Theorem halves_keep_the_request f i env rq req f1 p es f2 :
  freachable f → fenabled f (FPrepare i env rq req) = true → fexec (FPrepare i env rq req) f = Ok f1 →
  f_prep f1 = Some p → frun es f1 = Some (Ok f2) → tracked f2 (p_loc p) → p_loc p ∉ m_handled (f_sys f2) →
  reads (m_world (f_sys f2)) (p_loc p) req.
Proof using laws plaws.
  intros [h Hf]%freachable_inv Hen Hex Hp Hr Ht Hn.
  destruct (prepared_contents _ _ _ _ _ _ _ _ Hf Hen Hex Hp) as (h1 & c & Hf1 & Hv & _ & _ & Hq).
  destruct (frun_preserves _ _ _ _ _ _ Hf1 Hr Hv Ht Hn) as (h2 & c2 & _ & _ & [Hv2 _ Hq2 _ _]).
  eapply has_request_reads; [exact Hv2|by apply Hq2].
Qed.

(** C8: the answer that is stored in the task of a call reaches the coroutine that
    made the call.  From the first half of the post of coroutine [k] on, with
    halves of whatever calls before and after the answer is stored but without [k]
    being killed, when nginx comes to the task, Lua and nginx go on from the world of
    then in which exactly that answer is on the stack of [k] and the task is
    released, and the next state is where they get to from there; when the request
    of [k] has ended, the task is released and nothing else happens. *)
Theorem halves_deliver_the_answer f i env rq req f1 p k es1 j rc rsp len es2 f2 rest i' r' :
  freachable f → fenabled f (FPrepare i env rq req) = true → fexec (FPrepare i env rq req) f = Ok f1 →
  f_prep f1 = Some p → current (m_world (f_sys f)) rq = Some k →
  frun (es1 ++ FSet j (p_loc p) rc rsp len :: es2) f1 = Some (Ok f2) →
  (∀ x, FStep (MRun x (EKill k)) ∉ es1 ++ es2) →
  f_prep f2 = None → m_inflight (f_sys f2) = p_loc p :: rest → m_runtimes (f_sys f2) !! i' = Some r' →
  ∃ f3, fexec (FStep (MRun i' EHandle)) f2 = Ok f3 ∧ delivers (f_sys f2) (p_loc p) k rc rsp len (f_sys f3).
Proof using laws plaws.
  intros [h Hf]%freachable_inv Hen Hex Hp Hcur Hr Hsp Hp2 Hfl Hi'. set (t := p_loc p) in *.
  apply frun_app_inv in Hr as (fa & Hra & Hr). cbn [frun] in Hr.
  destruct (fenabled fa _) eqn:Hen2; [|done]. destruct (fexec _ fa) as [fb|] eqn:Hex2; [|done].
  destruct (prepared_contents _ _ _ _ _ _ _ _ Hf Hen Hex Hp) as (h1 & c & Hf1 & Hv & Hw & Ha & _).
  destruct (fine_run _ _ _ _ Hf1 Hra) as (? & ha0 & [= <-] & Hfa0 & _).
  destruct (step_effect _ _ _ _ Hfa0 Hen2 Hex2) as (hb0 & Hstb & Hefb).
  destruct (fine_run _ _ _ _ (fs_inv _ _ _ _ _ Hstb) Hr) as (? & h2 & [= <-] & Hf2 & _).
  pose proof (frun_history es2 fb hb0 f2 t (fs_inv _ _ _ _ _ Hstb) Hr) as [Htr Hha].
  assert (t ∉ m_handled (f_sys f2)) as Hn2.
  { assert (m_handled (whole f2) = m_handled (f_sys f2)) as <- by (unfold whole; by destruct (f_prep f2)).
    eapply (inflight_unhandled _ _ t (rest ++ f_ans f2)); [apply Hf2|]. by rewrite whole_inflight, Hfl. }
  assert (t ∉ m_handled (f_sys fa)) as Hna by (intros Hin; by apply Hn2, Hha, (fe_handled _ _ _ Hefb)).
  assert (tracked fa t) as Hta.
  { simpl in Hen2. apply andb_true_iff in Hen2 as [_ Hen2]. destruct (m_runtimes (f_sys fa) !! j) as [r|] eqn:Hj; [|done].
    apply andb_true_iff in Hen2 as [Hh _]. apply bool_decide_eq_true in Hh. left. exists j, r. split; [done|].
    destruct (multi_inv_fifo _ _ _ _ (fi_whole _ _ Hfa0) (real_lookup _ _ Hfa0 _ _ Hj)) as (Hpre & _ & _).
    destruct Hpre as [l Hl]. simpl in Hl. rewrite Hl, elem_of_app. left. by apply (fi_held _ _ Hfa0 j r). }
  destruct (frun_preserves _ _ _ _ _ _ Hf1 Hra Hv Hta Hna) as (ha & ca & Hfa & _ & [Hva Hwa _ _ Haa]).
  destruct (set_settles _ _ _ _ _ _ _ _ _ Hfa Hen2 Hex2 Hva) as (hb & cb & Hfb & Hpb & Hvb & Hrb & Hwb & Hab).
  assert (tracked f2 t) as Ht2.
  { apply whole_tracked. rewrite (posted_perm _ _ (fi_whole _ _ Hf2)), whole_inflight, Hfl. mem. }
  destruct (frun_preserves _ _ _ _ _ _ Hfb Hr Hvb Ht2 Hn2) as (h3 & c2 & _ & _ & [Hv2 Hw2 _ Hr2 Ha2]).
  eapply fine_delivers; [exact Hf2|done|done|done|exact Hv2|congruence| |by apply Hr2].
  rewrite Ha2, Hab, Haa; [done| |].
  - intros x k' Hk' Hin. apply (Hsp x), elem_of_app. left. congruence.
  - intros x k' Hk' Hin. apply (Hsp x), elem_of_app. right. congruence.
Qed.
End contract.

(** ** Instances *)

(** Coroutine 3 of request 7 posts to queue 0; its task 3 is answered while the
    post of request 8 to queue 1 is in progress. *)
Definition fine_before : fine :=
  fine_of (frun [FStep (MCreate env_ok 2); FStep (MCreate env_ok 1)] (at_rest (no_runtimes demo_two_requests))).
Definition fine_prepared : fine :=
  match fexec (FPrepare 0 env_ok 7 (Some hi)) fine_before with Ok f => f | UB _ => fine_before end.
Definition demo_prep : prepared :=
  Prepared 0 env_ok 7 (Some hi) (Ptr 3 0) (Some (Ptr 3 1)) (Some 3%nat).
Definition until_answer : list fevent :=
  [FStep (MRun 0 (EPoll env_ok 1)); FCommit; FPrepare 1 env_ok 8 None; FStep (MRun 0 (EWake env_ok 1))].
Definition until_delivery : list fevent := [FCommit; FInject 0 3; FStep (MRun 1 ETake)].
Definition fine_answered : fine :=
  fine_of (frun (until_answer ++ FSet 0 3 0 (Some ok) 0 :: until_delivery) fine_prepared).

Lemma fine_prepared_facts :
  freachable fine_before ∧ fenabled fine_before (FPrepare 0 env_ok 7 (Some hi)) = true ∧
  fexec (FPrepare 0 env_ok 7 (Some hi)) fine_before = Ok fine_prepared ∧ f_prep fine_prepared = Some demo_prep.
Proof. split_and!; [unfold fine_before; fdemo|vm_compute; reflexivity..]. Qed.

Lemma no_kill x : FStep (MRun x (EKill 3)) ∉ until_answer ++ until_delivery.
Proof. unfold until_answer, until_delivery. set_solver. Qed.

Lemma halves_keep_the_request_witness :
  reads (m_world (f_sys (fine_of (frun until_answer fine_prepared)))) 3 (Some hi).
Proof.
  destruct fine_prepared_facts as (Hr & Hen & Hex & Hp).
  apply (halves_keep_the_request fine_before 0 env_ok 7 (Some hi) fine_prepared demo_prep until_answer);
    [exact Hr|exact Hen|exact Hex|exact Hp|vm_compute; reflexivity| |].
  - left. exists 0%nat, (Runtime false [3%nat] [3%nat] [3%nat] 0). split; [vm_compute; reflexivity|by left].
  - apply (bool_decide_unpack _). vm_compute. exact I.
Defined.

Lemma halves_deliver_the_answer_witness :
  ∃ f3, fexec (FStep (MRun 1 EHandle)) fine_answered = Ok f3 ∧ delivers (f_sys fine_answered) 3 3 0 (Some ok) 0 (f_sys f3).
Proof.
  destruct fine_prepared_facts as (Hr & Hen & Hex & Hp).
  apply (halves_deliver_the_answer fine_before 0 env_ok 7 (Some hi) fine_prepared demo_prep 3 until_answer 0 0 (Some ok) 0
           until_delivery fine_answered [] 1 (Runtime false [] [4%nat] [] 0));
    [exact Hr|exact Hen|exact Hex|exact Hp|vm_compute; reflexivity|vm_compute; reflexivity|exact no_kill|
     vm_compute; reflexivity..].
Defined.
