(* ===== verification/Operations.v ===== *)
(** * Operations: the contract of each handler by itself

    What single operations of ngx_http_lua_ffi.c promise their caller, on every
    branch, error paths included. *)

From S2P Require Import Prelude World TaskQueue FfiTask FfiQueue EventHandler Ownership System.
From S2P Require Import Spec Invariant Safety Demo.

(** ** The linked list *)

Fixpoint append_all (tp : option ptr) (ts : list loc) : M world () :=
  match ts with
  | [] => mret ()
  | t :: ts => queue_append tp (Some (Ptr t 0));; append_all tp ts
  end.

Fixpoint take_all (tp : option ptr) (n : nat) : M world (list (option ptr)) :=
  match n with
  | O => mret []
  | S n => t ← queue_take tp; ts ← take_all tp n; mret (t :: ts)
  end.

Lemma append_all_run tp ts w q l :
  queues w !! tp = Some q → queue_repr (tasks w) (SQueueFirst (Ptr tp 0)) (queue q) l →
  NoDup (l ++ ts) →
  (∀ t, t ∈ ts → ∃ b, tasks w !! t = Some b ∧ t_next (tb_task b) = None) →
  ∃ w' q', append_all (Some (Ptr tp 0)) ts w = Ok ((), w') ∧ queues w' !! tp = Some q' ∧
    queue_repr (tasks w') (SQueueFirst (Ptr tp 0)) (queue q') (l ++ ts).
Proof.
  revert w q l. induction ts as [|t ts IH]; intros w q l Hq Hr Hn Hts; simpl.
  { exists w, q. by rewrite app_nil_r. }
  destruct (Hts t) as (b & Hb & Hnx); [by left|].
  erewrite bind_ok; [|by eapply queue_append_run].
  apply NoDup_app in Hn as Hn'. destruct Hn' as (Hnl & Hd & [Htts Hnts]%NoDup_cons).
  assert (t ∉ l) as Htl by (intros Hin; apply (Hd t Hin); by left).
  destruct (IH (upd_queues (alter (set_queue (appended l t)) tp) (upd_tasks (link l t) w))
              (set_queue (appended l t) q) (l ++ [t])) as (w' & q' & Hrun & Hq' & Hr').
  - simpl. by rewrite lookup_alter_eq, Hq.
  - simpl. eapply queue_repr_append; eauto.
  - by rewrite <-app_assoc.
  - intros y Hy. destruct (Hts y) as (by' & Hby & Hny); [by right|].
    exists by'. split; [|done]. simpl. apply link_lookup. exists by'. split; [done|].
    rewrite decide_False; [done|]. intros Hl%last_Some_elem_of. apply (Hd y Hl). by right.
  - exists w', q'. rewrite <-app_assoc in Hr'. done.
Qed.

Lemma take_all_run tp l w q :
  queues w !! tp = Some q → queue_repr (tasks w) (SQueueFirst (Ptr tp 0)) (queue q) l →
  ∃ w' q', take_all (Some (Ptr tp 0)) (length l) w = Ok ((λ t, Some (Ptr t 0)) <$> l, w') ∧
    queues w' !! tp = Some q' ∧ queue_repr (tasks w') (SQueueFirst (Ptr tp 0)) (queue q') [].
Proof.
  revert w q. induction l as [|t l IH]; intros w q Hq Hr; simpl; [by exists w, q|].
  destruct (queue_take_run w tp q t l Hq Hr) as (hd & Ht & Hr').
  rewrite (bind_ok _ _ _ _ _ Ht).
  destruct (IH (upd_queues (alter (set_queue (λ _, hd)) tp) w) (set_queue (λ _, hd) q))
    as (w' & q' & Hrun & Hq' & Hr'').
  - simpl. by rewrite lookup_alter_eq, Hq.
  - done.
  - exists w', q'. by rewrite (bind_ok _ _ _ _ _ Hrun).
Qed.

(** The pointer manipulations of [ngx_task_post] and
    [ngx_http_lua_ffi_task_poll] are a FIFO: tasks appended behind [l] come out
    in order, after those of [l], and the emptied queue is again what
    [ngx_task_queue_init] makes, so that it can be appended to. *)
Theorem append_then_take w tp q l ts :
  queues w !! tp = Some q → queue_repr (tasks w) (SQueueFirst (Ptr tp 0)) (queue q) l →
  NoDup (l ++ ts) →
  (∀ t, t ∈ ts → ∃ b, tasks w !! t = Some b ∧ t_next (tb_task b) = None) →
  ∃ w' q',
    (append_all (Some (Ptr tp 0)) ts;; take_all (Some (Ptr tp 0)) (length (l ++ ts))) w =
      Ok ((λ t, Some (Ptr t 0)) <$> (l ++ ts), w') ∧
    queues w' !! tp = Some q' ∧ queue q' = ngx_task_queue_init (SQueueFirst (Ptr tp 0)).
Proof.
  intros Hq Hr Hn Hts. destruct (append_all_run _ _ _ _ _ Hq Hr Hn Hts) as (w1 & q1 & H1 & Hq1 & Hr1).
  destruct (take_all_run _ _ _ _ Hq1 Hr1) as (w2 & q2 & H2 & Hq2 & [Hf Hl _]).
  exists w2, q2. rewrite (bind_ok _ _ _ _ _ H1). split; [done|]. split; [done|].
  destruct (queue q2). simpl in *. by rewrite Hf, Hl.
Qed.

(** ** A request on its way to the runtime *)

(** The runtime reads what Lua posted: after an accepted
    [ngx_http_lua_ffi_task_post], [ngx_http_lua_ffi_get_req] on the new task
    returns the request pointer and stores its length. *)
Theorem get_req_after_post env w r k tp q l req len :
  e_calloc env = true → e_unlock env = NGX_OK → poster w r k →
  queue_ready w tp q → queue_repr (tasks w) (SQueueFirst (Ptr tp 0)) (queue q) l →
  tasks w !! brk w = None → buf_live (bufs w) req → refused env q = false →
  ∃ w', ngx_http_lua_ffi_task_post env r (Some (Ptr tp 0)) req len w = Ok (NGX_OK, w') ∧
    ngx_http_lua_ffi_get_req (Some (Ptr (brk w) 0)) true w' = Ok ((req, Some len), w') ∧
    ngx_http_lua_ffi_get_req (Some (Ptr (brk w) 0)) false w' = Ok ((req, None), w').
Proof.
  intros Ha Hu Hpo Hr Hq Hf Hb Hrf. eexists. split; [by eapply task_post_accepted|].
  assert (brk w ∉ l) as Hnl by by eapply fresh_not_queued.
  set (w' := upd_queues _ _).
  assert (∃ b, tasks w' !! brk w = Some b ∧ t_ctx (tb_task b) = Some (Ptr (brk w) 1) ∧
     tb_ctx b = Some (FfiCtx (Some k) 0 req len None 0 0)) as (b & Hb' & Ht & Hc).
  { eexists. split; [|split].
    - simpl. apply link_lookup. eexists. split; [by rewrite lookup_insert_eq|].
      rewrite decide_False; [done|]. by intros ?%last_Some_elem_of.
    - done.
    - done. }
  split; by erewrite get_req_run by done.
Qed.

(** A request the queue cannot take costs nothing: after a refused
    [ngx_http_lua_ffi_task_post] the result is [NGX_ERROR], the tasks and the
    queue are as before, and the request buffer was freed. *)
Theorem refused_post_restores_heap env w r k tp q l req len :
  e_calloc env = true → e_unlock env = NGX_OK → poster w r k →
  queue_ready w tp q → queue_repr (tasks w) (SQueueFirst (Ptr tp 0)) (queue q) l →
  tasks w !! brk w = None → buf_live (bufs w) req → refused env q = true →
  ∃ w', ngx_http_lua_ffi_task_post env r (Some (Ptr tp 0)) req len w = Ok (NGX_ERROR, w') ∧
    tasks w' = tasks w ∧ queues w' = queues w ∧ bufs w' = drop_buf req (bufs w) ∧
    calls w' = calls w ++ refusal_log env q.
Proof. intros. eexists. split; [by eapply task_post_refused|done]. Qed.

(** [ngx_task_post], branch by branch: an active task, a failing mutex and
    a failing signal are refused without queueing the task; the bound applies
    to tasks with a context only; otherwise the task is linked behind the
    others, one thread is woken and [waiting] goes up by one.  The mutex is
    free again in every case. *)
Theorem ngx_task_post_branches env w tp q l t b :
  queue_ready w tp q → queue_repr (tasks w) (SQueueFirst (Ptr tp 0)) (queue q) l →
  tasks w !! t = Some b → t ∉ l → e_unlock env = NGX_OK →
  ∃ rc w', ngx_task_post env (Some (Ptr tp 0)) (Some (Ptr t 0)) w = Ok (rc, w') ∧
    (ev_active (t_event (tb_task b)) ≠ 0 ∨ e_lock env ≠ NGX_OK ∨ e_signal env ≠ NGX_OK ∨
     (is_Some (t_ctx (tb_task b)) ∧ max_queue q ≤ waiting q) →
       rc = NGX_ERROR ∧ queues w' = queues w) ∧
    (ev_active (t_event (tb_task b)) = 0 → e_lock env = NGX_OK → e_signal env = NGX_OK →
     (t_ctx (tb_task b) = None ∨ waiting q < max_queue q) →
       rc = NGX_OK ∧ ∃ q', queues w' = <[tp := q']> (queues w) ∧ queue_ready w' tp q' ∧
         queue_repr (tasks w') (SQueueFirst (Ptr tp 0)) (queue q') (l ++ [t]) ∧
         waiting q' = waiting q + 1 ∧ cond q' = wake_one (e_wake env) (cond q)).
Proof.
  intros Hr Hq Hb Ht Hu.
  destruct (decide (ev_active (t_event (tb_task b)) = 0)) as [Ha|Ha].
  2: { exists NGX_ERROR. eexists. split.
       - unfold ngx_task_post. erewrite bind_ok; [|by eapply load_task_ok].
         by rewrite (proj2 (Z.eqb_neq _ _) Ha).
       - by split. }
  rewrite (ngx_task_post_run _ _ _ _ _ _ _ Hr Hq Hb Ht Ha Hu).
  eexists _, _. split; [apply f_equal, surjective_pairing|]. unfold post_result, overflowing.
  destruct (e_lock env =? NGX_OK) eqn:El; simpl.
  2: { apply Z.eqb_neq in El. split; [done|]. by intros. }
  destruct (bool_decide (is_Some (t_ctx (tb_task b))) && (max_queue q <=? waiting q)) eqn:Eo; simpl.
  { split; [done|]. apply andb_true_iff in Eo as [E1%bool_decide_eq_true E2%Z.leb_le].
    intros _ _ _ [Hn|?]; [rewrite Hn in E1; by destruct E1|lia]. }
  destruct (e_signal env =? NGX_OK) eqn:Es; simpl.
  2: { apply Z.eqb_neq in Es. split; [done|]. by intros. }
  apply Z.eqb_eq in El, Es. split.
  { intros [?|[?|[?|[Hc Hm]]]]; [done..|]. rewrite bool_decide_true in Eo by done. simpl in Eo.
    apply Z.leb_gt in Eo. lia. }
  intros _ _ _ _. split; [done|]. exists (posted_queue env l t q). destruct Hr as [Hq0 Hm Hc].
  split; [by apply alter_alt_Some|]. split; [split; simpl; [by rewrite lookup_alter_eq, Hq0|done|]|].
  { unfold wake_one. by destruct (cv_waiters (cond q)). }
  split; [|done]. simpl. eapply queue_repr_append.
  - eapply queue_repr_frame; [|done]. by apply same_links_alter_ne.
  - done.
  - by rewrite lookup_alter_eq, Hb.
  - done.
Qed.

(** [ngx_http_lua_ffi_task_finish] is not subject to [max_queue]: unless
    the mutex or the signal fails, the marker (a task without context) is
    queued behind all pending requests; if they fail, it is freed. *)
Theorem finish_ignores_the_bound env w tp q l :
  e_calloc env = true → e_unlock env = NGX_OK → queue_ready w tp q →
  queue_repr (tasks w) (SQueueFirst (Ptr tp 0)) (queue q) l → tasks w !! brk w = None →
  ∃ rc w', ngx_http_lua_ffi_task_finish env (Some (Ptr tp 0)) w = Ok (rc, w') ∧
    (e_lock env = NGX_OK ∧ e_signal env = NGX_OK →
       rc = NGX_OK ∧ ∃ q' b, queues w' !! tp = Some q' ∧
         queue_repr (tasks w') (SQueueFirst (Ptr tp 0)) (queue q') (l ++ [brk w]) ∧
         tasks w' !! brk w = Some b ∧ t_ctx (tb_task b) = None) ∧
    (e_lock env ≠ NGX_OK ∨ e_signal env ≠ NGX_OK →
       rc = NGX_ERROR ∧ tasks w' = tasks w ∧ queues w' = queues w).
Proof.
  intros Ha Hu Hr Hq Hf. rewrite (task_finish_run _ _ _ _ _ Ha Hu Hr Hq Hf).
  assert (brk w ∉ l) as Hnl by by eapply fresh_not_queued.
  destruct (e_lock env =? NGX_OK) eqn:El, (e_signal env =? NGX_OK) eqn:Es; simpl;
    (eexists _, _; split; [done|]); rewrite ?Z.eqb_eq, ?Z.eqb_neq in *; split; try tauto.
  intros _. split; [done|]. destruct Hr as [Hq0 _ _].
  exists (posted_queue env l (brk w) q), finish_block. simpl. split; [by rewrite lookup_alter_eq, Hq0|].
  split; [|split; [|done]].
  - eapply queue_repr_append; [|done|by rewrite lookup_insert_eq|done].
    eapply queue_repr_frame; [|done]. by apply same_links_insert_ne.
  - apply link_lookup. exists finish_block. split; [by rewrite lookup_insert_eq|].
    rewrite decide_False; [done|]. by intros ?%last_Some_elem_of.
Qed.

(** ** Creation and release *)

(** [ngx_http_lua_ffi_create_task_queue] returns a queue exactly when the
    mutex and the condition could be created; the queue is then empty, unlocked
    and bounded by [max], and otherwise all memory was given back. *)
Theorem create_task_queue_result env max w :
  e_calloc env = true → queues w !! brk w = None →
  ∃ p w', ngx_http_lua_ffi_create_task_queue env max w = Ok (p, w') ∧
    (e_mutex_create env = NGX_OK ∧ e_cond_create env = NGX_OK →
       p = Some (Ptr (brk w) 0) ∧ ∃ q, queues w' = <[brk w := q]> (queues w) ∧
         queue_ready w' (brk w) q ∧
         queue_repr (tasks w') (SQueueFirst (Ptr (brk w) 0)) (queue q) [] ∧
         waiting q = 0 ∧ max_queue q = max ∧ inside q = []) ∧
    (e_mutex_create env ≠ NGX_OK ∨ e_cond_create env ≠ NGX_OK →
       p = None ∧ queues w' = queues w).
Proof.
  intros Ha Hf. rewrite (create_task_queue_run _ _ _ Ha Hf).
  destruct (e_mutex_create env =? NGX_OK) eqn:Em, (e_cond_create env =? NGX_OK) eqn:Ec; simpl;
    (eexists _, _; split; [done|]); rewrite ?Z.eqb_eq, ?Z.eqb_neq in *; split; try tauto.
  intros _. split; [done|]. exists (fresh_queue (brk w) max). split; [done|].
  split; [split; [simpl; by rewrite lookup_insert_eq|done|done]|].
  split; [split; [done|done|apply NoDup_nil_2]|done].
Qed.

(** Creating a queue and releasing it leaves the other queues, the tasks
    and the buffers as they were. *)
Theorem create_then_free_queue env max w p w' :
  e_calloc env = true → queues w !! brk w = None →
  ngx_http_lua_ffi_create_task_queue env max w = Ok (Some p, w') →
  ∃ w'', ngx_http_lua_ffi_free_task_queue (Some p) w' = Ok ((), w'') ∧
    queues w'' = queues w ∧ tasks w'' = tasks w ∧ bufs w'' = bufs w.
Proof.
  intros Ha Hf. rewrite (create_task_queue_run _ _ _ Ha Hf).
  destruct (_ && _); [|done]. intros [= <- <-].
  eexists. split; [eapply free_task_queue_run; [split; [simpl; by rewrite lookup_insert_eq|done..]|done]|].
  split; [|done]. simpl. by apply delete_insert_id.
Qed.

(** Creating a task for the running coroutine and freeing it leaves the
    tasks as they were; only the cleanup handler of the coroutine is new. *)
Theorem create_then_free_task env w r k :
  e_calloc env = true → poster w r k → tasks w !! brk w = None →
  ∃ w', ngx_http_lua_ffi_create_task env r w = Ok (Some (Ptr (brk w) 0), w') ∧
    ∃ w'', ngx_http_lua_ffi_task_free (Some (Ptr (brk w) 1)) w' = Ok ((), w'') ∧
      tasks w'' = tasks w ∧ bufs w'' = bufs w ∧ cos w'' = alter (armed (brk w)) k (cos w).
Proof.
  intros Ha [(x & lc & Hr & Hx & Hc) [y Hy]] Hf.
  eexists. split; [by eapply create_task_run|].
  eexists. split; [eapply task_free_run; [simpl; by rewrite lookup_insert_eq|done|by split]|].
  split; [|done]. simpl. by apply delete_insert_id.
Qed.

(** ** Polling *)

(** Polling a queue with a request first returns it at once, whatever the
    number of waiting threads, and leaves the rest of the queue behind it, with
    the mutex free and [waiting] down by one. *)
Theorem poll_takes_the_oldest env w tp me q t l b p :
  e_lock env = NGX_OK → e_unlock env = NGX_OK →
  queue_ready w tp q → queue_repr (tasks w) (SQueueFirst (Ptr tp 0)) (queue q) (t :: l) →
  tasks w !! t = Some b → t_ctx (tb_task b) = Some p →
  ∃ w' q', task_poll_enter env (Some (Ptr tp 0)) me w = Ok (PReturn (Some (Ptr t 0)), w') ∧
    tasks w' = tasks w ∧ queue_ready w' tp q' ∧
    queue_repr (tasks w') (SQueueFirst (Ptr tp 0)) (queue q') l ∧
    waiting q' = waiting q - 1 ∧ cond q' = cond q.
Proof.
  intros Hl Hu Hr Hq Hb Hp. pose proof Hr as [Hq0 Hm Hc].
  rewrite (task_poll_enter_run _ _ _ _ _ Hr), Hl. simpl.
  assert (queues (upd_queues (alter entered_queue tp) w) !! tp = Some (entered_queue q)) as Hq1.
  { simpl. by rewrite lookup_alter_eq, Hq0. }
  destruct (task_poll_loop_task env _ tp me _ Hu Hq1 eq_refl Hc t l b p Hq Hb Hp) as (hd & Hrun & Hr').
  exists (upd_queues (alter (taken_queue hd) tp) (upd_queues (alter entered_queue tp) w)),
         (taken_queue hd (entered_queue q)).
  split; [done|]. split; [done|]. split; [|done].
  split; [|done|done]. simpl. by rewrite !lookup_alter_eq, Hq0.
Qed.

(** Polling an empty queue blocks the thread with the mutex released; if
    the wait fails it returns NULL instead, exactly as for an unloaded runtime,
    and in both cases [waiting] stays down by one. *)
Theorem poll_of_empty_queue env w tp me q :
  e_lock env = NGX_OK → e_unlock env = NGX_OK → queue_ready w tp q → q_first (queue q) = None →
  ∃ res w' q', task_poll_enter env (Some (Ptr tp 0)) me w = Ok (res, w') ∧
    queue_ready w' tp q' ∧ queue q' = queue q ∧ waiting q' = waiting q - 1 ∧
    (e_wait env = NGX_OK → res = PBlocked ∧ cv_waiters (cond q') = cv_waiters (cond q) ++ [me]) ∧
    (e_wait env ≠ NGX_OK → res = PReturn None ∧ cond q' = cond q).
Proof.
  intros Hl Hu Hr Hf. pose proof Hr as [Hq0 Hm Hc].
  rewrite (task_poll_enter_run _ _ _ _ _ Hr), Hl. simpl.
  assert (queues (upd_queues (alter entered_queue tp) w) !! tp = Some (entered_queue q)) as Hq1.
  { simpl. by rewrite lookup_alter_eq, Hq0. }
  rewrite (task_poll_loop_empty env _ tp me _ Hu Hq1 eq_refl Hc Hf).
  destruct (e_wait env =? NGX_OK) eqn:Ew; simpl;
    (eexists _, _, _; split; [done|]); rewrite ?Z.eqb_eq, ?Z.eqb_neq in *;
    (split; [split; [simpl; by rewrite !lookup_alter_eq, Hq0|done|done]|]);
    (split; [done|]); (split; [done|]); by split.
Qed.

(** ** A response on its way to Lua *)

(** The values pushed for the coroutine are the three results of the
    README: [true, rsp, nil] when [rc] is zero, [false, rc, rsp] otherwise,
    where [rsp] is nil, the first [rsp_len] bytes, or the C string when
    [rsp_len] is zero. *)
Theorem results_of_call w L th c v :
  threads w !! L = Some th → rsp_value (bufs w) (c_rsp c) (c_rsp_len c) = Some v →
  ∃ w' th', push_results L c w = Ok ((), w') ∧ threads w' = <[L := th']> (threads w) ∧
    l_stack th' = l_stack th ++ (if c_rc c =? 0 then [LBool true; v; LNil]
                                 else [LBool false; LInt (c_rc c); v]).
Proof.
  intros HL Hv. eexists _, (push_all _ th). split; [by eapply push_results_run|].
  split; [simpl; by apply alter_alt_Some|]. done.
Qed.

(** Task [t], polled and not answered, is to resume coroutine [k] of request
    [r]; the done queue holds [dl]. *)
Record held_task (w : world) (t : loc) (b : task_block) (c : ffi_task_ctx_t) (k : cid) (x : co_ctx)
    (th : lua_thread) (r : rid) (y : request) (lc : lua_ctx) (dl : list loc) : Prop := {
  ht_task : tasks w !! t = Some b;
  ht_ctx_ptr : t_ctx (tb_task b) = Some (Ptr t 1);
  ht_ctx : tb_ctx b = Some c;
  ht_data : ev_data (t_event (tb_task b)) = Some (Ptr t 1);
  ht_done : queue_repr (tasks w) SDoneFirst (pool_done w) dl;
  ht_new : t ∉ dl;
  ht_lock : done_lock w = false;
  ht_abort : c_is_abort c = 0;
  ht_wait : c_wait_co_ctx c = Some k;
  ht_co : cos w !! k = Some x;
  ht_thread : threads w !! co x = Some th;
  ht_req : l_req th = Some r;
  ht_request : reqs w !! r = Some y;
  ht_lua : r_ctx y = Some lc;
}.

(** The world after the response. *)
Definition responded (dl : list loc) (t : loc) (rc : Z) (rsp : option ptr) (len : Z) (w : world) : world :=
  upd_calls (λ l, l ++ [CNotify])
    (upd_pool_done (appended dl t) (upd_tasks (λ m, link dl t (alter (answered rc rsp len) t m)) w)).

Lemma answer_delivered {ops : NgxLua} {laws : NgxLuaLaws ops} w t b c k x th r y lc dl rc rsp len v :
  held_task w t b c k x th r y lc dl → ctx_bufs_ok (bufs w) (set_rsp rc rsp len c) →
  rsp_value (bufs w) rsp len = Some v →
  let w1 := responded dl t rc rsp len w in
  ngx_http_lua_ffi_respond (Some (Ptr t 0)) rc rsp len w = Ok ((), w1) ∧
  queue_repr (tasks w1) SDoneFirst (pool_done w1) (dl ++ [t]) ∧
  let wd := delivered t (set_rsp rc rsp len c) k (co x) r v w1 in
  ∃ w2, ngx_http_lua_ffi_event_handler (Some (Ptr t 0)) w1 = Ok ((), w2) ∧
    resume_caller r (r_connection y) (entered_content_phase lc) wd = Ok ((), w2) ∧
    lua_frame wd w2 ∧ tasks wd !! t = None ∧
    threads wd = <[co x := push_all (call_results rc v) th]> (threads w) ∧
    cos wd = <[k := set_cleanup None x]> (cos w) ∧
    reqs wd = <[r := Request (Some (set_cur_co_ctx (Some k) lc)) (r_connection y)]> (reqs w).
Proof.
  intros [Hb Ht Hc Hd Hdone Hdl Hlk Ha Hk Hx Hth Hr Hy Hlc] Hbufs Hv w1.
  split; [by apply (respond_run w t b c rc rsp len dl)|].
  assert (tasks w1 !! t = Some (answered rc rsp len b)) as Hb1.
  { simpl. apply link_lookup. exists (answered rc rsp len b).
    split; [by rewrite lookup_alter_eq, Hb|].
    rewrite decide_False; [done|]. by intros ?%last_Some_elem_of. }
  split.
  { simpl. eapply queue_repr_append; [|done|by rewrite lookup_alter_eq, Hb|done].
    eapply queue_repr_frame; [|done]. by apply same_links_alter_ne. }
  assert (answered_task w1 t (answered rc rsp len b) (set_rsp rc rsp len c)) as Hat.
  { split; [done|simpl; by rewrite Hc|done|done]. }
  intros wd. destruct (handler_delivers w1 t _ _ Hat k x th Ha Hk Hx Hth r y lc v Hr Hy Hlc Hv) as (w2 & H2 & Hf).
  pose proof (handler_run w1 t _ _ Hat k x th Ha Hk Hx Hth r y lc v Hr Hy Hlc Hv) as Hrun.
  exists w2. split; [done|]. split; [by etrans; [symmetry; exact Hrun|]|]. split; [done|]. simpl.
  split; [by rewrite lookup_delete_eq|]. erewrite !alter_alt_Some by done. by rewrite Hlc.
Qed.

(** From the answer to the coroutine.  When a runtime responds to a task
    whose coroutine still waits, and nginx later runs the event handler on it,
    the results of the response are on the coroutine's Lua stack, its cleanup
    handler is gone, it is the current coroutine of its request, and the task
    and its buffers are freed. *)
Theorem respond_then_deliver {ops : NgxLua} {laws : NgxLuaLaws ops}
    w t b c k x th r y lc rc rsp len v dl :
  held_task w t b c k x th r y lc dl → ctx_bufs_ok (bufs w) (set_rsp rc rsp len c) →
  rsp_value (bufs w) rsp len = Some v →
  ∃ w1 w2, ngx_http_lua_ffi_respond (Some (Ptr t 0)) rc rsp len w = Ok ((), w1) ∧
    queue_repr (tasks w1) SDoneFirst (pool_done w1) (dl ++ [t]) ∧
    ngx_http_lua_ffi_event_handler (Some (Ptr t 0)) w1 = Ok ((), w2) ∧
    ∃ wd, resume_caller r (r_connection y) (entered_content_phase lc) wd = Ok ((), w2) ∧
      lua_frame wd w2 ∧ tasks wd !! t = None ∧
      threads wd = <[co x := push_all (call_results rc v) th]> (threads w) ∧
      cos wd = <[k := set_cleanup None x]> (cos w) ∧
      reqs wd = <[r := Request (Some (set_cur_co_ctx (Some k) lc)) (r_connection y)]> (reqs w).
Proof.
  intros Hh Hbufs Hv. destruct (answer_delivered _ _ _ _ _ _ _ _ _ _ _ _ _ _ _ Hh Hbufs Hv)
    as (H1 & Hq & w2 & H2 & Hd).
  eexists _, w2. split; [exact H1|]. split; [exact Hq|]. split; [exact H2|]. eexists. exact Hd.
Qed.

(** A response to a coroutine that was killed, or whose request is gone,
    touches neither Lua nor nginx: the event handler frees the task and its
    buffers and changes nothing else. *)
Theorem late_response_is_dropped {ops : NgxLua} w t b c :
  answered_task w t b c →
  (c_is_abort c ≠ 0 ∨
   ∃ k x th, c_is_abort c = 0 ∧ c_wait_co_ctx c = Some k ∧ cos w !! k = Some x ∧
     threads w !! co x = Some th ∧
     (l_req th = None ∨ ∃ r y, l_req th = Some r ∧ reqs w !! r = Some y ∧ r_ctx y = None)) →
  ngx_http_lua_ffi_event_handler (Some (Ptr t 0)) w =
    Ok ((), upd_tasks (delete t) (upd_bufs (λ m, drop_buf (c_rsp c) (drop_buf (c_req c) m)) w)).
Proof.
  intros Hat [Ha|(k & x & th & Ha & Hk & Hx & Hth & Hg)].
  - by eapply handler_aborted.
  - by eapply handler_gone.
Qed.

(** ** Instances *)

(** Blocks 5 and 6 are two tasks. *)
Definition demo_tasks : world :=
  upd_tasks (λ m, <[5%nat := finish_block]> (<[6%nat := finish_block]> m)) demo_empty.

Lemma append_then_take_witness :
  ∃ w' q',
    (append_all (Some (Ptr 0 0)) [5; 6]%nat;; take_all (Some (Ptr 0 0)) 2) demo_tasks =
      Ok ([Some (Ptr 5 0); Some (Ptr 6 0)], w') ∧
    queues w' !! 0%nat = Some q' ∧ queue q' = ngx_task_queue_init (SQueueFirst (Ptr 0 0)).
Proof.
  apply (append_then_take demo_tasks 0 (fresh_queue 0 2) [] [5; 6]%nat);
    [reflexivity|apply demo_repr|by apply (bool_decide_unpack _)|].
  intros t [->|[->|[]%elem_of_nil]%elem_of_cons]%elem_of_cons; by exists finish_block.
Defined.

Lemma get_req_after_post_witness :
  ∃ w', ngx_http_lua_ffi_task_post env_ok 7 (Some (Ptr 0 0)) None 0 demo_empty = Ok (NGX_OK, w') ∧
    ngx_http_lua_ffi_get_req (Some (Ptr 1 0)) true w' = Ok ((None, Some 0), w') ∧
    ngx_http_lua_ffi_get_req (Some (Ptr 1 0)) false w' = Ok ((None, None), w').
Proof.
  eapply (get_req_after_post env_ok demo_empty 7 3 0 (fresh_queue 0 2) [] None 0);
    [reflexivity|reflexivity|apply demo_poster|apply demo_ready|apply demo_repr|reflexivity|exact I|reflexivity].
Defined.

Lemma refused_post_restores_heap_witness :
  ∃ w', ngx_http_lua_ffi_task_post env_no_signal 7 (Some (Ptr 0 0)) None 0 demo_empty =
      Ok (NGX_ERROR, w') ∧
    tasks w' = tasks demo_empty ∧ queues w' = queues demo_empty ∧ bufs w' = bufs demo_empty ∧
    calls w' = [].
Proof.
  eapply (refused_post_restores_heap env_no_signal demo_empty 7 3 0 (fresh_queue 0 2) [] None 0);
    [reflexivity|reflexivity|apply demo_poster|apply demo_ready|apply demo_repr|reflexivity|exact I|reflexivity].
Defined.

Lemma ngx_task_post_branches_witness :
  ∃ rc w', ngx_task_post env_ok (Some (Ptr 0 0)) (Some (Ptr 9 0)) (demo_held None 0) = Ok (rc, w') ∧
    (0 ≠ 0 ∨ NGX_OK ≠ NGX_OK ∨ NGX_OK ≠ NGX_OK ∨ (is_Some (Some (Ptr 9 1)) ∧ 2 ≤ 0) →
       rc = NGX_ERROR ∧ queues w' = queues (demo_held None 0)) ∧
    (0 = 0 → NGX_OK = NGX_OK → NGX_OK = NGX_OK → (Some (Ptr 9 1) = None ∨ 0 < 2) →
       rc = NGX_OK ∧ ∃ q', queues w' = <[0%nat := q']> (queues (demo_held None 0)) ∧
         queue_ready w' 0 q' ∧
         queue_repr (tasks w') (SQueueFirst (Ptr 0 0)) (queue q') [9%nat] ∧
         waiting q' = 1 ∧ cond q' = Cond true [] []).
Proof.
  apply (ngx_task_post_branches env_ok (demo_held None 0) 0 (fresh_queue 0 2) [] 9 (demo_block None 0));
    [by split|apply demo_repr|reflexivity|apply not_elem_of_nil|reflexivity].
Defined.

Lemma finish_ignores_the_bound_witness :
  ∃ rc w', ngx_http_lua_ffi_task_finish env_ok (Some (Ptr 0 0)) demo_empty = Ok (rc, w') ∧
    (NGX_OK = NGX_OK ∧ NGX_OK = NGX_OK →
       rc = NGX_OK ∧ ∃ q' b, queues w' !! 0%nat = Some q' ∧
         queue_repr (tasks w') (SQueueFirst (Ptr 0 0)) (queue q') [1%nat] ∧
         tasks w' !! 1%nat = Some b ∧ t_ctx (tb_task b) = None) ∧
    (NGX_OK ≠ NGX_OK ∨ NGX_OK ≠ NGX_OK →
       rc = NGX_ERROR ∧ tasks w' = tasks demo_empty ∧ queues w' = queues demo_empty).
Proof.
  apply (finish_ignores_the_bound env_ok demo_empty 0 (fresh_queue 0 2) []);
    [reflexivity|reflexivity|apply demo_ready|apply demo_repr|reflexivity].
Defined.

Lemma create_task_queue_result_witness :
  ∃ p w', ngx_http_lua_ffi_create_task_queue env_ok 2 demo_world = Ok (p, w') ∧
    (NGX_OK = NGX_OK ∧ NGX_OK = NGX_OK →
       p = Some (Ptr 0 0) ∧ ∃ q, queues w' = <[0%nat := q]> (queues demo_world) ∧
         queue_ready w' 0 q ∧ queue_repr (tasks w') (SQueueFirst (Ptr 0 0)) (queue q) [] ∧
         waiting q = 0 ∧ max_queue q = 2 ∧ inside q = []) ∧
    (NGX_OK ≠ NGX_OK ∨ NGX_OK ≠ NGX_OK → p = None ∧ queues w' = queues demo_world).
Proof. apply (create_task_queue_result env_ok 2 demo_world); reflexivity. Defined.

Lemma create_then_free_queue_witness :
  ∃ w'', ngx_http_lua_ffi_free_task_queue (Some (Ptr 0 0)) demo_empty = Ok ((), w'') ∧
    queues w'' = queues demo_world ∧ tasks w'' = tasks demo_world ∧ bufs w'' = bufs demo_world.
Proof.
  apply (create_then_free_queue env_ok 2 demo_world (Ptr 0 0) demo_empty);
    [reflexivity|reflexivity|vm_compute; reflexivity].
Defined.

Lemma create_then_free_task_witness :
  ∃ w', ngx_http_lua_ffi_create_task env_ok 7 demo_empty = Ok (Some (Ptr 1 0), w') ∧
    ∃ w'', ngx_http_lua_ffi_task_free (Some (Ptr 1 1)) w' = Ok ((), w'') ∧
      tasks w'' = tasks demo_empty ∧ bufs w'' = bufs demo_empty ∧
      cos w'' = alter (armed 1) 3%nat (cos demo_empty).
Proof.
  apply (create_then_free_task env_ok demo_empty 7 3); [reflexivity|apply demo_poster|reflexivity].
Defined.

Lemma poll_takes_the_oldest_witness :
  ∃ w' q', task_poll_enter env_ok (Some (Ptr 0 0)) 1 demo_pending = Ok (PReturn (Some (Ptr 9 0)), w') ∧
    tasks w' = tasks demo_pending ∧ queue_ready w' 0 q' ∧
    queue_repr (tasks w') (SQueueFirst (Ptr 0 0)) (queue q') [] ∧
    waiting q' = 0 ∧ cond q' = Cond true [] [].
Proof.
  apply (poll_takes_the_oldest env_ok demo_pending 0 1 demo_pending_queue 9 [] (demo_block None 0) (Ptr 9 1));
    [reflexivity|reflexivity|by split|by eapply single_repr|reflexivity|reflexivity].
Defined.

Lemma poll_of_empty_queue_witness :
  ∃ res w' q', task_poll_enter env_ok (Some (Ptr 0 0)) 1 demo_empty = Ok (res, w') ∧
    queue_ready w' 0 q' ∧ queue q' = ngx_task_queue_init (SQueueFirst (Ptr 0 0)) ∧ waiting q' = 0 - 1 ∧
    (NGX_OK = NGX_OK → res = PBlocked ∧ cv_waiters (cond q') = [1%nat]) ∧
    (NGX_OK ≠ NGX_OK → res = PReturn None ∧ cond q' = Cond true [] []).
Proof.
  apply (poll_of_empty_queue env_ok demo_empty 0 1 (fresh_queue 0 2));
    [reflexivity|reflexivity|apply demo_ready|reflexivity].
Defined.

Lemma results_of_call_witness :
  ∃ w' th', push_results 5 (demo_ctx None 0) demo_empty = Ok ((), w') ∧
    threads w' = <[5%nat := th']> (threads demo_empty) ∧
    l_stack th' = [LBool true; LNil; LNil].
Proof. apply (results_of_call demo_empty 5 (LuaThread (Some 7%nat) []) (demo_ctx None 0) LNil); reflexivity. Defined.

Lemma respond_then_deliver_witness :
  ∃ w1 w2, ngx_http_lua_ffi_respond (Some (Ptr 9 0)) 3 None 0 (demo_held None 0) = Ok ((), w1) ∧
    queue_repr (tasks w1) SDoneFirst (pool_done w1) [9%nat] ∧
    ngx_http_lua_ffi_event_handler (Some (Ptr 9 0)) w1 = Ok ((), w2) ∧
    ∃ wd, resume_caller 7 0 true wd = Ok ((), w2) ∧ lua_frame wd w2 ∧ tasks wd !! 9%nat = None ∧
      threads wd = <[5%nat := LuaThread (Some 7%nat) [LBool false; LInt 3; LNil]]> (threads demo_empty) ∧
      cos wd = <[3%nat := CoCtx 5 None None]> (cos demo_empty) ∧
      reqs wd = <[7%nat := Request (Some (LuaCtx (Some 3%nat) HWevHandler true)) 0]> (reqs demo_empty).
Proof.
  apply (respond_then_deliver (demo_held None 0) 9 (demo_block None 0) (demo_ctx None 0) 3
           (CoCtx 5 None None) (LuaThread (Some 7%nat) []) 7
           (Request (Some (LuaCtx (Some 3%nat) HWevHandler true)) 0) (LuaCtx (Some 3%nat) HWevHandler true)
           3 None 0 LNil []); [|by split|reflexivity].
  split; try reflexivity; [|apply not_elem_of_nil].
  split; [reflexivity|reflexivity|apply NoDup_nil_2].
Defined.

Lemma late_response_is_dropped_witness :
  ngx_http_lua_ffi_event_handler (Some (Ptr 9 0)) (demo_held None (-1)) =
    Ok ((), upd_tasks (delete 9%nat) (upd_bufs (λ m, drop_buf None (drop_buf None m)) (demo_held None (-1)))).
Proof.
  apply (late_response_is_dropped (demo_held None (-1)) 9 (demo_block None (-1)) (demo_ctx None (-1)));
    [by apply demo_answered|left; discriminate].
Defined.
