(* ===== verification/Faults.v ===== *)
(** * Faults: what happens outside the protocol

    The protocol of [System] asks callers for more than the code and its
    documentation do.  The theorems of this file show, for each such
    requirement, what the handlers do when it is not met. *)

From S2P Require Import Prelude World TaskQueue FfiTask FfiQueue EventHandler Ownership System.
From S2P Require Import Spec Safety Demo.

(** ** A refused post leaves the cleanup handler armed *)

(** C25: [ngx_http_lua_ffi_task_post] frees the context of a refused request but
    leaves it in the [data] field of the coroutine, with the cleanup handler
    set: the next time lua-nginx-module cleans the coroutine up, the handler
    writes to freed memory. *)
Theorem refused_post_then_cleanup env w r k tp q l req len :
  e_calloc env = true → e_unlock env = NGX_OK → poster w r k →
  queue_ready w tp q → queue_repr (tasks w) (SQueueFirst (Ptr tp 0)) (queue q) l →
  tasks w !! brk w = None → buf_live (bufs w) req → refused env q = true →
  ∃ w', ngx_http_lua_ffi_task_post env r (Some (Ptr tp 0)) req len w = Ok (NGX_ERROR, w') ∧
    kill_co k w' = UB UseAfterFree.
Proof.
  intros Ha Hu Hpo Hr Hq Hf Hb Hrf.
  erewrite task_post_refused by done. eexists. split; [done|].
  destruct (po_co _ _ _ Hpo) as [x Hx]. unfold kill_co.
  erewrite bind_ok; [|eapply load_co_ok; simpl; by rewrite lookup_alter_eq, Hx]. simpl.
  apply bind_ub. unfold ngx_http_lua_ffi_cleanup.
  erewrite bind_ok; [|eapply load_co_ok; simpl; by rewrite lookup_alter_eq, Hx].
  unfold modify_ctx. simpl. by rewrite Hf.
Qed.

(** ** Allocations whose result is not tested *)

(** [ngx_http_lua_ffi_task_post] dereferences NULL when the request has no
    module context. *)
Theorem post_without_context env w r tp req len x :
  reqs w !! r = Some x → r_ctx x = None →
  ngx_http_lua_ffi_task_post env r tp req len w = UB NullDeref.
Proof.
  intros Hr Hx. unfold ngx_http_lua_ffi_task_post, ngx_http_lua_ffi_create_task.
  rewrite bind_assoc. erewrite bind_ok; [|by eapply get_module_ctx_ok]. by rewrite Hx.
Qed.

(** Without memory, posting, unloading and creating a queue dereference
    NULL: no caller tests the result of [ngx_calloc]. *)
Theorem out_of_memory_is_not_handled env w r tp req len max x lc :
  e_calloc env = false → reqs w !! r = Some x → r_ctx x = Some lc →
  ngx_http_lua_ffi_task_post env r tp req len w = UB NullDeref ∧
  ngx_http_lua_ffi_task_finish env tp w = UB NullDeref ∧
  ngx_http_lua_ffi_create_task_queue env max w = UB NullDeref.
Proof.
  intros Ha Hr Hx. split; [|split].
  - unfold ngx_http_lua_ffi_task_post, ngx_http_lua_ffi_create_task.
    rewrite bind_assoc. erewrite bind_ok; [|by eapply get_module_ctx_ok]. rewrite Hx.
    unfold ngx_http_lua_ffi_task_alloc, ngx_calloc_task. by rewrite Ha.
  - unfold ngx_http_lua_ffi_task_finish, ngx_calloc_task. by rewrite Ha.
  - unfold ngx_http_lua_ffi_create_task_queue, ngx_calloc_queue. by rewrite Ha.
Qed.

(** ** Several threads in [task_poll] *)

Lemma free_task_queue_busy w tp q :
  queue_ready w tp q → cv_waiters (cond q) ≠ [] →
  ngx_http_lua_ffi_free_task_queue (Some (Ptr tp 0)) w = UB BusyDestroy.
Proof.
  intros [Hq Hm Hc] Hw. unfold ngx_http_lua_ffi_free_task_queue, mutex_destroy, cond_destroy.
  repeat run1. by rewrite bool_decide_false.
Qed.

(** C26: A poller that takes the finish marker while another thread is blocked
    on the queue destroys a condition variable in use. *)
Theorem marker_with_blocked_poller env w tp me q t l b :
  e_lock env = NGX_OK → e_unlock env = NGX_OK →
  queue_ready w tp q → queue_repr (tasks w) (SQueueFirst (Ptr tp 0)) (queue q) (t :: l) →
  tasks w !! t = Some b → t_ctx (tb_task b) = None → cv_waiters (cond q) ≠ [] →
  task_poll_enter env (Some (Ptr tp 0)) me w = UB BusyDestroy.
Proof.
  intros Hlk Hu Hr Hq Hb Ht Hw. pose proof Hr as [Hq0 Hm Hc].
  rewrite (task_poll_enter_run _ _ _ _ _ Hr), Hlk. simpl.
  assert (queues (upd_queues (alter entered_queue tp) w) !! tp = Some (entered_queue q)) as Hq1.
  { simpl. by rewrite lookup_alter_eq, Hq0. }
  unfold task_poll_loop. erewrite bind_ok; [|by eapply load_queue_ok].
  pose proof Hq as [[Hf _] _ _]. simpl in *. rewrite Hf. unfold task_poll_take.
  destruct (queue_take_run (upd_queues (alter entered_queue tp) w) tp (entered_queue q) t l Hq1)
    as (hd & Htake & _); [exact Hq|].
  erewrite bind_ok; [|exact Htake].
  erewrite bind_ok; [|eapply mutex_unlock_ok; [lookup_tac|done|done]]. simpl.
  rewrite !upd_queues_alter2. run1. rewrite Ht. run1.
  apply bind_ub. eapply free_task_queue_busy; [split; [lookup_tac|done..]|done].
Qed.

(** ** Responses that are not NUL-terminated *)

(** A response of length zero is read as a C string: without a NUL in its
    buffer, the event handler reads past the end. *)
Theorem empty_response_over_read {ops : NgxLua} w t b c k x th r y lc p bs :
  answered_task w t b c → c_is_abort c = 0 → c_wait_co_ctx c = Some k →
  cos w !! k = Some x → threads w !! co x = Some th → l_req th = Some r →
  reqs w !! r = Some y → r_ctx y = Some lc →
  c_rsp c = Some (Ptr p 0) → c_rsp_len c = 0 → bufs w !! p = Some bs → c_str bs = None →
  ngx_http_lua_ffi_event_handler (Some (Ptr t 0)) w = UB OutOfBounds.
Proof.
  intros Hat Ha Hk Hx Hth Hr Hy Hlc Hp Hlen Hbs Hs.
  unfold ngx_http_lua_ffi_event_handler.
  erewrite bind_ok; [|eapply load_task_ok, Hat]. cbv zeta. rewrite (at_data _ _ _ _ Hat).
  rewrite (handler_start w t b c Hat), Ha, Hk. simpl.
  erewrite bind_ok; [|by eapply load_co_ok]. unfold ngx_http_lua_get_req.
  rewrite bind_assoc. erewrite bind_ok; [|by eapply load_thread_ok].
  erewrite bind_ok; [|apply ret_run]. rewrite Hr.
  erewrite bind_ok; [|by eapply get_connection_ok].
  erewrite bind_ok; [|by eapply get_module_ctx_ok]. rewrite Hlc.
  apply bind_ub. unfold deliver. rewrite (handler_start w t b c Hat). apply bind_ub.
  unfold push_results. erewrite bind_ok; [|by eapply lua_push_run].
  rewrite Hp, Hlen. simpl.
  assert (∀ w', bufs w' = bufs w → lua_pushstring (co x) (Some (Ptr p 0)) w' = UB OutOfBounds) as Hub.
  { intros w' Hw'. unfold lua_pushstring. erewrite bind_ok; [|eapply load_bytes_ok; by rewrite Hw'].
    by rewrite Hs. }
  destruct (c_rc c =? 0).
  - erewrite bind_ok; [|apply ret_run]. apply bind_ub. by apply Hub.
  - erewrite bind_ok; [|eapply lua_push_run; lookup_tac]. apply bind_ub. by apply Hub.
Qed.

(** ** Instances *)

Lemma refused_post_then_cleanup_witness :
  ∃ w', ngx_http_lua_ffi_task_post env_no_signal 7 (Some (Ptr 0 0)) None 0 demo_empty =
      Ok (NGX_ERROR, w') ∧ kill_co 3 w' = UB UseAfterFree.
Proof.
  eapply (refused_post_then_cleanup env_no_signal demo_empty 7 3 0 (fresh_queue 0 2) [] None 0);
    [reflexivity|reflexivity|apply demo_poster|apply demo_ready|apply demo_repr|reflexivity|exact I|reflexivity].
Defined.

Lemma post_without_context_witness :
  ngx_http_lua_ffi_task_post env_ok 7 None None 0
    (upd_reqs (λ _, {[ 7%nat := Request None 0 ]}) demo_empty) = UB NullDeref.
Proof. apply (post_without_context _ _ _ _ _ _ (Request None 0)); reflexivity. Defined.

Lemma out_of_memory_is_not_handled_witness :
  ngx_http_lua_ffi_task_post env_no_memory 7 (Some (Ptr 0 0)) None 0 demo_empty = UB NullDeref ∧
  ngx_http_lua_ffi_task_finish env_no_memory (Some (Ptr 0 0)) demo_empty = UB NullDeref ∧
  ngx_http_lua_ffi_create_task_queue env_no_memory 2 demo_empty = UB NullDeref.
Proof.
  apply (out_of_memory_is_not_handled env_no_memory demo_empty 7 (Some (Ptr 0 0)) None 0 2
           (Request (Some (LuaCtx (Some 3%nat) HWevHandler true)) 0) (LuaCtx (Some 3%nat) HWevHandler true));
    reflexivity.
Defined.

Lemma marker_with_blocked_poller_witness :
  task_poll_enter env_ok (Some (Ptr 0 0)) 1 demo_marker = UB BusyDestroy.
Proof.
  apply (marker_with_blocked_poller env_ok demo_marker 0 1 demo_marker_queue 9 [] finish_block);
    [reflexivity|reflexivity|by split|by eapply single_repr|reflexivity|reflexivity|discriminate].
Defined.

(** The protocol that the README describes reaches such a state: two threads
    poll, the runtime is unloaded, and the thread that is woken closes the
    queue under the other. *)
Example two_pollers :
  let s := sys_of (run_events [EPoll env_ok 1; EPoll env_ok 2; EFinish env_ok] demo_sys) in
  exec (EWake env_ok 1) s = UB BusyDestroy.
Proof. vm_compute. reflexivity. Qed.

Lemma empty_response_over_read_witness :
  ngx_http_lua_ffi_event_handler (Some (Ptr 9 0)) (demo_held (Some (Ptr 8 0)) 0) = UB OutOfBounds.
Proof.
  apply (empty_response_over_read (demo_held (Some (Ptr 8 0)) 0) 9 (demo_block (Some (Ptr 8 0)) 0)
           (demo_ctx (Some (Ptr 8 0)) 0) 3 (CoCtx 5 None None) (LuaThread (Some 7%nat) []) 7
           (Request (Some (LuaCtx (Some 3%nat) HWevHandler true)) 0)
           (LuaCtx (Some 3%nat) HWevHandler true) 8 [x41]); try reflexivity.
  apply demo_answered. split; [reflexivity|]. by exists [x41].
Defined.
