(* ===== verification/Numerals.v ===== *)
(** * Numerals: numbers and addresses as text

    The decimal and hexadecimal numerals of printf, sscanf and JavaScript, and
    addresses of the C memory as numbers. *)

From S2P Require Import Prelude World.

(** ** Digits *)

Definition hex_digits : list byte :=
  [x30; x31; x32; x33; x34; x35; x36; x37; x38; x39; x61; x62; x63; x64; x65; x66].

Definition hex_digit (n : Z) : byte := default x00 (hex_digits !! Z.to_nat n).

(** The value of a digit, also of an upper-case one, below [base]. *)
Definition digit_val (base : Z) (c : byte) : option Z :=
  let x := byte_val c in
  let v := if (48 <=? x) && (x <=? 57) then x - 48
           else if (97 <=? x) && (x <=? 102) then x - 87
           else if (65 <=? x) && (x <=? 70) then x - 55 else 16 in
  if v <? base then Some v else None.

Lemma digit_val_base base c v : digit_val 16 c = Some v → v < base → digit_val base c = Some v.
Proof.
  unfold digit_val. cbv zeta. destruct (_ <? 16); [|done]. intros [= ->] Hv.
  by rewrite (proj2 (Z.ltb_lt _ _) Hv).
Qed.

Lemma digit_val_hex_digit base n : 0 ≤ n < base → base ≤ 16 → digit_val base (hex_digit n) = Some n.
Proof.
  intros Hn Hb. apply digit_val_base; [|lia]. rewrite <-(Z2Nat.id n) by lia.
  assert (Z.to_nat n < 16)%nat as Hk by lia. revert Hk. generalize (Z.to_nat n). intros k Hk.
  do 16 (destruct k as [|k]; [done|]). lia.
Qed.

(** ** Printing and scanning *)

Fixpoint print_digits (fuel : nat) (base n : Z) : list byte :=
  match fuel with
  | 0%nat => []
  | S fuel => if n <? base then [hex_digit n]
              else print_digits fuel base (n / base) ++ [hex_digit (n mod base)]
  end.

(** A number has at most as many digits as bits. *)
Definition print_nat (base n : Z) : list byte := print_digits (S (Z.to_nat (Z.log2 n))) base n.

(** The longest prefix of digits, as a number behind [acc], and the rest. *)
Fixpoint scan_digits (base acc : Z) (s : list byte) : Z * list byte :=
  match s with
  | [] => (acc, [])
  | c :: r => match digit_val base c with
              | Some v => scan_digits base (acc * base + v) r
              | None => (acc, s)
              end
  end.

Lemma scan_print_digits fuel base n acc r :
  2 ≤ base ≤ 16 → 0 ≤ n < 2 ^ Z.of_nat fuel →
  scan_digits base acc (print_digits fuel base n ++ r) =
    scan_digits base (acc * base ^ Z.of_nat (length (print_digits fuel base n)) + n) r.
Proof.
  intros Hb. revert n acc r. induction fuel as [|fuel IH]; intros n acc r Hn.
  - simpl in *. f_equal. lia.
  - cbn [print_digits]. destruct (n <? base) eqn:E; [apply Z.ltb_lt in E|apply Z.ltb_ge in E].
    + cbn [app scan_digits length]. rewrite digit_val_hex_digit by lia. f_equal. lia.
    + rewrite <-app_assoc. rewrite IH.
      * cbn [app scan_digits]. pose proof (Z.mod_pos_bound n base ltac:(lia)).
        rewrite digit_val_hex_digit by lia. f_equal. rewrite length_app, Nat2Z.inj_add.
        change (Z.of_nat (length [_])) with 1. rewrite Z.pow_add_r by lia.
        pose proof (Z.div_mod n base ltac:(lia)). lia.
      * rewrite Nat2Z.inj_succ, Z.pow_succ_r in Hn by lia. split; [apply Z.div_pos; lia|].
        apply Z.div_lt_upper_bound; [lia|]. nia.
Qed.

Lemma scan_print base n r :
  2 ≤ base ≤ 16 → 0 ≤ n → (∀ c, head r = Some c → digit_val base c = None) →
  scan_digits base 0 (print_nat base n ++ r) = (n, r).
Proof.
  intros Hb Hn Hr. unfold print_nat. rewrite scan_print_digits; [|done|].
  - rewrite Z.mul_0_l, Z.add_0_l. destruct r as [|c r]; [done|]. simpl. by rewrite (Hr c).
  - rewrite Nat2Z.inj_succ, Z2Nat.id by apply Z.log2_nonneg. split; [done|].
    destruct (decide (n = 0)) as [->|]; [done|]. apply Z.log2_spec. lia.
Qed.

(** Only digits are printed. *)
Lemma print_digits_val fuel base n :
  2 ≤ base ≤ 16 → 0 ≤ n → Forall (λ c, is_Some (digit_val base c)) (print_digits fuel base n).
Proof.
  intros Hb. revert n. induction fuel as [|fuel IH]; intros n Hn; [constructor|].
  cbn [print_digits]. destruct (n <? base) eqn:E; [apply Z.ltb_lt in E|apply Z.ltb_ge in E].
  - repeat constructor. by rewrite digit_val_hex_digit by lia.
  - apply Forall_app. split; [apply IH, Z.div_pos; lia|]. repeat constructor.
    pose proof (Z.mod_pos_bound n base ltac:(lia)). by rewrite digit_val_hex_digit by lia.
Qed.

Lemma print_nat_notin base n c :
  2 ≤ base ≤ 16 → 0 ≤ n → digit_val base c = None → c ∉ print_nat base n.
Proof.
  intros Hb Hn Hc Hin. pose proof (print_digits_val (S (Z.to_nat (Z.log2 n))) base n Hb Hn) as H.
  rewrite Forall_forall in H. destruct (H c Hin). congruence.
Qed.

Lemma print_nat_not_nil base n : print_nat base n ≠ [].
Proof. unfold print_nat. cbn [print_digits]. destruct (n <? base); [done|]. by intros []%app_eq_nil. Qed.

(** The number of digits grows with the number. *)
Lemma length_print_digits fuel base n k :
  2 ≤ base ≤ 16 → 0 ≤ n < base ^ Z.of_nat k → (1 ≤ k)%nat → (length (print_digits fuel base n) ≤ k)%nat.
Proof.
  intros Hb. revert n k. induction fuel as [|fuel IH]; intros n k Hn Hk; [simpl; lia|].
  cbn [print_digits]. destruct (n <? base) eqn:E; [simpl; lia|]. apply Z.ltb_ge in E.
  rewrite length_app. simpl length. destruct k as [|[|k]]; [lia|simpl in Hn; lia|].
  enough (length (print_digits fuel base (n / base)) ≤ S k)%nat by lia.
  apply IH; [|lia]. split; [apply Z.div_pos; lia|]. apply Z.div_lt_upper_bound; [lia|].
  rewrite (Nat2Z.inj_succ (S k)), Z.pow_succ_r in Hn by lia. lia.
Qed.

(** ** Signed numbers *)

Definition minus_sign : byte := x2d.
Definition plus_sign : byte := x2b.

Definition print_int (n : Z) : list byte :=
  if n <? 0 then minus_sign :: print_nat 10 (- n) else print_nat 10 n.

Definition is_space (c : byte) : bool :=
  let x := byte_val c in (x =? 32) || ((9 <=? x) && (x <=? 13)).

Fixpoint skip_space (s : list byte) : list byte :=
  match s with
  | c :: r => if is_space c then skip_space r else s
  | [] => []
  end.

(** [strtol] with base 10: [None] when there is no number; a number outside
    [long] becomes the nearest end of its range. *)
Definition strtol (s : list byte) : option Z :=
  let s := skip_space s in
  let '(neg, s) := match s with
                   | c :: r => if decide (c = minus_sign) then (true, r)
                               else if decide (c = plus_sign) then (false, r) else (false, s)
                   | [] => (false, s)
                   end in
  match s with
  | c :: _ => match digit_val 10 c with
              | Some _ => let n := (scan_digits 10 0 s).1 in
                          Some (if neg : bool then Z.max (- 2 ^ 63) (- n) else Z.min (2 ^ 63 - 1) n)
              | None => None
              end
  | [] => None
  end.

(** The conversion of a [long] to [int]. *)
Definition to_int (n : Z) : Z := (n + 2 ^ 31) mod 2 ^ 32 - 2 ^ 31.

Lemma to_int_id n : - 2 ^ 31 ≤ n < 2 ^ 31 → to_int n = n.
Proof. intros Hn. unfold to_int. rewrite Z.mod_small; lia. Qed.

Lemma print_nat_first n : 0 ≤ n → ∃ c r, print_nat 10 n = c :: r ∧ is_Some (digit_val 10 c).
Proof.
  intros Hn. pose proof (print_digits_val (S (Z.to_nat (Z.log2 n))) 10 n ltac:(lia) Hn) as H.
  pose proof (print_nat_not_nil 10 n) as Hne. unfold print_nat in *.
  destruct (print_digits _ 10 n) as [|c r]; [done|]. inversion H; subst. by exists c, r.
Qed.

Lemma digit_not_sign c : is_Some (digit_val 10 c) → is_space c = false ∧ c ≠ minus_sign ∧ c ≠ plus_sign.
Proof. intros [v Hv]. by destruct c. Qed.

(** What [toString] or printf writes, [strtol] reads. *)
Lemma strtol_print_int n : - 2 ^ 63 ≤ n < 2 ^ 63 → strtol (print_int n) = Some n.
Proof.
  intros Hn. unfold strtol, print_int. destruct (n <? 0) eqn:E; [apply Z.ltb_lt in E|apply Z.ltb_ge in E].
  - cbn [skip_space]. change (is_space minus_sign) with false. cbn iota. rewrite decide_True by done.
    destruct (print_nat_first (- n) ltac:(lia)) as (c & r & Hp & [v Hv]). rewrite Hp, Hv, <-Hp.
    rewrite <-(app_nil_r (print_nat 10 (- n))), scan_print by (done || lia). simpl fst. f_equal. lia.
  - destruct (print_nat_first n ltac:(lia)) as (c & r & Hp & Hv). rewrite Hp.
    destruct (digit_not_sign c Hv) as (Hs & Hm & Hpl). cbn [skip_space]. rewrite Hs.
    rewrite !decide_False by done. destruct Hv as [v Hv]. rewrite Hv, <-Hp.
    rewrite <-(app_nil_r (print_nat 10 n)), scan_print by (done || lia). simpl fst. f_equal. lia.
Qed.

(** ** Addresses *)

(** The addresses of the C memory: what the casts between pointers and 64-bit
    integers do.  [mapped] holds for the pointers into the address space; NULL is
    zero. *)
Class Addresses := {
  addr : ptr → Z;
  ptr_at : Z → option ptr;
  mapped : ptr → Prop;
}.

Class AddressesLaws (A : Addresses) : Prop := {
  addr_range p : mapped p → 0 < addr p < 2 ^ 64;
  ptr_at_addr p : mapped p → ptr_at (addr p) = Some p;
  ptr_at_null : ptr_at 0 = None;
}.

Definition addr_of `{Addresses} (p : option ptr) : Z := match p with None => 0 | Some p => addr p end.

Definition valid_ptr `{Addresses} (p : option ptr) : Prop := match p with None => True | Some p => mapped p end.

Lemma addr_of_range `{AddressesLaws} p : valid_ptr p → 0 ≤ addr_of p < 2 ^ 64.
Proof. destruct p as [p|]; simpl; [intros Hp%addr_range; lia|lia]. Qed.

Lemma ptr_at_addr_of `{AddressesLaws} p : valid_ptr p → ptr_at (addr_of p) = p.
Proof. destruct p as [p|]; simpl; [apply ptr_at_addr|intros _; apply ptr_at_null]. Qed.

(** 2^31 blocks of 2^32 elements each, the first behind NULL. *)
Definition flat_addresses : Addresses := {|
  addr p := (Z.of_nat (p_blk p) + 1) * 2 ^ 32 + p_off p;
  ptr_at n := if n <? 2 ^ 32 then None else Some (Ptr (Z.to_nat (n / 2 ^ 32 - 1)) (n mod 2 ^ 32));
  mapped p := Z.of_nat (p_blk p) < 2 ^ 31 ∧ 0 ≤ p_off p < 2 ^ 32;
|}.

Lemma flat_addresses_laws : AddressesLaws flat_addresses.
Proof.
  split; [..|done]; intros [l o]; simpl; intros [Hl Ho]; [lia|].
  rewrite (proj2 (Z.ltb_ge _ _)) by lia. do 2 f_equal.
  - rewrite Z.div_add_l, (Z.div_small o) by lia. lia.
  - rewrite Z.add_comm, Z.mod_add, Z.mod_small by lia. done.
Qed.
