(* ===== verification/BuildId.v ===== *)
(** * BuildId: finding the build-id note of the running program

    build-id.c: the scan of the ELF note segments of the loaded objects.  The
    memory of the process is a partial function from addresses to bytes; sizes
    and addresses wrap at the width of their C type (an ELF word has 32 bits,
    [size_t] and [ptrdiff_t] have 64), and the [while] loop compares a signed
    length with an unsigned size, as the source does.  The loader's part
    ([dl_iterate_phdr], [dladdr]) is modelled by the list of loaded objects. *)

From S2P Require Import Prelude.

(** ** Machine integers and memory *)

Definition u32 (x : Z) : Z := x mod 2 ^ 32.
Definition u64 (x : Z) : Z := x mod 2 ^ 64.
(** The [ptrdiff_t] with the bits of [x]. *)
Definition s64 (x : Z) : Z := if u64 x <? 2 ^ 63 then u64 x else u64 x - 2 ^ 64.

Definition mem := Z → option byte.

(** A little-endian ELF word. *)
Definition read_word (m : mem) (a : Z) : option Z :=
  b0 ← m a; b1 ← m (a + 1); b2 ← m (a + 2); b3 ← m (a + 3);
  Some (byte_val b0 + 2 ^ 8 * byte_val b1 + 2 ^ 16 * byte_val b2 + 2 ^ 24 * byte_val b3).

Fixpoint read_bytes (m : mem) (a : Z) (n : nat) : option (list byte) :=
  match n with
  | O => Some []
  | S n => b ← m a; bs ← read_bytes m (a + 1) n; Some (b :: bs)
  end.

(** ** Notes *)

Definition NT_GNU_BUILD_ID : Z := 3.
Definition PT_LOAD : Z := 1.
Definition PT_NOTE : Z := 4.

(** [ElfW(Nhdr)] *)
Record nhdr := Nhdr { n_namesz : Z; n_descsz : Z; n_type : Z }.

Definition sizeof_nhdr : Z := 12.
(** [struct build_id_note]: the header and [char name[4]]. *)
Definition sizeof_build_id_note : Z := 16.

(** [((val) + (align) - 1) & ~((align) - 1)] on ELF words. *)
Definition ALIGN (val align : Z) : Z :=
  Z.land (u32 (val + align - 1)) (u32 (Z.lnot (align - 1))).

Definition read_nhdr (m : mem) (note : Z) : option nhdr :=
  a ← read_word m note; b ← read_word m (note + 4); c ← read_word m (note + 8);
  Some (Nhdr a b c).

Definition gnu : list byte := [x47; x4e; x55; x00].

(** The condition of the [if]; [None] is a read outside the memory. *)
Definition is_build_id (m : mem) (note : Z) (h : nhdr) : option bool :=
  if (n_type h =? NT_GNU_BUILD_ID) && negb (n_descsz h =? 0) && (n_namesz h =? 4) then
    name ← read_bytes m (note + sizeof_nhdr) 4; Some (bool_decide (name = gnu))
  else Some false.

Definition note_offset (h : nhdr) : Z :=
  u64 (sizeof_nhdr + ALIGN (n_namesz h) 4 + ALIGN (n_descsz h) 4).

(** A scan finds a note, comes to the end, reads unmapped memory, or has not
    finished within the fuel. *)
Inductive scan_res := ScanFound (note : Z) | ScanEnd | ScanFault | ScanFuel.

(** [while (len >= sizeof(struct build_id_note))]: the comparison is unsigned,
    so a negative [len] continues the loop. *)
Fixpoint scan_notes (fuel : nat) (m : mem) (note len : Z) : scan_res :=
  match fuel with
  | O => ScanFuel
  | S fuel =>
      if u64 len <? sizeof_build_id_note then ScanEnd else
      match read_nhdr m note with
      | None => ScanFault
      | Some h =>
          match is_build_id m note h with
          | None => ScanFault
          | Some true => ScanFound note
          | Some false =>
              scan_notes fuel m (u64 (note + note_offset h)) (s64 (len - note_offset h))
          end
      end
  end.

(** ** Objects *)

Record phdr := Phdr { p_type : Z; p_vaddr : Z; p_filesz : Z }.

(** [struct dl_phdr_info]; [dlpi_name] may be NULL. *)
Record dl_phdr_info := DlPhdrInfo {
  dlpi_addr : Z;
  dlpi_name : option (list byte);
  dlpi_phdr : list phdr;
}.

(** [struct callback_data], without the result. *)
Inductive callback_data := BY_NAME (name : list byte) | BY_SYMBOL (dli_fbase : Z).

(** The address of the first LOAD segment, or NULL. *)
Fixpoint map_start (addr : Z) (phs : list phdr) : Z :=
  match phs with
  | [] => 0
  | ph :: phs => if p_type ph =? PT_LOAD then u64 (addr + p_vaddr ph) else map_start addr phs
  end.

Definition selected (info : dl_phdr_info) (data : callback_data) : bool :=
  match data with
  | BY_NAME name =>
      match dlpi_name info with None => false | Some n => bool_decide (n = name) end
  | BY_SYMBOL base => map_start (dlpi_addr info) (dlpi_phdr info) =? base
  end.

Fixpoint scan_phdrs (fuel : nat) (m : mem) (addr : Z) (phs : list phdr) : scan_res :=
  match phs with
  | [] => ScanEnd
  | ph :: phs =>
      if negb (p_type ph =? PT_NOTE) then scan_phdrs fuel m addr phs else
      match scan_notes fuel m (u64 (addr + p_vaddr ph)) (s64 (p_filesz ph)) with
      | ScanEnd => scan_phdrs fuel m addr phs
      | r => r
      end
  end.

Definition build_id_find_nhdr_callback (fuel : nat) (m : mem) (info : dl_phdr_info)
    (data : callback_data) : scan_res :=
  if selected info data then scan_phdrs fuel m (dlpi_addr info) (dlpi_phdr info) else ScanEnd.

(** [dl_iterate_phdr] calls the callback for each object until it returns a
    value other than zero. *)
Fixpoint dl_iterate_phdr (fuel : nat) (m : mem) (objs : list dl_phdr_info) (data : callback_data)
    : scan_res :=
  match objs with
  | [] => ScanEnd
  | info :: objs =>
      match build_id_find_nhdr_callback fuel m info data with
      | ScanEnd => dl_iterate_phdr fuel m objs data
      | r => r
      end
  end.

Definition build_id_find_nhdr_by_name (fuel : nat) (m : mem) (objs : list dl_phdr_info)
    (name : list byte) : scan_res :=
  dl_iterate_phdr fuel m objs (BY_NAME name).

(** [dladdr] gives the base address of the object of [symbol], if any. *)
Definition build_id_find_nhdr_by_symbol (dladdr : Z → option Z) (fuel : nat) (m : mem)
    (objs : list dl_phdr_info) (symbol : Z) : scan_res :=
  match dladdr symbol with
  | None => ScanEnd
  | Some base => if base =? 0 then ScanEnd else dl_iterate_phdr fuel m objs (BY_SYMBOL base)
  end.

Definition build_id_length (m : mem) (note : Z) : option Z := read_word m (note + 4).

(** [note->build_id], the address behind the name. *)
Definition build_id_data (note : Z) : Z := note + sizeof_build_id_note.

(** ** Well-formed segments *)

(** [bs] is mapped at [a]. *)
Fixpoint holds (m : mem) (a : Z) (bs : list byte) : Prop :=
  match bs with
  | [] => True
  | b :: bs => m a = Some b ∧ holds m (a + 1) bs
  end.

Lemma holds_app m a bs cs :
  holds m a (bs ++ cs) ↔ holds m a bs ∧ holds m (a + Z.of_nat (length bs)) cs.
Proof.
  revert a. induction bs as [|b bs IH]; intros a; simpl.
  - rewrite Z.add_0_r. tauto.
  - rewrite IH. replace (a + 1 + Z.of_nat (length bs)) with (a + Z.of_nat (S (length bs))) by lia.
    tauto.
Qed.

Lemma read_bytes_holds m a bs : holds m a bs → read_bytes m a (length bs) = Some bs.
Proof.
  revert a. induction bs as [|b bs IH]; intros a; simpl; [done|].
  intros [-> H]. simpl. by rewrite (IH _ H).
Qed.

Definition byte_of (x : Z) : byte := default x00 (Byte.of_N (Z.to_N (x mod 256))).

Lemma byte_of_val x : byte_val (byte_of x) = x mod 256.
Proof.
  unfold byte_of, byte_val. pose proof (Z.mod_pos_bound x 256).
  destruct (Byte.of_N (Z.to_N (x mod 256))) as [b|] eqn:E; simpl.
  - apply Byte.to_of_N in E. rewrite E. lia.
  - apply Byte.of_N_None_iff in E. lia.
Qed.

Definition le32 (x : Z) : list byte :=
  [byte_of x; byte_of (x / 2 ^ 8); byte_of (x / 2 ^ 16); byte_of (x / 2 ^ 24)].

Lemma read_word_holds m a x : 0 ≤ x < 2 ^ 32 → holds m a (le32 x) → read_word m a = Some x.
Proof.
  intros Hx (H0 & H1 & H2 & H3 & _). unfold read_word.
  rewrite H0. simpl. rewrite H1. simpl.
  replace (a + 1 + 1) with (a + 2) in * by lia. rewrite H2. simpl.
  replace (a + 2 + 1) with (a + 3) in * by lia. rewrite H3. simpl.
  rewrite !byte_of_val. f_equal. change 256 with (2 ^ 8).
  replace (x / 2 ^ 24) with (x / 2 ^ 8 / 2 ^ 8 / 2 ^ 8) by (by rewrite !Z.div_div by lia).
  replace (x / 2 ^ 16) with (x / 2 ^ 8 / 2 ^ 8) by (by rewrite !Z.div_div by lia).
  set (y := x / 2 ^ 8). set (z := y / 2 ^ 8). set (t := z / 2 ^ 8).
  assert (t mod 2 ^ 8 = t).
  { apply Z.mod_small. unfold t, z, y. rewrite !Z.div_div by lia.
    split; [apply Z.div_pos; lia|]. apply Z.div_lt_upper_bound; lia. }
  pose proof (Z.div_mod x (2 ^ 8) ltac:(lia)) as Ex. pose proof (Z.div_mod y (2 ^ 8) ltac:(lia)) as Ey.
  pose proof (Z.div_mod z (2 ^ 8) ltac:(lia)) as Ez. fold y in Ex. fold z in Ey. fold t in Ez. lia.
Qed.

(** [ALIGN(v, 4)] rounds up to a multiple of four, unless [v + 3] overflows. *)
Lemma ALIGN_4 v : 0 ≤ v < 2 ^ 32 - 3 → ALIGN v 4 = 4 * ((v + 3) / 4).
Proof.
  intros Hv. unfold ALIGN, u32. rewrite (Z.mod_small (v + 4 - 1)) by lia.
  replace (v + 4 - 1) with (v + 3) by lia.
  change (Z.lnot (4 - 1) mod 2 ^ 32) with (Z.ldiff (Z.ones 32) (Z.ones 2)).
  assert (Z.land (v + 3) (Z.ldiff (Z.ones 32) (Z.ones 2))
          = Z.ldiff (Z.land (v + 3) (Z.ones 32)) (Z.ones 2)) as ->.
  { apply Z.bits_inj'. intros n _. rewrite !Z.land_spec, !Z.ldiff_spec, Z.land_spec.
    by rewrite andb_assoc. }
  rewrite Z.land_ones, Z.mod_small by lia.
  rewrite Z.ldiff_ones_r, Z.shiftl_mul_pow2, Z.shiftr_div_pow2 by lia.
  change (2 ^ 2) with 4. lia.
Qed.

(** *** Notes and their encoding *)

Record note := Note { nt_type : Z; nt_name : list byte; nt_desc : list byte }.

(** Padded with zeroes to a multiple of four. *)
Definition pad4 (bs : list byte) : list byte :=
  bs ++ replicate (Z.to_nat (4 * ((Z.of_nat (length bs) + 3) / 4)) - length bs) x00.

Definition size (bs : list byte) : Z := Z.of_nat (length bs).

Definition encode (n : note) : list byte :=
  le32 (size (nt_name n)) ++ le32 (size (nt_desc n)) ++ le32 (nt_type n) ++
  pad4 (nt_name n) ++ pad4 (nt_desc n).

Definition encode_all (ns : list note) : list byte := concat (encode <$> ns).

(** The sizes are ELF words that [ALIGN] does not overflow. *)
Record note_ok (n : note) : Prop := {
  ok_name : size (nt_name n) < 2 ^ 32 - 3;
  ok_desc : size (nt_desc n) < 2 ^ 32 - 3;
  ok_type : 0 ≤ nt_type n < 2 ^ 32;
}.

(** What the scan looks for. *)
Definition is_gnu_build_id (n : note) : bool :=
  (nt_type n =? NT_GNU_BUILD_ID) && bool_decide (nt_name n = gnu) &&
  negb (bool_decide (nt_desc n = [])).

(** The address of the first build-id note of the segment at [a]. *)
Fixpoint find_note (a : Z) (ns : list note) : option (Z * note) :=
  match ns with
  | [] => None
  | n :: ns => if is_gnu_build_id n then Some (a, n) else find_note (a + size (encode n)) ns
  end.

Lemma size_pad4 bs : size (pad4 bs) = 4 * ((size bs + 3) / 4).
Proof.
  unfold size, pad4. rewrite length_app, length_replicate.
  assert (Z.of_nat (length bs) ≤ 4 * ((Z.of_nat (length bs) + 3) / 4)).
  { pose proof (Z.div_mod (Z.of_nat (length bs) + 3) 4 ltac:(lia)).
    pose proof (Z.mod_pos_bound (Z.of_nat (length bs) + 3) 4 ltac:(lia)). lia. }
  lia.
Qed.

Lemma size_app bs cs : size (bs ++ cs) = size bs + size cs.
Proof. unfold size. rewrite length_app. lia. Qed.

Lemma size_nonneg bs : 0 ≤ size bs.
Proof. unfold size. lia. Qed.

Lemma size_le32 x : size (le32 x) = 4.
Proof. done. Qed.

Definition header (n : note) : nhdr := Nhdr (size (nt_name n)) (size (nt_desc n)) (nt_type n).

Lemma size_encode n : note_ok n → size (encode n) = note_offset (header n).
Proof.
  intros [Hn Hd _]. unfold encode, note_offset, sizeof_nhdr. simpl n_namesz. simpl n_descsz.
  rewrite !size_app, !size_pad4, !size_le32, !ALIGN_4 by (pose proof (size_nonneg (nt_name n));
    pose proof (size_nonneg (nt_desc n)); lia).
  unfold u64. rewrite Z.mod_small; [lia|].
  pose proof (size_nonneg (nt_name n)). pose proof (size_nonneg (nt_desc n)).
  assert (∀ x, 0 ≤ x < 2 ^ 32 → 0 ≤ (x + 3) / 4 ≤ 2 ^ 32) as Hb.
  { intros x Hx. split; [apply Z.div_pos; lia|]. apply Z.div_le_upper_bound; lia. }
  pose proof (Hb (size (nt_name n)) ltac:(lia)). pose proof (Hb (size (nt_desc n)) ltac:(lia)). lia.
Qed.

(** The header of an encoded note is read back. *)
Lemma read_nhdr_encode m a n : note_ok n → holds m a (encode n) → read_nhdr m a = Some (header n).
Proof.
  intros [Hn Hd Ht] H. unfold encode in H. rewrite !holds_app in H.
  destruct H as (H0 & H1 & H2 & _). change (Z.of_nat (length (le32 _))) with 4 in *.
  replace (a + 4 + 4) with (a + 8) in H2 by lia. unfold read_nhdr.
  pose proof (size_nonneg (nt_name n)). pose proof (size_nonneg (nt_desc n)).
  apply read_word_holds in H0; [|lia]. apply read_word_holds in H1; [|lia].
  apply read_word_holds in H2; [|done]. by rewrite H0; simpl; rewrite H1; simpl; rewrite H2.
Qed.

Lemma is_build_id_encode m a n :
  note_ok n → holds m a (encode n) → is_build_id m a (header n) = Some (is_gnu_build_id n).
Proof.
  intros Hok H. unfold is_build_id, is_gnu_build_id, header. cbn [n_type n_descsz n_namesz].
  destruct (nt_type n =? NT_GNU_BUILD_ID); cbn [andb]; [|done].
  assert (negb (size (nt_desc n) =? 0) = negb (bool_decide (nt_desc n = []))) as ->.
  { f_equal. unfold size. destruct (nt_desc n); [done|]. apply Z.eqb_neq. simpl. lia. }
  destruct (bool_decide (nt_desc n = [])) eqn:Ed; cbn [andb negb]; [by rewrite andb_false_r|].
  rewrite andb_true_r.
  destruct (size (nt_name n) =? 4) eqn:Es.
  - apply Z.eqb_eq in Es. unfold encode in H. rewrite !holds_app in H.
    destruct H as (_ & _ & _ & H & _). change (Z.of_nat (length (le32 _))) with 4 in *.
    replace (a + 4 + 4 + 4) with (a + sizeof_nhdr) in H by (unfold sizeof_nhdr; lia).
    unfold pad4 in H. apply holds_app in H as [H _]. apply read_bytes_holds in H.
    unfold size in Es. replace (length (nt_name n)) with 4%nat in H by lia. by rewrite H.
  - rewrite bool_decide_false; [done|]. intros E. by rewrite E in Es.
Qed.

(** A build-id note has at least 20 bytes, so that the loop test never skips
    one. *)
Lemma short_notes a ns :
  Forall note_ok ns → size (encode_all ns) < sizeof_build_id_note → find_note a ns = None.
Proof.
  revert a. induction ns as [|n ns IH]; intros a Hok Hs; simpl; [done|].
  apply Forall_cons in Hok as [Hn Hns].
  unfold encode_all in Hs. rewrite fmap_cons, concat_cons, size_app in Hs.
  fold (encode_all ns) in Hs. pose proof (size_nonneg (encode n)). pose proof (size_nonneg (encode_all ns)).
  destruct (is_gnu_build_id n) eqn:E; [|apply IH; [done|lia]].
  exfalso. unfold is_gnu_build_id in E. rewrite !andb_true_iff, negb_true_iff in E.
  destruct E as [[_ Hg%bool_decide_eq_true] Hd%bool_decide_eq_false].
  unfold encode in Hs. rewrite !size_app, !size_pad4, !size_le32, Hg in Hs.
  assert (1 ≤ (size (nt_desc n) + 3) / 4) as Hd4.
  { apply Z.div_le_lower_bound; [lia|]. unfold size. destruct (nt_desc n); [done|simpl; lia]. }
  unfold sizeof_build_id_note in Hs. change ((size gnu + 3) / 4) with 1 in Hs. lia.
Qed.

(** *** The scan of a well-formed segment *)

Definition scan_result (r : option (Z * note)) : scan_res :=
  match r with Some (p, _) => ScanFound p | None => ScanEnd end.

Lemma scan_notes_encode m ns a fuel :
  Forall note_ok ns → holds m a (encode_all ns) → 0 ≤ a → a + size (encode_all ns) < 2 ^ 63 →
  (length ns < fuel)%nat →
  scan_notes fuel m a (size (encode_all ns)) = scan_result (find_note a ns).
Proof.
  revert a fuel. induction ns as [|n ns IH]; intros a fuel Hok H Ha Hb Hf;
    (destruct fuel as [|fuel]; [lia|]); [done|].
  pose proof (size_nonneg (encode_all (n :: ns))) as H0.
  cbn [scan_notes]. unfold u64 at 1. rewrite Z.mod_small by lia.
  destruct (size (encode_all (n :: ns)) <? sizeof_build_id_note) eqn:E.
  { apply Z.ltb_lt in E. by rewrite short_notes. }
  apply Forall_cons in Hok as [Hn Hns].
  change (encode_all (n :: ns)) with (encode n ++ encode_all ns) in *.
  apply holds_app in H as [Hh Ht]. rewrite size_app in *.
  rewrite (read_nhdr_encode _ _ _ Hn Hh), (is_build_id_encode _ _ _ Hn Hh).
  cbn [find_note]. destruct (is_gnu_build_id n); [done|].
  pose proof (size_nonneg (encode n)). pose proof (size_nonneg (encode_all ns)).
  rewrite <-(size_encode n Hn). unfold s64, u64. rewrite !Z.mod_small by lia.
  replace (size (encode n) + size (encode_all ns) - size (encode n)) with (size (encode_all ns)) by lia.
  rewrite (proj2 (Z.ltb_lt _ _)) by lia. simpl in Hf. apply IH; [done|exact Ht|lia|lia|lia].
Qed.

(** The id of a note that was found can be read back. *)
Lemma find_note_data m a ns p n :
  Forall note_ok ns → holds m a (encode_all ns) → find_note a ns = Some (p, n) →
  build_id_length m p = Some (size (nt_desc n)) ∧
  read_bytes m (build_id_data p) (length (nt_desc n)) = Some (nt_desc n).
Proof.
  revert a. induction ns as [|n' ns IH]; intros a Hok H; [done|].
  apply Forall_cons in Hok as [Hn Hns].
  change (encode_all (n' :: ns)) with (encode n' ++ encode_all ns) in H.
  apply holds_app in H as [Hh Ht]. cbn [find_note].
  destruct (is_gnu_build_id n') eqn:E; [|by apply IH]. intros [= <- <-].
  unfold is_gnu_build_id in E. rewrite !andb_true_iff in E.
  destruct E as [[_ Hg%bool_decide_eq_true] _]. destruct Hn as [Hnn Hd _].
  unfold encode in Hh. rewrite !holds_app in Hh. destruct Hh as (_ & H1 & _ & _ & H4).
  change (Z.of_nat (length (le32 _))) with 4 in *. pose proof (size_nonneg (nt_desc n')).
  split; [apply read_word_holds; [lia|done]|]. unfold pad4 at 2 in H4. apply holds_app in H4 as [H4 _].
  rewrite Hg in H4. change (Z.of_nat (length (pad4 gnu))) with 4 in H4.
  unfold build_id_data, sizeof_build_id_note.
  replace (a + 4 + 4 + 4 + 4) with (a + 16) in H4 by lia. by apply read_bytes_holds.
Qed.

(** ** Objects *)

(** The segments of an object hold the notes [nss], one list per segment. *)
Fixpoint segments_ok (m : mem) (addr : Z) (phs : list phdr) (nss : list (list note)) : Prop :=
  match phs, nss with
  | [], [] => True
  | ph :: phs, ns :: nss =>
      (p_type ph = PT_NOTE →
         Forall note_ok ns ∧ holds m (u64 (addr + p_vaddr ph)) (encode_all ns) ∧
         p_filesz ph = size (encode_all ns) ∧
         u64 (addr + p_vaddr ph) + size (encode_all ns) < 2 ^ 63) ∧
      segments_ok m addr phs nss
  | _, _ => False
  end.

Fixpoint find_segment (addr : Z) (phs : list phdr) (nss : list (list note)) : option (Z * note) :=
  match phs, nss with
  | ph :: phs, ns :: nss =>
      if p_type ph =? PT_NOTE then
        match find_note (u64 (addr + p_vaddr ph)) ns with
        | Some r => Some r
        | None => find_segment addr phs nss
        end
      else find_segment addr phs nss
  | _, _ => None
  end.

(** The first build-id note of the selected objects. *)
Fixpoint find_object (data : callback_data) (objs : list (dl_phdr_info * list (list note)))
    : option (Z * note) :=
  match objs with
  | [] => None
  | (info, nss) :: objs =>
      if selected info data then
        match find_segment (dlpi_addr info) (dlpi_phdr info) nss with
        | Some r => Some r
        | None => find_object data objs
        end
      else find_object data objs
  end.

Definition object_ok (m : mem) (fuel : nat) (o : dl_phdr_info * list (list note)) : Prop :=
  segments_ok m (dlpi_addr o.1) (dlpi_phdr o.1) o.2 ∧ Forall (λ ns, (length ns < fuel)%nat) o.2.

Lemma scan_phdrs_ok m addr phs nss fuel :
  segments_ok m addr phs nss → Forall (λ ns, (length ns < fuel)%nat) nss →
  scan_phdrs fuel m addr phs = scan_result (find_segment addr phs nss).
Proof.
  revert nss. induction phs as [|ph phs IH]; intros [|ns nss]; simpl; [done..|].
  intros [Hph Hok] [Hf Hfs]%Forall_cons. specialize (IH nss Hok Hfs).
  destruct (p_type ph =? PT_NOTE) eqn:E; simpl; [|done].
  apply Z.eqb_eq in E. destruct (Hph E) as (Hns & Hh & Hsz & Hb).
  pose proof (size_nonneg (encode_all ns)). pose proof (Z.mod_pos_bound (addr + p_vaddr ph) (2 ^ 64)).
  assert (s64 (p_filesz ph) = size (encode_all ns)) as ->.
  { unfold s64, u64 in *. rewrite Hsz, !Z.mod_small by lia. by rewrite (proj2 (Z.ltb_lt _ _)) by lia. }
  rewrite scan_notes_encode by (done || (unfold u64 in *; lia)).
  by destruct (find_note _ ns) as [[p n]|].
Qed.

Lemma dl_iterate_phdr_ok m fuel objs data :
  Forall (object_ok m fuel) objs →
  dl_iterate_phdr fuel m objs.*1 data = scan_result (find_object data objs).
Proof.
  induction objs as [|[info nss] objs IH]; [done|].
  intros [[Ho Hf] Hok]%Forall_cons. rewrite fmap_cons. cbn [dl_iterate_phdr find_object fst snd] in *.
  rewrite (IH Hok).
  unfold build_id_find_nhdr_callback. destruct (selected info data); [|done].
  rewrite (scan_phdrs_ok _ _ _ _ _ Ho Hf). by destruct (find_segment _ _ nss) as [[p n]|].
Qed.

Lemma find_segment_data m addr phs nss p n :
  segments_ok m addr phs nss → find_segment addr phs nss = Some (p, n) →
  build_id_length m p = Some (size (nt_desc n)) ∧
  read_bytes m (build_id_data p) (length (nt_desc n)) = Some (nt_desc n).
Proof.
  revert nss. induction phs as [|ph phs IH]; intros [|ns nss]; simpl; [done..|].
  intros [Hph Hok] Hf. destruct (p_type ph =? PT_NOTE) eqn:E; [|by eapply IH].
  apply Z.eqb_eq in E. destruct (Hph E) as (Hns & Hh & _).
  destruct (find_note _ ns) as [[p' n']|] eqn:Efn; [|by eapply IH].
  injection Hf as <- <-. by eapply find_note_data.
Qed.

Lemma find_object_data m fuel data objs p n :
  Forall (object_ok m fuel) objs → find_object data objs = Some (p, n) →
  build_id_length m p = Some (size (nt_desc n)) ∧
  read_bytes m (build_id_data p) (length (nt_desc n)) = Some (nt_desc n).
Proof.
  induction objs as [|[info nss] objs IH]; simpl; [done|].
  intros [[Ho Hf] Hok]%Forall_cons Hfind. simpl in *.
  destruct (selected info data); [|by apply IH].
  destruct (find_segment _ _ nss) as [[p' n']|] eqn:E; [|by apply IH].
  injection Hfind as <- <-. by eapply find_segment_data.
Qed.

(** ** The properties *)

(** C27: on objects whose note segments are well formed, the search by name
    reads nothing outside the segments and returns the first build-id note of
    the first object of that name that has one; the id is read back from it
    byte for byte.  Fuel one above the number of notes of each segment is
    enough. *)
Theorem find_by_name_is_first m fuel objs name :
  Forall (object_ok m fuel) objs →
  build_id_find_nhdr_by_name fuel m objs.*1 name = scan_result (find_object (BY_NAME name) objs) ∧
  ∀ p n, find_object (BY_NAME name) objs = Some (p, n) →
    build_id_length m p = Some (size (nt_desc n)) ∧
    read_bytes m (build_id_data p) (length (nt_desc n)) = Some (nt_desc n).
Proof.
  intros Hok. split; [by apply dl_iterate_phdr_ok|].
  intros p n Hf. by eapply find_object_data.
Qed.

(** The search by symbol does the same for the objects whose first LOAD
    segment is mapped where [dladdr] says; a symbol [dladdr] does not know has
    no note. *)
Theorem find_by_symbol_is_first dladdr m fuel objs symbol :
  Forall (object_ok m fuel) objs →
  build_id_find_nhdr_by_symbol dladdr fuel m objs.*1 symbol =
    match dladdr symbol with
    | None => ScanEnd
    | Some base =>
        if base =? 0 then ScanEnd else scan_result (find_object (BY_SYMBOL base) objs)
    end.
Proof.
  intros Hok. unfold build_id_find_nhdr_by_symbol.
  destruct (dladdr symbol) as [base|]; [|done]. destruct (base =? 0); [done|].
  by apply dl_iterate_phdr_ok.
Qed.

(** A note that claims more bytes than its segment has left makes [len]
    negative; the unsigned comparison of the loop takes it for a huge length and
    the scan reads behind the segment. *)
Theorem scan_overruns_segment m a len h fuel :
  sizeof_build_id_note ≤ len < 2 ^ 63 → read_nhdr m a = Some h →
  is_build_id m a h = Some false → len < note_offset h < 2 ^ 62 →
  m (u64 (a + note_offset h)) = None →
  scan_notes (S (S fuel)) m a len = ScanFault.
Proof.
  intros Hlen Hh Hb Ho Hm. unfold sizeof_build_id_note in *. cbn [scan_notes].
  unfold u64 at 1. rewrite Z.mod_small by lia.
  assert (len <? sizeof_build_id_note = false) as -> by (apply Z.ltb_ge; unfold sizeof_build_id_note; lia).
  rewrite Hh, Hb. unfold s64 at 1 2.
  assert (u64 (len - note_offset h) = len - note_offset h + 2 ^ 64) as ->.
  { unfold u64. rewrite <-(Z.mod_add _ 1) by lia. rewrite Z.mod_small; lia. }
  assert (len - note_offset h + 2 ^ 64 <? 2 ^ 63 = false) as -> by (apply Z.ltb_ge; lia).
  replace (len - note_offset h + 2 ^ 64 - 2 ^ 64) with (len - note_offset h) by lia.
  assert (u64 (len - note_offset h) = len - note_offset h + 2 ^ 64) as ->.
  { unfold u64. rewrite <-(Z.mod_add _ 1) by lia. rewrite Z.mod_small; lia. }
  assert (len - note_offset h + 2 ^ 64 <? sizeof_build_id_note = false) as ->
    by (apply Z.ltb_ge; unfold sizeof_build_id_note; lia).
  assert (read_nhdr m (u64 (a + note_offset h)) = None) as ->; [|done].
  unfold read_nhdr, read_word. by rewrite Hm.
Qed.

(** [ALIGN(v, 4)] is the least multiple of four that is not below [v], for
    all but the three largest ELF words; for those the addition wraps around
    and the result is zero. *)
Theorem ALIGN_rounds_up v :
  0 ≤ v < 2 ^ 32 →
  (v < 2 ^ 32 - 3 → v ≤ ALIGN v 4 < v + 4 ∧ ALIGN v 4 mod 4 = 0) ∧
  (2 ^ 32 - 3 ≤ v → ALIGN v 4 = 0).
Proof.
  intros Hv. split.
  - intros Hs. rewrite ALIGN_4 by lia. pose proof (Z.div_mod (v + 3) 4 ltac:(lia)).
    pose proof (Z.mod_pos_bound (v + 3) 4 ltac:(lia)). split; [lia|].
    by rewrite Z.mul_comm, Z.mod_mul.
  - intros Hs. assert (v = 2 ^ 32 - 3 ∨ v = 2 ^ 32 - 2 ∨ v = 2 ^ 32 - 1) as [->|[->| ->]] by lia; done.
Qed.

(** ** Instances *)

(** A program with two notes, mapped at 4096: an ABI tag and a build id. *)
Definition demo_notes : list note :=
  [Note 1 gnu [x00; x00; x00; x00]; Note 3 gnu [xde; xad; xbe]].

Definition mem_of (base : Z) (bs : list byte) : mem :=
  λ a, if a <? base then None else bs !! Z.to_nat (a - base).

Lemma holds_mem_of base bs : 0 ≤ base → holds (mem_of base bs) base bs.
Proof.
  intros Hb. assert (∀ k cs, drop k bs = cs → holds (mem_of base bs) (base + Z.of_nat k) cs) as H.
  { intros k cs. revert k. induction cs as [|c cs IH]; intros k Hk; simpl; [done|]. split.
    - unfold mem_of. rewrite (proj2 (Z.ltb_ge _ _)) by lia.
      replace (Z.to_nat (base + Z.of_nat k - base)) with (k + 0)%nat by lia.
      by rewrite <-lookup_drop, Hk.
    - replace (base + Z.of_nat k + 1) with (base + Z.of_nat (S k)) by lia. apply IH.
      change (S k) with (1 + k)%nat. rewrite Nat.add_comm, <-drop_drop, Hk. done. }
  replace base with (base + Z.of_nat 0) at 2 by lia. by apply H.
Qed.

Definition demo_mem : mem := mem_of 4096 (encode_all demo_notes).
Definition demo_obj : dl_phdr_info :=
  DlPhdrInfo 4096 (Some []) [Phdr PT_LOAD 0 4096; Phdr PT_NOTE 0 (size (encode_all demo_notes))].

Lemma demo_objects_ok : Forall (object_ok demo_mem 3) [(demo_obj, [[]; demo_notes])].
Proof.
  apply Forall_singleton. split.
  - split; [done|]. split; [|done]. intros _. split; [by repeat constructor|].
    split; [by apply holds_mem_of|done].
  - by repeat constructor.
Qed.

Lemma find_by_name_is_first_witness :
  build_id_find_nhdr_by_name 3 demo_mem [demo_obj] [] = ScanFound 4116 ∧
  ∀ p n, find_object (BY_NAME []) [(demo_obj, [[]; demo_notes])] = Some (p, n) →
    build_id_length demo_mem p = Some (size (nt_desc n)) ∧
    read_bytes demo_mem (build_id_data p) (length (nt_desc n)) = Some (nt_desc n).
Proof. apply (find_by_name_is_first _ _ _ [] demo_objects_ok). Defined.

Lemma find_by_symbol_is_first_witness :
  build_id_find_nhdr_by_symbol (λ _, Some 4096) 3 demo_mem [demo_obj] 4200 = ScanFound 4116.
Proof. apply (find_by_symbol_is_first (λ _, Some 4096) _ _ _ 4200 demo_objects_ok). Defined.

(** A segment of 20 bytes whose only note claims a description of 256. *)
Definition short_mem : mem := mem_of 4096 (le32 4 ++ le32 256 ++ le32 1 ++ gnu ++ le32 0).

Lemma scan_overruns_segment_witness : scan_notes 2 short_mem 4096 20 = ScanFault.
Proof.
  apply (scan_overruns_segment short_mem 4096 20 (Nhdr 4 256 1)); try reflexivity;
    unfold sizeof_build_id_note; [lia|vm_compute; by split].
Defined.

Lemma ALIGN_rounds_up_witness :
  (20 < 2 ^ 32 - 3 → 20 ≤ ALIGN 20 4 < 20 + 4 ∧ ALIGN 20 4 mod 4 = 0) ∧
  (2 ^ 32 - 3 ≤ 20 → ALIGN 20 4 = 0).
Proof. apply (ALIGN_rounds_up 20). lia. Defined.
