(* ===== verification/FfiInit.v ===== *)
(** * FfiInit: [lua_resty_ffi_init], the check of the build id

    The library reaches into nginx by offsets from two exported symbols; the
    offsets are generated for one binary, which [lua_resty_ffi_init] recognises
    by its build id before it computes the addresses. *)

From S2P Require Import Prelude World Numerals BuildId.

(** ** Printing the id *)

(** The output of ["%02x"] for a byte. *)
Definition hex2 (b : byte) : list byte := [hex_digit (byte_val b / 16); hex_digit (byte_val b mod 16)].

Definition hex (bs : list byte) : list byte := concat (hex2 <$> bs).

(** [sprintf(buf + strlen(buf), "%02x", build_id[i])] for each byte, into a
    zeroed buffer of [cap] bytes that holds the string [buf]. *)
Fixpoint print_id (cap : Z) (buf id : list byte) : res (list byte) :=
  match id with
  | [] => Ok buf
  | b :: id =>
      (* two digits and the terminating NUL *)
      if size buf + 3 <=? cap then print_id cap (buf ++ hex2 b) id else UB OutOfBounds
  end.

(** [calloc(len*2+100, 1)], computed on ELF words. *)
Definition id_capacity (len : Z) : Z := u32 (len * 2 + 100).

(** ** The initialisation *)

(** The generated header symbols.h. *)
Record symbols := Symbols {
  NGX_BUILD_ID : list byte;
  NGX_THREAD_POOL_DONE_OFFSET : Z;
  NGX_THREAD_POOL_DONE_LOCK_OFFSET : Z;
  NGX_THREAD_POOL_HANDLER_OFFSET : Z;
}.

(** The running nginx: its memory and objects, where two of its symbols are,
    and whether [calloc] succeeds. *)
Record process := Process {
  pr_mem : mem;
  pr_objs : list dl_phdr_info;
  pr_ngx_cycle : Z;
  pr_ngx_calloc : Z;
  pr_calloc : bool;
}.

(** The three results -1, -2 and 0, the second with what is printed as
    "expected" and "actual", the last with the addresses stored. *)
Inductive init_res :=
  | InitNoNote
  | InitMismatch (expected actual : list byte)
  | InitOk (ngx_thread_pool_done ngx_thread_pool_done_lock ngx_thread_pool_handler : Z).

Definition resolve (sy : symbols) (pr : process) : init_res :=
  InitOk (u64 (pr_ngx_cycle pr + NGX_THREAD_POOL_DONE_OFFSET sy))
         (u64 (pr_ngx_cycle pr + NGX_THREAD_POOL_DONE_LOCK_OFFSET sy))
         (u64 (pr_ngx_calloc pr + NGX_THREAD_POOL_HANDLER_OFFSET sy)).

(** [None] when the scan does not finish within the fuel. *)
Definition lua_resty_ffi_init (fuel : nat) (sy : symbols) (pr : process) : option (res init_res) :=
  match build_id_find_nhdr_by_name fuel (pr_mem pr) (pr_objs pr) [] with
  | ScanFuel => None
  | ScanFault => Some (UB OutOfBounds)
  | ScanEnd => Some (Ok InitNoNote)
  | ScanFound note =>
      match build_id_length (pr_mem pr) note with
      | None => Some (UB OutOfBounds)
      | Some len =>
          match read_bytes (pr_mem pr) (build_id_data note) (Z.to_nat len) with
          | None => Some (UB OutOfBounds)
          | Some id =>
              if pr_calloc pr then
                match print_id (id_capacity len) [] id with
                | UB f => Some (UB f)
                | Ok buf =>
                    Some (Ok (if bool_decide (buf = NGX_BUILD_ID sy) then resolve sy pr
                              else InitMismatch buf (NGX_BUILD_ID sy)))
                end
              else Some (UB NullDeref)
          end
      end
  end.

(** ** The hexadecimal form *)

(** The byte of two digits. *)
Definition unhex2 (ds : list byte) : byte :=
  match ds with
  | [d; e] =>
      let val x := default 0%nat (fst <$> list_find (x =.) hex_digits) in
      byte_of (16 * Z.of_nat (val d) + Z.of_nat (val e))
  | _ => x00
  end.

Lemma unhex2_hex2 b : unhex2 (hex2 b) = b.
Proof. by destruct b; vm_compute. Qed.

Lemma hex2_inj b c : hex2 b = hex2 c → b = c.
Proof. intros H. by rewrite <-(unhex2_hex2 b), H, unhex2_hex2. Qed.

Lemma hex_inj bs cs : hex bs = hex cs → bs = cs.
Proof.
  revert cs. induction bs as [|b bs IH]; intros [|c cs]; try done.
  change (hex (b :: bs)) with (hex2 b ++ hex bs). change (hex (c :: cs)) with (hex2 c ++ hex cs).
  intros H. apply app_inj_1 in H as [Hb Hs]; [|done]. f_equal; [by apply hex2_inj|by apply IH].
Qed.

Lemma print_id_run cap buf id :
  print_id cap buf id =
    if bool_decide (id = []) || (size buf + 2 * size id + 1 <=? cap) then Ok (buf ++ hex id)
    else UB OutOfBounds.
Proof.
  revert buf. induction id as [|b id IH]; intros buf; simpl; [by rewrite app_nil_r|].
  rewrite IH. change (hex (b :: id)) with (hex2 b ++ hex id). rewrite app_assoc, size_app.
  change (size (hex2 b)) with 2. assert (size (b :: id) = 1 + size id) as -> by (unfold size; simpl length; lia).
  pose proof (size_nonneg id).
  destruct (size buf + 3 <=? cap) eqn:E; [apply Z.leb_le in E|apply Z.leb_gt in E].
  - destruct id as [|c id].
    + simpl orb. by rewrite (proj2 (Z.leb_le _ _)) by (change (size []) with 0; lia).
    + simpl orb. by replace (size buf + 2 * (1 + size (c :: id)) + 1)
        with (size buf + 2 + 2 * size (c :: id) + 1) by lia.
  - simpl orb. by rewrite (proj2 (Z.leb_gt _ _)) by lia.
Qed.

(** Enough room for the digits of every id below 2 GiB less 50 bytes. *)
Lemma id_capacity_fits len :
  0 ≤ len < 2 ^ 32 → (2 * len + 1 <=? id_capacity len) = (len <? 2 ^ 31 - 50).
Proof.
  intros Hl. unfold id_capacity, u32.
  destruct (len <? 2 ^ 31 - 50) eqn:E; [apply Z.ltb_lt in E|apply Z.ltb_ge in E].
  - apply Z.leb_le. rewrite Z.mod_small; lia.
  - apply Z.leb_gt. assert ((len * 2 + 100) mod 2 ^ 32 ≤ len * 2 + 100 - 2 ^ 32); [|lia].
    pose proof (Z.div_mod (len * 2 + 100) (2 ^ 32) ltac:(lia)).
    assert (1 ≤ (len * 2 + 100) / 2 ^ 32) by (apply Z.div_le_lower_bound; lia). lia.
Qed.

(** ** The properties *)

(** The buffer for the hexadecimal id holds all its digits and the NUL for
    ids below 2^31 - 50 bytes; from there on [len*2+100] overflows and
    [sprintf] writes past the buffer. *)
Theorem id_buffer_bound id :
  id ≠ [] → size id < 2 ^ 32 →
  print_id (id_capacity (size id)) [] id =
    if size id <? 2 ^ 31 - 50 then Ok (hex id) else UB OutOfBounds.
Proof.
  intros Hne Hs. pose proof (size_nonneg id). rewrite print_id_run, bool_decide_false by done.
  change (size []) with 0. simpl orb. rewrite Z.add_0_l, id_capacity_fits by lia. done.
Qed.

(** C28: on a well-formed process, [lua_resty_ffi_init] returns -1 when the
    program has no build id; otherwise it returns 0, with the three addresses
    resolved, exactly when the hexadecimal form of the id is [NGX_BUILD_ID], and
    -2 when it is not.  Different ids have different forms, so a library built
    for another binary is always refused. *)
Theorem init_accepts_only_its_binary fuel sy pr objs :
  pr_objs pr = objs.*1 → Forall (object_ok (pr_mem pr) fuel) objs → pr_calloc pr = true →
  match find_object (BY_NAME []) objs with
  | None => lua_resty_ffi_init fuel sy pr = Some (Ok InitNoNote)
  | Some (p, n) =>
      size (nt_desc n) < 2 ^ 31 - 50 →
      lua_resty_ffi_init fuel sy pr =
        Some (Ok (if bool_decide (hex (nt_desc n) = NGX_BUILD_ID sy) then resolve sy pr
                  else InitMismatch (hex (nt_desc n)) (NGX_BUILD_ID sy))) ∧
      ∀ id, NGX_BUILD_ID sy = hex id →
        (lua_resty_ffi_init fuel sy pr = Some (Ok (resolve sy pr)) ↔ nt_desc n = id)
  end.
Proof.
  intros Hobjs Hok Hcalloc. unfold lua_resty_ffi_init, build_id_find_nhdr_by_name.
  rewrite Hobjs, (dl_iterate_phdr_ok _ _ _ _ Hok).
  destruct (find_object (BY_NAME []) objs) as [[p n]|] eqn:E; [|done].
  destruct (find_object_data _ _ _ _ _ _ Hok E) as [Hlen Hid]. intros Hs.
  cbn [scan_result]. rewrite Hlen. unfold size at 1 3. rewrite Nat2Z.id, Hid, Hcalloc.
  fold (size (nt_desc n)). rewrite print_id_run. change (size []) with 0. rewrite Z.add_0_l.
  pose proof (size_nonneg (nt_desc n)). rewrite id_capacity_fits by lia.
  rewrite (proj2 (Z.ltb_lt _ _)) by lia. rewrite orb_true_r. simpl app. split; [done|].
  intros id ->. split.
  - case_bool_decide as Hh; [intros _; by apply hex_inj|done].
  - intros ->. by rewrite bool_decide_true.
Qed.

(** ** Instances *)

Definition demo_symbols : symbols := Symbols (hex [xde; xad; xbe]) 16 24 (-32).
Definition demo_process : process := Process demo_mem [demo_obj] 8192 4200 true.

Lemma id_buffer_bound_witness : print_id (id_capacity 3) [] [xde; xad; xbe] = Ok (hex [xde; xad; xbe]).
Proof. apply (id_buffer_bound [xde; xad; xbe]); [discriminate|reflexivity]. Defined.

Lemma init_accepts_only_its_binary_witness :
  lua_resty_ffi_init 3 demo_symbols demo_process = Some (Ok (InitOk 8208 8216 4168)) ∧
  ∀ id, hex [xde; xad; xbe] = hex id →
    (lua_resty_ffi_init 3 demo_symbols demo_process = Some (Ok (InitOk 8208 8216 4168)) ↔
     [xde; xad; xbe] = id).
Proof.
  apply (init_accepts_only_its_binary 3 demo_symbols demo_process [(demo_obj, [[]; demo_notes])]
           eq_refl demo_objects_ok eq_refl).
  reflexivity.
Defined.
