(* ===== verification/NodeBinding.v ===== *)
(** * NodeBinding: src/examples/nodejs/resty_ffi.cc

    The addon that JavaScript code calls to poll a task, to read its request and
    to respond.  The functions of Node-API are the class [Napi]; the calls into
    ngx_http_lua_ffi.c are the definitions of [FfiQueue] and [FfiTask], so that
    the results below are about the whole way of a request through Node.js. *)

From S2P Require Import Prelude World TaskQueue FfiTask FfiQueue EventHandler Ownership System Numerals.
From S2P Require Import Spec Invariant Safety Demo Operations.
From stdpp Require Import strings.

#[local] Open Scope Z_scope.

(** ** Node-API *)

(** JavaScript values do not change, and reading them runs no JavaScript, so the
    state of the engine is left out.  [None] is a status other than [napi_ok].

    - [napi_get_cb_info n args]: the number of arguments, and the array of [n];
    - [napi_get_value_bigint_uint64]: the low 64 bits, and whether they are all;
    - [napi_get_value_string_utf8 v size]: the bytes written to a buffer of
      [size] bytes (or to none), and the length reported. *)
Class Napi := {
  napi_value : Type;
  napi_get_cb_info : nat → list napi_value → option (nat * list napi_value);
  napi_get_value_bigint_uint64 : napi_value → option (Z * bool);
  napi_get_value_int32 : napi_value → option Z;
  napi_get_value_string_utf8 : napi_value → option Z → option (list byte * Z);
  napi_create_bigint_uint64 : Z → option napi_value;
  napi_create_string_utf8 : list byte → option napi_value;
}.

(** What the documentation says of them.  [js_string v] is the content of a
    JavaScript string in UTF-8, [utf8 s] that [s] is valid UTF-8. *)
Class NapiLaws (N : Napi) (js_string : napi_value → option (list byte)) (utf8 : list byte → Prop) : Prop := {
  cb_info_law n args : ∃ argv, napi_get_cb_info n args = Some (length args, argv) ∧ length argv = n ∧
    ∀ i, (i < n)%nat → (i < length args)%nat → argv !! i = args !! i;
  bigint_law n : 0 ≤ n < 2 ^ 64 →
    ∃ v, napi_create_bigint_uint64 n = Some v ∧ napi_get_value_bigint_uint64 v = Some (n, true);
  string_law s : utf8 s → ∃ v, napi_create_string_utf8 s = Some v ∧ js_string v = Some s;
  string_length_law v s : js_string v = Some s →
    napi_get_value_string_utf8 v None = Some ([], Z.of_nat (length s));
  string_copy_law v s size : js_string v = Some s → Z.of_nat (length s) < size →
    napi_get_value_string_utf8 v (Some size) = Some (s ++ [x00], Z.of_nat (length s));
  not_string_law v size : js_string v = None → napi_get_value_string_utf8 v size = None;
}.

Definition WRONG_ARGS : list byte :=
  Eval cbv in String.list_byte_of_string "Wrong number of arguments."%string.

(** The outcome of a call from JavaScript: a pending TypeError, or the returned
    value; NULL is undefined. *)
Inductive napi_res {N : Napi} :=
  | Threw (msg : list byte)
  | Returned (v : option napi_value).

Section Binding.
Context {N : Napi} {A : Addresses}.

(** [napi_get_cb_info] and the test of [argc]: [None] when the function
    throws. *)
Definition get_args (n : nat) (args : list napi_value) (arities : list nat) : option (nat * list napi_value) :=
  '(argc, argv) ← napi_get_cb_info n args;
  if decide (argc ∈ arities) then Some (argc, argv) else None.

(** [ptr] is zero when the argument is no BigInt. *)
Definition get_pointer (argv : list napi_value) : M world (option ptr) :=
  v ← from (head argv) Uninit;
  mret (ptr_at (match napi_get_value_bigint_uint64 v with Some (p, _) => p | None => 0 end)).

(** [poll_task] returns when [ngx_http_lua_ffi_task_poll] does; like there, the
    call is cut at the wait, and [None] is a thread that is blocked. *)
Definition poll_result (r : poll_res) : M world (option napi_res) :=
  match r with
  | PBlocked => mret None
  | PReturn tsk =>
      ret ← from (napi_create_bigint_uint64 (addr_of tsk)) Uninit;
      mret (Some (Returned (Some ret)))
  end.

Definition poll_task (env : sysenv) (me : tid) (args : list napi_value) : M world (option napi_res) :=
  match get_args 1 args [1%nat] with
  | None => mret (Some (Threw WRONG_ARGS))
  | Some (_, argv) =>
      tq ← get_pointer argv;
      r ← task_poll_enter env tq me;
      poll_result r
  end.

Definition poll_task_wake (env : sysenv) (tq : option ptr) (me : tid) : M world (option napi_res) :=
  r ← task_poll_wake env tq me; poll_result r.

(** The bytes [napi_create_string_utf8] reads: all up to the NUL for
    [NAPI_AUTO_LENGTH], which is -1 as a [size_t]. *)
Definition utf8_input (len : Z) (b : list byte) : option (list byte) :=
  if len =? -1 then c_str b
  else if size_of_int len <=? Z.of_nat (length b) then Some (take (Z.to_nat len) b) else None.

Definition get_req (args : list napi_value) : M world napi_res :=
  match get_args 1 args [1%nat] with
  | None => mret (Threw WRONG_ARGS)
  | Some (_, argv) =>
      tsk ← get_pointer argv;
      '(req, len) ← ngx_http_lua_ffi_get_req tsk true;
      len ← from len Uninit;
      match req with
      | Some _ =>
          b ← load_bytes req;
          s ← from (utf8_input len b) OutOfBounds;
          mret (Returned (napi_create_string_utf8 s))
      | None => mret (Returned None)
      end
  end.

(** The third argument in memory of its own.  [alloc] tells whether [calloc]
    succeeds; [str_size] is never written when the argument is no string. *)
Definition copy_string (alloc : bool) (v : napi_value) : M world (option ptr) :=
  '(_, str_size) ← from (napi_get_value_string_utf8 v None) Uninit;
  if alloc then
    '(s, _) ← from (napi_get_value_string_utf8 v (Some (str_size + 1))) Uninit;
    buf ← alloc_buf (s ++ repeat x00 (Z.to_nat (str_size + 1) - length s));
    mret (Some buf)
  else mret None.

(** The inner [size_t len] hides the outer [int len], so that zero is passed to
    [ngx_http_lua_ffi_respond]. *)
Definition respond (alloc : bool) (args : list napi_value) : M world napi_res :=
  match get_args 3 args [2%nat; 3%nat] with
  | None => mret (Threw WRONG_ARGS)
  | Some (argc, argv) =>
      tsk ← get_pointer argv;
      v ← from (argv !! 1%nat) Uninit;
      let rc := default 0 (napi_get_value_int32 v) in
      let len := 0 in
      buf ← (if decide (argc = 3%nat) then
               v ← from (argv !! 2%nat) Uninit; copy_string alloc v
             else mret None);
      ngx_http_lua_ffi_respond tsk rc buf len;;
      mret (Returned None)
  end.

End Binding.

(** ** The module *)

Inductive js_function := Fpoll_task | Fget_req | Frespond.

Definition js_name (f : js_function) : list byte :=
  String.list_byte_of_string
    (match f with Fpoll_task => "poll_task" | Fget_req => "get_req" | Frespond => "respond" end)%string.

(** The statuses of the calls that [init] makes, in order; the state is the
    [exports] object. *)
Definition export (create set : bool) (f : js_function) : M (list (list byte * js_function)) bool :=
  if create then
    if set then modify (.++ [(js_name f, f)]);; mret true else mret false
  else mret false.

Definition init (ok : nat → bool) : M (list (list byte * js_function)) bool :=
  a ← export (ok 0%nat) (ok 1%nat) Fpoll_task;
  if a : bool then
    b ← export (ok 2%nat) (ok 3%nat) Fget_req;
    if b : bool then export (ok 4%nat) (ok 5%nat) Frespond else mret false
  else mret false.

(** The module is returned exactly when all calls succeeded, with the three
    functions under their names; otherwise the first failure ends [init]. *)
Lemma init_exports ok :
  ∃ fs, init ok [] = Ok (forallb ok (seq 0 6), fs) ∧
    fs `prefix_of` ((λ f, (js_name f, f)) <$> [Fpoll_task; Fget_req; Frespond]) ∧
    (forallb ok (seq 0 6) = true → length fs = 3%nat).
Proof.
  unfold init, export, modify, mbind, M_bind, mret, M_ret; simpl.
  destruct (ok 0%nat); simpl; [|exists []; split_and!; [done|apply prefix_nil|done]].
  destruct (ok 1%nat); simpl; [|exists []; split_and!; [done|apply prefix_nil|done]].
  destruct (ok 2%nat); simpl; [|eexists; split_and!; [done|by eexists|done]].
  destruct (ok 3%nat); simpl; [|eexists; split_and!; [done|by eexists|done]].
  destruct (ok 4%nat); simpl; [|eexists; split_and!; [done|by eexists|done]].
  destruct (ok 5%nat); simpl; eexists; split_and!; done || by eexists.
Qed.

(** ** The calls on well-typed arguments *)

Section Calls.
Context {N : Napi} {js_string : napi_value → option (list byte)} {utf8 : list byte → Prop}.
Context {laws : NapiLaws N js_string utf8}.
Context {A : Addresses} {alaws : AddressesLaws A}.

(** [v] is the BigInt of the pointer [p]. *)
Definition names (v : napi_value) (p : option ptr) : Prop :=
  valid_ptr p ∧ napi_get_value_bigint_uint64 v = Some (addr_of p, true).

Lemma get_args_ok n args arities :
  length args ∈ arities → (length args ≤ n)%nat →
  ∃ argv, get_args n args arities = Some (length args, argv) ∧
    ∀ i, (i < length args)%nat → argv !! i = args !! i.
Proof using laws.
  intros Hin Hn. destruct (cb_info_law n args) as (argv & E & _ & Hi).
  exists argv. unfold get_args. rewrite E. simpl. rewrite decide_True by done.
  split; [done|]. intros i Hi'. apply Hi; lia.
Qed.

Lemma get_args_refused n args arities : length args ∉ arities → get_args n args arities = None.
Proof using laws.
  intros Hin. destruct (cb_info_law n args) as (argv & E & _).
  unfold get_args. rewrite E. simpl. by rewrite decide_False.
Qed.

Lemma get_pointer_run argv v (w : world) :
  argv !! 0%nat = Some v →
  get_pointer argv w =
    Ok (ptr_at (match napi_get_value_bigint_uint64 v with Some (p, _) => p | None => 0 end), w).
Proof. destruct argv as [|x argv]; [done|]. by intros [= ->]. Qed.

Lemma get_pointer_names argv v p (w : world) :
  argv !! 0%nat = Some v → names v p → get_pointer argv w = Ok (p, w).
Proof using alaws.
  intros Hv [Hp Hn]. rewrite (get_pointer_run argv v w Hv), Hn. by rewrite ptr_at_addr_of.
Qed.

Lemma copy_string_run v s w :
  js_string v = Some s →
  copy_string true v w = Ok (Some (Ptr (brk w) 0), upd_brk S (upd_bufs <[brk w := s ++ [x00]]> w)).
Proof using laws.
  intros Hs. unfold copy_string. erewrite bind_ok; [|by rewrite (string_length_law v s Hs)].
  cbn beta iota. erewrite bind_ok.
  2: { rewrite (string_copy_law v s _ Hs) by lia. apply from_run. done. }
  cbn beta iota. erewrite bind_ok by apply alloc_buf_ok. rewrite ret_run. do 4 f_equal.
  rewrite length_app. simpl length.
  replace (Z.to_nat (Z.of_nat (length s) + 1) - (length s + 1))%nat with 0%nat by lia.
  by rewrite app_nil_r.
Qed.

(** The response of [respond]: a copy with its NUL, announced with length
    zero. *)
Definition node_rsp (s : option (list byte)) : option (list byte) := (.++ [x00]) <$> s.

Definition string_args (v : list napi_value) (s : option (list byte)) : Prop :=
  match s with
  | None => v = []
  | Some s => ∃ x, v = [x] ∧ js_string x = Some s
  end.

(** A second argument that is no number stands for zero. *)
Definition int_arg (v : napi_value) : Z := default 0 (napi_get_value_int32 v).

Lemma respond_args v1 v2 rest t s w :
  names v1 (Some (Ptr t 0)) → string_args rest s →
  respond true (v1 :: v2 :: rest) w =
    (respond_with t (int_arg v2) (node_rsp s) 0;; mret (Returned None)) w.
Proof using laws alaws.
  intros H1 Hr. unfold respond.
  assert (length (v1 :: v2 :: rest) ∈ [2; 3]%nat ∧ (length (v1 :: v2 :: rest) ≤ 3)%nat) as [Hin Hle].
  { destruct s; simpl in Hr; [destruct Hr as (x & -> & _)|subst rest]; simpl; split; try lia; set_solver. }
  destruct (get_args_ok 3 _ _ Hin Hle) as (argv & -> & Hi).
  assert (argv !! 0%nat = Some v1 ∧ argv !! 1%nat = Some v2) as [E0 E1]
    by (split; (rewrite Hi; [done|simpl; lia])).
  erewrite bind_ok by by apply (get_pointer_names argv v1).
  erewrite bind_ok by apply from_run, E1.
  fold (int_arg v2). cbv zeta.
  destruct s as [s|]; simpl in Hr.
  - destruct Hr as (x & -> & Hx). simpl length. rewrite decide_True by done. rewrite bind_assoc.
    assert (argv !! 2%nat = Some x) as E2 by (rewrite Hi; [done|simpl; lia]).
    erewrite bind_ok by apply from_run, E2.
    erewrite bind_ok by by apply copy_string_run. unfold respond_with, node_rsp; simpl.
    by rewrite bind_assoc.
  - subst rest. simpl length. rewrite decide_False by done. by erewrite bind_ok by done.
Qed.

Lemma node_rsp_fits s : rsp_fits (node_rsp s) 0 = true.
Proof. destruct s as [s|]; simpl; [|done]. apply bool_decide_eq_true. rewrite c_str_nul. by eexists. Qed.

(** A response of [respond] is an event of the system that the protocol
    allows. *)
Lemma respond_event s t v1 v2 rest str {ops : NgxLua} {pool : NgxPool} :
  t ∈ s_held s → names v1 (Some (Ptr t 0)) → string_args rest str →
  enabled s (ERespond t (int_arg v2) (node_rsp str) 0) = true ∧
  ∀ s', exec (ERespond t (int_arg v2) (node_rsp str) 0) s = Ok s' →
    respond true (v1 :: v2 :: rest) (sw s) = Ok (Returned None, sw s').
Proof using laws alaws.
  intros Ht H1 Hr. split; [simpl; by rewrite bool_decide_true, node_rsp_fits by done|].
  intros s'. rewrite (respond_args v1 v2 rest t str) by done. simpl. unfold exec_respond, mbind, M_bind.
  destruct (respond_with t (int_arg v2) (node_rsp str) 0 (sw s)) as [[[] w]|f]; [|done].
  by intros [= <-].
Qed.

(** ** The properties *)

(** C37: a Node.js runtime that passes a polled task, any second argument and at
    most a string keeps the protocol: in every reachable state the response
    returns undefined, and is the event [ERespond] with a copy of the string and
    its NUL, so that the next state is reachable and all that holds of reachable
    states goes on to hold. *)
Theorem node_keeps_protocol {ops : NgxLua} {llaws : NgxLuaLaws ops} {pool : NgxPool} {plaws : NgxPoolLaws pool}
    max s t v1 v2 rest str :
  reachable max s → t ∈ s_held s → names v1 (Some (Ptr t 0)) → string_args rest str →
  ∃ s', respond true (v1 :: v2 :: rest) (sw s) = Ok (Returned None, sw s') ∧
    exec (ERespond t (int_arg v2) (node_rsp str) 0) s = Ok s' ∧ reachable max s'.
Proof using laws alaws.
  intros Hs Ht H1 Hr. destruct (reachable_inv max s Hs) as (pl & mk & dl & Hinv & _).
  destruct (respond_event s t v1 v2 rest str Ht H1 Hr) as [Hen Hex].
  destruct (step_simulates _ _ _ _ _ Hinv Hen) as (s' & Hs' & _).
  exists s'. split; [by apply Hex|]. split; [done|].
  destruct Hs as (env & w & s0 & es & Hi & Ha & Hb & Hrun).
  exists env, w, s0, (es ++ [ERespond t (int_arg v2) (node_rsp str) 0]). repeat (split; [done|]).
  rewrite (run_events_app _ _ _ _ Hrun). cbn [run_events]. by rewrite Hen, Hs'.
Qed.


(** The BigInt [poll_task] returns names the task that was polled, so that
    [get_req] and [respond] find it again, and is zero exactly when
    [ngx_http_lua_ffi_task_poll] returned NULL; [poll_task] blocks when it
    does. *)
Theorem poll_task_names_the_task env me w tq v r w' :
  names v tq → task_poll_enter env tq me w = Ok (r, w') →
  match r with
  | PBlocked => poll_task env me [v] w = Ok (None, w')
  | PReturn tsk => valid_ptr tsk →
      ∃ x, poll_task env me [v] w = Ok (Some (Returned (Some x)), w') ∧ names x tsk ∧
        (napi_get_value_bigint_uint64 x = Some (0, true) ↔ tsk = None)
  end.
Proof using laws alaws.
  intros Hv Hpoll.
  assert (poll_task env me [v] w = poll_result r w') as Hrun.
  { unfold poll_task. destruct (get_args_ok 1 [v] [1%nat]) as (argv & -> & Hi); [set_solver|simpl; lia|].
    erewrite bind_ok by (eapply get_pointer_names; [apply (Hi 0%nat); simpl; lia|exact Hv]).
    by erewrite bind_ok by exact Hpoll. }
  rewrite Hrun. destruct r as [tsk|]; [|done]. intros Hval. pose proof (addr_of_range tsk Hval) as Hr.
  destruct (bigint_law (addr_of tsk) Hr) as (x & Ex & Hx). exists x. unfold poll_result.
  erewrite bind_ok by by rewrite Ex. rewrite ret_run. split; [done|]. split; [done|]. rewrite Hx.
  split; [|by intros ->]. intros [= Hz]. destruct tsk as [p|]; [|done]. exfalso.
  pose proof (addr_range p Hval). simpl in Hz. lia.
Qed.

(** What the addon checks of its arguments.  A call with the wrong number
    of them throws and touches nothing.  Their types are not checked: what is no
    BigInt is taken for NULL, which is dereferenced, and for a third argument
    of [respond] that is no string a size is read that was never written. *)
Theorem node_argument_types env me args w :
  (length args ≠ 1%nat →
     poll_task env me args w = Ok (Some (Threw WRONG_ARGS), w) ∧ get_req args w = Ok (Threw WRONG_ARGS, w)) ∧
  (length args ≠ 2%nat → length args ≠ 3%nat → ∀ alloc, respond alloc args w = Ok (Threw WRONG_ARGS, w)) ∧
  ∀ v rest, args = v :: rest →
    (napi_get_value_bigint_uint64 v = None →
       (rest = [] → poll_task env me args w = UB NullDeref ∧ get_req args w = UB NullDeref) ∧
       (length rest = 1%nat → ∀ alloc, respond alloc args w = UB NullDeref)) ∧
    (∀ v2 v3 alloc, rest = [v2; v3] → js_string v3 = None → respond alloc args w = UB Uninit).
Proof using laws alaws.
  split; [|split].
  - intros Hn. unfold poll_task, get_req. rewrite get_args_refused by set_solver. done.
  - intros H2 H3 alloc. unfold respond. rewrite get_args_refused by set_solver. done.
  - intros v rest ->. split.
    + intros Hv. assert (∀ argv : list napi_value, argv !! 0%nat = Some v → get_pointer argv w = Ok (None, w)) as Hp.
      { intros argv E. by rewrite (get_pointer_run argv v w E), Hv, ptr_at_null. }
      split.
      * intros ->. unfold poll_task, get_req.
        destruct (get_args_ok 1 [v] [1%nat]) as (argv & -> & Hi); [set_solver|simpl; lia|].
        assert (argv !! 0%nat = Some v) as E0 by (rewrite Hi; [done|simpl; lia]).
        by split; (erewrite bind_ok by by apply Hp).
      * intros Hl alloc. destruct rest as [|v2 [|]]; try done. unfold respond.
        destruct (get_args_ok 3 [v; v2] [2; 3]%nat) as (argv & -> & Hi); [set_solver|simpl; lia|].
        assert (argv !! 0%nat = Some v ∧ argv !! 1%nat = Some v2) as [E0 E1]
          by (split; (rewrite Hi; [done|simpl; lia])).
        erewrite bind_ok by by apply Hp. erewrite bind_ok by apply from_run, E1. cbv zeta.
        simpl length. rewrite decide_False by done. by erewrite bind_ok by done.
    + intros v2 v3 alloc -> Hs. unfold respond.
      destruct (get_args_ok 3 [v; v2; v3] [2; 3]%nat) as (argv & -> & Hi); [set_solver|simpl; lia|].
      assert (argv !! 0%nat = Some v ∧ argv !! 1%nat = Some v2 ∧ argv !! 2%nat = Some v3) as (E0 & E1 & E2)
        by (split_and!; (rewrite Hi; [done|simpl; lia])).
      erewrite bind_ok by by apply get_pointer_run. erewrite bind_ok by apply from_run, E1. cbv zeta.
      simpl length. rewrite decide_True by done. rewrite bind_assoc.
      erewrite bind_ok by apply from_run, E2. apply bind_ub. unfold copy_string. apply bind_ub.
      by rewrite not_string_law.
Qed.

End Calls.

(** ** Instances *)

Module Demo.

Inductive js_value :=
  | JBigInt (n : Z)
  | JNumber (n : Z)
  | JString (s : list byte).

#[local] Instance demo_napi : Napi := {
  napi_value := js_value;
  napi_get_cb_info n args := Some (length args, take n (args ++ repeat (JNumber 0) n));
  napi_get_value_bigint_uint64 v :=
    match v with JBigInt n => Some (n mod 2 ^ 64, (0 <=? n) && (n <? 2 ^ 64)) | _ => None end;
  napi_get_value_int32 v := match v with JNumber n => Some n | _ => None end;
  napi_get_value_string_utf8 v size :=
    match v with
    | JString s =>
        Some (match size with
              | None => ([], Z.of_nat (length s))
              | Some n => let k := Z.min (Z.of_nat (length s)) (n - 1) in
                          (take (Z.to_nat k) s ++ [x00], k)
              end)
    | _ => None
    end;
  napi_create_bigint_uint64 n := Some (JBigInt n);
  napi_create_string_utf8 s := Some (JString s);
}.

Definition demo_string (v : js_value) : option (list byte) :=
  match v with JString s => Some s | _ => None end.

#[local] Instance demo_napi_laws : NapiLaws demo_napi demo_string (λ _, True).
Proof.
  split.
  - intros n args. eexists. split; [done|]. split.
    + rewrite length_take, length_app, repeat_length. lia.
    + intros i Hi Ha. rewrite lookup_take_lt by lia. by rewrite lookup_app_l.
  - intros n Hn. eexists. split; [done|]. simpl. rewrite Z.mod_small by lia.
    by rewrite (proj2 (Z.leb_le _ _)), (proj2 (Z.ltb_lt _ _)) by lia.
  - intros s _. by eexists.
  - by intros [] ? [= ->].
  - intros [] s' size [= ->] Hs. simpl. rewrite Z.min_l by lia. by rewrite Nat2Z.id, firstn_all.
  - by intros [].
Qed.

#[local] Existing Instance flat_addresses.
#[local] Existing Instance flat_addresses_laws.

Definition big (p : ptr) : js_value := JBigInt (addr p).

Lemma big_names l o : Z.of_nat l < 2 ^ 31 → 0 ≤ o < 2 ^ 32 → names (big (Ptr l o)) (Some (Ptr l o)).
Proof.
  intros Hl Ho. split; [done|]. unfold big. cbn [napi_get_value_bigint_uint64 demo_napi].
  pose proof (addr_range (Ptr l o) (conj Hl Ho)). unfold addr_of. rewrite Z.mod_small by lia.
  by rewrite (proj2 (Z.leb_le _ _)), (proj2 (Z.ltb_lt _ _)) by lia.
Qed.

(** Task 2 was polled by thread 1. *)
Definition polled : sys := sys_of (run_events (take 3 demo_call) demo_sys).

Lemma node_keeps_protocol_witness :
  ∃ s', respond true [big (Ptr 2 0); JNumber 0; JString hi] (sw polled) = Ok (Returned None, sw s') ∧
    exec (ERespond 2 0 (Some (hi ++ [x00])) 0) polled = Ok s' ∧ reachable 2 s'.
Proof.
  refine (node_keeps_protocol 2 polled 2 (big (Ptr 2 0)) (JNumber 0) [JString hi] (Some hi) _ _
    (big_names 2 0 _ _) _); [demo|vm_compute; left|reflexivity|by split|by exists (JString hi)].
Defined.




Lemma poll_task_names_the_task_witness :
  valid_ptr (Some (Ptr 9 0)) →
  ∃ x, poll_task env_ok 1 [big (Ptr 0 0)] demo_pending =
      Ok (Some (Returned (Some x)), match task_poll_enter env_ok (Some (Ptr 0 0)) 1 demo_pending with
                                    | Ok (_, w) => w | UB _ => demo_pending end) ∧
    names x (Some (Ptr 9 0)) ∧
    (napi_get_value_bigint_uint64 x = Some (0, true) ↔ Some (Ptr 9 0) = None).
Proof.
  refine (poll_task_names_the_task env_ok 1 demo_pending (Some (Ptr 0 0)) (big (Ptr 0 0))
    (PReturn (Some (Ptr 9 0))) _ (big_names 0 0 _ _) _); [reflexivity|by split|vm_compute; reflexivity].
Defined.

Lemma node_argument_types_witness :
  get_req [] demo_empty = Ok (Threw WRONG_ARGS, demo_empty) ∧
  get_req [JNumber 1] demo_empty = UB NullDeref ∧
  respond true [big (Ptr 9 0); JNumber 0; JNumber 0] demo_empty = UB Uninit.
Proof.
  split; [|split].
  - apply (node_argument_types (N := demo_napi) env_ok 1 [] demo_empty). discriminate.
  - destruct (node_argument_types (N := demo_napi) env_ok 1 [JNumber 1] demo_empty) as (_ & _ & H).
    by apply (H (JNumber 1) []).
  - destruct (node_argument_types (N := demo_napi) env_ok 1 [big (Ptr 9 0); JNumber 0; JNumber 0] demo_empty)
      as (_ & _ & H).
    by apply (H (big (Ptr 9 0)) [JNumber 0; JNumber 0] eq_refl) with (JNumber 0) (JNumber 0).
Defined.

End Demo.
