(* ===== verification/CString.v ===== *)
(** * CString: strings in C memory

    The loaders of the example runtimes parse their configuration in place.
    This file holds what they need of C: a heap of byte blocks, pointers into
    them, and the functions of string.h with their undefined behaviour, each
    followed by its effect on strings.  A string of the specification is a
    [list byte] without the terminating NUL. *)

From S2P Require Import Prelude World.

(** ** A heap of byte blocks *)

Record heap := Heap {
  blocks : gmap loc (list byte);
  next_block : loc;
}.

Definition set_blocks (f : gmap loc (list byte) → gmap loc (list byte)) (h : heap) : heap :=
  Heap (f (blocks h)) (next_block h).

(** Blocks are allocated below [next_block]. *)
Definition heap_ok (h : heap) : Prop := ∀ l : loc, (next_block h ≤ l)%nat → blocks h !! l = None.

Definition len (s : list byte) : Z := Z.of_nat (length s).

(** The bytes from [p] to the end of its block.  [p] may be one past the end. *)
Definition bytes_at (h : heap) (p : option ptr) : res (list byte) :=
  match p with
  | None => UB NullDeref
  | Some p =>
      match blocks h !! p_blk p with
      | None => UB UseAfterFree
      | Some b => if (0 <=? p_off p) && (p_off p <=? len b) then Ok (drop (Z.to_nat (p_off p)) b)
                  else UB OutOfBounds
      end
  end.

Definition tail_at (p : option ptr) : M heap (list byte) :=
  λ h, match bytes_at h p with Ok b => Ok (b, h) | UB f => UB f end.

Definition load_byte (p : option ptr) : M heap byte :=
  b ← tail_at p; from (head b) OutOfBounds.

Definition store_byte (p : option ptr) (x : byte) : M heap () :=
  _ ← load_byte p;
  p ← from p NullDeref;
  modify (set_blocks (alter <[Z.to_nat (p_off p) := x]> (p_blk p))).

Definition malloc (b : list byte) : M heap ptr :=
  λ h, Ok (Ptr (next_block h) 0, Heap (<[next_block h := b]> (blocks h)) (S (next_block h))).

Definition free (p : option ptr) : M heap () :=
  match p with
  | None => mret ()
  | Some p => h ← gets blocks; assume (freeable h p) BadFree;;
              modify (set_blocks (delete (p_blk p)))
  end.

(** ** string.h *)

(** The bytes before the first NUL. *)
Fixpoint to_nul (b : list byte) : option (list byte) :=
  match b with
  | [] => None
  | x :: b => if decide (x = x00) then Some [] else cons x <$> to_nul b
  end.

(** The string at [p], as any function reads it that walks to the NUL. *)
Definition cstr (p : option ptr) : M heap (list byte) :=
  b ← tail_at p; from (to_nul b) OutOfBounds.

(** An argument that may be NULL. *)
Definition opt_cstr (p : option ptr) : M heap (option (list byte)) :=
  match p with
  | None => mret None
  | Some _ => s ← cstr p; mret (Some s)
  end.

Definition strlen (p : option ptr) : M heap Z := s ← cstr p; mret (len s).

(** The bytes before the first [sep] or NUL, and whether it was [sep]. *)
Fixpoint span (sep : byte) (b : list byte) : option (list byte * bool) :=
  match b with
  | [] => None
  | x :: b => if decide (x = x00) then Some ([], false) else
              if decide (x = sep) then Some ([], true) else
              '(t, e) ← span sep b; Some (x :: t, e)
  end.

(** [strsep(&str, sep)]: the token and the new [str]. *)
Definition strsep (str : option ptr) (sep : byte) : M heap (option ptr * option ptr) :=
  match str with
  | None => mret (None, None)
  | Some p =>
      b ← tail_at str;
      te ← from (span sep b) OutOfBounds;
      if te.2 : bool then
        store_byte (Some (ptr_add p (len te.1))) x00;;
        mret (str, Some (ptr_add p (len te.1 + 1)))
      else mret (str, None)
  end.

(** [None] when the allocation fails. *)
Definition strdup (alloc : bool) (p : option ptr) : M heap (option ptr) :=
  s ← cstr p;
  if alloc then q ← malloc (s ++ [x00]); mret (Some q) else mret None.

Definition strndup (alloc : bool) (p : option ptr) (n : Z) : M heap (option ptr) :=
  s ← cstr p;
  if alloc then q ← malloc (take (Z.to_nat n) s ++ [x00]); mret (Some q) else mret None.

(** The position of the last [c]. *)
Fixpoint last_index (c : byte) (s : list byte) : option nat :=
  match s with
  | [] => None
  | x :: s => match last_index c s with
              | Some i => Some (S i)
              | None => if decide (x = c) then Some 0%nat else None
              end
  end.

Definition strrchr (p : option ptr) (c : byte) : M heap (option ptr) :=
  s ← cstr p;
  mret (match last_index c s, p with
        | Some i, Some p => Some (ptr_add p (Z.of_nat i))
        | _, _ => None
        end).

(** ** Their effect on a block of known contents *)

Definition set_block (l : loc) (b : list byte) (h : heap) : heap := set_blocks <[l := b]> h.

Lemma lookup_set_block l b h : blocks (set_block l b h) !! l = Some b.
Proof. apply lookup_insert_eq. Qed.

Lemma lookup_set_block_ne l k b h : l ≠ k → blocks (set_block l b h) !! k = blocks h !! k.
Proof. apply lookup_insert_ne. Qed.

Lemma set_block_id l b h : blocks h !! l = Some b → set_block l b h = h.
Proof. intros H. destruct h. unfold set_block, set_blocks; simpl in *. by rewrite insert_id. Qed.

Lemma set_block_twice l b c h : set_block l b (set_block l c h) = set_block l b h.
Proof. unfold set_block, set_blocks; simpl. by rewrite insert_insert_eq. Qed.

Lemma heap_ok_set_block l b h : heap_ok h → is_Some (blocks h !! l) → heap_ok (set_block l b h).
Proof.
  intros Hh [c Hl] k Hk. simpl in *. rewrite lookup_insert_ne; [by apply Hh|].
  intros ->. rewrite Hh in Hl; done.
Qed.

Lemma len_nonneg s : 0 ≤ len s.
Proof. unfold len. lia. Qed.

Lemma len_app s t : len (s ++ t) = len s + len t.
Proof. unfold len. rewrite length_app. lia. Qed.

Lemma len_cons x s : len (x :: s) = 1 + len s.
Proof. unfold len. simpl. lia. Qed.

Lemma tail_at_ok h l pre r :
  blocks h !! l = Some (pre ++ r) → tail_at (Some (Ptr l (len pre))) h = Ok (r, h).
Proof.
  intros Hl. unfold tail_at, bytes_at; simpl. rewrite Hl, len_app.
  pose proof (len_nonneg pre). pose proof (len_nonneg r).
  rewrite !(proj2 (Z.leb_le _ _)) by lia. simpl. unfold len. by rewrite Nat2Z.id, drop_app_length.
Qed.

Lemma load_byte_ok h l pre x r :
  blocks h !! l = Some (pre ++ x :: r) → load_byte (Some (Ptr l (len pre))) h = Ok (x, h).
Proof. intros Hl. unfold load_byte. by erewrite bind_ok by by apply tail_at_ok. Qed.

Lemma store_byte_ok h l pre x y r :
  blocks h !! l = Some (pre ++ x :: r) →
  store_byte (Some (Ptr l (len pre))) y h = Ok ((), set_block l (pre ++ y :: r) h).
Proof.
  intros Hl. unfold store_byte. erewrite bind_ok by by eapply load_byte_ok.
  unfold modify, mbind, M_bind; simpl. do 2 f_equal. unfold set_block, set_blocks. f_equal.
  apply map_eq. intros k. destruct (decide (l = k)) as [->|Hk].
  - rewrite lookup_alter_eq, Hl, lookup_insert_eq. simpl. f_equal.
    unfold len. rewrite Nat2Z.id, <-(Nat.add_0_r (length pre)). by rewrite insert_app_r.
  - by rewrite lookup_alter_ne, lookup_insert_ne.
Qed.

Lemma to_nul_app s r : x00 ∉ s → to_nul (s ++ x00 :: r) = Some s.
Proof.
  induction s as [|x s IH]; [done|]. intros [Hx Hs]%not_elem_of_cons. simpl.
  rewrite decide_False by done. by rewrite IH.
Qed.

Lemma cstr_ok h l pre s post :
  x00 ∉ s → blocks h !! l = Some (pre ++ s ++ x00 :: post) →
  cstr (Some (Ptr l (len pre))) h = Ok (s, h).
Proof.
  intros Hs Hl. unfold cstr. erewrite bind_ok by by apply tail_at_ok. by rewrite to_nul_app.
Qed.

Lemma opt_cstr_inv p d h h' :
  opt_cstr (Some p) h = Ok (d, h') → ∃ s, d = Some s ∧ cstr (Some p) h = Ok (s, h').
Proof.
  unfold opt_cstr, mbind, M_bind. destruct (cstr (Some p) h) as [[s h1]|]; [|done].
  intros [= <- <-]. by exists s.
Qed.

(** The first field of a string and what follows the separator. *)
Fixpoint cut (sep : byte) (s : list byte) : list byte * option (list byte) :=
  match s with
  | [] => ([], None)
  | x :: s => if decide (x = sep) then ([], Some s) else let (t, r) := cut sep s in (x :: t, r)
  end.

Lemma cut_app sep s :
  s = (cut sep s).1 ++ match (cut sep s).2 with Some r => sep :: r | None => [] end ∧
  sep ∉ (cut sep s).1.
Proof.
  induction s as [|x s [IH IH2]]; simpl; [split; [done|apply not_elem_of_nil]|].
  case_decide as E; simpl; [by subst; split; [|apply not_elem_of_nil]|].
  destruct (cut sep s) as [t r]; simpl in *. split; [by rewrite IH at 1|].
  by apply not_elem_of_cons.
Qed.

Lemma cut_nul sep s :
  x00 ∉ s → x00 ∉ (cut sep s).1 ∧ ∀ r, (cut sep s).2 = Some r → x00 ∉ r.
Proof.
  destruct (cut_app sep s) as [Hs _]. destruct (cut sep s) as [t o]; simpl in *. rewrite Hs.
  rewrite not_elem_of_app. intros [Ht Ho]. split; [done|]. intros r ->. set_solver.
Qed.

Lemma span_cut sep s r :
  x00 ∉ s → sep ≠ x00 →
  span sep (s ++ x00 :: r) = Some ((cut sep s).1, bool_decide (is_Some (cut sep s).2)).
Proof.
  intros Hs Hsep. induction s as [|x s IH]; simpl; [done|].
  apply not_elem_of_cons in Hs as [Hx Hs]. rewrite decide_False by done.
  case_decide; [done|]. rewrite IH by done. by destruct (cut sep s).
Qed.

(** What [strsep] leaves of the string. *)
Definition cut_bytes (sep : byte) (s : list byte) : list byte :=
  match cut sep s with (t, Some r) => t ++ x00 :: r | (t, None) => t end.

Lemma strsep_ok h l pre s post sep :
  x00 ∉ s → sep ≠ x00 → blocks h !! l = Some (pre ++ s ++ x00 :: post) →
  strsep (Some (Ptr l (len pre))) sep h =
    Ok ((Some (Ptr l (len pre)),
         (λ _, Ptr l (len pre + (len (cut sep s).1 + 1))) <$> (cut sep s).2),
        set_block l (pre ++ cut_bytes sep s ++ x00 :: post) h).
Proof.
  intros Hs Hsep Hl. unfold strsep. erewrite bind_ok by by apply tail_at_ok.
  rewrite span_cut by done. unfold cut_bytes. destruct (cut_app sep s) as [Hcut _].
  destruct (cut sep s) as [t [r|]]; simpl in *; subst s; rewrite ?app_nil_r in *.
  - unfold ptr_add; simpl. rewrite <-app_assoc in Hl. simpl in Hl. rewrite app_assoc in Hl.
    erewrite bind_ok by done. simpl. rewrite <-len_app.
    erewrite bind_ok by by eapply store_byte_ok.
    by rewrite <-!app_assoc.
  - by rewrite set_block_id.
Qed.

Lemma strdup_ok h l pre s post :
  x00 ∉ s → blocks h !! l = Some (pre ++ s ++ x00 :: post) →
  strdup true (Some (Ptr l (len pre))) h =
    Ok (Some (Ptr (next_block h) 0), Heap (<[next_block h := s ++ [x00]]> (blocks h)) (S (next_block h))).
Proof. intros Hs Hl. unfold strdup. by erewrite bind_ok by by eapply cstr_ok. Qed.

Lemma free_ok h l b :
  blocks h !! l = Some b → free (Some (Ptr l 0)) h = Ok ((), set_blocks (delete l) h).
Proof.
  intros Hl. unfold free, gets, assume, freeable, mbind, M_bind; simpl.
  by rewrite bool_decide_true by by eexists.
Qed.

Lemma free_interior h l n : n ≠ 0 → free (Some (Ptr l n)) h = UB BadFree.
Proof.
  intros Hn. unfold free, gets, assume, freeable, mbind, M_bind; simpl.
  by rewrite (proj2 (Z.eqb_neq _ _)).
Qed.

(** ** Strings and their fields *)

Fixpoint split_on (sep : byte) (s : list byte) : list (list byte) :=
  match s with
  | [] => [[]]
  | x :: s => if decide (x = sep) then [] :: split_on sep s else
              match split_on sep s with t :: ts => (x :: t) :: ts | [] => [[x]] end
  end.

Fixpoint join_with (sep : byte) (ts : list (list byte)) : list byte :=
  match ts with
  | [] => []
  | [t] => t
  | t :: ts => t ++ sep :: join_with sep ts
  end.

Lemma split_on_not_nil sep s : split_on sep s ≠ [].
Proof. destruct s as [|x s]; simpl; [done|]. case_decide; [done|]. by destruct (split_on sep s). Qed.

Lemma join_split_on sep s : join_with sep (split_on sep s) = s.
Proof.
  induction s as [|x s IH]; simpl; [done|]. pose proof (split_on_not_nil sep s).
  case_decide; subst; destruct (split_on sep s) as [|t [|u ts]]; simpl in *; congruence.
Qed.

Lemma split_on_fields sep s : Forall (λ t, sep ∉ t) (split_on sep s).
Proof.
  induction s as [|x s IH]; simpl; [repeat constructor; apply not_elem_of_nil|].
  case_decide as E; [constructor; [apply not_elem_of_nil|done]|].
  destruct (split_on sep s) as [|t ts]; [by repeat constructor; set_solver|].
  inversion IH; subst. constructor; [by apply not_elem_of_cons|done].
Qed.

Lemma split_on_bytes sep s x : x ∉ s → Forall (λ t, x ∉ t) (split_on sep s).
Proof.
  induction s as [|y s IH]; simpl; [repeat constructor; apply not_elem_of_nil|].
  intros [Hy Hs]%not_elem_of_cons. specialize (IH Hs).
  case_decide as E; [constructor; [apply not_elem_of_nil|done]|].
  destruct (split_on sep s) as [|t ts]; [by repeat constructor; set_solver|].
  inversion IH; subst. constructor; [by apply not_elem_of_cons|done].
Qed.

Lemma split_on_app sep a r : sep ∉ a → split_on sep (a ++ sep :: r) = a :: split_on sep r.
Proof.
  induction a as [|x a IH]; simpl; [by rewrite decide_True|].
  intros [Hx Ha]%not_elem_of_cons. by rewrite decide_False, IH.
Qed.

Lemma split_on_single sep a : sep ∉ a → split_on sep a = [a].
Proof.
  induction a as [|x a IH]; simpl; [done|].
  intros [Hx Ha]%not_elem_of_cons. by rewrite decide_False, IH.
Qed.

Lemma cut_here sep t s : sep ∉ t → cut sep (t ++ sep :: s) = (t, Some s).
Proof.
  induction t as [|x t IH]; simpl; [by rewrite decide_True|]. intros [Hx Ht]%not_elem_of_cons.
  rewrite decide_False by done. by rewrite (IH Ht).
Qed.

Lemma cut_join sep t ts :
  sep ∉ t → cut sep (join_with sep (t :: ts)) = (t, match ts with [] => None | _ => Some (join_with sep ts) end).
Proof.
  intros Ht. destruct ts as [|u ts].
  - simpl. induction t as [|x t IH]; simpl; [done|]. apply not_elem_of_cons in Ht as [Hx Ht].
    by rewrite decide_False, IH.
  - change (join_with sep (t :: u :: ts)) with (t ++ sep :: join_with sep (u :: ts)).
    induction t as [|x t IH]; cbn [app cut]; [by rewrite decide_True|].
    apply not_elem_of_cons in Ht as [Hx Ht]. by rewrite decide_False, IH.
Qed.

(** [a,b,rest]: the configuration both loaders expect. *)
Definition comma : byte := x2c.
Definition slash : byte := x2f.
Definition question : byte := x3f.

Definition fields (s : list byte) : list byte * option (list byte) * option (list byte) :=
  let rest := (cut comma s).2 in
  ((cut comma s).1, (λ r, (cut comma r).1) <$> rest, rest ≫= λ r, (cut comma r).2).

Lemma cut_bytes_app sep s post :
  x00 ∉ s →
  ∃ t, cut_bytes sep s ++ x00 :: post = (cut sep s).1 ++ x00 :: t ∧
    length (cut_bytes sep s) = length s ∧
    ∀ r, (cut sep s).2 = Some r → x00 ∉ r ∧ t = r ++ x00 :: post.
Proof.
  intros Hs. destruct (cut_nul sep s Hs) as [_ Hr]. destruct (cut_app sep s) as [Ha _].
  unfold cut_bytes. destruct (cut sep s) as [a [r|]]; simpl in *.
  - exists (r ++ x00 :: post). split; [by rewrite <-app_assoc|]. split.
    { rewrite Ha, !length_app. done. }
    intros r' ?; simplify_eq. split; [by apply Hr|done].
  - exists post. split; [done|]. split; [by rewrite Ha, app_nil_r|done].
Qed.

(** The pointers to the second and third field, with [rest] behind [pre]. *)
Definition second_ptr (l : loc) (pre : list byte) (rest : option (list byte)) : option ptr :=
  (λ _, Ptr l (len pre)) <$> rest.
Definition third_ptr (l : loc) (pre : list byte) (rest : option (list byte)) : option ptr :=
  r ← rest; (λ _, Ptr l (len pre + (len (cut comma r).1 + 1))) <$> (cut comma r).2.

Lemma strsep_rest h l pre t rest post :
  blocks h !! l = Some (pre ++ t) →
  (∀ r, rest = Some r → x00 ∉ r ∧ t = r ++ x00 :: post) →
  ∃ t', length t' = length t ∧
    strsep (second_ptr l pre rest) comma h =
      Ok ((second_ptr l pre rest, third_ptr l pre rest), set_block l (pre ++ t') h) ∧
    ∀ h' pre', len pre' = len pre → blocks h' !! l = Some (pre' ++ t') →
      opt_cstr (second_ptr l pre rest) h' = Ok ((λ r, (cut comma r).1) <$> rest, h') ∧
      opt_cstr (third_ptr l pre rest) h' = Ok (rest ≫= λ r, (cut comma r).2, h').
Proof.
  intros Hl Hr. destruct rest as [r|]; simpl.
  2: { exists t. split; [done|]. split; [by rewrite set_block_id|done]. }
  destruct (Hr r eq_refl) as [Hnul ->]. destruct (cut_nul comma r Hnul) as [Ha Hb].
  destruct (cut_bytes_app comma r post Hnul) as (t & Et & El & Ht).
  exists (cut_bytes comma r ++ x00 :: post). split; [by rewrite !length_app, El|].
  split; [by apply strsep_ok|]. intros h' pre' Hp Hh. rewrite Et in Hh.
  unfold second_ptr, third_ptr; simpl. rewrite <-Hp. split.
  - unfold opt_cstr. by erewrite bind_ok by by eapply cstr_ok.
  - destruct (cut comma r) as [a [b|]]; simpl in *; [|done].
    destruct (Ht b eq_refl) as [Hnb ->].
    assert (len pre' + (len a + 1) = len (pre' ++ a ++ [x00])) as ->
      by (rewrite !len_app; change (len [x00]) with 1; lia).
    erewrite bind_ok; [done|]. eapply cstr_ok; [done|]. rewrite Hh, <-!app_assoc. done.
Qed.

(** The third field is the rest of the string. *)
Lemma third_ptr_offset l s :
  third_ptr l ((cut comma s).1 ++ [x00]) (cut comma s).2 = (λ r, Ptr l (len s - len r)) <$> (fields s).2.
Proof.
  unfold third_ptr, fields; cbn [snd]. destruct (cut_app comma s) as [Hs _].
  destruct (cut comma s) as [a [r|]]; simpl in *; [|done]. destruct (cut_app comma r) as [Hr _].
  destruct (cut comma r) as [b [c|]]; simpl in *; [|done]. do 2 f_equal.
  rewrite Hs, Hr, !len_app, !len_cons, len_app, len_cons. change (len []) with 0. lia.
Qed.

Lemma last_index_app c s i :
  last_index c s = Some i → (i < length s)%nat ∧ s = take i s ++ c :: drop (S i) s.
Proof.
  revert i. induction s as [|x s IH]; intros i; simpl; [done|].
  destruct (last_index c s) as [j|] eqn:E.
  - intros [= <-]. destruct (IH j eq_refl) as [Hj Hs]. split; [lia|]. simpl. by rewrite Hs at 1.
  - case_decide; [|done]. intros [= <-]. subst. split; [lia|]. simpl. by rewrite drop_0.
Qed.
