(* ===== verification/JavaLoader.v ===== *)
(** * JavaLoader: src/examples/java/loader.c

    [libffi_init] of the Java runtime starts the JVM once, with the options of
    the environment, and then calls the static method that the configuration
    names.  The JNI is the class [JNI]; its functions may change the state of
    the JVM in any way.  What is printed is left out. *)

From S2P Require Import Prelude World CString.
From stdpp Require Import strings.

#[local] Open Scope Z_scope.

(** ** The JNI and the environment *)

(** The functions of jni.h the loader calls, with a NULL argument or result as
    [None].  [JNI_CreateJavaVM] gets the option strings and returns its result,
    and whether it has set [vm]. *)
Class JNI := {
  jvm : Type;
  jclass : Type;
  jmethodID : Type;
  jstring : Type;
  JNI_CreateJavaVM : list (list byte) → jvm → (Z * bool) * jvm;
  FindClass : list byte → jvm → option jclass * jvm;
  GetStaticMethodID : jclass → option (list byte) → list byte → jvm → option jmethodID * jvm;
  NewStringUTF : option (list byte) → jvm → option jstring * jvm;
  CallStaticIntMethod : jclass → jmethodID → option jstring → option ptr → jvm → Z * jvm;
  DeleteLocalRef : option jstring → jvm → () * jvm;
  ExceptionOccurred : jvm → bool * jvm;
  ExceptionDescribe : jvm → () * jvm;
}.

Definition JNI_OK : Z := 0.

(** The environment variables, and which allocations succeed. *)
Record environ := Environ {
  CLASSPATH : option (list byte);
  JAVA_OPTS : option (list byte);
  alloc_path : bool;
  alloc_opts : bool;
  alloc_cfg : bool;
}.

Definition CLASSPATH_OPT : list byte :=
  Eval cbv in String.list_byte_of_string "-Djava.class.path="%string.
Definition LOADER_CLASS : list byte :=
  Eval cbv in String.list_byte_of_string "resty/ffi/Loader"%string.
Definition INIT_SIGNATURE : list byte :=
  Eval cbv in String.list_byte_of_string "(Ljava/lang/String;J)I"%string.

Definition space : byte := x20.
Definition dot : byte := x2e.

Definition MAX_OPTS : nat := 50.

Section Loader.
Context `{JNI}.

(** The variables of the file, the heap, and the JVM behind [vm]. *)
Record loader := Loader {
  j_heap : heap;
  j_vm : bool;     (* vm is not NULL *)
  j_lock : ngx_thread_mutex_t;
  j_jvm : jvm;
}.

Definition set_heap (h : heap) (s : loader) : loader := Loader h (j_vm s) (j_lock s) (j_jvm s).
Definition set_vm (b : bool) (s : loader) : loader := Loader (j_heap s) b (j_lock s) (j_jvm s).
Definition set_lock (l : ngx_thread_mutex_t) (s : loader) : loader :=
  Loader (j_heap s) (j_vm s) l (j_jvm s).
Definition set_jvm (v : jvm) (s : loader) : loader := Loader (j_heap s) (j_vm s) (j_lock s) v.

Definition on_heap {A} (m : M heap A) : M loader A :=
  λ s, match m (j_heap s) with Ok (a, h) => Ok (a, set_heap h s) | UB f => UB f end.

Definition jni {A} (f : jvm → A * jvm) : M loader A :=
  λ s, Ok ((f (j_jvm s)).1, set_jvm (f (j_jvm s)).2 s).

(** [init_lock] is a mutex of the default type: unlocking it while it is not
    locked is undefined. *)
Definition pthread_mutex_lock : M loader () :=
  l ← gets j_lock; assume (bool_decide (l = MtxFree)) Deadlock;; modify (set_lock MtxHeld).
Definition pthread_mutex_unlock : M loader () :=
  l ← gets j_lock; assume (bool_decide (l = MtxHeld)) BadMutex;; modify (set_lock MtxFree).

(** The macro [RET(rc)]. *)
Definition RET (rc : Z) : M loader Z := pthread_mutex_unlock;; mret rc.

(** ** Starting the JVM *)

(** The [while] loop over [JAVA_OPTS]; [room] is [MAX_OPTS - vm_args.nOptions].
    The result is the array of options and the rest of [opts]. *)
Fixpoint read_opts (room : nat) (opts : option ptr) (options : list ptr) : M heap (list ptr * option ptr) :=
  '(opt, opts) ← strsep opts space;
  match opt with
  | None => mret (options, opts)
  | Some opt =>
      match room with
      | 0%nat => ub OutOfBounds
      | 1%nat => mret (options ++ [opt], opts)
      | S room => read_opts room opts (options ++ [opt])
      end
  end.

(** [asprintf(&path, "-Djava.class.path=%s", class_path)]: the outer [None] is
    its failure, the inner one a [CLASSPATH] that is not set. *)
Definition class_path_option (env : environ) : M heap (option (option ptr)) :=
  match CLASSPATH env with
  | None => mret (Some None)
  | Some class_path =>
      if alloc_path env then
        path ← malloc (CLASSPATH_OPT ++ class_path ++ [x00]); mret (Some (Some path))
      else mret None
  end.

Definition dup_java_opts (env : environ) : M heap (option ptr) :=
  match JAVA_OPTS env with
  | None => mret None
  | Some java_opts =>
      if alloc_opts env then opts ← malloc (java_opts ++ [x00]); mret (Some opts) else mret None
  end.

(** From the reading of [JAVA_OPTS] on, with the [path] of the first option. *)
Definition create_vm (env : environ) (path : option ptr) : M loader bool :=
  opts ← on_heap (dup_java_opts env);
  '(options, opts) ← on_heap (read_opts (MAX_OPTS - length (option_list path)) opts (option_list path));
  strings ← on_heap (mapM (λ p, cstr (Some p)) options);
  '(res, vm) ← jni (JNI_CreateJavaVM strings);
  modify (set_vm vm);;
  on_heap (free path);;
  on_heap (free opts);;
  mret (negb (res =? JNI_OK)).

(** The block [if (vm == NULL)]; [true] when it ends in [RET(1)]. *)
Definition start_vm (env : environ) : M loader bool :=
  vm ← gets j_vm;
  if vm : bool then mret false else
  path ← on_heap (class_path_option env);
  match path with
  | None => mret true
  | Some path => create_vm env path
  end.

(** ** Calling the entry method *)

(** [for (tmp = class; *tmp != 0; tmp++) if ( *tmp == '.') *tmp = '/'].  A walk
    of more than the length of the block leaves it, so that the fuel suffices. *)
Fixpoint slashes_loop (fuel : nat) (tmp : ptr) : M heap () :=
  x ← load_byte (Some tmp);
  if decide (x = x00) then mret () else
  (if decide (x = dot) then store_byte (Some tmp) slash else mret ());;
  match fuel with
  | 0%nat => ub OutOfBounds
  | S fuel => slashes_loop fuel (ptr_add tmp 1)
  end.

Definition to_slashes (class : ptr) : M heap () :=
  b ← tail_at (Some class); slashes_loop (length b) class.

(** The first field of the configuration: [dyn_flag], the string [class] points
    to, and the rest [str]. *)
Definition parse_class (cfg : option ptr) : M heap (bool * list byte * option ptr) :=
  '(class, str) ← strsep cfg comma;
  class ← from class NullDeref;
  n ← strlen (Some class);
  c ← load_byte (Some (ptr_add class (n - 1)));
  if decide (c = question) then mret (true, LOADER_CLASS, str)
  else
    to_slashes class;;
    class ← cstr (Some class);
    mret (false, class, str).

(** From [FindClass] on: [inl rc] when it ends in [RET(rc)] before the call,
    [inr rc] with the result of the method. *)
Definition call_method (dyn_flag : bool) (class : list byte) (method cfg_str orig_cfg : option ptr)
    (tq : option ptr) : M loader (Z + Z) :=
  cls ← jni (FindClass class);
  match cls with
  | None => on_heap (free orig_cfg);; mret (inl 1)
  | Some cls =>
      method ← on_heap (opt_cstr method);
      mid ← jni (GetStaticMethodID cls method INIT_SIGNATURE);
      match mid with
      | None => on_heap (free orig_cfg);; mret (inl 1)
      | Some mid =>
          jcfg ← (if dyn_flag then
                    arg ← on_heap (opt_cstr orig_cfg);
                    jcfg ← jni (NewStringUTF arg);
                    on_heap (free orig_cfg);;
                    mret jcfg
                  else
                    arg ← on_heap (opt_cstr cfg_str);
                    jni (NewStringUTF arg));
          rc ← jni (CallStaticIntMethod cls mid jcfg tq);
          jni (DeleteLocalRef jcfg);;
          exception ← jni ExceptionOccurred;
          (if exception : bool then jni ExceptionDescribe else mret ());;
          mret (inr rc)
      end
  end.

Definition call_entry (env : environ) (cfg : option ptr) (tq : option ptr) : M loader (Z + Z) :=
  orig_cfg ← on_heap (strdup (alloc_cfg env) cfg);
  '(dyn_flag, class, str) ← on_heap (parse_class cfg);
  '(method, cfg_str) ← on_heap (strsep str comma);
  call_method dyn_flag class method cfg_str orig_cfg tq.

Definition libffi_init (env : environ) (cfg : option ptr) (tq : option ptr) : M loader Z :=
  pthread_mutex_lock;;
  failed ← start_vm env;
  if failed : bool then RET 1 else
  r ← call_entry env cfg tq;
  match r with
  | inl rc => RET rc
  | inr rc => pthread_mutex_unlock;; RET rc
  end.

(** ** What the loader does, on strings *)

(** [JAVA_OPTS] is ignored when it cannot be copied. *)
Definition java_opts (env : environ) : option (list byte) :=
  if alloc_opts env then JAVA_OPTS env else None.

Definition vm_options (env : environ) : list (list byte) :=
  option_list ((CLASSPATH_OPT ++.) <$> CLASSPATH env) ++ default [] (split_on space <$> java_opts env).

(** Strings behind each other, each with its NUL. *)
Definition packed (ts : list (list byte)) : list byte := concat ((.++ [x00]) <$> ts).

(** The heap once the options were read: the copy of [JAVA_OPTS] stays. *)
Definition heap_started (env : environ) (h : heap) : heap :=
  let k := (next_block h + length (option_list (CLASSPATH env)))%nat in
  match java_opts env with
  | None => Heap (blocks h) k
  | Some o => Heap (<[k := packed (split_on space o)]> (blocks h)) (S k)
  end.

Definition dyn_class (class : list byte) : bool := bool_decide (last class = Some question).

Definition slashes (s : list byte) : list byte :=
  (λ x, if decide (x = dot) then slash else x) <$> s.

Definition class_name (class : list byte) : list byte :=
  if dyn_class class then LOADER_CLASS else slashes class.

Definition java_run (class : list byte) (method arg : option (list byte)) (tq : option ptr)
    (v : jvm) : (Z + Z) * jvm :=
  let '(cls, v) := FindClass class v in
  match cls with
  | None => (inl 1, v)
  | Some cls =>
      let '(mid, v) := GetStaticMethodID cls method INIT_SIGNATURE v in
      match mid with
      | None => (inl 1, v)
      | Some mid =>
          let '(jcfg, v) := NewStringUTF arg v in
          let '(rc, v) := CallStaticIntMethod cls mid jcfg tq v in
          let '(_, v) := DeleteLocalRef jcfg v in
          let '(e, v) := ExceptionOccurred v in
          (inr rc, if e : bool then (ExceptionDescribe v).2 else v)
      end
  end.

Definition java_call (s : list byte) (tq : option ptr) (v : jvm) : (Z + Z) * jvm :=
  let '(class, method, cfg) := fields s in
  java_run (class_name class) method (if dyn_class class then Some s else cfg) tq v.

(** The copy of the configuration is left behind by a call of a class that is
    not reloaded. *)
Definition keeps_cfg (dyn_flag : bool) (r : Z + Z) : bool :=
  match r with inl _ => false | inr _ => negb dyn_flag end.

(** ** Reading the options *)

Fixpoint starts (l : loc) (off : Z) (ts : list (list byte)) : list ptr :=
  match ts with [] => [] | t :: ts => Ptr l off :: starts l (off + (len t + 1)) ts end.

Definition unread (ts : list (list byte)) : list byte :=
  match ts with [] => [] | _ => join_with space ts ++ [x00] end.

Lemma packed_cons t ts : packed (t :: ts) = t ++ x00 :: packed ts.
Proof. unfold packed; simpl. by rewrite <-app_assoc. Qed.

Lemma read_opts_ok room ts l pre options h :
  ts ≠ [] → Forall (λ t, x00 ∉ t) ts → Forall (λ t, space ∉ t) ts →
  blocks h !! l = Some (pre ++ join_with space ts ++ [x00]) →
  read_opts (S room) (Some (Ptr l (len pre))) options h =
    Ok ((options ++ starts l (len pre) (take (S room) ts),
         match drop (S room) ts with
         | [] => None
         | _ => Some (Ptr l (len pre + len (packed (take (S room) ts))))
         end),
        set_block l (pre ++ packed (take (S room) ts) ++ unread (drop (S room) ts)) h).
Proof.
  revert room pre options h. induction ts as [|t ts IH]; [done|].
  intros room pre options h _ Hnul Hsp Hl.
  inversion Hnul as [|?? Ht Hts]; inversion Hsp as [|?? Ht' Hts']; subst.
  assert (x00 ∉ join_with space (t :: ts)) as Hj.
  { clear -Hnul. induction Hnul as [|u us Hu Hus IHu]; [apply not_elem_of_nil|].
    destruct us as [|v us]; [done|].
    change (join_with space (u :: v :: us)) with (u ++ space :: join_with space (v :: us)).
    rewrite not_elem_of_app, not_elem_of_cons. done. }
  cbn [read_opts]. erewrite bind_ok by by apply (strsep_ok _ _ pre (join_with space (t :: ts)) [] space).
  unfold cut_bytes. rewrite (cut_join _ _ _ Ht'). cbn [fst snd].
  destruct ts as [|u ts]; cbn [fmap option_fmap option_map].
  - assert (∀ n, drop n (@nil (list byte)) = []) as Hd by by intros [].
    simpl take. simpl drop. rewrite Hd, take_nil, packed_cons. unfold packed; simpl.
    rewrite app_nil_r. destruct room as [|room]; [done|]. simpl. unfold mbind, M_bind; simpl. done.
  - destruct room as [|room].
    + simpl take. simpl drop. cbn [unread]. rewrite packed_cons. unfold packed; simpl.
      rewrite len_app, <-!app_assoc. done.
    + set (pre' := pre ++ t ++ [x00]).
      assert (len pre + (len t + 1) = len pre') as ->
        by (unfold pre'; rewrite !len_app; change (len [x00]) with 1; lia).
      rewrite (IH room pre'); [| done | done | done |].
      2: { rewrite lookup_set_block. unfold pre'. by rewrite <-!app_assoc. }
      rewrite set_block_twice. change (take (S (S room)) (t :: u :: ts)) with (t :: take (S room) (u :: ts)).
      change (drop (S (S room)) (t :: u :: ts)) with (drop (S room) (u :: ts)).
      rewrite packed_cons. do 3 f_equal.
      * cbn [starts]. rewrite <-app_assoc. simpl. unfold pre'. rewrite !len_app.
        change (len [x00]) with 1. done.
      * destruct (drop (S room) (u :: ts)); [done|]. unfold pre'. do 2 f_equal.
        rewrite !len_app. change (len [x00]) with 1. rewrite len_cons. lia.
      * unfold pre'. by rewrite <-!app_assoc.
Qed.

Lemma cstr_starts h l ts pre post :
  Forall (λ t, x00 ∉ t) ts → blocks h !! l = Some (pre ++ packed ts ++ post) →
  mapM (λ p, cstr (Some p)) (starts l (len pre) ts) h = Ok (ts, h).
Proof.
  intros Hts. revert pre. induction Hts as [|t ts Ht Hts IH]; intros pre Hl; [done|].
  rewrite packed_cons in Hl. simpl. rewrite <-app_assoc in Hl.
  erewrite bind_ok by by eapply cstr_ok.
  assert (len pre + (len t + 1) = len (pre ++ t ++ [x00])) as ->
    by (rewrite !len_app; change (len [x00]) with 1; lia).
  erewrite bind_ok; [done|]. apply IH. rewrite Hl, <-!app_assoc. done.
Qed.

(** ** Starting the JVM *)

Lemma on_heap_ok {A} (m : M heap A) s a h :
  m (j_heap s) = Ok (a, h) → on_heap m s = Ok (a, set_heap h s).
Proof. unfold on_heap. by intros ->. Qed.

Lemma on_heap_ub {A} (m : M heap A) s f : m (j_heap s) = UB f → on_heap m s = UB f.
Proof. unfold on_heap. by intros ->. Qed.

Lemma jni_ok {A} (f : jvm → A * jvm) s a v :
  f (j_jvm s) = (a, v) → jni f s = Ok (a, set_jvm v s).
Proof. unfold jni. by intros ->. Qed.

(** The block of [JAVA_OPTS] when [room] options were read. *)
Definition opts_read (room : nat) (env : environ) (h : heap) : heap :=
  match java_opts env with
  | None => h
  | Some o => let ts := split_on space o in
      Heap (<[next_block h := packed (take room ts) ++ unread (drop room ts)]> (blocks h))
           (S (next_block h))
  end.

Definition opts_tokens (env : environ) : list (list byte) :=
  default [] (split_on space <$> java_opts env).

Definition no_nuls (env : environ) : Prop :=
  (∀ v, CLASSPATH env = Some v → x00 ∉ v) ∧ (∀ v, JAVA_OPTS env = Some v → x00 ∉ v).

Lemma java_opts_read env room options h :
  no_nuls env →
  ∃ opts, dup_java_opts env h = Ok (opts, opts_read 0 env h) ∧
    read_opts (S room) opts options (opts_read 0 env h) =
      Ok ((options ++ starts (next_block h) 0 (take (S room) (opts_tokens env)),
           match drop (S room) (opts_tokens env) with
           | [] => None
           | _ => Some (Ptr (next_block h) (len (packed (take (S room) (opts_tokens env)))))
           end), opts_read (S room) env h).
Proof.
  intros [_ Hnul]. unfold opts_tokens, opts_read, java_opts, dup_java_opts.
  destruct (JAVA_OPTS env) as [o|]; destruct (alloc_opts env); simpl fmap; cbn [default];
    try (exists None; split; [done|]; cbn [take drop starts]; by rewrite app_nil_r).
  specialize (Hnul o eq_refl). exists (Some (Ptr (next_block h) 0)).
  assert (unread (split_on space o) = o ++ [x00]) as Hu.
  { pose proof (join_split_on space o) as Hj. pose proof (split_on_not_nil space o).
    unfold unread. destruct (split_on space o); [done|]. by rewrite Hj. }
  split.
  { simpl. unfold mbind, M_bind, malloc. change (packed (take 0 (split_on space o))) with (@nil byte).
    by rewrite drop_0, Hu. }
  set (h' := Heap _ _). pose proof (split_on_not_nil space o).
  pose proof (read_opts_ok room (split_on space o) (next_block h) [] options h') as E.
  change (len []) with 0 in E. rewrite E; [|done|by apply split_on_bytes|apply split_on_fields|].
  2: { unfold h'. cbn [blocks next_block]. rewrite lookup_insert_eq.
       change (packed (take 0 (split_on space o))) with (@nil byte). by rewrite drop_0, Hu, join_split_on. }
  rewrite Z.add_0_l. unfold set_block, set_blocks, h'; simpl. by rewrite insert_insert_eq.
Qed.

(** The option [path], when there is one, reads as [strs]. *)
Definition path_reads (h : heap) (path : option ptr) (strs : list (list byte)) : Prop :=
  match path with
  | None => strs = []
  | Some p => ∃ l o, p = Ptr l 0 ∧ strs = [o] ∧ x00 ∉ o ∧
                blocks h !! l = Some (o ++ [x00]) ∧ (l < next_block h)%nat
  end.

Definition freed (path : option ptr) (h : heap) : heap :=
  match path with None => h | Some p => set_blocks (delete (p_blk p)) h end.

Lemma opts_read_other room env h l :
  (l < next_block h)%nat → blocks (opts_read room env h) !! l = blocks h !! l.
Proof.
  intros Hl. unfold opts_read. destruct (java_opts env); [|done]. simpl.
  apply lookup_insert_ne. lia.
Qed.

Lemma opts_read_all n m env h :
  (length (opts_tokens env) ≤ n)%nat → (n ≤ m)%nat → opts_read n env h = opts_read m env h.
Proof.
  unfold opts_tokens, opts_read. destruct (java_opts env) as [o|]; [|done].
  simpl length. cbv zeta. intros Hn Hm. by rewrite !take_ge, !drop_ge by lia.
Qed.

Lemma options_read env room path strs h :
  no_nuls env → path_reads h path strs →
  mapM (λ p, cstr (Some p)) (option_list path ++ starts (next_block h) 0 (take (S room) (opts_tokens env)))
    (opts_read (S room) env h) = Ok (strs ++ take (S room) (opts_tokens env), opts_read (S room) env h).
Proof.
  intros [_ Hnul] Hp.
  assert (mapM (λ p, cstr (Some p)) (starts (next_block h) 0 (take (S room) (opts_tokens env)))
    (opts_read (S room) env h) = Ok (take (S room) (opts_tokens env), opts_read (S room) env h)) as Ht.
  { unfold opts_tokens, opts_read, java_opts in *.
    destruct (JAVA_OPTS env) as [o|]; destruct (alloc_opts env); try done.
    change 0 with (len []). cbn [fmap option_fmap option_map default].
    eapply cstr_starts; [apply Forall_take, split_on_bytes; by apply Hnul|].
    cbn [blocks]. apply lookup_insert_eq. }
  destruct path as [p|]; [|simpl in Hp; by subst strs].
  destruct Hp as (l & o & -> & -> & Ho & Hl & Hlt). simpl option_list. simpl app. simpl mapM.
  change 0 with (len []). erewrite bind_ok.
  2: { eapply cstr_ok; [exact Ho|]. rewrite opts_read_other by done. exact Hl. }
  erewrite bind_ok by exact Ht. done.
Qed.

Lemma free_path_ok path strs room env h :
  path_reads h path strs →
  free path (opts_read room env h) = Ok ((), freed path (opts_read room env h)).
Proof.
  destruct path as [p|]; [|done]. intros (l & o & -> & _ & _ & Hl & Hlt).
  eapply free_ok. rewrite opts_read_other; done.
Qed.

Lemma packed_pos t ts : 0 < len (packed (t :: ts)).
Proof.
  rewrite packed_cons, len_app, len_cons. pose proof (len_nonneg t). pose proof (len_nonneg (packed ts)). lia.
Qed.

Lemma create_vm_run env path strs s :
  no_nuls env → path_reads (j_heap s) path strs →
  let options := strs ++ opts_tokens env in
  let '(res, vm, v) := JNI_CreateJavaVM (take MAX_OPTS options) (j_jvm s) in
  create_vm env path s =
    if decide (length options ≤ MAX_OPTS)%nat then
      Ok (negb (res =? JNI_OK),
          set_jvm v (set_vm vm (set_heap (freed path (opts_read MAX_OPTS env (j_heap s))) s)))
    else UB BadFree.
Proof.
  intros Hnul Hp options. pose proof Hp as Hp'.
  assert (∃ room, (MAX_OPTS - length (option_list path))%nat = S room ∧
    (length strs + S room = MAX_OPTS)%nat) as (room & Hroom & Hlen).
  { destruct path as [p|]; simpl in Hp'; [destruct Hp' as (l & o & _ & -> & _)|subst strs].
    - by exists 48%nat.
    - by exists 49%nat. }
  assert (take MAX_OPTS options = strs ++ take (S room) (opts_tokens env)) as ->.
  { unfold options. rewrite <-Hlen, take_app_add. done. }
  destruct (java_opts_read env room (option_list path) (j_heap s) Hnul) as (opts & Hd & Hr).
  destruct (JNI_CreateJavaVM _ _) as [[res vm] v] eqn:EJ.
  unfold create_vm. rewrite Hroom.
  erewrite bind_ok by by apply on_heap_ok. erewrite bind_ok by by apply on_heap_ok.
  cbn beta iota. erewrite bind_ok by (apply on_heap_ok, options_read; done).
  erewrite bind_ok by by apply jni_ok. cbn beta iota. erewrite bind_ok by done.
  erewrite bind_ok by by eapply on_heap_ok, free_path_ok.
  destruct (decide _) as [Hle|Hgt].
  - rewrite drop_ge by (unfold options in Hle; rewrite length_app in Hle; lia).
    erewrite bind_ok by by apply on_heap_ok. unfold mret, M_ret. do 2 f_equal.
    unfold options in Hle. rewrite length_app in Hle.
    by rewrite (opts_read_all (S room) MAX_OPTS) by lia.
  - unfold options in Hgt. rewrite length_app in Hgt.
    destruct (drop (S room) (opts_tokens env)) as [|t ts] eqn:Et.
    { apply (f_equal length) in Et. rewrite length_drop in Et. simpl in Et. lia. }
    apply bind_ub, on_heap_ub, free_interior.
    destruct (opts_tokens env) as [|u us]; [done|]. simpl take.
    pose proof (packed_pos u (take room us)). lia.
Qed.

Lemma opts_read_started env h k :
  (length (opts_tokens env) ≤ MAX_OPTS)%nat →
  k = (next_block h + length (option_list (CLASSPATH env)))%nat →
  opts_read MAX_OPTS env (Heap (blocks h) k) = heap_started env h.
Proof.
  unfold opts_tokens, opts_read, heap_started. intros Hl ->.
  destruct (java_opts env) as [o|]; [|done]. simpl length in Hl. cbv zeta.
  rewrite take_ge, drop_ge by done. cbn [unread]. by rewrite app_nil_r.
Qed.

Lemma heap_started_none env s :
  (length (opts_tokens env) ≤ MAX_OPTS)%nat → CLASSPATH env = None →
  freed None (opts_read MAX_OPTS env (j_heap s)) = heap_started env (j_heap s).
Proof.
  intros Hl Hc. rewrite <-(opts_read_started _ _ (next_block (j_heap s))); [by destruct (j_heap s)|done|].
  rewrite Hc. simpl. lia.
Qed.

Lemma heap_started_path env h o :
  heap_ok h → (length (opts_tokens env) ≤ MAX_OPTS)%nat → is_Some (CLASSPATH env) →
  freed (Some (Ptr (next_block h) 0))
    (opts_read MAX_OPTS env (Heap (<[next_block h := o]> (blocks h)) (S (next_block h)))) =
  heap_started env h.
Proof.
  intros Hok Hl [cp Hc]. rewrite <-(opts_read_started _ _ (S (next_block h))); [|done|rewrite Hc; simpl; lia].
  assert (blocks h !! next_block h = None) as Hn by by apply Hok.
  unfold opts_read, freed, set_blocks. destruct (java_opts env); cbn.
  - f_equal. rewrite delete_insert_ne by lia. by rewrite delete_insert_id.
  - f_equal. by rewrite delete_insert_id.
Qed.

(** C29: [libffi_init] passes the JVM the class path and the words of
    [JAVA_OPTS], cut in place, at most 50 in all, and leaves in memory the copy
    of [JAVA_OPTS] with a NUL behind each word.  When there are more than 50, it
    frees the copy through a pointer into its middle. *)
Theorem start_vm_options env s :
  heap_ok (j_heap s) → j_vm s = false → alloc_path env = true → no_nuls env →
  let options := vm_options env in
  let '(res, vm, v) := JNI_CreateJavaVM (take MAX_OPTS options) (j_jvm s) in
  start_vm env s =
    if decide (length options ≤ MAX_OPTS)%nat then
      Ok (negb (res =? JNI_OK), set_jvm v (set_vm vm (set_heap (heap_started env (j_heap s)) s)))
    else UB BadFree.
Proof.
  intros Hok Hvm Hpath Hnul. unfold start_vm. erewrite bind_ok by done. rewrite Hvm. cbn iota.
  unfold class_path_option. rewrite Hpath. pose proof Hnul as [Hcp _].
  unfold vm_options. change (default [] (split_on space <$> java_opts env)) with (opts_tokens env).
  destruct (CLASSPATH env) as [cp|] eqn:Ecp; simpl option_list.
  - set (o := CLASSPATH_OPT ++ cp). erewrite bind_ok by by apply on_heap_ok. cbn beta iota.
    set (s1 := set_heap _ s).
    pose proof (create_vm_run env (Some (Ptr (next_block (j_heap s)) 0)) [o] s1 Hnul) as E.
    cbv zeta in E. change (j_jvm s1) with (j_jvm s) in E.
    destruct (JNI_CreateJavaVM _ _) as [[res vm] v]. rewrite E.
    + destruct (decide _) as [Hle|]; [|done]. do 2 f_equal. unfold s1. cbn [j_heap set_heap].
      rewrite length_app in Hle. rewrite heap_started_path; [done|done|simpl in Hle; lia|by eexists].
    + exists (next_block (j_heap s)), o. split; [done|]. split; [done|]. split.
      { unfold o. apply not_elem_of_app. split; [|by apply Hcp].
        apply (bool_decide_eq_true_1 _). by vm_compute. }
      split; [|cbn; lia]. unfold s1; cbn [j_heap set_heap blocks]. rewrite lookup_insert_eq.
      unfold o. by rewrite <-app_assoc.
  - erewrite bind_ok by by apply on_heap_ok. cbn beta iota.
    pose proof (create_vm_run env None [] (set_heap (j_heap s) s) Hnul eq_refl) as E.
    cbv zeta in E. change (j_jvm (set_heap _ s)) with (j_jvm s) in E.
    destruct (JNI_CreateJavaVM _ _) as [[res vm] v]. rewrite E.
    destruct (decide _) as [Hle|]; [|done]. do 2 f_equal. cbn [j_heap set_heap].
      by rewrite heap_started_none.
Qed.

(** ** Calling the entry method *)

Lemma slashes_loop_ok fuel s h l pre post :
  x00 ∉ s → (length s ≤ fuel)%nat → blocks h !! l = Some (pre ++ s ++ x00 :: post) →
  slashes_loop fuel (Ptr l (len pre)) h = Ok ((), set_block l (pre ++ slashes s ++ x00 :: post) h).
Proof.
  revert fuel pre h. induction s as [|x s IH]; intros fuel pre h Hs Hf Hl.
  - assert (load_byte (Some (Ptr l (len pre))) h = Ok (x00, h)) as E by by eapply load_byte_ok.
    destruct fuel; simpl; erewrite bind_ok by exact E; by rewrite set_block_id.
  - apply not_elem_of_cons in Hs as [Hx Hs]. destruct fuel as [|fuel]; [simpl in Hf; lia|].
    cbn [slashes_loop]. erewrite bind_ok by by eapply load_byte_ok. rewrite decide_False by done.
    change (slashes (x :: s)) with ((if decide (x = dot) then slash else x) :: slashes s).
    set (y := if decide (x = dot) then slash else x).
    assert ((if decide (x = dot) then store_byte (Some (Ptr l (len pre))) slash else mret ()) h =
      Ok ((), set_block l (pre ++ y :: s ++ x00 :: post) h)) as E.
    { unfold y. destruct (decide (x = dot)); [by eapply store_byte_ok|by rewrite set_block_id]. }
    erewrite bind_ok by exact E. unfold ptr_add; cbn [p_blk p_off].
    assert (len pre + 1 = len (pre ++ [y])) as -> by by rewrite len_app.
    rewrite (IH fuel (pre ++ [y])); [|done|simpl in Hf; lia|].
    + rewrite set_block_twice, <-app_assoc. done.
    + rewrite lookup_set_block, <-app_assoc. done.
Qed.

Lemma to_slashes_ok h l pre s post :
  x00 ∉ s → blocks h !! l = Some (pre ++ s ++ x00 :: post) →
  to_slashes (Ptr l (len pre)) h = Ok ((), set_block l (pre ++ slashes s ++ x00 :: post) h).
Proof.
  intros Hs Hl. unfold to_slashes. erewrite bind_ok by by apply tail_at_ok.
  apply slashes_loop_ok; [done| |done]. rewrite length_app. lia.
Qed.

Lemma slashes_nul s : x00 ∉ s → x00 ∉ slashes s.
Proof.
  unfold slashes. rewrite list_elem_of_fmap. intros Hs (x & Hx & Hi).
  case_decide; [done|]. by subst x.
Qed.

Lemma cut_nil sep s : (cut sep s).1 = [] → s = [] ∨ ∃ r, s = sep :: r.
Proof.
  destruct s as [|x s]; [by left|]. simpl. case_decide; [right; subst; by eexists|].
  by destruct (cut sep s).
Qed.

Lemma parse_class_empty h l s post :
  x00 ∉ s → blocks h !! l = Some (s ++ x00 :: post) → (cut comma s).1 = [] →
  parse_class (Some (Ptr l 0)) h = UB OutOfBounds.
Proof.
  intros Hs Hl He. unfold parse_class.
  erewrite bind_ok by by (change 0 with (len []); eapply strsep_ok). cbn beta iota.
  erewrite bind_ok by done. destruct (cut_bytes_app comma s post Hs) as (t & Et & _).
  rewrite He in Et. erewrite bind_ok.
  2: { unfold strlen. erewrite bind_ok; [done|]. eapply (cstr_ok _ _ [] []); [apply not_elem_of_nil|].
       rewrite lookup_set_block, app_nil_l. by rewrite Et. }
  apply bind_ub. unfold load_byte. apply bind_ub. unfold tail_at, bytes_at, ptr_add; cbn [p_blk p_off].
  by rewrite lookup_set_block.
Qed.

Lemma parse_class_ok h l s post :
  x00 ∉ s → blocks h !! l = Some (s ++ x00 :: post) → (cut comma s).1 ≠ [] →
  ∃ class t,
    x00 ∉ class ∧ (length (class ++ x00 :: t) = length (s ++ x00 :: post))%nat ∧
    (∀ r, (cut comma s).2 = Some r → x00 ∉ r ∧ t = r ++ x00 :: post) ∧
    parse_class (Some (Ptr l 0)) h =
      Ok ((dyn_class (cut comma s).1, class_name (cut comma s).1,
           second_ptr l (class ++ [x00]) (cut comma s).2),
          set_block l (class ++ x00 :: t) h).
Proof.
  intros Hs Hl Hne. destruct (cut_nul comma s Hs) as [Ha _].
  destruct (cut_bytes_app comma s post Hs) as (t & Et & El & Ht).
  assert (length ((cut comma s).1 ++ x00 :: t) = length (s ++ x00 :: post))%nat as Hlen
    by by rewrite <-Et, !length_app, El.
  pose proof (strsep_ok h l [] s post comma Hs ltac:(done) Hl) as Esep.
  change (len []) with 0 in Esep. rewrite !app_nil_l, Et, Z.add_0_l in Esep.
  set (class := (cut comma s).1) in *. unfold parse_class.
  destruct (exists_last Hne) as (ini & c & Hc).
  erewrite bind_ok by exact Esep. cbn beta iota. erewrite bind_ok by done.
  pose proof (lookup_set_block l (class ++ x00 :: t) h) as Hb.
  erewrite bind_ok by by (unfold strlen; erewrite bind_ok; [|by apply (cstr_ok _ _ [] class t)]).
  assert (ptr_add (Ptr l 0) (len class - 1) = Ptr l (len ini)) as ->.
  { unfold ptr_add; simpl. f_equal. rewrite Hc, len_app. change (len [c]) with 1. lia. }
  erewrite bind_ok by (eapply load_byte_ok; rewrite Hb, Hc, <-app_assoc; done).
  assert (dyn_class class = bool_decide (c = question)) as Hdyn.
  { unfold dyn_class. rewrite Hc, last_snoc. apply bool_decide_ext. split; congruence. }
  assert (∀ cl, len cl = len class → (λ _, Ptr l (len class + 1)) <$> (cut comma s).2 =
    second_ptr l (cl ++ [x00]) (cut comma s).2) as Hstr.
  { intros cl Hcl. unfold second_ptr. rewrite len_app, Hcl. done. }
  unfold class_name. rewrite Hdyn. destruct (decide (c = question)) as [->|Hq].
  - exists class, t. rewrite bool_decide_true by done. split_and!; [done..|]. by rewrite <-Hstr.
  - exists (slashes class), t. rewrite bool_decide_false by done.
    split; [by apply slashes_nul|]. split; [by rewrite <-Hlen, !length_app; unfold slashes; rewrite length_fmap|].
    split; [done|].
    erewrite bind_ok by by apply (to_slashes_ok _ _ [] class t).
    erewrite bind_ok.
    2: { eapply (cstr_ok _ _ [] (slashes class) t); [by apply slashes_nul|]. apply lookup_set_block. }
    rewrite <-Hstr by (unfold len, slashes; by rewrite length_fmap).
    by rewrite set_block_twice.
Qed.

Lemma call_method_ok (dyn_flag : bool) class method cfg_str k s m c tq (st : loader) :
  x00 ∉ s → blocks (j_heap st) !! k = Some (s ++ [x00]) →
  opt_cstr method (j_heap st) = Ok (m, j_heap st) →
  opt_cstr cfg_str (j_heap st) = Ok (c, j_heap st) →
  let '(r, v) := java_run class m (if dyn_flag then Some s else c) tq (j_jvm st) in
  call_method dyn_flag class method cfg_str (Some (Ptr k 0)) tq st =
    Ok (r, set_jvm v (set_heap (if keeps_cfg dyn_flag r then j_heap st
                                else set_blocks (delete k) (j_heap st)) st)).
Proof.
  intros Hs Hk Hm Hc. destruct st as [h vm lk v0]; cbn [j_heap j_jvm] in *.
  unfold java_run, call_method.
  destruct (FindClass class v0) as [[cls|] v1] eqn:E1.
  2: { erewrite bind_ok by by apply jni_ok. cbn beta iota.
       by erewrite bind_ok by by (apply on_heap_ok; eapply free_ok). }
  erewrite bind_ok by by apply jni_ok. cbn beta iota. erewrite bind_ok by by apply on_heap_ok.
  destruct (GetStaticMethodID cls m INIT_SIGNATURE v1) as [[mid|] v2] eqn:E2.
  2: { erewrite bind_ok by by apply jni_ok. cbn beta iota.
       by erewrite bind_ok by by (apply on_heap_ok; eapply free_ok). }
  erewrite bind_ok by by apply jni_ok. cbn beta iota.
  destruct (NewStringUTF _ v2) as [jcfg v3] eqn:E3.
  erewrite (bind_ok _ _ _ jcfg
    (Loader (if dyn_flag then set_blocks (delete k) h else h) vm lk v3)).
  2: { destruct dyn_flag.
       - erewrite bind_ok. 2: { apply on_heap_ok. unfold opt_cstr. erewrite bind_ok; [done|].
           eapply (cstr_ok _ _ []); done. }
         erewrite bind_ok by by apply jni_ok.
         by erewrite bind_ok by by (apply on_heap_ok; eapply free_ok).
       - erewrite bind_ok by by apply on_heap_ok. by apply jni_ok. }
  destruct (CallStaticIntMethod _ _ _ _ v3) as [rc v4] eqn:E4.
  erewrite bind_ok by by apply jni_ok. destruct (DeleteLocalRef jcfg v4) as [[] v5] eqn:E5.
  erewrite bind_ok by by apply jni_ok. destruct (ExceptionOccurred v5) as [e v6] eqn:E6.
  erewrite bind_ok by by apply jni_ok.
  destruct e.
  - destruct (ExceptionDescribe v6) as [[] v7] eqn:E7.
    erewrite bind_ok by by apply jni_ok. by destruct dyn_flag.
  - erewrite bind_ok by done. by destruct dyn_flag.
Qed.

(** [call_entry] on a buffer, against [java_call] on the string in it. *)
Lemma call_entry_run env l s post tq (st : loader) :
  heap_ok (j_heap st) → alloc_cfg env = true → x00 ∉ s →
  blocks (j_heap st) !! l = Some (s ++ x00 :: post) →
  if decide ((fields s).1.1 = []) then call_entry env (Some (Ptr l 0)) tq st = UB OutOfBounds
  else
    let '(r, v) := java_call s tq (j_jvm st) in
    ∃ b, length b = length (s ++ x00 :: post) ∧
      call_entry env (Some (Ptr l 0)) tq st =
        Ok (r, set_jvm v (set_heap
          (let k := next_block (j_heap st) in
           let m := <[l := b]> (blocks (j_heap st)) in
           Heap (if keeps_cfg (dyn_class (fields s).1.1) r then <[k := s ++ [x00]]> m else m) (S k)) st)).
Proof.
  intros Hok Ha Hs Hl. unfold fields; cbn [fst snd]. unfold call_entry. rewrite Ha.
  set (k := next_block (j_heap st)).
  assert (l ≠ k) as Hlk by by (intros ->; rewrite Hok in Hl).
  erewrite bind_ok by (apply on_heap_ok, (strdup_ok _ _ [] s post); done). fold k.
  set (h1 := Heap _ _). assert (blocks h1 !! l = Some (s ++ x00 :: post)) as Hl1
    by (unfold h1; cbn [blocks]; by rewrite lookup_insert_ne by done).
  destruct (decide _) as [He|Hne].
  { by apply bind_ub, on_heap_ub, (parse_class_empty _ _ s post). }
  destruct (parse_class_ok h1 l s post Hs Hl1 Hne) as (class & t & Hcl & Hlen & Ht & Ep).
  erewrite bind_ok by by apply on_heap_ok. cbn beta iota.
  destruct (strsep_rest (set_block l (class ++ x00 :: t) h1) l (class ++ [x00]) t (cut comma s).2 post)
    as (t' & Ht' & Es & Hread).
  { rewrite lookup_set_block, <-app_assoc. done. }
  { intros r Hr. by apply Ht. }
  erewrite bind_ok by by apply on_heap_ok. cbn beta iota. rewrite set_block_twice.
  set (h2 := set_block l ((class ++ [x00]) ++ t') h1).
  destruct (Hread h2 _ eq_refl (lookup_set_block _ _ _)) as [Hm Hc].
  set (st2 := set_heap h2 _).
  assert (blocks h2 !! k = Some (s ++ [x00])) as Hk.
  { unfold h2. rewrite lookup_set_block_ne by done. unfold h1; cbn [blocks]. apply lookup_insert_eq. }
  pose proof (call_method_ok (dyn_class (cut comma s).1) (class_name (cut comma s).1)
    _ _ k s _ _ tq st2 Hs Hk Hm Hc) as E.
  unfold java_call, fields; cbn [fst snd]. change (j_jvm st2) with (j_jvm st) in E.
  destruct (java_run _ _ _ _ _) as [r v]. exists ((class ++ [x00]) ++ t').
  split; [rewrite <-Hlen, !length_app; simpl; lia|]. rewrite E. do 2 f_equal.
  unfold st2, h2, h1, set_heap, set_jvm, set_block, set_blocks; cbn. f_equal.
  destruct (keeps_cfg _ r); f_equal; [by rewrite insert_insert_ne|].
  rewrite delete_insert_ne by done. by rewrite delete_insert_id by by apply Hok.
Qed.

(** C30: the entry method is looked up under the first two fields of the
    configuration, with slashes for dots, and gets the third; a class that ends
    in ['?'] is replaced by the reloading class, which gets the whole
    configuration.  Only the bytes of the buffer [cfg] change; the copy of the
    configuration stays allocated after a call of a class without ['?'].  An
    empty class is read one byte before the buffer. *)
Theorem call_entry_fields env l s post tq (st : loader) :
  heap_ok (j_heap st) → alloc_cfg env = true → x00 ∉ s →
  blocks (j_heap st) !! l = Some (s ++ x00 :: post) →
  if decide ((fields s).1.1 = []) then call_entry env (Some (Ptr l 0)) tq st = UB OutOfBounds
  else
    let '(r, v) := java_call s tq (j_jvm st) in
    ∃ b, length b = length (s ++ x00 :: post) ∧
      call_entry env (Some (Ptr l 0)) tq st =
        Ok (r, set_jvm v (set_heap
          (let k := next_block (j_heap st) in
           let m := <[l := b]> (blocks (j_heap st)) in
           Heap (if keeps_cfg (dyn_class (fields s).1.1) r then <[k := s ++ [x00]]> m else m) (S k)) st)).
Proof. apply call_entry_run. Qed.

(** ** The lock *)

(** [m] leaves [init_lock] alone, and its result satisfies [P]. *)
Definition lock_kept {A} (P : A → Prop) (m : M loader A) : Prop :=
  ∀ s a s', m s = Ok (a, s') → j_lock s' = j_lock s ∧ P a.

Lemma lock_kept_ret {A} (P : A → Prop) a : P a → lock_kept P (mret a).
Proof. intros HP s a' s' [= <- <-]. done. Qed.

Lemma lock_kept_bind {A B} (P : B → Prop) (m : M loader A) (k : A → M loader B) :
  lock_kept (λ _, True) m → (∀ a, lock_kept P (k a)) → lock_kept P (m ≫= k).
Proof.
  intros Hm Hk s b s'. unfold mbind, M_bind. destruct (m s) as [[a s1]|] eqn:E; [|done].
  intros E'. destruct (Hm _ _ _ E) as [<- _]. by apply (Hk a).
Qed.

Lemma lock_kept_on_heap {A} (m : M heap A) : lock_kept (λ _, True) (on_heap m).
Proof.
  intros s a s'. unfold on_heap. destruct (m (j_heap s)) as [[b h]|]; [|done].
  by intros [= <- <-].
Qed.

Lemma lock_kept_jni {A} (f : jvm → A * jvm) : lock_kept (λ _, True) (jni f).
Proof. intros s a s' [= <- <-]. done. Qed.

Lemma lock_kept_gets {A} (f : loader → A) : lock_kept (λ _, True) (gets f).
Proof. intros s a s' [= <- <-]. done. Qed.

Lemma lock_kept_set_vm b : lock_kept (λ _, True) (modify (set_vm b)).
Proof. intros s a s' [= <- <-]. done. Qed.

#[local] Hint Resolve lock_kept_on_heap lock_kept_jni lock_kept_gets lock_kept_set_vm : ffi.

(** Follows the statements of a function. *)
Ltac lock_kept_tac :=
  repeat first
    [ solve [eauto with ffi]
    | apply lock_kept_ret; solve [done | by intros ? [=]]
    | apply lock_kept_bind
    | progress intros
    | case_match ].

Lemma start_vm_lock env : lock_kept (λ _, True) (start_vm env).
Proof. unfold start_vm, create_vm. lock_kept_tac. Qed.

Lemma call_entry_lock env cfg tq : lock_kept (λ r, ∀ rc, r = inl rc → rc = 1) (call_entry env cfg tq).
Proof. unfold call_entry, call_method. lock_kept_tac. Qed.

(** C31: when the JVM or the entry method cannot be had, [libffi_init] returns 1
    and leaves [init_lock] free for the next call.  A call that reaches the
    entry method, whatever that returns, unlocks the mutex twice. *)
Theorem libffi_init_unlocks env cfg tq st :
  j_lock st = MtxFree →
  libffi_init env cfg tq st =
    match start_vm env (set_lock MtxHeld st) with
    | Ok (true, st1) => Ok (1, set_lock MtxFree st1)
    | Ok (false, st1) =>
        match call_entry env cfg tq st1 with
        | Ok (inl _, st2) => Ok (1, set_lock MtxFree st2)
        | Ok (inr _, _) => UB BadMutex
        | UB f => UB f
        end
    | UB f => UB f
    end.
Proof.
  intros Hfree. unfold libffi_init, pthread_mutex_lock.
  erewrite bind_ok. 2: { erewrite bind_ok by done. rewrite Hfree. by erewrite bind_ok by done. }
  assert (∀ s, j_lock s = MtxHeld → pthread_mutex_unlock s = Ok ((), set_lock MtxFree s)) as Hun.
  { intros s Hs. unfold pthread_mutex_unlock. erewrite bind_ok by done. rewrite Hs.
    by erewrite bind_ok by done. }
  destruct (start_vm env _) as [[failed st1]|f] eqn:E1; [|by apply bind_ub].
  erewrite bind_ok by done. destruct (start_vm_lock _ _ _ _ E1) as [Hl1 _].
  destruct failed; [unfold RET; by erewrite bind_ok by by apply Hun|].
  destruct (call_entry env cfg tq st1) as [[r st2]|f] eqn:E2; [|by apply bind_ub].
  erewrite bind_ok by done. destruct (call_entry_lock _ _ _ _ _ _ E2) as [Hl2 Hrc].
  assert (j_lock st2 = MtxHeld) as Hl by by rewrite Hl2, Hl1.
  destruct r as [rc|rc]; [rewrite (Hrc rc eq_refl)|]; unfold RET; by erewrite bind_ok by by apply Hun.
Qed.

End Loader.

(** ** Instances *)

Module Demo.

Definition bytes : string → list byte := String.list_byte_of_string.

(** A JVM with the class [a/B] and the reloading class, whose state records the
    strings it got. *)
#[local] Instance demo_jni : JNI := {
  jvm := list (list byte);
  jclass := list byte;
  jmethodID := list byte;
  jstring := list byte;
  JNI_CreateJavaVM options v := ((JNI_OK, true), v ++ options);
  FindClass class v :=
    (if decide (class = bytes "a/B" ∨ class = LOADER_CLASS) then Some class else None, v);
  GetStaticMethodID _ method _ v := (method, v);
  NewStringUTF s v := (s, v);
  CallStaticIntMethod class method s _ v := (0, v ++ [class; method; default [] s]);
  DeleteLocalRef _ v := ((), v);
  ExceptionOccurred v := (false, v);
  ExceptionDescribe v := ((), v);
}.

Definition cfg_heap (s : string) : heap := Heap {[ 0%nat := bytes s ++ [x00] ]} 1.

Definition cold (s : string) : loader := Loader (cfg_heap s) false MtxFree [].
Definition warm (s : string) : loader := Loader (cfg_heap s) true MtxFree [].

Definition opts_env (o : list byte) : environ := Environ (Some (bytes "/p")) (Some o) true true true.
Definition two_opts : environ := opts_env (bytes "-a -b").
Definition many_opts : environ := opts_env (repeat space 49).

Lemma cfg_heap_ok s : heap_ok (cfg_heap s).
Proof. intros l Hl. simpl in *. apply lookup_singleton_ne. lia. Qed.

Lemma opts_env_no_nuls o : x00 ∉ o → no_nuls (opts_env o).
Proof.
  intros Ho. split; intros v [= <-]; [|done]. apply (bool_decide_eq_true_1 _). by vm_compute.
Qed.

Lemma start_vm_options_witness :
  start_vm two_opts (cold "c") =
    Ok (false, Loader (Heap (<[2%nat := bytes "-a" ++ x00 :: bytes "-b" ++ [x00]]> (blocks (cfg_heap "c"))) 3)
                 true MtxFree [bytes "-Djava.class.path=/p"; bytes "-a"; bytes "-b"]) ∧
  start_vm many_opts (cold "c") = UB BadFree.
Proof.
  split.
  - refine (start_vm_options two_opts (cold "c") (cfg_heap_ok "c") eq_refl eq_refl (opts_env_no_nuls _ _)).
    apply (bool_decide_eq_true_1 _). by vm_compute.
  - refine (start_vm_options many_opts (cold "c") (cfg_heap_ok "c") eq_refl eq_refl (opts_env_no_nuls _ _)).
    apply (bool_decide_eq_true_1 _). by vm_compute.
Defined.

Lemma call_entry_fields_witness :
  (∃ b, length b = 7%nat ∧
     call_entry two_opts (Some (Ptr 0 0)) None (warm "a.B,m,") =
       Ok (inr 0, Loader (Heap (<[1%nat := bytes "a.B,m," ++ [x00]]> (<[0%nat := b]> (blocks (cfg_heap "a.B,m,")))) 2)
                    true MtxFree [bytes "a/B"; bytes "m"; []])) ∧
  call_entry two_opts (Some (Ptr 0 0)) None (warm ",m,") = UB OutOfBounds.
Proof.
  split.
  - refine (call_entry_fields two_opts 0 (bytes "a.B,m,") [] None (warm "a.B,m,")
      (cfg_heap_ok _) eq_refl _ eq_refl).
    apply (bool_decide_eq_true_1 _). by vm_compute.
  - refine (call_entry_fields two_opts 0 (bytes ",m,") [] None (warm ",m,")
      (cfg_heap_ok _) eq_refl _ eq_refl).
    apply (bool_decide_eq_true_1 _). by vm_compute.
Defined.

Lemma libffi_init_unlocks_witness :
  libffi_init two_opts (Some (Ptr 0 0)) None (warm "a.B,m,") = UB BadMutex ∧
  match libffi_init two_opts (Some (Ptr 0 0)) None (warm "c,m,") with
  | Ok (rc, s) => rc = 1 ∧ j_lock s = MtxFree
  | UB _ => False
  end.
Proof.
  split.
  - rewrite (libffi_init_unlocks two_opts (Some (Ptr 0 0)) None (warm "a.B,m,") eq_refl). by vm_compute.
  - rewrite (libffi_init_unlocks two_opts (Some (Ptr 0 0)) None (warm "c,m,") eq_refl). by vm_compute.
Defined.

End Demo.
