(* ===== verification/JavaReload.v ===== *)
(** * JavaReload: src/examples/java/loader/src/main/java/resty/ffi/Loader.java

    The reloading of Java classes: [Loader.init], which loader.c calls for a
    class with a question mark, and the class loader behind it, which reads every
    class of the package from the class path again.  The JVM, the files and the
    system class loader are the class [JavaRuntime]; the files of the class path do
    not change while a loader lives.  Code that runs during [init] asks the loader
    for further classes, as a tree of questions.  Strings are their bytes, packages
    and what is printed are left out. *)

From S2P Require Import Prelude World CString JavaLoader.
From stdpp Require Import strings.

#[local] Open Scope Z_scope.

(** ** The Java runtime *)

(** What a computation throws: an [Exception], which [init] catches, or an [Error]. *)
Inductive exception :=
  | ClassNotFound
  | NoSuchMethod
  | InvocationTarget   (* wraps what an invoked method throws *)
  | RuntimeException
  | LinkageError
  | DuplicateClass     (* the LinkageError of a loader that defines a class twice *)
  | OtherError.        (* as ExceptionInInitializerError *)
Definition is_error (e : exception) : bool :=
  match e with
  | LinkageError | DuplicateClass | OtherError => true
  | ClassNotFound | NoSuchMethod | InvocationTarget | RuntimeException => false
  end.

Inductive outcome (A : Type) := Val (a : A) | Throw (e : exception) | OutOfFuel.
Arguments Val {A}.
Arguments Throw {A}.
Arguments OutOfFuel {A}.

(** An entry of the class path: its files by their path, with [None] for one that
    cannot be read. *)
Inductive path_entry :=
  | Missing
  | Directory (files : gmap (list byte) (option (list byte)))
  | Jar (files : gmap (list byte) (option (list byte)))
  | BadJar.     (* new JarFile throws *)

(** Code that runs in the JVM: it returns or throws, or asks the class loader for a
    class and goes on with the class or with what the loader has thrown. *)
Inductive jvm_code (C V A : Type) :=
  | Returns (a : A) (v : V)
  | Throws (e : exception) (v : V)
  | AsksFor (name : list byte) (v : V) (k : C + exception → V → jvm_code C V A).
Arguments Returns {C V A}.
Arguments Throws {C V A}.
Arguments AsksFor {C V A}.

(** The names of classes are those of Java, with dots. *)
Fixpoint asks_dotted {C V A} (p : jvm_code C V A) : Prop :=
  match p with
  | Returns _ _ | Throws _ _ => True
  | AsksFor name _ k => slash ∉ name ∧ ∀ r v, asks_dotted (k r v)
  end.

(** [files] is what is found under a path.  [asks] lists the classes that the JVM asks
    the loader for when it defines a class from these bytes, its superclass and
    interfaces.  [define] is [defineClass] and [resolveClass] once they are there,
    with [None] for a [LinkageError].  [invoke] gives the [int] of the [Integer] that
    the method returns, [None] for any other result. *)
Class JavaRuntime := {
  jclass_of : Type;
  java : Type;
  jmethod : Type;
  files : list byte → path_entry;
  asks : list byte → list (list byte);
  define : list byte → list byte → list jclass_of → java → option jclass_of * java;
  system_load : list byte → java → option jclass_of * java;
  getDeclaredMethod : jclass_of → list byte → java → jvm_code jclass_of java jmethod;
  invoke : jmethod → list byte → option ptr → java → jvm_code jclass_of java (option Z);
  asks_names bytes name : name ∈ asks bytes → slash ∉ name;
  getDeclaredMethod_names c m v : asks_dotted (getDeclaredMethod c m v);
  invoke_names m arg tq v : asks_dotted (invoke m arg tq v);
}.

(** [String.split] of a one-character expression: trailing empty strings are
    removed, unless there is no match. *)
Fixpoint drop_empty (ts : list (list byte)) : list (list byte) :=
  match ts with
  | [] => []
  | t :: ts => match drop_empty ts with [] => if decide (t = []) then [] else [t] | ts => t :: ts end
  end.
Definition java_split (sep : byte) (s : list byte) : list (list byte) :=
  match split_on sep s with [t] => [t] | ts => drop_empty ts end.

Definition colon : byte := x3a.
Definition DOT_CLASS : list byte := Eval cbv in String.list_byte_of_string ".class"%string.

Definition toFilePath (name : list byte) : list byte := slashes name ++ DOT_CLASS.

Section Reload.
Context {R : JavaRuntime}.

(** The class loader, the classes it has defined with their bytes, and the JVM. *)
Record class_loader := ClassLoader {
  loadedClasses : gset (list byte);
  unavaiClasses : gset (list byte);
  defined : gmap (list byte) (jclass_of * list byte);
  vm : java;
}.

Definition J (A : Type) : Type := class_loader → outcome A * class_loader.
#[local] Instance J_ret : MRet J := λ A a s, (Val a, s).
#[local] Instance J_bind : MBind J := λ A B k m s,
  match m s with
  | (Val a, s) => k a s
  | (Throw e, s) => (Throw e, s)
  | (OutOfFuel, s) => (OutOfFuel, s)
  end.

Definition throw {A} (e : exception) : J A := λ s, (Throw e, s).
Definition read {A} (f : class_loader → A) : J A := λ s, (Val (f s), s).
Definition update (f : class_loader → class_loader) : J () := λ s, (Val (), f s).
Definition in_vm {A} (f : java → A * java) : J A := λ s,
  (Val (f (vm s)).1, ClassLoader (loadedClasses s) (unavaiClasses s) (defined s) (f (vm s)).2).

Definition add_loaded (name : list byte) (s : class_loader) : class_loader :=
  ClassLoader ({[ name ]} ∪ loadedClasses s) (unavaiClasses s) (defined s) (vm s).
Definition add_unavai (name : list byte) (s : class_loader) : class_loader :=
  ClassLoader (loadedClasses s) ({[ name ]} ∪ unavaiClasses s) (defined s) (vm s).
Definition add_defined (name : list byte) (c : jclass_of) (bytes : list byte) (s : class_loader) : class_loader :=
  ClassLoader (loadedClasses s) (unavaiClasses s) (<[name := (c, bytes)]> (defined s)) (vm s).

Definition set_java (v : java) (s : class_loader) : class_loader :=
  ClassLoader (loadedClasses s) (unavaiClasses s) (defined s) v.

(** What is thrown when there is none. *)
Definition or_throw {A} (e : exception) (o : option A) : J A :=
  match o with Some a => mret a | None => throw e end.

(** ** [DynamicClassLoader] *)

(** A loader of files: a directory, or the entries of a jar that was opened. *)
Inductive file_loader :=
  | DirLoader (dir : list byte)
  | JarLoader (entries : gmap (list byte) (option (list byte))).

(** The loaders made from the paths; [None] when one throws. *)
Definition loader_of (path : list byte) : option file_loader :=
  match files path with
  | Directory _ => Some (DirLoader path)
  | Jar m => Some (JarLoader m)
  | Missing | BadJar => None
  end.
Definition loaders (paths : list (list byte)) : option (list file_loader) := mapM loader_of paths.

(** The files a loader can find. *)
Definition loader_files (l : file_loader) : gmap (list byte) (option (list byte)) :=
  match l with
  | DirLoader dir => match files dir with Directory m => m | _ => ∅ end
  | JarLoader m => m
  end.

(** The call of a loader: the directory or the jar is searched. *)
Definition run_loader (l : file_loader) (file : list byte) : option (option (list byte)) := loader_files l !! file.

(** The first loader that has the file. *)
Fixpoint find_file (ls : list file_loader) (file : list byte) : option (option (list byte)) :=
  match ls with
  | [] => None
  | l :: ls => match run_loader l file with Some x => Some x | None => find_file ls file end
  end.

Section class_loader.
Context (ls : list file_loader) (prefix : list byte).

Definition loadNewClass (name : list byte) : J (option (list byte)) :=
  match find_file ls (toFilePath name) with
  | None => mret None
  | Some None => throw RuntimeException
  | Some (Some data) => mret (Some data)
  end.

(** ** [AggressiveClassLoader] *)

Definition parent_load (name : list byte) : J jclass_of :=
  c ← in_vm (system_load name);
  match c with Some c => mret c | None => throw ClassNotFound end.

(** [super.loadClass]: what this loader has defined, or the system's. *)
Definition super_load (name : list byte) : J jclass_of :=
  d ← read (λ s, defined s !! name);
  match d with Some (c, _) => mret c | None => parent_load name end.

(** The JVM turns a class that is not found into an error of the class that needs it. *)
Definition needed (m : J jclass_of) : J jclass_of := λ s,
  match m s with (Throw ClassNotFound, s) => (Throw LinkageError, s) | r => r end.

Fixpoint ask_all (ask : list byte → J jclass_of) (names : list (list byte)) : J (list jclass_of) :=
  match names with
  | [] => mret []
  | name :: names => c ← needed (ask name); cs ← ask_all ask names; mret (c :: cs)
  end.

(** [loadClass(classData, name)], where [ask] is the loader itself; [true] when the
    loader defines [name] a second time. *)
Definition duplicate (name : list byte) (s : class_loader) : bool := bool_decide (is_Some (defined s !! name)).

Definition defineClass (ask : list byte → J jclass_of) (data name : list byte) : J jclass_of :=
  supers ← ask_all ask (asks data);
  d ← read (duplicate name);
  if d : bool then throw DuplicateClass else
  c ← in_vm (define name data supers);
  match c with
  | Some c => update (add_defined name c data);; mret c
  | None => throw LinkageError
  end.

Fixpoint loadClass (fuel : nat) (name : list byte) : J jclass_of :=
  match fuel with
  | O => λ s, (OutOfFuel, s)
  | S fuel =>
      if negb (bool_decide (prefix `prefix_of` name)) then super_load name else
      seen ← read (λ s, bool_decide (name ∈ loadedClasses s ∪ unavaiClasses s));
      if seen : bool then super_load name else
      data ← loadNewClass name;
      match data with
      | Some data => update (add_loaded name);; defineClass (loadClass fuel) data name
      | None => update (add_unavai name);; parent_load name
      end
  end.
(** Requests for classes, one after the other; the exceptions go to whoever asked. *)
Fixpoint requests (fuel : nat) (names : list (list byte)) (s : class_loader) :
    list (outcome jclass_of) * class_loader :=
  match names with
  | [] => ([], s)
  | name :: names =>
      let '(r, s) := loadClass fuel name s in
      let '(rs, s) := requests fuel names s in (r :: rs, s)
  end.
End class_loader.

(** Code of the JVM, with the loader [ask]. *)
Fixpoint run_code {A} (ask : list byte → J jclass_of) (p : jvm_code jclass_of java A) : J A :=
  match p with
  | Returns a v => update (set_java v);; mret a
  | Throws e v => update (set_java v);; throw e
  | AsksFor name v k => λ s,
      match ask name (set_java v s) with
      | (Val c, s) => run_code ask (k (inl c) (vm s)) s
      | (Throw e, s) => run_code ask (k (inr e) (vm s)) s
      | (OutOfFuel, s) => (OutOfFuel, s)
      end
  end.

Definition new_loader (v : java) : class_loader := ClassLoader ∅ ∅ ∅ v.

(** ** [Loader.init] *)

(** The class name, the package and the method and argument of the configuration;
    [None] when an exception is thrown. *)
Definition entry_of (cfg : list byte) : option (list byte * list byte * option (list byte) * list byte) :=
  let cfgItems := java_split comma cfg in
  clsName ← head cfgItems;
  if decide (clsName = []) then None else
  let clsName := take (length clsName - 1) clsName in
  let tmp := java_split dot clsName in
  if decide (tmp = []) then None else
  let prefix := join_with dot (take (length tmp - 1) tmp) in
  Some (clsName, prefix, cfgItems !! 1%nat, default [] (cfgItems !! 2%nat)).

(** [load], which wraps what [loadClass] declares. *)
Definition load (m : J jclass_of) : J jclass_of := λ s,
  match m s with (Throw ClassNotFound, s) => (Throw RuntimeException, s) | r => r end.

(** From [getDeclaredMethod] to [intValue]. *)
Definition call_method (ask : list byte → J jclass_of) (cls : jclass_of) (method arg : list byte) (tq : option ptr) :
    J Z :=
  v ← read vm;
  m ← run_code ask (getDeclaredMethod cls method v);
  v ← read vm;
  ret ← run_code ask (invoke m arg tq v);
  or_throw RuntimeException ret.

(** [catch (Exception e)], and [return 1] behind it. *)
Definition catch_exceptions (m : J Z) : J Z := λ s,
  match m s with
  | (Throw e, s) => (if is_error e then Throw e else Val 1, s)
  | r => r
  end.

Definition init (fuel : nat) (classpath : option (list byte)) (cfg : list byte) (tq : option ptr) : J Z :=
  catch_exceptions (
    '(clsName, prefix, method, arg) ← or_throw RuntimeException (entry_of cfg);
    classpath ← or_throw RuntimeException classpath;
    ls ← or_throw RuntimeException (loaders (java_split colon classpath));
    cls ← load (loadClass ls prefix fuel clsName);
    method ← or_throw RuntimeException method;
    call_method (loadClass ls prefix fuel) cls method arg tq).

(** ** The class loader is sound *)

(** All files of the class path. *)
Fixpoint all_files (ls : list file_loader) : gset (list byte) :=
  match ls with [] => ∅ | l :: ls => dom (loader_files l) ∪ all_files ls end.

Lemma find_file_in ls file x : find_file ls file = Some x → file ∈ all_files ls.
Proof using Type.
  induction ls as [|l ls IH]; simpl; [done|]. rewrite elem_of_union, elem_of_dom. unfold run_loader.
  destruct (loader_files l !! file) as [y|]; [left; by eexists|]. intros H. right. auto.
Qed.

Lemma slashes_inj a b : slash ∉ a → slash ∉ b → slashes a = slashes b → a = b.
Proof using Type.
  revert b. induction a as [|x a IH]; intros [|y b]; simpl; try done.
  rewrite !not_elem_of_cons. intros [Hx Ha] [Hy Hb] [= Hxy Hab]. f_equal; [|by apply IH].
  repeat case_decide; subst; congruence.
Qed.

Lemma toFilePath_inj a b : slash ∉ a → slash ∉ b → toFilePath a = toFilePath b → a = b.
Proof using Type. unfold toFilePath. intros Ha Hb H%app_inv_tail. by apply slashes_inj. Qed.

Section sound.
Context (ls : list file_loader) (prefix : list byte).

(** What the loader has recorded is what it has done. *)
Record loader_inv (s : class_loader) : Prop := {
  lv_defined : ∀ n, is_Some (defined s !! n) → n ∈ loadedClasses s;
  lv_bytes : ∀ n c d, defined s !! n = Some (c, d) → find_file ls (toFilePath n) = Some (Some d);
  lv_names : ∀ n, n ∈ loadedClasses s → slash ∉ n ∧ prefix `prefix_of` n;
  lv_unavai : ∀ n, n ∈ unavaiClasses s → find_file ls (toFilePath n) = None;
}.

(** Nothing is forgotten, and no loaded class is defined anew. *)
Record later (s s' : class_loader) : Prop := {
  lt_loaded : loadedClasses s ⊆ loadedClasses s';
  lt_unavai : unavaiClasses s ⊆ unavaiClasses s';
  lt_defined : ∀ n, n ∈ loadedClasses s → defined s' !! n = defined s !! n;
}.

#[local] Instance later_preorder : PreOrder later.
Proof.
  split; [by split|]. intros s1 s2 s3 [A B C] [A' B' C']. split; [set_solver..|].
  intros n Hn. rewrite C' by set_solver. by apply C.
Qed.

(** The files that no loaded class was read from. *)
Definition room (s : class_loader) : nat := size (all_files ls ∖ set_map toFilePath (loadedClasses s)).

Lemma room_later s s' : later s s' → (room s' ≤ room s)%nat.
Proof using Type.
  intros [A _ _]. unfold room. apply subseteq_size. intros x.
  rewrite !elem_of_difference, !elem_of_map. intros [Hx Hn]. split; [done|].
  intros (y & -> & Hy). apply Hn. exists y. split; [done|]. by apply A.
Qed.

(** [m] ends, defines no class twice, and keeps the invariant, with fuel for [n] files. *)
Definition sound {A} (n : nat) (m : J A) : Prop :=
  ∀ s, loader_inv s → (room s < n)%nat →
    match m s with
    | (r, s') => r ≠ OutOfFuel ∧ r ≠ Throw DuplicateClass ∧ loader_inv s' ∧ later s s'
    end.

Lemma sound_bind {A B} n (m : J A) (k : A → J B) : sound n m → (∀ a, sound n (k a)) → sound n (m ≫= k).
Proof using Type.
  intros Hm Hk s Hs Hr. specialize (Hm s Hs Hr). unfold mbind, J_bind.
  destruct (m s) as [[a|e|] s1]; [|naive_solver..]. destruct Hm as (_ & _ & Hs1 & Hl1).
  pose proof (room_later _ _ Hl1). specialize (Hk a s1 Hs1 ltac:(lia)). destruct (k a s1) as [r s2].
  destruct Hk as (? & ? & ? & Hl2). split_and!; [done..|]. by etrans.
Qed.

Lemma sound_in_vm {A} n (f : java → A * java) : sound n (in_vm f).
Proof using Type. intros s [A1 A2 A3 A4] _. unfold in_vm. split_and!; [done|done|by split|by split]. Qed.
Lemma sound_ret {A} n (a : A) : sound n (mret a).
Proof using Type. intros s Hs _. by split_and!. Qed.
Lemma sound_throw {A} n e : e ≠ DuplicateClass → sound n (throw (A := A) e).
Proof using Type. intros He s Hs _. unfold throw. split_and!; [done|congruence|done|done]. Qed.
Lemma sound_read {A} n (f : class_loader → A) : sound n (read f).
Proof using Type. intros s Hs _. by split_and!. Qed.

Lemma sound_parent_load n name : sound n (parent_load name).
Proof using Type.
  apply sound_bind; [apply sound_in_vm|]. intros [c|]; [apply sound_ret|by apply sound_throw].
Qed.

Lemma sound_super_load n name : sound n (super_load name).
Proof using Type.
  apply sound_bind; [apply sound_read|]. intros [[c d]|]; [apply sound_ret|apply sound_parent_load].
Qed.

Lemma sound_ask_all n ask names :
  (∀ name, slash ∉ name → sound n (ask name)) → Forall (λ name, slash ∉ name) names → sound n (ask_all ask names).
Proof using Type.
  intros Ha. induction 1 as [|name names Hn _ IH]; simpl; [apply sound_ret|]. apply sound_bind.
  - intros s Hs Hr. specialize (Ha name Hn s Hs Hr). unfold needed.
    destruct (ask name s) as [[c|[]|] s']; naive_solver.
  - intros c. apply sound_bind; [exact IH|]. intros cs. apply sound_ret.
Qed.

Lemma add_loaded_inv name d s :
  loader_inv s → slash ∉ name → prefix `prefix_of` name → find_file ls (toFilePath name) = Some (Some d) →
  name ∉ loadedClasses s →
  loader_inv (add_loaded name s) ∧ later s (add_loaded name s) ∧ (room (add_loaded name s) < room s)%nat.
Proof using Type.
  intros [A B C D] Hn Hp Hd Hl. split_and!.
  - split; simpl; [|done| |done].
    + intros n Hs. apply elem_of_union. right. by apply A.
    + intros n [->%elem_of_singleton|Hs]%elem_of_union; [done|by apply C].
  - split; simpl; [set_solver|done|done].
  - unfold room. apply subset_size. split.
    + intros x. simpl. rewrite !elem_of_difference, !elem_of_map. intros [Hx Hm]. split; [done|].
      intros (y & -> & Hy). apply Hm. exists y. split; [done|]. set_solver.
    + intros Hsub. assert (toFilePath name ∈ all_files ls ∖ set_map toFilePath (loadedClasses s)) as Hin.
      { apply elem_of_difference. split; [by eapply find_file_in|]. rewrite elem_of_map.
        intros (y & Hy & Hyl). apply toFilePath_inj in Hy as <-; [done|done|by apply C]. }
      apply Hsub in Hin. simpl in Hin. rewrite elem_of_difference, elem_of_map in Hin.
      destruct Hin as [_ Hm]. apply Hm. exists name. set_solver.
Qed.

(** Defining a class that is recorded and not defined yet. *)
Lemma defineClass_sound n ask data name s :
  (∀ x, slash ∉ x → sound n (ask x)) → loader_inv s → (room s < n)%nat → name ∈ loadedClasses s →
  defined s !! name = None → find_file ls (toFilePath name) = Some (Some data) →
  match defineClass ask data name s with
  | (r, s') => r ≠ OutOfFuel ∧ r ≠ Throw DuplicateClass ∧ loader_inv s' ∧
      loadedClasses s ⊆ loadedClasses s' ∧ unavaiClasses s ⊆ unavaiClasses s' ∧
      (∀ x, x ∈ loadedClasses s → x ≠ name → defined s' !! x = defined s !! x) ∧
      ∀ c, r = Val c → defined s' !! name = Some (c, data)
  end.
Proof using Type.
  intros Ha Hs Hr Hl Hd Hf.
  assert (sound n (ask_all ask (asks data))) as Hall.
  { apply sound_ask_all; [done|]. apply Forall_forall. intros x. apply asks_names. }
  specialize (Hall s Hs Hr). unfold defineClass, mbind, J_bind.
  destruct (ask_all ask (asks data) s) as [[cs|e|] s1]; [| |by destruct Hall].
  2: { destruct Hall as (_ & He & Hi & [E F G]). split_and!; [done| |done..| |done].
       - intros [= ->]. by apply He.
       - intros x Hx _. by apply G. }
  destruct Hall as (_ & _ & [A B C D] & [E F G]). unfold read, duplicate.
  rewrite bool_decide_false by (rewrite (G name Hl), Hd; by intros []).
  unfold in_vm. destruct (define name data cs (vm s1)) as [[c|] v]; simpl.
  2: { split_and!; [done|done|by split|done|done|intros x Hx _; by apply G|done]. }
  split_and!; [done|done| |done|done| |].
  - split; simpl; [| |done|done].
    + intros x. destruct (decide (x = name)) as [->|Hne]; [intros _; by apply E|].
      rewrite lookup_insert_ne by done. apply A.
    + intros x c' d. destruct (decide (x = name)) as [->|Hne].
      * rewrite lookup_insert_eq. by intros [= <- <-].
      * rewrite lookup_insert_ne by done. apply B.
  - intros x Hx Hne. rewrite lookup_insert_ne by done. by apply G.
  - intros c' [= <-]. by rewrite lookup_insert_eq.
Qed.

Lemma loadClass_sound fuel name : slash ∉ name → sound fuel (loadClass ls prefix fuel name).
Proof using Type.
  revert name. induction fuel as [|fuel IH]; intros name Hn; [intros s _ Hr; lia|].
  intros s Hs Hr. cbn [loadClass]. case_bool_decide as Hp; simpl; [|by apply (sound_super_load (S fuel))].
  unfold mbind at 1, J_bind at 1, read. cbv beta iota. case_bool_decide as Hseen; [by apply (sound_super_load (S fuel))|].
  rewrite elem_of_union in Hseen. unfold mbind, J_bind, loadNewClass.
  destruct (find_file ls (toFilePath name)) as [[d|]|] eqn:Hf; simpl.
  - destruct (add_loaded_inv name d s Hs Hn Hp Hf) as (Hs1 & [L1 U1 D1] & Hr1); [tauto|].
    assert (defined s !! name = None) as Hnone.
    { apply eq_None_not_Some. intros Hd. apply Hseen. left. by apply Hs. }
    pose proof (defineClass_sound fuel (loadClass ls prefix fuel) d name (add_loaded name s) IH Hs1
                  ltac:(lia) ltac:(simpl; set_solver) Hnone Hf) as Hdef.
    destruct (defineClass _ d name _) as [r s2]. destruct Hdef as (? & ? & ? & L2 & U2 & D2 & _).
    split_and!; [done..|]. split; [set_solver|set_solver|]. intros x Hx. apply D2; [simpl; set_solver|].
    intros ->. tauto.
  - by split_and!.
  - assert (loader_inv (add_unavai name s)) as Hs1.
    { destruct Hs as [A B C D]. split; simpl; try done.
      intros x [->%elem_of_singleton|Hx]%elem_of_union; [done|by apply D]. }
    pose proof (sound_parent_load (S fuel) name (add_unavai name s) Hs1 Hr) as Hpl.
    destruct (parent_load name _) as [r s2]. destruct Hpl as (? & ? & ? & [L U D]).
    split_and!; [done..|]. split; simpl in *; [done|set_solver|done].
Qed.

Lemma new_loader_inv v : loader_inv (new_loader v).
Proof using Type.
  split; simpl; [intros n|intros n c d|set_solver..]; rewrite lookup_empty; [by intros []|done].
Qed.

Lemma room_new v : room (new_loader v) = size (all_files ls).
Proof using Type. unfold room. f_equal. apply set_eq. intros x. simpl. set_solver. Qed.

(** The class that is asked for first, when it is in the package and on the class path. *)
Lemma loadClass_new fuel name d v :
  slash ∉ name → prefix `prefix_of` name → find_file ls (toFilePath name) = Some (Some d) →
  (size (all_files ls) < fuel)%nat →
  match loadClass ls prefix fuel name (new_loader v) with
  | (r, s') => r ≠ OutOfFuel ∧ r ≠ Throw DuplicateClass ∧ loader_inv s' ∧ (room s' < fuel)%nat ∧
      ∀ c, r = Val c → defined s' !! name = Some (c, d)
  end.
Proof using Type.
  intros Hn Hp Hf Hlt. pose proof (loadClass_sound fuel name Hn _ (new_loader_inv v)) as Hsnd.
  rewrite room_new in Hsnd. specialize (Hsnd Hlt).
  assert (match loadClass ls prefix fuel name (new_loader v) with
          | (r, s') => ∀ c, r = Val c → defined s' !! name = Some (c, d) end) as Hdef.
  2: { destruct (loadClass _ _ _ _ _) as [r s']. destruct Hsnd as (? & ? & ? & Hl%room_later).
       rewrite room_new in Hl. split_and!; [done|done|done|lia|exact Hdef]. }
  clear Hsnd. destruct fuel as [|fuel]; [lia|]. cbn [loadClass]. rewrite bool_decide_true by done. simpl.
  unfold mbind, J_bind, read, loadNewClass. rewrite bool_decide_false by set_solver. rewrite Hf. simpl.
  destruct (add_loaded_inv name d (new_loader v) (new_loader_inv v) Hn Hp Hf) as (Hs1 & _ & Hr1); [set_solver|].
  rewrite room_new in Hr1.
  pose proof (defineClass_sound fuel (loadClass ls prefix fuel) d name _ (loadClass_sound fuel) Hs1
                ltac:(lia) ltac:(simpl; set_solver) (lookup_empty _) Hf) as Hdef.
  destruct (defineClass _ d name _) as [r s2]. by destruct Hdef as (_ & _ & _ & _ & _ & _ & ?).
Qed.

(** Code ends, whatever classes it asks for. *)
Lemma run_code_ends {A} fuel (p : jvm_code jclass_of java A) s :
  asks_dotted p → loader_inv s → (room s < fuel)%nat →
  match run_code (loadClass ls prefix fuel) p s with
  | (r, s') => r ≠ OutOfFuel ∧ loader_inv s' ∧ later s s'
  end.
Proof using Type.
  assert (∀ v s, loader_inv s → loader_inv (set_java v s) ∧ later s (set_java v s)) as Hset.
  { intros v s0 [B C D E]. by split. }
  revert s. induction p as [a v|e v|name v k IH]; simpl; intros s Hp Hs Hr.
  - unfold mbind, J_bind, update. simpl. split; [done|]. by apply Hset.
  - unfold mbind, J_bind, update, throw. simpl. split; [done|]. by apply Hset.
  - destruct Hp as [Hn Hk]. destruct (Hset v s Hs) as [Hs1 Hl1].
    pose proof (loadClass_sound fuel name Hn _ Hs1 Hr) as Hld.
    destruct (loadClass _ _ _ _ _) as [[c|e|] s2]; destruct Hld as (? & _ & Hs2 & Hl2); [| |done].
    1: specialize (IH (inl c) (vm s2) s2). 2: specialize (IH (inr e) (vm s2) s2).
    all: pose proof (room_later _ _ Hl2) as Hr2; change (room (set_java v s)) with (room s) in Hr2;
      specialize (IH (Hk _ _) Hs2 ltac:(lia)); destruct (run_code _ _ s2) as [r s3];
      destruct IH as (? & ? & Hl3); (split_and!; [done|done|]); etrans; [exact Hl1|]; by etrans.
Qed.

Lemma call_method_ends fuel c method arg tq s :
  loader_inv s → (room s < fuel)%nat →
  match call_method (loadClass ls prefix fuel) c method arg tq s with
  | (r, s') => r ≠ OutOfFuel ∧ loader_inv s' ∧ later s s'
  end.
Proof using Type.
  intros Hs Hr. unfold call_method, mbind, J_bind, read. cbn beta iota.
  pose proof (run_code_ends fuel _ s (getDeclaredMethod_names c method (vm s)) Hs Hr) as H1.
  destruct (run_code _ _ s) as [[m|e|] s1]; [|destruct H1 as (_ & ? & ?); by split_and!|by destruct H1]. destruct H1 as (_ & Hs1 & Hl1).
  pose proof (room_later _ _ Hl1).
  pose proof (run_code_ends fuel _ s1 (invoke_names m arg tq (vm s1)) Hs1 ltac:(lia)) as H2.
  destruct (run_code _ _ s1) as [[[z|]|e|] s2]; destruct H2 as (? & ? & ?); simpl; split_and!; try done; by etrans.
Qed.

Lemma requests_sound fuel names s :
  Forall (λ n, slash ∉ n) names → loader_inv s → (room s < fuel)%nat →
  match requests ls prefix fuel names s with
  | (rs, s') => Forall (λ r, r ≠ OutOfFuel ∧ r ≠ Throw DuplicateClass) rs ∧ loader_inv s' ∧ later s s'
  end.
Proof using Type.
  intros Hn. revert s. induction Hn as [|name names Hn _ IH]; intros s Hs Hr; simpl; [by split_and!|].
  pose proof (loadClass_sound fuel name Hn s Hs Hr) as Hl.
  destruct (loadClass ls prefix fuel name s) as [r s1]. destruct Hl as (H1 & H2 & Hs1 & Hl1).
  pose proof (room_later _ _ Hl1). specialize (IH s1 Hs1 ltac:(lia)).
  destruct (requests ls prefix fuel names s1) as [rs s2]. destruct IH as (H3 & Hs2 & Hl2).
  split_and!; [by constructor|done|by etrans].
Qed.

(** C32: the class loader always comes to an end, and defines no class twice.  For
    any sequence of requests, although defining a class asks the same loader for
    the classes it needs: each request ends when the fuel is more than the
    number of files on the class path, none is answered with the error of a
    second definition, a class that is defined was read from the first path that
    has its file, and a later request for it gives the same class. *)
Theorem class_loading_terminates fuel names v :
  Forall (λ n, slash ∉ n) names → (size (all_files ls) < fuel)%nat →
  match requests ls prefix fuel names (new_loader v) with
  | (rs, s) =>
      Forall (λ r, r ≠ OutOfFuel ∧ r ≠ Throw DuplicateClass) rs ∧
      (∀ n c d, defined s !! n = Some (c, d) →
         prefix `prefix_of` n ∧ find_file ls (toFilePath n) = Some (Some d) ∧
         loadClass ls prefix fuel n s = (Val c, s))
  end.
Proof using Type.
  intros Hn Hlt. pose proof (requests_sound fuel names (new_loader v) Hn (new_loader_inv v)) as Hr.
  rewrite room_new in Hr. specialize (Hr Hlt). destruct (requests _ _ _ _ _) as [rs s].
  destruct Hr as (Hrs & [A B C _] & _). split; [done|]. intros n c d Hd.
  assert (n ∈ loadedClasses s) as Hl by (apply A; by eexists). split_and!; [by apply C|by eapply B|].
  destruct fuel as [|fuel]; [lia|]. cbn [loadClass]. rewrite bool_decide_true by by apply C. simpl.
  unfold mbind, J_bind, read. rewrite bool_decide_true by set_solver.
  unfold super_load, mbind, J_bind, read. by rewrite Hd.
Qed.
End sound.

(** ** [init] *)

Lemma drop_empty_prefix ts : drop_empty ts `prefix_of` ts.
Proof using Type.
  induction ts as [|t ts IH]; simpl; [done|]. destruct (drop_empty ts).
  - case_decide; [apply prefix_nil|]. apply prefix_cons, prefix_nil.
  - by apply prefix_cons.
Qed.

Lemma java_split_prefix sep s : java_split sep s `prefix_of` split_on sep s.
Proof using Type.
  unfold java_split. destruct (split_on sep s) as [|t [|u us]]; [done|done|]. apply drop_empty_prefix.
Qed.

Lemma join_take_prefix sep k ts : join_with sep (take k ts) `prefix_of` join_with sep ts.
Proof using Type.
  revert k. induction ts as [|t ts IH]; intros [|k]; simpl; [done|done|apply prefix_nil|].
  specialize (IH k). destruct ts as [|u us], (take k _) as [|x xs] eqn:E; try done.
  - by rewrite take_nil in E.
  - by apply prefix_app_r.
  - apply prefix_app. by apply prefix_cons.
Qed.

(** The entry class is in the package that is reloaded. *)
Lemma entry_prefix cfg clsName prefix method arg :
  entry_of cfg = Some (clsName, prefix, method, arg) → prefix `prefix_of` clsName.
Proof using Type.
  unfold entry_of. destruct (head (java_split comma cfg)) as [c|]; simpl; [|done].
  case_decide; [done|]. case_decide; [done|]. intros [= <- <- _ _].
  set (cls := take (length c - 1) c). rewrite <-(join_split_on dot cls) at 3.
  destruct (java_split_prefix dot cls) as [x ->]. set (ts := java_split dot cls).
  etrans; [|apply (join_take_prefix dot (length ts - 1))]. by rewrite take_app_le by lia.
Qed.

(** C33: a class with a question mark is read again.  Every [init] has a loader of
    its own.  When the class path is valid and has the file of the class, the entry
    method is looked up and called on a class that was defined in this call from
    the file of the first path that has it, whatever was loaded before; the call
    ends although the code it runs may ask the loader for further classes, and
    those of the package are read from the class path too and the others stay.  What
    [init] returns is the [int] of the method; an [Exception], of the loading, the
    lookup or the call, makes it 1, and an [Error] goes to the caller. *)
Theorem reload_reads_the_files fuel classpath cfg tq v clsName prefix method arg ls d :
  entry_of cfg = Some (clsName, prefix, Some method, arg) → loaders (java_split colon classpath) = Some ls →
  slash ∉ clsName → find_file ls (toFilePath clsName) = Some (Some d) → (size (all_files ls) < fuel)%nat →
  let '(r, s') := init fuel (Some classpath) cfg tq (new_loader v) in
  match loadClass ls prefix fuel clsName (new_loader v) with
  | (Val c, s) =>
      defined s !! clsName = Some (c, d) ∧
      match call_method (loadClass ls prefix fuel) c method arg tq s with
      | (Val rc, s1) => r = Val rc ∧ s' = s1
      | (Throw e, s1) => r = (if is_error e then Throw e else Val 1) ∧ s' = s1
      | (OutOfFuel, _) => False
      end ∧
      (∀ n x, defined s !! n = Some x → defined s' !! n = Some x) ∧
      ∀ n c' d', defined s' !! n = Some (c', d') →
        prefix `prefix_of` n ∧ find_file ls (toFilePath n) = Some (Some d')
  | (Throw e, s) => r = (if is_error e then Throw e else Val 1) ∧ s' = s
  | (OutOfFuel, _) => False
  end.
Proof using Type.
  intros He Hls Hn Hf Hlt.
  pose proof (loadClass_new ls prefix fuel clsName d v Hn (entry_prefix _ _ _ _ _ He) Hf Hlt) as Hl.
  unfold init, catch_exceptions, load, mbind, J_bind. rewrite He. cbn. rewrite Hls. cbn.
  destruct (loadClass _ _ _ _ _) as [[c|e|] s]; [| |by destruct Hl].
  2: { by destruct e. }
  destruct Hl as (_ & _ & Hs & Hr & Hd). specialize (Hd c eq_refl). simpl.
  pose proof (call_method_ends ls prefix fuel c method arg tq s Hs Hr) as Hc.
  destruct (call_method _ _ _ _ _ _) as [[rc|e|] s1]; destruct Hc as (? & [A B C _] & [_ _ Hlt1]); [| |done].
  all: split_and!; [done|done|done| |].
  all: try (intros n x Hx; rewrite Hlt1; [done|]; apply Hs; by eexists).
  all: intros n c' d' Hx; split; [apply C, A; by eexists|by eapply B].
Qed.

(** ** The configuration, by loader.c and by [init] *)

Definition INIT : list byte := String.list_byte_of_string "init"%string.

(** The package of a class. *)
Definition package_of (class : list byte) : list byte :=
  let tmp := java_split dot class in join_with dot (take (length tmp - 1) tmp).

(** [init] takes the third field only up to the next comma. *)
Lemma entry_of_fields class method a b :
  comma ∉ class → comma ∉ method → comma ∉ a → method ≠ [] → java_split dot class ≠ [] →
  entry_of ((class ++ [question]) ++ comma :: method ++ comma :: a ++ comma :: b) =
    Some (class, package_of class, Some method, a).
Proof using Type.
  intros Hc Hm Ha Hm0 Hd. unfold entry_of.
  assert (comma ∉ class ++ [question]) as Hcq.
  { rewrite not_elem_of_app, not_elem_of_cons. split_and!; [done|done|apply not_elem_of_nil]. }
  assert (∃ us, java_split comma ((class ++ [question]) ++ comma :: method ++ comma :: a ++ comma :: b) =
    (class ++ [question]) :: method :: us ∧ default [] (us !! 0%nat) = a) as (us & -> & Hus).
  { unfold java_split. rewrite !split_on_app by done. cbn [drop_empty].
    destruct (drop_empty (split_on comma b)) as [|x xs]; [destruct (decide (a = [])) as [->|Ha0]|].
    - rewrite !decide_False by (done || by destruct class). by exists [].
    - by exists [a].
    - by exists (a :: x :: xs). }
  simpl. rewrite Hus, decide_False by by destruct class.
  by rewrite length_app, Nat.add_sub, take_app_length, decide_False.
Qed.
End Reload.

(** C34: a question mark restricts the entry.  For a class without it, loader.c calls
    the method that the configuration names, with the rest of the string behind
    the second comma.  For a class with it, loader.c looks the method up in
    [Loader] and passes the whole string: any method but [init] is refused with 1,
    as soon as the lookup fails, and [Loader.init] passes the third field only up to
    the next comma. *)
Theorem question_mark_restricts_the_entry {J : JNI} env l post tq (st : loader) class method a b :
  let rest := comma :: method ++ comma :: a ++ comma :: b in
  comma ∉ class → comma ∉ method → comma ∉ a → x00 ∉ class ++ rest → class ≠ [] → method ≠ [] →
  java_split dot class ≠ [] → dyn_class class = false → heap_ok (j_heap st) → alloc_cfg env = true →
  (blocks (j_heap st) !! l = Some ((class ++ rest) ++ x00 :: post) →
     let '(r, v) := java_run (slashes class) (Some method) (Some (a ++ comma :: b)) tq (j_jvm st) in
     ∃ st', call_entry env (Some (Ptr l 0)) tq st = Ok (r, st') ∧ j_jvm st' = v) ∧
  (blocks (j_heap st) !! l = Some (((class ++ [question]) ++ rest) ++ x00 :: post) →
     (let '(r, v) := java_run LOADER_CLASS (Some method) (Some ((class ++ [question]) ++ rest)) tq (j_jvm st) in
      ∃ st', call_entry env (Some (Ptr l 0)) tq st = Ok (r, st') ∧ j_jvm st' = v) ∧
     ∀ L v1, FindClass LOADER_CLASS (j_jvm st) = (Some L, v1) →
       (∀ m v, m ≠ Some INIT → (GetStaticMethodID L m INIT_SIGNATURE v).1 = None) → method ≠ INIT →
       ∃ st', call_entry env (Some (Ptr l 0)) tq st = Ok (inl 1, st') ∧
         j_jvm st' = (GetStaticMethodID L (Some method) INIT_SIGNATURE v1).2) ∧
  entry_of ((class ++ [question]) ++ rest) = Some (class, package_of class, Some method, a).
Proof.
  intros rest Hc Hm Ha Hnul Hne Hm0 Hd Hq Hok Hal.
  assert (comma ∉ class ++ [question]) as Hcq.
  { rewrite not_elem_of_app, not_elem_of_cons. split_and!; [done|done|apply not_elem_of_nil]. }
  assert (∀ cls, comma ∉ cls → fields (cls ++ rest) = (cls, Some method, Some (a ++ comma :: b))) as Hf.
  { intros cls Hcls. unfold fields, rest. rewrite cut_here by done. simpl. by rewrite cut_here. }
  split_and!; [| |by apply entry_of_fields].
  - intros Hl. pose proof (call_entry_run env l _ post tq st Hok Hal Hnul Hl) as H.
    rewrite Hf in H by done. cbn [fst snd] in H. rewrite decide_False in H by done.
    unfold java_call in H. rewrite Hf in H by done. unfold class_name in H. rewrite Hq in H.
    destruct (java_run _ _ _ _ _) as [r v]. destruct H as (b' & _ & ->). by eexists.
  - intros Hl. assert (x00 ∉ (class ++ [question]) ++ rest) as Hnul'.
    { rewrite !not_elem_of_app, not_elem_of_cons in *. split_and!; try tauto; [done|apply not_elem_of_nil]. }
    pose proof (call_entry_run env l _ post tq st Hok Hal Hnul' Hl) as H.
    rewrite Hf in H by done. cbn [fst snd] in H. rewrite decide_False in H by by destruct class.
    unfold java_call in H. rewrite Hf in H by done. unfold class_name in H.
    assert (dyn_class (class ++ [question]) = true) as Hdyn.
    { unfold dyn_class. by rewrite last_snoc, bool_decide_true. }
    rewrite Hdyn in H. split.
    + destruct (java_run _ _ _ _ _) as [r v]. destruct H as (b' & _ & ->). by eexists.
    + intros L v1 HL Hno Hi. unfold java_run in H. rewrite HL in H.
      specialize (Hno (Some method) v1 ltac:(congruence)).
      destruct (GetStaticMethodID L (Some method) INIT_SIGNATURE v1) as [mid v2]. simpl in Hno. subst mid.
      destruct H as (b' & _ & ->). by eexists.
Qed.

(** ** Instances *)

Abbreviation jstr := String.list_byte_of_string.

(** [p.App] has the superclass [p.B], and its method asks for [p.C]; the state counts
    the definitions. *)
Definition demo_files : gmap (list byte) (option (list byte)) :=
  {[ jstr "p/App.class" := Some (jstr "p.B"); jstr "p/B.class" := Some []; jstr "p/C.class" := Some [] ]}.

#[local] Program Instance demo_runtime : JavaRuntime := {
  jclass_of := list byte;
  java := nat;
  jmethod := list byte;
  files path := if decide (path = jstr "cp") then Directory demo_files else Missing;
  asks bytes := if decide (bytes = jstr "p.B") then [bytes] else [];
  define name _ _ n := (Some name, S n);
  system_load _ n := (None, n);
  getDeclaredMethod _ method n := if decide (method = INIT) then Returns method n else Throws NoSuchMethod n;
  invoke _ arg _ n := AsksFor (jstr "p.C") n (λ r n,
    match r with inl _ => Returns (Some (Z.of_nat (length arg))) n | inr _ => Throws OtherError n end);
}.
Next Obligation.
  intros bytes name. simpl. case_decide as E; [|by intros ?%elem_of_nil]. rewrite E.
  intros ->%list_elem_of_singleton. apply (bool_decide_eq_true_1 _). by vm_compute.
Qed.
Next Obligation. intros c m v. simpl. by case_decide. Qed.
Next Obligation.
  intros m arg tq v. split; [apply (bool_decide_eq_true_1 _); by vm_compute|]. by intros [].
Qed.

Definition demo_vm : @java demo_runtime := 0%nat.

Definition demo_ls : list file_loader := [DirLoader (jstr "cp")].

Lemma class_loading_terminates_witness :
  Forall (λ r, r ≠ OutOfFuel ∧ r ≠ Throw DuplicateClass)
    (requests demo_ls (jstr "p") 4 [jstr "p.App"; jstr "p.B"; jstr "p.C"] (new_loader demo_vm)).1.
Proof.
  pose proof (class_loading_terminates demo_ls (jstr "p") 4 [jstr "p.App"; jstr "p.B"; jstr "p.C"] demo_vm) as H.
  destruct (requests _ _ _ _ _) as [rs s]. apply H; [|vm_compute; lia].
  by repeat constructor; apply (bool_decide_eq_true_1 _); vm_compute.
Defined.

Lemma demo_loaders : loaders (java_split colon (jstr "cp")) = Some demo_ls.
Proof. assert (java_split colon (jstr "cp") = [jstr "cp"]) as -> by (vm_compute; reflexivity). done. Qed.

(** The class is defined after its superclass, and a third one by its method. *)
Lemma reload_reads_the_files_witness :
  let '(r, s') := init 4 (Some (jstr "cp")) (jstr "p.App?,init,abc") None (new_loader demo_vm) in
  r = Val 3 ∧ defined s' !! jstr "p.App" = Some (jstr "p.App", jstr "p.B") ∧
  defined s' !! jstr "p.C" = Some (jstr "p.C", []) ∧ vm s' = 3%nat.
Proof.
  pose proof (reload_reads_the_files 4 (jstr "cp") (jstr "p.App?,init,abc") None demo_vm (jstr "p.App") (jstr "p")
    INIT (jstr "abc") demo_ls (jstr "p.B")) as H.
  assert ((init 4 (Some (jstr "cp")) (jstr "p.App?,init,abc") None (new_loader demo_vm)).1 = Val 3) as Hr
    by (vm_compute; reflexivity).
  assert (vm (init 4 (Some (jstr "cp")) (jstr "p.App?,init,abc") None (new_loader demo_vm)).2 = 3%nat) as Hv
    by (vm_compute; reflexivity).
  assert (defined (init 4 (Some (jstr "cp")) (jstr "p.App?,init,abc") None (new_loader demo_vm)).2 !! jstr "p.C" =
    Some (jstr "p.C", [])) as Hc by (vm_compute; reflexivity).
  assert ((loadClass demo_ls (jstr "p") 4 (jstr "p.App") (new_loader demo_vm)).1 = Val (jstr "p.App")) as Hl
    by (vm_compute; reflexivity).
  destruct (init _ _ _ _ _) as [r s'], (loadClass _ _ _ _ _) as [q s]. simpl in Hr, Hv, Hc, Hl. subst r q.
  destruct H as (H1 & _ & H2 & _);
    [vm_compute; reflexivity|exact demo_loaders|apply (bool_decide_eq_true_1 _); by vm_compute
    |vm_compute; reflexivity|apply Nat.ltb_lt; vm_compute; reflexivity|].
  split_and!; [done|by apply H2|exact Hc|exact Hv].
Defined.

(** Another method, and a class that is not found, make it 1. *)
Example reload_demo :
  (init 4 (Some (jstr "cp")) (jstr "p.App?,start,abc") None (new_loader demo_vm)).1 = Val 1 ∧
  (init 4 (Some (jstr "cp")) (jstr "q.App?,init,abc") None (new_loader demo_vm)).1 = Val 1.
Proof. split; vm_compute; reflexivity. Qed.

(** The JVM remembers what it did, and a failed lookup leaves an exception. *)
#[local] Instance init_jni : JNI := {
  jvm := list (list byte);
  jclass := list byte;
  jmethodID := list byte;
  jstring := list byte;
  JNI_CreateJavaVM _ v := ((JNI_OK, true), v);
  FindClass class v := (Some class, class :: v);
  GetStaticMethodID _ method _ v :=
    if decide (method = Some INIT) then (Some INIT, v) else (None, jstr "NoSuchMethodError" :: v);
  NewStringUTF s v := (s, v);
  CallStaticIntMethod _ m _ _ v := (0, m :: v);
  DeleteLocalRef _ v := ((), v);
  ExceptionOccurred v := (false, v);
  ExceptionDescribe v := ((), v);
}.

Definition demo_cfg : list byte := jstr "p.App?,start,x,y".
Definition java_state : loader :=
  Loader (Heap {[ 0%nat := demo_cfg ++ [x00] ]} 1) true MtxFree [].

Lemma question_mark_restricts_the_entry_witness :
  ∃ st', call_entry (Environ None None true true true) (Some (Ptr 0 0)) None java_state = Ok (inl 1, st') ∧
    j_jvm st' = [jstr "NoSuchMethodError"; LOADER_CLASS] ∧
    entry_of demo_cfg = Some (jstr "p.App", jstr "p", Some (jstr "start"), jstr "x").
Proof.
  destruct (question_mark_restricts_the_entry (J := init_jni) (Environ None None true true true) 0 [] None java_state
              (jstr "p.App") (jstr "start") (jstr "x") (jstr "y")) as (_ & H1 & H2);
    [apply (bool_decide_eq_true_1 _); by vm_compute..|done|done|done|done| |done|].
  { intros i Hi. simpl in *. apply lookup_singleton_ne. lia. }
  destruct H1 as [_ H1]; [reflexivity|].
  destruct (H1 LOADER_CLASS [LOADER_CLASS]) as (st' & He & Hj);
    [reflexivity|intros m v Hm; simpl; by rewrite decide_False|done|].
  exact (ex_intro _ st' (conj He (conj Hj H2))).
Defined.
