(* ===== verification/PyLoader.v ===== *)
(** * PyLoader: src/examples/python/loader.c

    [libffi_init] of the Python runtime starts the interpreter once and then,
    under the global interpreter lock (GIL), imports or reloads the module that
    the configuration names and calls a function of it.  The C API is the class
    [CPython]; its functions may change the state of the interpreter in any way.
    The model counts the references the loader owns.  Lengths of strings are
    integers without wrap-around; what is printed is left out. *)

From S2P Require Import Prelude World Numerals CString.
From stdpp Require Import gmultiset strings.

#[local] Open Scope Z_scope.

(** ** The C API of Python *)

(** Objects are named by numbers. *)
Abbreviation pyobj := nat (only parsing).

(** The functions of Python.h the loader calls, with a NULL argument or result
    as [None].  [Py_Dealloc] is what dropping a reference does to the
    interpreter. *)
Class CPython := {
  py : Type;
  Py_Initialize : py → () * py;
  Py_Finalize : py → () * py;
  Py_Dealloc : pyobj → py → () * py;
  PyImport_ImportModule : list byte → py → option pyobj * py;
  PyImport_GetModule : option pyobj → py → option pyobj * py;
  PyImport_Import : option pyobj → py → option pyobj * py;
  PyImport_ReloadModule : option pyobj → py → option pyobj * py;
  PyObject_GetAttrString : option pyobj → option (list byte) → py → option pyobj * py;
  PyObject_CallObject : option pyobj → option pyobj → py → option pyobj * py;
  PyUnicode_FromString : list byte → py → option pyobj * py;
  PyUnicode_DecodeFSDefault : list byte → py → option pyobj * py;
  PyList_Insert : option pyobj → Z → option pyobj → py → Z * py;
  PyTuple_New : Z → py → option pyobj * py;
  PyTuple_SetItem : option pyobj → Z → option pyobj → py → Z * py;
  PyLong_FromVoidPtr : option ptr → py → option pyobj * py;
  PyLong_AsLong : option pyobj → py → Z * py;
  PyCallable_Check : pyobj → py → bool * py;
  PyErr_Occurred : py → bool * py;
  PyErr_Print : py → () * py;
}.

(** The functions that do not fail but for lack of memory: file names are
    decoded with surrogate escapes. *)
Class CPythonLaws (C : CPython) : Prop := {
  decode_some s v : is_Some (PyUnicode_DecodeFSDefault s v).1;
  tuple_some n v : is_Some (PyTuple_New n v).1;
}.

Definition SYS : list byte := Eval cbv in String.list_byte_of_string "sys"%string.
Definition PATH : list byte := Eval cbv in String.list_byte_of_string "path"%string.

(** What the build and the system decide: whether PY_VERSION_HEX >= 0x03080000,
    and whether [strndup] succeeds. *)
Record config := Config { py38 : bool; alloc_dir : bool }.

(** The parameters of [init]. *)
Record state_t := State {
  s_module : option ptr;
  s_func : option ptr;
  s_cfg : option ptr;
  s_tq : option ptr;
}.

Section Loader.
Context {C : CPython}.

(** The variables of the file, the heap, how often the thread has taken the
    GIL, the references the loader owns, and the interpreter. *)
Record pyloader := PyState {
  y_heap : heap;
  y_main : bool;     (* mainThreadState is not NULL *)
  y_lock : ngx_thread_mutex_t;
  y_gil : nat;
  y_refs : gmultiset pyobj;
  y_py : py;
}.

Definition set_heap (h : heap) (s : pyloader) : pyloader :=
  PyState h (y_main s) (y_lock s) (y_gil s) (y_refs s) (y_py s).
Definition set_main (b : bool) (s : pyloader) : pyloader :=
  PyState (y_heap s) b (y_lock s) (y_gil s) (y_refs s) (y_py s).
Definition set_lock (l : ngx_thread_mutex_t) (s : pyloader) : pyloader :=
  PyState (y_heap s) (y_main s) l (y_gil s) (y_refs s) (y_py s).
Definition set_gil (n : nat) (s : pyloader) : pyloader :=
  PyState (y_heap s) (y_main s) (y_lock s) n (y_refs s) (y_py s).
Definition set_refs (r : gmultiset pyobj) (s : pyloader) : pyloader :=
  PyState (y_heap s) (y_main s) (y_lock s) (y_gil s) r (y_py s).
Definition set_py (v : py) (s : pyloader) : pyloader :=
  PyState (y_heap s) (y_main s) (y_lock s) (y_gil s) (y_refs s) v.

Definition on_heap {A} (m : M heap A) : M pyloader A :=
  λ s, match m (y_heap s) with Ok (a, h) => Ok (a, set_heap h s) | UB f => UB f end.

(** [init_lock] *)
Definition pthread_mutex_lock : M pyloader () :=
  l ← gets y_lock; assume (bool_decide (l = MtxFree)) Deadlock;; modify (set_lock MtxHeld).
Definition pthread_mutex_unlock : M pyloader () :=
  l ← gets y_lock; assume (bool_decide (l = MtxHeld)) BadMutex;; modify (set_lock MtxFree).

Definition run_py {A} (f : py → A * py) : M pyloader A :=
  λ s, Ok ((f (y_py s)).1, set_py (f (y_py s)).2 s).

(** A call of the API; it needs the GIL. *)
Definition api {A} (f : py → A * py) : M pyloader A :=
  g ← gets y_gil; assume (bool_decide (g ≠ 0%nat)) BadMutex;; run_py f.

(** A call that returns a new reference. *)
Definition new_ref (f : py → option pyobj * py) : M pyloader (option pyobj) :=
  o ← api f;
  match o with
  | Some o => r ← gets y_refs; modify (set_refs (r ⊎ {[+ o +]}));; mret (Some o)
  | None => mret None
  end.

(** The loader gives up a reference that it must own. *)
Definition drop_ref (o : pyobj) : M pyloader () :=
  r ← gets y_refs; assume (bool_decide (o ∈ r)) BadFree;; modify (set_refs (r ∖ {[+ o +]})).

Definition Py_DECREF (o : option pyobj) : M pyloader () :=
  o ← from o NullDeref; drop_ref o;; api (Py_Dealloc o).
Definition Py_XDECREF (o : option pyobj) : M pyloader () :=
  match o with None => mret () | Some _ => Py_DECREF o end.

(** [PyTuple_SetItem] takes over the reference to the item. *)
Definition tuple_set (t : option pyobj) (i : Z) (o : option pyobj) : M pyloader Z :=
  (match o with Some o => drop_ref o | None => mret () end);;
  api (PyTuple_SetItem t i o).

Definition PyGILState_Ensure : M pyloader () := g ← gets y_gil; modify (set_gil (S g)).
Definition PyGILState_Release : M pyloader () :=
  g ← gets y_gil; assume (bool_decide (g ≠ 0%nat)) BadMutex;; modify (set_gil (pred g)).

(** ** [init] *)

(** The directory before the last slash and the module behind it. *)
Definition split_dir (c : config) (module : option ptr) : M heap (option ptr * option ptr) :=
  last ← strrchr module slash;
  match last with
  | Some lst =>
      n ← strlen module;
      k ← strlen last;
      dir ← strndup (alloc_dir c) module (n - k);
      mret (dir, Some (ptr_add lst 1))
  | None => mret (None, module)
  end.

(** Whether the module ends in ['?'], which is overwritten. *)
Definition strip_question (module : option ptr) : M heap bool :=
  n ← strlen module;
  module ← from module NullDeref;
  let lastpos := ptr_add module (n - 1) in
  x ← load_byte (Some lastpos);
  if decide (x = question) then store_byte (Some lastpos) x00;; mret true
  else mret false.

(** The block [if (dir != NULL)]. *)
Definition insert_path (dir : option ptr) : M pyloader () :=
  match dir with
  | None => mret ()
  | Some _ =>
      sys ← new_ref (PyImport_ImportModule SYS);
      sys_path ← new_ref (PyObject_GetAttrString sys (Some PATH));
      d ← on_heap (cstr dir);
      folder_path ← new_ref (PyUnicode_FromString d);
      api (PyList_Insert sys_path 0 folder_path);;
      mret ()
  end.

(** The module when it is loaded and not to be reloaded, else a new import. *)
Definition find_module (c : config) (pName : option pyobj) (reload_module : bool) : M pyloader (option pyobj) :=
  if py38 c then
    pModule ← new_ref (PyImport_GetModule pName);
    match pModule with
    | None => new_ref (PyImport_Import pName)
    | Some _ => if reload_module then new_ref (PyImport_ReloadModule pModule) else mret pModule
    end
  else new_ref (PyImport_Import pName).

(** From [pName] to the first [Py_DECREF]. *)
Definition get_module (c : config) (module : option ptr) (reload_module : bool) : M pyloader (option pyobj) :=
  name ← on_heap (cstr module);
  pName ← new_ref (PyUnicode_DecodeFSDefault name);
  pModule ← find_module c pName reload_module;
  Py_DECREF pName;;
  mret pModule.

(** The call of a function that was found. *)
Definition call_func (st : state_t) (pModule pFunc : option pyobj) : M pyloader Z :=
  pArgs ← new_ref (PyTuple_New 2);
  a ← new_ref (PyLong_FromVoidPtr (s_cfg st));
  tuple_set pArgs 0 a;;
  b ← new_ref (PyLong_FromVoidPtr (s_tq st));
  tuple_set pArgs 1 b;;
  pValue ← new_ref (PyObject_CallObject pFunc pArgs);
  Py_DECREF pArgs;;
  match pValue with
  | Some _ => rc ← api (PyLong_AsLong pValue); Py_DECREF pValue;; mret (to_int rc)
  | None => Py_DECREF pFunc;; Py_DECREF pModule;; api PyErr_Print;; mret 1
  end.

(** The block [if (pModule != NULL)] and its [else]. *)
Definition run_module (st : state_t) (pModule : option pyobj) : M pyloader Z :=
  match pModule with
  | Some _ =>
      func ← on_heap (opt_cstr (s_func st));
      pFunc ← new_ref (PyObject_GetAttrString pModule func);
      callable ← (match pFunc with Some f => api (PyCallable_Check f) | None => mret false end);
      if callable : bool then call_func st pModule pFunc
      else
        e ← api PyErr_Occurred;
        (if e : bool then api PyErr_Print else mret ());;
        (* the message prints func *)
        assume (bool_decide (is_Some func)) NullDeref;;
        Py_XDECREF pFunc;;
        Py_DECREF pModule;;
        mret 1
  | None => api PyErr_Print;; mret 1
  end.

Definition init (c : config) (st : state_t) : M pyloader Z :=
  '(dir, module) ← on_heap (split_dir c (s_module st));
  reload_module ← on_heap (strip_question module);
  PyGILState_Ensure;;
  insert_path dir;;
  pModule ← get_module c module reload_module;
  rc ← run_module st pModule;
  PyGILState_Release;;
  mret rc.

(** ** [libffi_init] and the destructor *)

(** [Py_Initialize] takes the GIL and [PyEval_SaveThread] gives it back. *)
Definition start_python : M pyloader () :=
  main ← gets y_main;
  if main : bool then mret () else
  g ← gets y_gil;
  modify (set_gil (S g));;
  api Py_Initialize;;
  modify (set_gil g);;
  modify (set_main true).

(** The three fields of the configuration. *)
Definition parse_config (cfg : option ptr) : M heap (option ptr * option ptr * option ptr) :=
  '(module, str) ← strsep cfg comma;
  '(func, str) ← strsep str comma;
  mret (module, func, str).

Definition libffi_init (c : config) (cfg : option ptr) (tq : option ptr) : M pyloader Z :=
  pthread_mutex_lock;;
  start_python;;
  '(module, func, cfg_str) ← on_heap (parse_config cfg);
  rc ← init c (State module func cfg_str tq);
  pthread_mutex_unlock;;
  mret rc.

(** [PyEval_RestoreThread] takes the GIL of the main thread. *)
Definition ffi_python_fini : M pyloader () :=
  main ← gets y_main;
  if main : bool then
    g ← gets y_gil;
    modify (set_gil (S g));;
    api Py_Finalize;;
    modify (set_gil g)
  else mret ().

(** ** What the loader does, on strings

    The calls of the API in order; the list of each result holds the references
    that are kept for ever. *)

Definition split_path (module : list byte) : option (list byte) * list byte * bool :=
  let slash_at := last_index slash module in
  let name := match slash_at with Some i => drop (S i) module | None => module end in
  let reload := bool_decide (last name = Some question) in
  ((λ i, take i module) <$> slash_at, if reload then removelast name else name, reload).

Definition py_path (dir : option (list byte)) (v : py) : list pyobj * py :=
  match dir with
  | None => ([], v)
  | Some d =>
      let '(sys, v) := PyImport_ImportModule SYS v in
      let '(sys_path, v) := PyObject_GetAttrString sys (Some PATH) v in
      let '(folder_path, v) := PyUnicode_FromString d v in
      let '(_, v) := PyList_Insert sys_path 0 folder_path v in
      (option_list sys ++ option_list sys_path ++ option_list folder_path, v)
  end.

Definition py_find (c : config) (pName : option pyobj) (reload : bool) (v : py) : option pyobj * list pyobj * py :=
  let '(loaded, v) := if py38 c then PyImport_GetModule pName v else (None, v) in
  match loaded with
  | None => let '(m, v) := PyImport_Import pName v in (m, [], v)
  | Some m =>
      if reload then let '(m', v) := PyImport_ReloadModule (Some m) v in (m', [m], v)
      else (Some m, [], v)
  end.

Definition py_import (c : config) (name : list byte) (reload : bool) (v : py) : option pyobj * list pyobj * py :=
  let '(pName, v) := PyUnicode_DecodeFSDefault name v in
  let '(m, kept, v) := py_find c pName reload v in
  (m, kept, match pName with Some n => (Py_Dealloc n v).2 | None => v end).

Definition py_release (os : list pyobj) (v : py) : py := foldl (λ v o, (Py_Dealloc o v).2) v os.

(** The arguments are two integers: the addresses of the third field of the
    configuration and of the queue. *)
Definition py_args (cfg tq : option ptr) (v : py) : option pyobj * py :=
  let '(args, v) := PyTuple_New 2 v in
  let '(a, v) := PyLong_FromVoidPtr cfg v in
  let '(_, v) := PyTuple_SetItem args 0 a v in
  let '(b, v) := PyLong_FromVoidPtr tq v in
  let '(_, v) := PyTuple_SetItem args 1 b v in
  (args, v).

(** A function that returned is kept, and so is its module. *)
Definition py_apply (m f : pyobj) (cfg tq : option ptr) (v : py) : Z * list pyobj * py :=
  let '(args, v) := py_args cfg tq v in
  let '(value, v) := PyObject_CallObject (Some f) args v in
  let v := py_release (option_list args) v in
  match value with
  | Some x => let '(rc, v) := PyLong_AsLong (Some x) v in (to_int rc, [m; f], py_release [x] v)
  | None => (1, [], (PyErr_Print (py_release [f; m] v)).2)
  end.

Definition py_call (m : option pyobj) (func : list byte) (cfg tq : option ptr) (v : py) : Z * list pyobj * py :=
  match m with
  | None => (1, [], (PyErr_Print v).2)
  | Some m =>
      let '(f, v) := PyObject_GetAttrString (Some m) (Some func) v in
      let '(callable, v) := match f with Some f => PyCallable_Check f v | None => (false, v) end in
      match f, callable with
      | Some f, true => py_apply m f cfg tq v
      | _, _ =>
          let '(e, v) := PyErr_Occurred v in
          let v := if e : bool then (PyErr_Print v).2 else v in
          (1, [], py_release (option_list f ++ [m]) v)
      end
  end.

Definition py_init (c : config) (dir : option (list byte)) (name func : list byte) (reload : bool)
    (cfg tq : option ptr) (v : py) : Z * list pyobj * py :=
  let '(kept1, v) := py_path dir v in
  let '(m, kept2, v) := py_import c name reload v in
  let '(rc, kept3, v) := py_call m func cfg tq v in
  (rc, kept1 ++ kept2 ++ kept3, v).

(** ** The calls of the API *)

Definition own (os : list pyobj) (r : gmultiset pyobj) : gmultiset pyobj := r ⊎ list_to_set_disj os.

Lemma own_nil r : own [] r = r.
Proof. unfold own. simpl. multiset_solver. Qed.

Lemma own_app os os' r : own os' (own os r) = own (os ++ os') r.
Proof. unfold own. rewrite list_to_set_disj_app. multiset_solver. Qed.

Lemma own_perm os os' r : os ≡ₚ os' → own os r = own os' r.
Proof. unfold own. by intros ->. Qed.

Lemma py_on_heap_ok {A} (m : M heap A) s a h :
  m (y_heap s) = Ok (a, h) → on_heap m s = Ok (a, set_heap h s).
Proof. unfold on_heap. by intros ->. Qed.

Lemma py_on_heap_ub {A} (m : M heap A) s f : m (y_heap s) = UB f → on_heap m s = UB f.
Proof. unfold on_heap. by intros ->. Qed.

Section Calls.
Context (h : heap) (mn : bool) (lk : ngx_thread_mutex_t) (g : nat).

(** The states while the GIL is held. *)
Abbreviation St := (PyState h mn lk (S g)) (only parsing).

Lemma api_ok {A} (f : py → A * py) r v a v' :
  f v = (a, v') → api f (St r v) = Ok (a, St r v').
Proof.
  intros E. unfold api. erewrite bind_ok by done. erewrite bind_ok by done.
  unfold run_py; simpl. by rewrite E.
Qed.

Lemma read_ok {A} (m : M heap A) r v a : m h = Ok (a, h) → on_heap m (St r v) = Ok (a, St r v).
Proof. unfold on_heap; simpl. by intros ->. Qed.

Lemma new_ref_ok f r v o v' :
  f v = (o, v') → new_ref f (St r v) = Ok (o, St (own (option_list o) r) v').
Proof.
  intros E. unfold new_ref. erewrite bind_ok by by apply api_ok. destruct o as [o|]; simpl.
  - erewrite bind_ok by done. erewrite bind_ok by done. unfold set_refs; simpl.
    unfold mret, M_ret. do 3 f_equal. unfold own. simpl. multiset_solver.
  - by rewrite own_nil.
Qed.

Lemma drop_ref_ok o os r v : drop_ref o (St (own (os ++ [o]) r) v) = Ok ((), St (own os r) v).
Proof.
  unfold drop_ref. erewrite bind_ok by done. erewrite bind_ok.
  2: { apply assume_run, bool_decide_eq_true_2. simpl. unfold own.
       rewrite list_to_set_disj_app. simpl. multiset_solver. }
  unfold modify, set_refs; simpl. do 3 f_equal. unfold own. rewrite list_to_set_disj_app. simpl.
  multiset_solver.
Qed.

Lemma decref_ok o os r v :
  Py_DECREF (Some o) (St (own (os ++ [o]) r) v) = Ok ((), St (own os r) (py_release [o] v)).
Proof.
  unfold Py_DECREF. erewrite bind_ok by done. erewrite bind_ok by by apply drop_ref_ok.
  apply api_ok. unfold py_release; simpl. by destruct (Py_Dealloc o v) as [[] v'].
Qed.

Lemma tuple_set_ok t i o os r v :
  tuple_set t i o (St (own (os ++ option_list o) r) v) =
    Ok ((PyTuple_SetItem t i o v).1, St (own os r) (PyTuple_SetItem t i o v).2).
Proof.
  unfold tuple_set. erewrite bind_ok.
  2: { destruct o as [o|]; simpl; [apply drop_ref_ok|]. by rewrite app_nil_r. }
  apply api_ok. by destruct (PyTuple_SetItem t i o v).
Qed.

(** The next call of a function, with its results named. *)
Ltac call f :=
  let o := fresh "o" in let v := fresh "v" in let E := fresh "E" in
  destruct f as [o v] eqn:E;
  first [ erewrite bind_ok by (apply new_ref_ok; exact E)
        | erewrite bind_ok by (apply api_ok; exact E) ];
  rewrite ?own_app; cbn beta iota.

Lemma insert_path_ok dir d r v :
  opt_cstr dir h = Ok (d, h) →
  let '(kept, v') := py_path d v in insert_path dir (St r v) = Ok ((), St (own kept r) v').
Proof.
  unfold insert_path, py_path. destruct dir as [p|]; simpl.
  2: { intros [= <-]. by rewrite own_nil. }
  intros (d' & -> & Hd)%opt_cstr_inv.
  call (PyImport_ImportModule SYS v). call (PyObject_GetAttrString o (Some PATH) v0).
  erewrite bind_ok by by apply read_ok.
  call (PyUnicode_FromString d' v1). call (PyList_Insert o0 0 o1 v2). by rewrite <-app_assoc.
Qed.

Lemma find_module_ok c pName reload r v :
  let '(m, kept, v') := py_find c pName reload v in
  find_module c pName reload (St r v) = Ok (m, St (own (kept ++ option_list m) r) v').
Proof.
  unfold find_module, py_find. destruct (py38 c); cbn beta iota.
  - call (PyImport_GetModule pName v). destruct o as [m|].
    + destruct reload; [|done]. destruct (PyImport_ReloadModule (Some m) v0) as [m' v1] eqn:E1.
      rewrite (new_ref_ok _ _ _ _ _ E1). by rewrite own_app.
    + destruct (PyImport_Import pName v0) as [m' v1] eqn:E1.
      rewrite (new_ref_ok _ _ _ _ _ E1). by rewrite own_app.
  - destruct (PyImport_Import pName v) as [m' v1] eqn:E1. by rewrite (new_ref_ok _ _ _ _ _ E1).
Qed.

Lemma get_module_ok `{!CPythonLaws C} c module name reload r v :
  cstr module h = Ok (name, h) →
  let '(m, kept, v') := py_import c name reload v in
  get_module c module reload (St r v) = Ok (m, St (own (kept ++ option_list m) r) v').
Proof.
  intros Hn. unfold get_module, py_import. erewrite bind_ok by by apply read_ok.
  pose proof (decode_some name v) as [n En].
  call (PyUnicode_DecodeFSDefault name v). simpl in En. subst o. simpl option_list.
  pose proof (find_module_ok c (Some n) reload (own [n] r) v0) as Ef.
  destruct (py_find c (Some n) reload v0) as [[m kept] v1].
  erewrite bind_ok by exact Ef. rewrite own_app.
  rewrite (own_perm _ ((kept ++ option_list m) ++ [n])) by solve_Permutation.
  by erewrite bind_ok by by apply decref_ok.
Qed.

Lemma call_func_ok `{!CPythonLaws C} st m f r v :
  let '(rc, kept, v') := py_apply m f (s_cfg st) (s_tq st) v in
  call_func st (Some m) (Some f) (St (own [m; f] r) v) = Ok (rc, St (own kept r) v').
Proof.
  unfold call_func, py_apply, py_args.
  pose proof (tuple_some 2 v) as [args Eargs].
  call (PyTuple_New 2 v). simpl in Eargs. subst o. simpl option_list.
  call (PyLong_FromVoidPtr (s_cfg st) v0). erewrite bind_ok by by apply tuple_set_ok.
  destruct (PyTuple_SetItem (Some args) 0 o v1) as [? v2]; cbn [snd].
  call (PyLong_FromVoidPtr (s_tq st) v2). erewrite bind_ok by by apply tuple_set_ok.
  destruct (PyTuple_SetItem (Some args) 1 o0 v3) as [? v4]; cbn [snd].
  call (PyObject_CallObject (Some f) (Some args) v4).
  rewrite (own_perm _ (([m; f] ++ option_list o1) ++ [args])) by solve_Permutation.
  erewrite bind_ok by by apply decref_ok. destruct o1 as [x|]; simpl option_list.
  - call (PyLong_AsLong (Some x) (py_release [args] v5)).
    by erewrite bind_ok by by apply decref_ok.
  - rewrite app_nil_r. erewrite bind_ok by by apply (decref_ok f [m]).
    erewrite bind_ok by by apply (decref_ok m []).
    change (py_release [m] (py_release [f] ?v)) with (py_release [f; m] v).
    destruct (PyErr_Print _) as [? v6] eqn:Ep. by erewrite bind_ok by by apply api_ok.
Qed.

Lemma run_module_ok `{!CPythonLaws C} st m func r v :
  opt_cstr (s_func st) h = Ok (Some func, h) →
  let '(rc, kept, v') := py_call m func (s_cfg st) (s_tq st) v in
  run_module st m (St (own (option_list m) r) v) = Ok (rc, St (own kept r) v').
Proof.
  intros Hf. unfold run_module, py_call. destruct m as [m|]; simpl option_list.
  2: { destruct (PyErr_Print v) as [? v1] eqn:Ep. by erewrite bind_ok by by apply api_ok. }
  erewrite bind_ok by by apply read_ok. call (PyObject_GetAttrString (Some m) (Some func) v).
  destruct o as [f|]; simpl option_list.
  - call (PyCallable_Check f v0). destruct o; [apply call_func_ok|].
    call (PyErr_Occurred v1).
    erewrite (bind_ok _ _ _ () (St (own ([m] ++ [f]) r) (if o then (PyErr_Print v2).2 else v2))).
    2: { destruct o; [|done]. apply api_ok. by destruct (PyErr_Print v2) as [[] ?]. }
    erewrite bind_ok by done. erewrite bind_ok by by apply (decref_ok f [m]).
    by erewrite bind_ok by by apply (decref_ok m []).
  - erewrite bind_ok by done. call (PyErr_Occurred v0).
    erewrite (bind_ok _ _ _ () (St (own ([m] ++ []) r) (if o then (PyErr_Print v1).2 else v1))).
    2: { destruct o; [|done]. apply api_ok. by destruct (PyErr_Print v1) as [[] ?]. }
    erewrite bind_ok by done. erewrite bind_ok by done.
    by erewrite bind_ok by by apply (decref_ok m []).
Qed.


End Calls.

(** ** The name of the module *)

Definition copy_dir (dir : option (list byte)) (h : heap) : heap :=
  match dir with
  | None => h
  | Some d => Heap (<[next_block h := d ++ [x00]]> (blocks h)) (S (next_block h))
  end.

(** The test reads the byte [x] before the end of the name behind [pre]. *)
Lemma strip_question_run h l pre name ini x post :
  x00 ∉ name → pre ++ name = ini ++ [x] → blocks h !! l = Some (pre ++ name ++ x00 :: post) →
  strip_question (Some (Ptr l (len pre))) h =
    if decide (x = question) then Ok (true, set_block l (ini ++ x00 :: x00 :: post) h) else Ok (false, h).
Proof.
  intros Hn Hi Hl. pose proof Hl as Hl'. rewrite app_assoc, Hi, <-app_assoc in Hl'.
  unfold strip_question. erewrite bind_ok.
  2: { unfold strlen. erewrite bind_ok; [done|]. by eapply cstr_ok. }
  erewrite bind_ok by done. unfold ptr_add; cbn [p_blk p_off].
  assert (len pre + (len name - 1) = len ini) as ->.
  { pose proof (f_equal len Hi) as Hlen. rewrite !len_app in Hlen. change (len [x]) with 1 in Hlen. lia. }
  erewrite bind_ok by by eapply load_byte_ok. case_decide; [|done].
  by erewrite bind_ok by by eapply store_byte_ok.
Qed.

Lemma strip_question_ok h l pre name post :
  x00 ∉ name → pre ++ name ≠ [] → (name = [] → last pre ≠ Some question) →
  blocks h !! l = Some (pre ++ name ++ x00 :: post) →
  let reload := bool_decide (last name = Some question) in
  let name' := if reload then removelast name else name in
  ∃ z tail, pre ++ name' ++ x00 :: tail = z ++ x00 :: post ∧ length z = length (pre ++ name) ∧
    x00 ∉ name' ∧
    strip_question (Some (Ptr l (len pre))) h =
      Ok (reload, set_block l (pre ++ name' ++ x00 :: tail) h).
Proof.
  intros Hn Hne Hlast Hl reload name'. unfold name', reload.
  destruct (decide (name = [])) as [->|Hname].
  - exists (pre ++ []), post. split; [by rewrite <-app_assoc|]. split; [done|]. split; [done|].
    rewrite app_nil_r in Hne. destruct (exists_last Hne) as (ini & x & ->).
    rewrite (strip_question_run _ _ _ [] ini x post Hn (app_nil_r _) Hl).
    rewrite decide_False; [by rewrite set_block_id|].
    intros ->. by apply (Hlast eq_refl), last_snoc.
  - destruct (exists_last Hname) as (ini & x & ->). rewrite last_snoc, removelast_last.
    rewrite (strip_question_run _ _ _ (ini ++ [x]) (pre ++ ini) x post Hn (app_assoc _ _ _) Hl).
    destruct (decide (x = question)) as [->|Hx].
    + rewrite bool_decide_true by done. exists (pre ++ ini ++ [x00]), (x00 :: post).
      split; [by rewrite <-!app_assoc|]. split; [by rewrite !length_app|].
      split; [|by rewrite <-app_assoc]. intros Hin. apply Hn. apply elem_of_app. by left.
    + rewrite bool_decide_false by congruence. exists (pre ++ ini ++ [x]), post.
      split; [by rewrite <-!app_assoc|]. split; [done|]. split; [done|]. by rewrite set_block_id.
Qed.

Lemma split_dir_ok c h l m post :
  alloc_dir c = true → heap_ok h → x00 ∉ m → blocks h !! l = Some (m ++ x00 :: post) →
  let '(dir, _, _) := split_path m in
  let pre := match last_index slash m with Some i => take (S i) m | None => [] end in
  ∃ dirp, split_dir c (Some (Ptr l 0)) h = Ok ((dirp, Some (Ptr l (len pre))), copy_dir dir h) ∧
    ∀ b, opt_cstr dirp (set_block l b (copy_dir dir h)) = Ok (dir, set_block l b (copy_dir dir h)).
Proof.
  intros Ha Hok Hm Hl. unfold split_path. cbv zeta. unfold split_dir, strrchr.
  change 0 with (len []). erewrite bind_ok.
  2: { erewrite bind_ok; [done|]. by eapply (cstr_ok _ _ [] m post). }
  destruct (last_index slash m) as [i|] eqn:Ei; simpl.
  2: { exists None. done. }
  destruct (last_index_app _ _ _ Ei) as [Hi Hm2].
  assert (len (take i m) = Z.of_nat i) as Htake by (unfold len; rewrite length_take; lia).
  assert (l ≠ next_block h) as Hlk by by (intros ->; rewrite Hok in Hl).
  exists (Some (Ptr (next_block h) 0)). split.
  - erewrite bind_ok. 2: { unfold strlen. erewrite bind_ok; [done|]. by apply (cstr_ok _ _ [] m post). }
    erewrite bind_ok.
    2: { unfold strlen, ptr_add; cbn [p_blk p_off]. change (len [] + Z.of_nat i) with (Z.of_nat i).
         rewrite <-Htake. erewrite bind_ok; [done|].
         eapply (cstr_ok _ _ (take i m) (drop i m) post).
         - rewrite <-(take_drop i m), not_elem_of_app in Hm. by destruct Hm.
         - by rewrite app_assoc, take_drop. }
    assert (len m - len (drop i m) = Z.of_nat i) as -> by (unfold len; rewrite length_drop; lia).
    erewrite bind_ok.
    2: { unfold strndup. erewrite bind_ok; [|by apply (cstr_ok _ _ [] m post)].
         rewrite Ha, Nat2Z.id. by erewrite bind_ok by done. }
    unfold ptr_add; simpl. unfold mret, M_ret. do 5 f_equal. unfold len.
    rewrite length_take. change (Z.of_nat (length [])) with 0. lia.
  - intros b. unfold opt_cstr. change 0 with (len []). erewrite bind_ok; [done|].
    eapply (cstr_ok _ _ [] (take i m) []).
    + rewrite <-(take_drop i m), not_elem_of_app in Hm. by destruct Hm.
    + rewrite lookup_set_block_ne by done. apply lookup_insert_eq.
Qed.

(** ** The whole initialisation *)

Lemma copy_dir_lookup h dir l b : heap_ok h → blocks h !! l = Some b → blocks (copy_dir dir h) !! l = Some b.
Proof.
  intros Hok Hl. destruct dir; [|done]. cbn [copy_dir blocks].
  rewrite lookup_insert_ne; [done|]. intros <-. by rewrite Hok in Hl.
Qed.

(** The parts of [m] around its last slash. *)
Lemma split_path_parts m :
  let pre := match last_index slash m with Some i => take (S i) m | None => [] end in
  let name := match last_index slash m with Some i => drop (S i) m | None => m end in
  pre ++ name = m ∧ last pre ≠ Some question.
Proof.
  destruct (last_index slash m) as [i|] eqn:Ei; simpl; [|done].
  split; [apply take_drop|]. destruct (last_index_app _ _ _ Ei) as [Hi Hm].
  assert (m !! i = Some slash) as Hs.
  { rewrite Hm, lookup_app_r by (rewrite length_take; lia). rewrite length_take.
    by replace (i - i `min` length m)%nat with 0%nat by lia. }
  change (last (take (S i) m) ≠ Some question). by rewrite (take_S_r _ _ _ Hs), last_snoc.
Qed.

Lemma init_ok `{!CPythonLaws C} c h l m post fp func cp tq mn lk g r v :
  alloc_dir c = true → heap_ok h → m ≠ [] → x00 ∉ m → blocks h !! l = Some (m ++ x00 :: post) →
  (∀ h' m', length m' = length m → blocks h' !! l = Some (m' ++ x00 :: post) →
    opt_cstr fp h' = Ok (Some func, h')) →
  let '(dir, name, reload) := split_path m in
  let '(rc, kept, v') := py_init c dir name func reload cp tq v in
  ∃ m', length m' = length m ∧
    init c (State (Some (Ptr l 0)) fp cp tq) (PyState h mn lk g r v) =
      Ok (rc, PyState (set_block l (m' ++ x00 :: post) (copy_dir dir h)) mn lk g (own kept r) v').
Proof.
  intros Ha Hok Hne Hm Hl Hfunc.
  pose proof (split_dir_ok c h l m post Ha Hok Hm Hl) as Hd.
  destruct (split_path_parts m) as [Hparts Hq]. unfold split_path in *. cbv zeta in *.
  set (dir := (λ i, take i m) <$> last_index slash m) in *.
  set (pre := match last_index slash m with Some i => take (S i) m | None => [] end) in *.
  set (name := match last_index slash m with Some i => drop (S i) m | None => m end) in *.
  destruct Hd as (dirp & Ed & Hread).
  pose proof (copy_dir_lookup h dir l _ Hok Hl) as Hl1. rewrite <-Hparts, <-app_assoc in Hl1.
  destruct (strip_question_ok (copy_dir dir h) l pre name post) as (z & tail & Hz & Hzl & Hn & Es).
  { rewrite <-Hparts in Hm. set_solver. }
  { by rewrite Hparts. }
  { done. }
  { done. }
  set (reload := bool_decide (last name = Some question)) in *.
  set (name' := if reload then removelast name else name) in *.
  set (h2 := set_block l (pre ++ name' ++ x00 :: tail) (copy_dir dir h)) in *.
  assert (blocks h2 !! l = Some (pre ++ name' ++ x00 :: tail)) as Hl2 by apply lookup_set_block.
  unfold init, py_init. cbn [s_module].
  erewrite bind_ok by by apply py_on_heap_ok. cbn beta iota.
  erewrite bind_ok by by apply py_on_heap_ok. unfold set_heap; cbn [y_heap y_main y_lock y_gil y_refs y_py].
  erewrite bind_ok by by (unfold PyGILState_Ensure; erewrite bind_ok by done).
  unfold set_gil; cbn [y_heap y_main y_lock y_gil y_refs y_py].
  pose proof (insert_path_ok h2 mn lk g dirp dir r v (Hread _)) as Ei.
  destruct (py_path dir v) as [kept1 v1]. erewrite bind_ok by exact Ei.
  pose proof (get_module_ok h2 mn lk g c (Some (Ptr l (len pre))) name' reload (own kept1 r) v1
    (cstr_ok _ _ _ _ _ Hn Hl2)) as Eg.
  destruct (py_import c name' reload v1) as [[mo kept2] v2]. erewrite bind_ok by exact Eg.
  rewrite <-own_app.
  pose proof (run_module_ok h2 mn lk g (State (Some (Ptr l 0)) fp cp tq) mo func
    (own kept2 (own kept1 r)) v2) as Er. cbn [s_func s_cfg s_tq] in Er.
  destruct (py_call mo func cp tq v2) as [[rc kept3] v3]. rewrite Hz in Hl2.
  assert (length z = length m) as Hzm by by rewrite <-Hparts.
  erewrite bind_ok by (apply Er; by eapply Hfunc). exists z. split; [done|].
  erewrite bind_ok by by (unfold PyGILState_Release; erewrite bind_ok by done; erewrite bind_ok by done).
  unfold set_gil; cbn [y_heap y_main y_lock y_gil y_refs y_py pred].
  by rewrite <-Hz, !own_app.
Qed.

Lemma copy_dir_set_block dir l b h :
  (l < next_block h)%nat → copy_dir dir (set_block l b h) = set_block l b (copy_dir dir h).
Proof.
  intros Hl. destruct dir; [|done]. unfold copy_dir, set_block, set_blocks; simpl. f_equal.
  apply insert_insert_ne. lia.
Qed.

Lemma heap_ok_lt h l b : heap_ok h → blocks h !! l = Some b → (l < next_block h)%nat.
Proof.
  intros Hok Hl. destruct (decide (l < next_block h)%nat); [done|].
  rewrite Hok in Hl by lia. done.
Qed.

(** The first steps of [libffi_init], from outside lock and GIL. *)
Lemma start_python_ok h mn r v :
  (pthread_mutex_lock;; start_python) (PyState h mn MtxFree 0 r v) =
    Ok ((), PyState h true MtxHeld 0 r (if mn then v else (Py_Initialize v).2)).
Proof.
  erewrite bind_ok by by (unfold pthread_mutex_lock; erewrite bind_ok by done; erewrite bind_ok by done).
  unfold start_python, set_lock; cbn [y_heap y_main y_lock y_gil y_refs y_py].
  erewrite bind_ok by done. destruct mn; [done|]. cbn [y_main]. cbn iota.
  erewrite bind_ok by done. erewrite bind_ok by done. destruct (Py_Initialize v) as [[] v'] eqn:E.
  erewrite bind_ok by by apply (api_ok h false MtxHeld 0). by erewrite bind_ok by done.
Qed.

(** Both separators are overwritten; the fields are read back as long as the
    block changes in place and in the first field only. *)
Lemma parse_config_ok h l s post :
  x00 ∉ s → blocks h !! l = Some (s ++ x00 :: post) →
  let third := (λ r, Ptr l (len s - len r)) <$> (fields s).2 in
  ∃ t func_ptr, length ((fields s).1.1 ++ x00 :: t) = length (s ++ x00 :: post) ∧
    parse_config (Some (Ptr l 0)) h =
      Ok ((Some (Ptr l 0), func_ptr, third), set_block l ((fields s).1.1 ++ x00 :: t) h) ∧
    ∀ h' m', length m' = length (fields s).1.1 → blocks h' !! l = Some (m' ++ x00 :: t) →
      opt_cstr func_ptr h' = Ok ((fields s).1.2, h').
Proof.
  intros Hs Hl third. unfold third. rewrite <-(third_ptr_offset l s). unfold fields; cbn [fst snd].
  destruct (cut_bytes_app comma s post Hs) as (t & Et & El & Ht).
  pose proof (strsep_ok h l [] s post comma Hs ltac:(done) Hl) as E1.
  rewrite !app_nil_l, Et in E1. change (len []) with 0 in E1.
  set (m := (cut comma s).1) in *. set (rest := (cut comma s).2) in *.
  assert ((λ _ : list byte, Ptr l (0 + (len m + 1))) <$> rest = second_ptr l (m ++ [x00]) rest) as E2
    by (unfold second_ptr; rewrite len_app; done).
  rewrite E2 in E1.
  destruct (strsep_rest (set_block l (m ++ x00 :: t) h) l (m ++ [x00]) t rest post)
    as (t' & Ht' & E3 & Hread).
  { rewrite lookup_set_block, <-app_assoc. done. }
  { intros r' Hr. by apply Ht. }
  rewrite set_block_twice, <-app_assoc in E3. simpl app in E3.
  exists t', (second_ptr l (m ++ [x00]) rest). split.
  { apply (f_equal length) in Et. rewrite !length_app in *. simpl in *. lia. }
  split.
  { unfold parse_config. erewrite bind_ok by exact E1. cbn beta iota. by erewrite bind_ok by exact E3. }
  intros h' m' Hm' Hh. apply (Hread h' (m' ++ [x00])).
  - rewrite !len_app. unfold len. by rewrite Hm'.
  - by rewrite <-app_assoc.
Qed.

(** C35: on a configuration with a module and a function, [libffi_init] starts
    the interpreter when it does not run, adds the directory before the last
    slash to the path, imports the module (or reloads it, when the name ends in
    ['?']), calls the function with the addresses of the third field and of the
    queue, and returns its result, or 1 when something of that failed.  Lock and
    GIL are free again.  It keeps the copy of the directory, and the references
    of the third result of [py_init]: those to [sys], its path and the directory,
    to a module that was reloaded, and to a function that returned and its
    module. *)
Theorem libffi_init_runs `{!CPythonLaws C} c l s post func tq st :
  alloc_dir c = true → heap_ok (y_heap st) → y_lock st = MtxFree → y_gil st = 0%nat → x00 ∉ s →
  blocks (y_heap st) !! l = Some (s ++ x00 :: post) →
  (fields s).1.1 ≠ [] → (fields s).1.2 = Some func →
  let '(dir, name, reload) := split_path (fields s).1.1 in
  let v := if y_main st then y_py st else (Py_Initialize (y_py st)).2 in
  let '(rc, kept, v') :=
    py_init c dir name func reload ((λ r, Ptr l (len s - len r)) <$> (fields s).2) tq v in
  ∃ b, length b = length (s ++ x00 :: post) ∧
    libffi_init c (Some (Ptr l 0)) tq st =
      Ok (rc, PyState (set_block l b (copy_dir dir (y_heap st))) true MtxFree 0 (own kept (y_refs st)) v').
Proof.
  intros Ha Hok Hlock Hgil Hs Hl. destruct st as [h mn lk g r v0].
  cbn [y_heap y_main y_lock y_gil y_refs y_py] in *. subst lk g.
  intros Hne Hfunc. destruct (parse_config_ok h l s post Hs Hl) as (t & fp & Ht & Ep & Hread).
  set (m := (fields s).1.1) in *. set (cp := _ <$> (fields s).2) in *. rewrite Hfunc in Hread.
  set (h2 := set_block l (m ++ x00 :: t) h) in *.
  assert (x00 ∉ m) as Hm by by destruct (cut_nul comma s Hs).
  assert (heap_ok h2) as Hok2 by (apply heap_ok_set_block; [done|by eexists]).
  pose proof (init_ok c h2 l m t fp func cp tq true MtxHeld 0 r (if mn then v0 else (Py_Initialize v0).2)
    Ha Hok2 Hne Hm (lookup_set_block _ _ _) Hread) as Ei.
  destruct (split_path m) as [[dir name] reload]. destruct (py_init _ _ _ _ _ _ _ _) as [[rc kept] v'].
  destruct Ei as (m' & Hm' & Ei). exists (m' ++ x00 :: t).
  split; [rewrite <-Ht, !length_app, Hm'; done|].
  unfold libffi_init. rewrite <-(bind_assoc pthread_mutex_lock).
  erewrite bind_ok by apply start_python_ok.
  erewrite bind_ok by by apply py_on_heap_ok. cbn beta iota.
  unfold set_heap; cbn [y_heap y_main y_lock y_gil y_refs y_py].
  erewrite bind_ok by exact Ei.
  erewrite bind_ok by by (unfold pthread_mutex_unlock; erewrite bind_ok by done; erewrite bind_ok by done).
  unfold set_lock; cbn [y_heap y_main y_lock y_gil y_refs y_py]. unfold h2.
  rewrite copy_dir_set_block by by eapply heap_ok_lt. by rewrite set_block_twice.
Qed.

(** Without a configuration, or with one whose module is empty,
    [libffi_init] has undefined behaviour: it looks for a slash in NULL, or reads
    and perhaps overwrites the byte before the buffer. *)
Theorem bad_configurations c tq st :
  y_lock st = MtxFree → y_gil st = 0%nat →
  libffi_init c None tq st = UB NullDeref ∧
  ∀ l s post, x00 ∉ s → blocks (y_heap st) !! l = Some (s ++ x00 :: post) → (fields s).1.1 = [] →
    libffi_init c (Some (Ptr l 0)) tq st = UB OutOfBounds.
Proof.
  destruct st as [h mn lk g r v]; cbn [y_lock y_gil y_heap]. intros -> ->.
  assert (∀ cfg f, (∀ s, y_heap s = h →
    ('(module, func, cfg_str) ← on_heap (parse_config cfg);
     rc ← init c (State module func cfg_str tq); pthread_mutex_unlock;; mret rc) s = UB f) →
    libffi_init c cfg tq (PyState h mn MtxFree 0 r v) = UB f) as Hstart.
  { intros cfg f Hf. unfold libffi_init. rewrite <-(bind_assoc pthread_mutex_lock).
    erewrite bind_ok by apply start_python_ok. by apply Hf. }
  split; [by apply Hstart|]. intros l s post Hs Hl He. apply Hstart. intros st <-.
  destruct (parse_config_ok _ l s post Hs Hl) as (t & fp & Ht & Ep & _). rewrite He in Ep.
  erewrite bind_ok by by apply py_on_heap_ok. cbn beta iota. apply bind_ub. unfold init. cbn [s_module].
  set (h2 := set_block l _ (y_heap st)) in *.
  assert (blocks h2 !! l = Some (x00 :: t)) as Hl2 by apply lookup_set_block.
  assert (cstr (Some (Ptr l 0)) h2 = Ok ([], h2)) as Hc
    by by apply (cstr_ok h2 l [] [] t (not_elem_of_nil _)).
  erewrite bind_ok.
  2: { apply py_on_heap_ok. unfold split_dir, strrchr. erewrite bind_ok by by erewrite bind_ok by exact Hc.
       done. }
  cbn beta iota. apply bind_ub, py_on_heap_ub. unfold strip_question.
  erewrite bind_ok by by (unfold strlen; erewrite bind_ok by exact Hc).
  erewrite bind_ok by done. apply bind_ub. unfold load_byte. apply bind_ub.
  unfold tail_at, bytes_at, ptr_add; cbn [p_blk p_off set_heap y_heap]. by rewrite Hl2.
Qed.

(** ** The life of the interpreter *)

(** [m] leaves [mainThreadState], [init_lock] and the GIL as they are. *)
Definition balanced {A} (m : M pyloader A) : Prop :=
  ∀ s a s', m s = Ok (a, s') → y_main s' = y_main s ∧ y_lock s' = y_lock s ∧ y_gil s' = y_gil s.

Lemma balanced_ret {A} (a : A) : balanced (mret a).
Proof. by intros s b s' [= <- <-]. Qed.

Lemma balanced_bind {A B} (m : M pyloader A) (k : A → M pyloader B) :
  balanced m → (∀ a, balanced (k a)) → balanced (m ≫= k).
Proof.
  intros Hm Hk s b s'. unfold mbind, M_bind. destruct (m s) as [[a s1]|] eqn:E; [|done].
  intros (-> & -> & ->)%Hk. by eapply Hm.
Qed.

Lemma balanced_gets {A} (f : pyloader → A) : balanced (gets f).
Proof. by intros s b s' [= <- <-]. Qed.

Lemma balanced_assume b f : balanced (assume b f).
Proof. destruct b; [apply balanced_ret|]. by intros s a s' [=]. Qed.

Lemma balanced_from {A} (o : option A) f : balanced (from o f).
Proof. destruct o; [apply balanced_ret|]. by intros s b s' [=]. Qed.

Lemma balanced_set_refs r : balanced (modify (set_refs r)).
Proof. by intros s b s' [= <- <-]. Qed.

Lemma balanced_run_py {A} (f : py → A * py) : balanced (run_py f).
Proof. by intros s b s' [= <- <-]. Qed.

Lemma balanced_on_heap {A} (m : M heap A) : balanced (on_heap m).
Proof.
  intros s a s'. unfold on_heap. destruct (m (y_heap s)) as [[b h]|]; [|done]. by intros [= <- <-].
Qed.

#[local] Hint Resolve balanced_ret balanced_gets balanced_assume balanced_from balanced_set_refs
  balanced_run_py balanced_on_heap : ffi.

(** Follows the statements of a function. *)
Ltac balance :=
  repeat first [ solve [eauto with ffi] | apply balanced_bind | progress intros | case_match ].

Lemma balanced_api {A} (f : py → A * py) : balanced (api f).
Proof. unfold api. balance. Qed.
#[local] Hint Resolve balanced_api : ffi.

Lemma balanced_new_ref f : balanced (new_ref f).
Proof. unfold new_ref. balance. Qed.

Lemma balanced_decref o : balanced (Py_DECREF o).
Proof. unfold Py_DECREF, drop_ref. balance. Qed.
#[local] Hint Resolve balanced_new_ref balanced_decref : ffi.

Lemma balanced_body c st dir module reload :
  balanced (insert_path dir;; (pModule ← get_module c module reload; run_module st pModule)).
Proof.
  unfold insert_path, get_module, find_module, run_module, call_func, tuple_set, drop_ref, Py_XDECREF.
  balance.
Qed.

(** Neither inside [libffi_init] nor with the GIL. *)
Definition idle (s : pyloader) : Prop := y_lock s = MtxFree ∧ y_gil s = 0%nat.

Lemma init_balanced c st : balanced (init c st).
Proof.
  unfold init. apply balanced_bind; [apply balanced_on_heap|]. intros [dir module].
  apply balanced_bind; [apply balanced_on_heap|]. intros reload s a s'.
  pose proof (balanced_body c st dir module reload) as Hb.
  rewrite (bind_ok _ _ _ () (set_gil (S (y_gil s)) s)) by done.
  unfold mbind, M_bind in *. specialize (Hb (set_gil (S (y_gil s)) s)). cbv beta in Hb.
  destruct (insert_path dir _) as [[[] s1]|]; [|done].
  destruct (get_module c module reload s1) as [[m s2]|]; [|done].
  destruct (run_module st m s2) as [[rc s3]|]; [|done].
  destruct (Hb rc s3 eq_refl) as (Hm & Hl & Hg). cbn [set_gil y_main y_lock y_gil] in *.
  unfold PyGILState_Release, gets, assume, modify, mbind, M_bind; simpl. rewrite Hg; simpl.
  intros [= <- <-]. done.
Qed.

Lemma libffi_init_idle c cfg tq s rc s' :
  idle s → libffi_init c cfg tq s = Ok (rc, s') → idle s' ∧ y_main s' = true.
Proof.
  destruct s as [h mn lk g r v]. intros [Hl Hg]; cbn [y_lock y_gil] in *. subst lk g.
  unfold libffi_init. rewrite <-(bind_assoc pthread_mutex_lock).
  erewrite bind_ok by apply start_python_ok. set (s1 := PyState _ _ _ _ _ _).
  assert (∀ (m : M pyloader Z), balanced m → (rc ← m; pthread_mutex_unlock;; mret rc) s1 = Ok (rc, s') →
    idle s' ∧ y_main s' = true) as Hend.
  { intros m Hm. unfold mbind, M_bind. destruct (m s1) as [[rc1 s2]|] eqn:E; [|done].
    destruct (Hm _ _ _ E) as (Hm2 & Hl2 & Hg2). unfold pthread_mutex_unlock, gets, assume, modify.
    unfold mbind, M_bind; simpl. rewrite Hl2; simpl. intros [= <- <-]. split; [split; [done|exact Hg2]|exact Hm2]. }
  intros E. apply (Hend (x ← on_heap (parse_config cfg);
    init c (State x.1.1 x.1.2 x.2 tq))).
  - apply balanced_bind; [apply balanced_on_heap|]. intros. apply init_balanced.
  - rewrite <-E, bind_assoc. unfold mbind, M_bind.
    by destruct (on_heap _ s1) as [[[[? ?] ?] ?]|].
Qed.

(** A worker that loads several runtimes one after the other. *)
Fixpoint load_all (c : config) (calls : list (option ptr * option ptr)) : M pyloader (list Z) :=
  match calls with
  | [] => mret []
  | (cfg, tq) :: calls => rc ← libffi_init c cfg tq; rcs ← load_all c calls; mret (rc :: rcs)
  end.

(** C36: whatever the API does and the calls return, between calls of
    [libffi_init] lock and GIL are free, and the destructor, which cannot
    deadlock or lack the GIL, finalizes the interpreter exactly when a call has
    started it. *)
Theorem interpreter_life c calls st rcs st' :
  idle st → y_main st = false → load_all c calls st = Ok (rcs, st') →
  idle st' ∧ length rcs = length calls ∧
  ffi_python_fini st' =
    Ok ((), if decide (calls = []) then st' else set_py (Py_Finalize (y_py st')).2 st').
Proof.
  intros Hi Hmain Hrun.
  assert (idle st' ∧ length rcs = length calls ∧ y_main st' = (y_main st || bool_decide (calls ≠ [])))
    as (Hi' & Hlen & Hm).
  { clear Hmain. revert st rcs Hi Hrun. induction calls as [|[cfg tq] calls IH]; intros st rcs Hi; simpl.
    - intros [= <- <-]. by rewrite orb_false_r.
    - unfold mbind, M_bind. destruct (libffi_init c cfg tq st) as [[rc s1]|] eqn:E1; [|done].
      destruct (load_all c calls s1) as [[rcs1 s2]|] eqn:E2; [|done]. intros [= <- <-].
      destruct (libffi_init_idle _ _ _ _ _ _ Hi E1) as [Hi1 Hm1].
      destruct (IH _ _ Hi1 E2) as (Hi2 & Hl2 & Hm2). rewrite Hm1 in Hm2. simpl.
      by rewrite Hl2, Hm2, orb_true_r. }
  split; [done|]. split; [done|]. rewrite Hmain in Hm. simpl in Hm.
  destruct st' as [h mn lk g r v], Hi' as [Hlk Hg]; cbn [y_main y_lock y_gil y_py] in *. subst.
  unfold ffi_python_fini. erewrite bind_ok by done. cbn [y_main].
  destruct (decide (calls = [])) as [->|Hne]; [done|]. rewrite bool_decide_true by done.
  erewrite bind_ok by done. erewrite bind_ok by done. destruct (Py_Finalize v) as [[] v'] eqn:E.
  by erewrite bind_ok by by apply (api_ok h true MtxFree 0).
Qed.

End Loader.

(** ** Instances *)

Module Demo.

Definition bytes : string → list byte := String.list_byte_of_string.

(** An interpreter in which every module has the function [f], which returns 0;
    its state records the names it got. *)
#[local] Instance demo_python : CPython := {
  py := list (list byte);
  Py_Initialize v := ((), v ++ [bytes "start"]);
  Py_Finalize v := ((), v ++ [bytes "stop"]);
  Py_Dealloc _ v := ((), v);
  PyImport_ImportModule s v := (Some 1%nat, v ++ [s]);
  PyImport_GetModule _ v := (None, v);
  PyImport_Import _ v := (Some 6%nat, v);
  PyImport_ReloadModule m v := (m, v);
  PyObject_GetAttrString _ s v :=
    (if decide (s = Some PATH) then Some 2%nat else if decide (s = Some (bytes "f")) then Some 5%nat else None, v);
  PyObject_CallObject _ _ v := (Some 9%nat, v);
  PyUnicode_FromString s v := (Some 3%nat, v ++ [s]);
  PyUnicode_DecodeFSDefault s v := (Some 4%nat, v ++ [s]);
  PyList_Insert _ _ _ v := (0, v);
  PyTuple_New _ v := (Some 7%nat, v);
  PyTuple_SetItem _ _ _ v := (0, v);
  PyLong_FromVoidPtr _ v := (Some 8%nat, v);
  PyLong_AsLong _ v := (0, v);
  PyCallable_Check _ v := (true, v);
  PyErr_Occurred v := (true, v);
  PyErr_Print v := ((), v);
}.

#[local] Instance demo_python_laws : CPythonLaws demo_python.
Proof. split; intros; by eexists. Qed.

Definition py311 : config := Config true true.

Definition cfg_heap (s : string) : heap := Heap {[ 0%nat := bytes s ++ [x00] ]} 1.

Definition cold (s : string) : pyloader := PyState (cfg_heap s) false MtxFree 0 ∅ [].

Lemma py_cfg_heap_ok s : heap_ok (cfg_heap s).
Proof. intros l Hl. simpl in *. apply lookup_singleton_ne. lia. Qed.

Lemma libffi_init_runs_witness :
  ∃ b, length b = 9%nat ∧
    libffi_init py311 (Some (Ptr 0 0)) None (cold "d/m?,f,x") =
      Ok (0, PyState (set_block 0 b (copy_dir (Some (bytes "d")) (cfg_heap "d/m?,f,x"))) true MtxFree 0
               (own [1; 2; 3; 6; 5]%nat ∅)
               [bytes "start"; bytes "sys"; bytes "d"; bytes "m"]).
Proof.
  refine (libffi_init_runs py311 0 (bytes "d/m?,f,x") [] (bytes "f") None (cold "d/m?,f,x")
    eq_refl (py_cfg_heap_ok _) eq_refl eq_refl _ eq_refl _ eq_refl); [|discriminate].
  apply (bool_decide_eq_true_1 _). by vm_compute.
Defined.

Lemma bad_configurations_witness :
  libffi_init py311 None None (cold ",f,x") = UB NullDeref ∧
  libffi_init py311 (Some (Ptr 0 0)) None (cold ",f,x") = UB OutOfBounds.
Proof.
  split.
  - apply (bad_configurations py311 None (cold ",f,x") eq_refl eq_refl).
  - apply (proj2 (bad_configurations py311 None (cold ",f,x") eq_refl eq_refl) 0%nat (bytes ",f,x") []);
      [|reflexivity..]. apply (bool_decide_eq_true_1 _). by vm_compute.
Defined.

Definition loaded : pyloader :=
  match load_all py311 [(Some (Ptr 0 0), None)] (cold "m,f,x") with Ok (_, s) => s | UB _ => cold "" end.

Lemma interpreter_life_witness :
  load_all py311 [(Some (Ptr 0 0), None)] (cold "m,f,x") = Ok ([0], loaded) ∧
  ffi_python_fini loaded = Ok ((), set_py (y_py loaded ++ [bytes "stop"]) loaded).
Proof.
  assert (load_all py311 [(Some (Ptr 0 0), None)] (cold "m,f,x") = Ok ([0], loaded)) as E
    by (vm_compute; reflexivity).
  split; [exact E|].
  destruct (interpreter_life py311 [(Some (Ptr 0 0), None)] (cold "m,f,x") [0] loaded
    (conj eq_refl eq_refl) eq_refl E) as (_ & _ & Hf).
  rewrite Hf. reflexivity.
Defined.

End Demo.
