(* ===== verification/NodeLoader.v ===== *)
(** * NodeLoader: src/examples/nodejs/loader.cc

    [libffi_init] of the Node.js runtime starts Node.js in a thread of its own
    once, with a script that listens on a Unix socket; each call sends the
    queue's address and the configuration to the script and waits for its
    answer, a number.  The script is JavaScript in a string of the source; its
    handler is [on_data] below.  The socket calls are the class [Sockets], the
    modules that the script loads the class [NodeJs].  Strings are their bytes:
    the handler cuts them at ASCII characters only, which decoding leaves in
    place. *)

From S2P Require Import Prelude World Numerals CString.
From stdpp Require Import strings.

#[local] Open Scope Z_scope.

Definition bytes : string → list byte := String.list_byte_of_string.

(** ** The script *)

(** The engine and its modules.  [require_resolve] and [call_export] may throw,
    [None]; [call_export m f cfg tq] is [require(m)[f](cfg, tq).toString()]. *)
Class NodeJs := {
  js : Type;
  require_resolve : list byte → js → option (list byte) * js;
  require_cache : list byte → js → bool;
  delete_cache : list byte → js → js;
  call_export : list byte → list byte → list byte → Z → js → option (list byte) * js;
}.

(** [BigInt(s)] of a string; [None] is a SyntaxError. *)
Definition all_digits (base : Z) (s : list byte) : option Z :=
  match s, scan_digits base 0 s with
  | _ :: _, (n, []) => Some n
  | _, _ => None
  end.

Definition trim (s : list byte) : list byte := reverse (skip_space (reverse (skip_space s))).

Definition prefix_base (c : byte) : option Z :=
  if decide (c = x78 ∨ c = x58) then Some 16       (* 0x *)
  else if decide (c = x6f ∨ c = x4f) then Some 8   (* 0o *)
  else if decide (c = x62 ∨ c = x42) then Some 2   (* 0b *)
  else None.

Definition bigint_of_string (s : list byte) : option Z :=
  match trim s with
  | [] => Some 0
  | c :: r =>
      if decide (c = minus_sign) then Z.opp <$> all_digits 10 r
      else if decide (c = plus_sign) then all_digits 10 r
      else match r with
           | d :: ds => match (if decide (c = x30) then prefix_base d else None) with
                        | Some base => all_digits base ds
                        | None => all_digits 10 (c :: r)
                        end
           | [] => all_digits 10 [c]
           end
  end.

Section Script.
Context {J : NodeJs}.

(** From [if (mod.endsWith('?'))] on: a module with the suffix is dropped from
    the cache first. *)
Definition load_module (m func cfg : list byte) (tq : Z) (v : js) : option (list byte) * js :=
  if decide (last m = Some question) then
    let m := removelast m in
    match require_resolve m v with
    | (None, v) => (None, v)
    | (Some mp, v) => call_export m func cfg tq (if require_cache mp v then delete_cache mp v else v)
    end
  else call_export m func cfg tq v.

(** The [try] block; [None] when it throws.  [arr[1]] and [arr[2]] may be
    undefined: [mod.endsWith] throws then, and the property is "undefined".
    [cfg] is a [const], so that [cfg = arr[3]] throws. *)
Definition try_block (arr : list (list byte)) (v : js) : option (list byte) * js :=
  match bigint_of_string (default [] (arr !! 0%nat)) with
  | None => (None, v)
  | Some tq =>
      let func := default (bytes "undefined") (arr !! 2%nat) in
      let cfg := [] in
      if decide (length arr = 4%nat) then (None, v)
      else match arr !! 1%nat with
           | None => (None, v)
           | Some m => load_module m func cfg tq v
           end
  end.

(** [s.on('data', ...)]: what is written back. *)
Definition on_data (data : list byte) (v : js) : list byte * js :=
  match try_block (split_on comma data) v with
  | (Some out, v) => (out, v)
  | (None, v) => (bytes "1", v)
  end.

End Script.

(** ** The thread that runs Node.js *)

(** The calls of [thread_fn], in order, and the outcomes that end it early. *)
Inductive node_call :=
  | UvSetupArgs | InitializeOncePerProcess | CreatePlatform | InitializePlatform | InitializeV8
  | CreateSetup | LoadEnvironment | SpinEventLoop | StopEnv | DisposeV8 | DisposePlatform
  | TearDownOncePerProcess.

Record node_outcome := NodeOutcome {
  early_return : bool;      (* InitializeOncePerProcess asks to return *)
  setup_created : bool;     (* CommonEnvironmentSetup::Create *)
  loadenv_empty : bool;     (* a JavaScript exception in the script *)
}.

Definition thread_fn (o : node_outcome) : list node_call :=
  [UvSetupArgs; InitializeOncePerProcess] ++
  if early_return o then [] else
  [CreatePlatform; InitializePlatform; InitializeV8; CreateSetup] ++
  if negb (setup_created o) then [] else
  [LoadEnvironment] ++
  if loadenv_empty o then [] else
  [SpinEventLoop; StopEnv; DisposeV8; DisposePlatform; TearDownOncePerProcess].

(** Where the script listens and the loader connects. *)
Definition socket_path (pid : Z) : list byte := bytes "/tmp/.resty_ffi_nodejs_loader." ++ print_int pid.

Definition UNIX_PATH_MAX : Z := 108.

(** [snprintf] into [sun_path] keeps one byte for the NUL. *)
Definition sun_path (pid : Z) : list byte := take (Z.to_nat (UNIX_PATH_MAX - 1)) (socket_path pid).

(** ** [libffi_init] *)

(** The system calls.  [sys_recv fd size]: the result, and the bytes that were
    written. *)
Class Sockets := {
  kernel : Type;
  sys_thread_create : kernel → kernel;
  sys_sleep : Z → kernel → kernel;
  sys_getpid : kernel → Z;
  sys_socket : kernel → Z * kernel;
  sys_connect : Z → list byte → kernel → Z * kernel;
  sys_send : Z → list byte → kernel → Z * kernel;
  sys_recv : Z → Z → kernel → (Z * list byte) * kernel;
}.

(** [recv] writes the bytes it counts, into the buffer. *)
Class SocketsLaws (S : Sockets) : Prop := {
  recv_law fd size k : 0 ≤ size →
    Z.of_nat (length (sys_recv fd size k).1.2) = Z.max 0 (sys_recv fd size k).1.1 ∧
    (sys_recv fd size k).1.1 ≤ size;
}.

Definition BUF_SIZE : Z := 8192.

Section Loader.
Context {K : Sockets} {A : Addresses}.

(** The variables of the file, and the system. *)
Record loader := Loader {
  client_fd : Z;
  initialized : bool;
  init_lock : ngx_thread_mutex_t;
  system : kernel;
}.

Definition set_fd (fd : Z) (s : loader) : loader := Loader fd (initialized s) (init_lock s) (system s).
Definition set_initialized (b : bool) (s : loader) : loader :=
  Loader (client_fd s) b (init_lock s) (system s).
Definition set_lock (l : ngx_thread_mutex_t) (s : loader) : loader :=
  Loader (client_fd s) (initialized s) l (system s).
Definition set_system (k : kernel) (s : loader) : loader :=
  Loader (client_fd s) (initialized s) (init_lock s) k.

Definition syscall {B} (f : kernel → B * kernel) : M loader B :=
  λ s, Ok ((f (system s)).1, set_system (f (system s)).2 s).

Definition pthread_mutex_lock : M loader () :=
  l ← gets init_lock; assume (bool_decide (l = MtxFree)) Deadlock;; modify (set_lock MtxHeld).
Definition pthread_mutex_unlock : M loader () :=
  l ← gets init_lock; assume (bool_decide (l = MtxHeld)) BadMutex;; modify (set_lock MtxFree).

(** [for (i = 0; i < 10; i++)]: at most [n] more attempts. *)
Fixpoint connect_loop (n : nat) (path : list byte) : M loader () :=
  match n with
  | 0%nat => mret ()
  | S n =>
      fd ← gets client_fd;
      r ← syscall (sys_connect fd path);
      if r =? -1 then syscall (λ k, ((), sys_sleep 1 k));; connect_loop n path
      else mret ()
  end.

(** The block [if (!initialized)]. *)
Definition start_node : M loader () :=
  i ← gets initialized;
  if i : bool then mret () else
  modify (set_initialized true);;
  syscall (λ k, ((), sys_thread_create k));;
  syscall (λ k, ((), sys_sleep 1 k));;
  fd ← syscall sys_socket;
  modify (set_fd fd);;
  pid ← gets (λ s, sys_getpid (system s));
  connect_loop 10 (sun_path pid).

(** ["%p"] of the C library on Linux. *)
Definition print_p (p : option ptr) : list byte :=
  match p with
  | None => bytes "(nil)"
  | Some p => bytes "0x" ++ print_nat 16 (addr p)
  end.

Definition request (tq : option ptr) (cfg : list byte) : list byte := print_p tq ++ comma :: cfg.

(** [sprintf(buf, "%p,%s", tq, cfg)] into [char buf[8192]]; [cfg] is the
    string. *)
Definition print_request (tq : option ptr) (cfg : option (list byte)) : M loader (list byte) :=
  cfg ← from cfg NullDeref;
  let s := request tq cfg in
  assume (len s + 1 <=? BUF_SIZE) OutOfBounds;;
  mret s.

(** [sscanf(buf, "%d", &ret)], with [ret] zero before, on the zeroed buffer that
    starts with [r]. *)
Definition scan_answer (r : list byte) : M loader Z :=
  s ← from (to_nul (r ++ repeat x00 (Z.to_nat BUF_SIZE - length r))) OutOfBounds;
  mret (match strtol s with Some n => to_int n | None => 0 end).

Definition libffi_init (cfg : option (list byte)) (tq : option ptr) : M loader Z :=
  pthread_mutex_lock;;
  start_node;;
  s ← print_request tq cfg;
  fd ← gets client_fd;
  syscall (sys_send fd s);;
  '(_, answer) ← syscall (sys_recv fd BUF_SIZE);
  ret ← scan_answer answer;
  pthread_mutex_unlock;;
  mret ret.

End Loader.

(** ** The two ends of the socket *)

(** The system when Node.js has come up before the first attempt to connect, and
    each message arrives in one piece: a [send] runs the handler of the script. *)
Record peer (J : NodeJs) := Peer {
  running : bool;
  connected : bool;
  answer : list byte;
  engine : js;
}.

Arguments Peer {J}.
Arguments running {J}.
Arguments connected {J}.
Arguments answer {J}.
Arguments engine {J}.

Definition node_sockets (J : NodeJs) (pid : Z) : Sockets := {|
  kernel := peer J;
  sys_thread_create k := Peer true (connected k) (answer k) (engine k);
  sys_sleep _ k := k;
  sys_getpid _ := pid;
  sys_socket k := (3, Peer (running k) false (answer k) (engine k));
  sys_connect _ path k :=
    if decide (running k = true ∧ path = socket_path pid)
    then (0, Peer (running k) true (answer k) (engine k)) else (-1, k);
  sys_send _ data k :=
    if connected k then
      let '(out, v) := on_data data (engine k) in (len data, Peer (running k) true out v)
    else (-1, k);
  sys_recv _ size k :=
    if connected k then
      let out := take (Z.to_nat size) (answer k) in (len out, out, Peer (running k) true [] (engine k))
    else (-1, [], k);
|}.

Lemma node_sockets_laws J pid : SocketsLaws (node_sockets J pid).
Proof.
  split. intros fd size k Hs. simpl. destruct (connected k); simpl; [|lia].
  unfold len. rewrite length_take. lia.
Qed.

(** ** The request is read back *)

Lemma split_on_join sep ts : ts ≠ [] → Forall (λ t, sep ∉ t) ts → split_on sep (join_with sep ts) = ts.
Proof.
  intros Hne H. induction H as [|t ts Ht Hts IH]; [done|].
  destruct ts as [|u ts]; [by apply split_on_single|].
  change (join_with sep (t :: u :: ts)) with (t ++ sep :: join_with sep (u :: ts)).
  by rewrite (split_on_app sep t _ Ht), IH.
Qed.

Lemma skip_space_cons c r : is_space c = false → skip_space (c :: r) = c :: r.
Proof. intros H. simpl. by rewrite H. Qed.

Lemma trim_id c s d : is_space c = false → is_space d = false → trim (c :: s ++ [d]) = c :: s ++ [d].
Proof.
  intros Hc Hd. unfold trim. rewrite (skip_space_cons c) by done.
  rewrite app_comm_cons, reverse_app. change (reverse [d]) with [d]. simpl app at 1.
  rewrite skip_space_cons by done. change (d :: reverse (c :: s)) with ([d] ++ reverse (c :: s)).
  by rewrite reverse_app, reverse_involutive.
Qed.

Lemma print_nat_hex n : 0 ≤ n → Forall (λ c, is_Some (digit_val 16 c)) (print_nat 16 n).
Proof. intros Hn. by apply print_digits_val. Qed.

Lemma hex_not_space c : is_Some (digit_val 16 c) → is_space c = false ∧ c ≠ comma ∧ c ≠ x00.
Proof. intros [v Hv]. by destruct c. Qed.

Section Text.
Context {A : Addresses} {alaws : AddressesLaws A}.

Lemma print_p_chars p : mapped p → comma ∉ print_p (Some p) ∧ x00 ∉ print_p (Some p).
Proof using alaws.
  intros Hp. pose proof (addr_range p Hp) as Hr. unfold print_p.
  assert (∀ c, digit_val 16 c = None → c ∉ print_nat 16 (addr p)) as H
    by (intros c; apply print_nat_notin; lia).
  split; (apply not_elem_of_app; split; [apply (bool_decide_eq_true_1 _); by vm_compute|by apply H]).
Qed.

(** The script reads the address that was printed. *)
Lemma bigint_print_p p : mapped p → bigint_of_string (print_p (Some p)) = Some (addr p).
Proof using alaws.
  intros Hp. pose proof (addr_range p Hp) as Hr.
  assert (0 ≤ addr p) as Hp' by lia.
  pose proof (print_nat_hex (addr p) Hp') as Hd. pose proof (print_nat_not_nil 16 (addr p)) as Hne.
  assert (trim (print_p (Some p)) = print_p (Some p)) as Ht.
  { unfold print_p. destruct (exists_last Hne) as (s & d & E). rewrite E in *.
    apply Forall_app in Hd as [_ Hd]. inversion Hd as [|?? Hd' _]; subst.
    change (bytes "0x" ++ s ++ [d]) with (x30 :: (x78 :: s) ++ [d]).
    apply trim_id; [done|]. by apply hex_not_space in Hd' as (? & _). }
  unfold bigint_of_string. rewrite Ht. unfold print_p.
  change (bytes "0x" ++ print_nat 16 (addr p)) with (x30 :: x78 :: print_nat 16 (addr p)).
  cbn beta iota. rewrite !decide_False by done. rewrite decide_True by done.
  change (prefix_base x78) with (Some 16). cbn beta iota.
  unfold all_digits. destruct (print_nat 16 (addr p)) as [|c r] eqn:E; [done|].
  rewrite <-E, <-(app_nil_r (print_nat 16 (addr p))), scan_print by (done || lia). done.
Qed.

(** What the script does with a request whose configuration has the fields [m],
    [f] and [rest]. *)
Lemma on_data_request `{NodeJs} p m f rest v :
  mapped p → Forall (λ t, comma ∉ t) (m :: f :: rest) →
  on_data (request (Some p) (join_with comma (m :: f :: rest))) v =
    if decide (length rest = 1%nat) then (bytes "1", v)
    else match load_module m f [] (addr p) v with
         | (Some out, v) => (out, v)
         | (None, v) => (bytes "1", v)
         end.
Proof using alaws.
  intros Hp Hf. unfold on_data, request. rewrite split_on_app by (by apply print_p_chars).
  rewrite split_on_join by done. unfold try_block.
  change ((print_p (Some p) :: m :: f :: rest) !! 0%nat) with (Some (print_p (Some p))).
  cbn [default from_option id]. rewrite bigint_print_p by done.
  destruct (decide (length rest = 1%nat)) as [E|E].
  - by rewrite decide_True by (simpl; lia).
  - by rewrite decide_False by (simpl; lia).
Qed.

End Text.

(** ** The calls *)

Section Calls.
Context {K : Sockets} {klaws : SocketsLaws K} {A : Addresses}.

(** The system after the request [s] was sent. *)
Definition sent (s : list byte) (l : loader) : kernel := (sys_send (client_fd l) s (system l)).2.

Lemma pthread_mutex_lock_free l :
  init_lock l = MtxFree → pthread_mutex_lock l = Ok ((), set_lock MtxHeld l).
Proof. unfold pthread_mutex_lock. intros H. rewrite (bind_ok _ _ l (init_lock l) l) by done. by rewrite H. Qed.

Lemma pthread_mutex_unlock_held l :
  init_lock l = MtxHeld → pthread_mutex_unlock l = Ok ((), set_lock MtxFree l).
Proof. unfold pthread_mutex_unlock. intros H. rewrite (bind_ok _ _ l (init_lock l) l) by done. by rewrite H. Qed.

Lemma connect_loop_run n path l : ∃ k, connect_loop n path l = Ok ((), set_system k l).
Proof.
  revert l. induction n as [|n IH]; intros l; [by exists (system l); destruct l|]. cbn [connect_loop].
  rewrite (bind_ok _ _ l (client_fd l) l) by done.
  rewrite (bind_ok _ _ l _ _ eq_refl). destruct (_ =? -1); [|by eexists].
  erewrite bind_ok by done. edestruct IH as [k ->]. by exists k.
Qed.

Lemma start_node_run l :
  ∃ l1, start_node l = Ok ((), l1) ∧ initialized l1 = true ∧ init_lock l1 = init_lock l ∧
    (initialized l = true → l1 = l).
Proof.
  unfold start_node. rewrite (bind_ok _ _ l (initialized l) l) by done.
  destruct (initialized l) eqn:E; [by exists l|].
  repeat (erewrite bind_ok by done). cbv beta.
  edestruct (connect_loop_run 10) as [k ->]. by eexists.
Qed.

(** The first call, up to the attempts to connect. *)
Lemma start_node_new l :
  initialized l = false →
  start_node l =
    let r := sys_socket (sys_sleep 1 (sys_thread_create (system l))) in
    connect_loop 10 (sun_path (sys_getpid r.2)) (Loader r.1 true (init_lock l) r.2).
Proof.
  unfold start_node. intros E. rewrite (bind_ok _ _ l (initialized l) l), E by done. done.
Qed.

(** What the answer makes of [ret]. *)
Definition ret_of (r : list byte) : option Z :=
  s ← to_nul (r ++ repeat x00 (Z.to_nat BUF_SIZE - length r));
  Some (match strtol s with Some n => to_int n | None => 0 end).

Lemma scan_answer_run r l : scan_answer r l = match ret_of r with Some n => Ok (n, l) | None => UB OutOfBounds end.
Proof. unfold scan_answer, ret_of. by destruct (to_nul _). Qed.

Lemma print_request_run tq c l :
  print_request tq (Some c) l =
    if len (request tq c) + 1 <=? BUF_SIZE then Ok (request tq c, l) else UB OutOfBounds.
Proof.
  unfold print_request. rewrite (bind_ok _ _ l c l) by done. unfold assume.
  by destruct (_ <=? _).
Qed.

(** A call: [l1] is the state after the block [if (!initialized)]. *)
Lemma exchange c tq l :
  init_lock l = MtxFree →
  ∃ l1, start_node (set_lock MtxHeld l) = Ok ((), l1) ∧ initialized l1 = true ∧
    (initialized l = true → l1 = set_lock MtxHeld l) ∧
    libffi_init (Some c) tq l =
      if len (request tq c) + 1 <=? BUF_SIZE then
        let r := sys_recv (client_fd l1) BUF_SIZE (sent (request tq c) l1) in
        match ret_of r.1.2 with
        | Some n => Ok (n, set_lock MtxFree (set_system r.2 l1))
        | None => UB OutOfBounds
        end
      else UB OutOfBounds.
Proof using.
  intros Hl. destruct (start_node_run (set_lock MtxHeld l)) as (l1 & Hs & Hi & Hl1 & E).
  exists l1. split_and!; [done..|]. unfold libffi_init.
  rewrite (bind_ok _ _ _ _ _ (pthread_mutex_lock_free l Hl)), (bind_ok _ _ _ _ _ Hs).
  destruct (_ <=? _) eqn:Eb; [|apply bind_ub; by rewrite print_request_run, Eb].
  erewrite bind_ok by (by rewrite print_request_run, Eb).
  erewrite bind_ok by done. erewrite bind_ok by done. erewrite bind_ok by done.
  cbv zeta. fold (sent (request tq c) l1).
  change (system (set_system ?k l1)) with k.
  destruct (sys_recv _ _ _) as [[n r] k]. cbn [fst snd].
  destruct (ret_of r) eqn:Er; [|apply bind_ub; by rewrite scan_answer_run, Er].
  erewrite bind_ok by (by rewrite scan_answer_run, Er).
  by erewrite bind_ok by (by apply pthread_mutex_unlock_held).
Qed.

(** Ten refused attempts. *)
Lemma connect_refused n path l :
  (∀ fd k, (sys_connect fd path k).1 = -1) →
  connect_loop n path l =
    Ok ((), set_system (Nat.iter n (λ k, sys_sleep 1 (sys_connect (client_fd l) path k).2) (system l)) l).
Proof.
  intros Hc. revert l. induction n as [|n IH]; intros l; [by destruct l|]. cbn [connect_loop].
  rewrite (bind_ok _ _ l (client_fd l) l), (bind_ok _ _ l _ _ eq_refl) by done.
  rewrite Hc, Z.eqb_refl. erewrite bind_ok by done. rewrite IH. by rewrite Nat.iter_succ_r.
Qed.

Lemma connect_accepted n path l :
  (sys_connect (client_fd l) path (system l)).1 ≠ -1 →
  connect_loop (S n) path l = Ok ((), set_system (sys_connect (client_fd l) path (system l)).2 l).
Proof.
  intros Hc%Z.eqb_neq. cbn [connect_loop].
  rewrite (bind_ok _ _ l (client_fd l) l), (bind_ok _ _ l _ _ eq_refl) by done. by rewrite Hc.
Qed.

Lemma length_print_int n : - 2 ^ 31 ≤ n < 2 ^ 31 → (length (print_int n) ≤ 11)%nat.
Proof.
  intros Hn. unfold print_int, print_nat. destruct (n <? 0) eqn:E; [apply Z.ltb_lt in E|apply Z.ltb_ge in E].
  - rewrite length_cons. enough (length (print_digits (S (Z.to_nat (Z.log2 (- n)))) 10 (- n)) ≤ 10)%nat by lia.
    apply length_print_digits; lia.
  - enough (length (print_digits (S (Z.to_nat (Z.log2 n))) 10 n) ≤ 10)%nat by lia.
    apply length_print_digits; lia.
Qed.

Lemma print_int_nul n : x00 ∉ print_int n.
Proof.
  unfold print_int. destruct (n <? 0) eqn:E; [apply Z.ltb_lt in E|apply Z.ltb_ge in E].
  - apply not_elem_of_cons. split; [done|]. apply print_nat_notin; [lia..|done].
  - apply print_nat_notin; [lia..|done].
Qed.

Lemma to_int_range n : - 2 ^ 31 ≤ to_int n < 2 ^ 31.
Proof. unfold to_int. pose proof (Z.mod_pos_bound (n + 2 ^ 31) (2 ^ 32)). lia. Qed.

Lemma to_nul_total s : x00 ∈ s → is_Some (to_nul s).
Proof.
  induction s as [|x s IH]; [by intros ?%not_elem_of_nil|]. intros [<-|Hin]%elem_of_cons; [done|].
  simpl. destruct (decide _); [done|]. by apply fmap_is_Some, IH.
Qed.

Lemma ret_of_short r : len r < BUF_SIZE → ∃ n, ret_of r = Some n ∧ - 2 ^ 31 ≤ n < 2 ^ 31.
Proof.
  unfold ret_of, len, BUF_SIZE. intros Hr.
  destruct (to_nul_total (r ++ repeat x00 (Z.to_nat 8192 - length r))) as [s Hs].
  { apply elem_of_app. right. destruct (Z.to_nat 8192 - length r)%nat eqn:E; [lia|]. left. }
  rewrite Hs. eexists. split; [done|]. cbn. destruct (strtol s); [apply to_int_range|lia].
Qed.

Lemma ret_of_print_int n : - 2 ^ 31 ≤ n < 2 ^ 31 → ret_of (print_int n) = Some n.
Proof.
  intros Hn. unfold ret_of. pose proof (length_print_int n Hn).
  destruct (Z.to_nat BUF_SIZE - length (print_int n))%nat eqn:E; [unfold BUF_SIZE in E; lia|].
  cbn [repeat]. rewrite to_nul_app by apply print_int_nul. cbn [mbind option_bind]. rewrite strtol_print_int by lia.
  by rewrite to_int_id.
Qed.

Lemma length_print_p tq : (3 ≤ length (print_p tq))%nat.
Proof.
  destruct tq as [q|]; [|vm_compute; lia]. unfold print_p. rewrite length_app. simpl length.
  pose proof (print_nat_not_nil 16 (addr q)). destruct (print_nat 16 (addr q)); [done|simpl; lia].
Qed.

Lemma length_print_p_valid {alaws : AddressesLaws A} tq : valid_ptr tq → (length (print_p tq) ≤ 18)%nat.
Proof.
  destruct tq as [q|]; simpl; intros Hq; [|lia]. apply addr_range in Hq.
  enough (length (print_nat 16 (addr q)) ≤ 16)%nat by lia. apply length_print_digits; lia.
Qed.

Lemma len_request tq c : len (request tq c) = Z.of_nat (length (print_p tq)) + 1 + len c.
Proof. unfold request, len. rewrite length_app. simpl length. lia. Qed.

(** C40: The request buffer of the loader bounds the configuration: NULL is
    dereferenced, 8188 bytes or more overflow the buffer whatever the queue, and
    with at most 8172 bytes the call returns an [int], with the lock released
    and the thread started, when the answer is shorter than the buffer. *)
Theorem request_buffer_bound {alaws : AddressesLaws A} tq l :
  init_lock l = MtxFree → valid_ptr tq →
  libffi_init None tq l = UB NullDeref ∧
  (∀ c, 8188 ≤ len c → libffi_init (Some c) tq l = UB OutOfBounds) ∧
  (∀ c, len c ≤ 8172 → (∀ fd k, len (sys_recv fd BUF_SIZE k).1.2 < BUF_SIZE) →
     ∃ n l', libffi_init (Some c) tq l = Ok (n, l') ∧ - 2 ^ 31 ≤ n < 2 ^ 31 ∧
       init_lock l' = MtxFree ∧ initialized l' = true).
Proof using.
  intros Hl Hq. split_and!.
  - unfold libffi_init. rewrite (bind_ok _ _ _ _ _ (pthread_mutex_lock_free l Hl)).
    destruct (start_node_run (set_lock MtxHeld l)) as (l1 & Hs & _).
    by rewrite (bind_ok _ _ _ _ _ Hs).
  - intros c Hc. destruct (exchange c tq l Hl) as (l1 & _ & _ & _ & ->).
    pose proof (length_print_p tq). by rewrite len_request, (proj2 (Z.leb_gt _ _)) by (unfold BUF_SIZE; lia).
  - intros c Hc Ha. destruct (exchange c tq l Hl) as (l1 & _ & Hi & _ & ->).
    pose proof (length_print_p_valid tq Hq).
    rewrite len_request, (proj2 (Z.leb_le _ _)) by (unfold BUF_SIZE; lia). cbv zeta.
    destruct (ret_of_short _ (Ha (client_fd l1) (sent (request tq c) l1))) as (n & -> & Hn).
    by eexists _, _.
Qed.

(** A loader that reaches no Node.js says that it succeeded.  When every
    connection is refused and nothing is received, a first call connects ten
    times, sends and receives on the unconnected socket, and returns 0, the
    result for success; so does every later call, which does not try to connect
    again. *)
Theorem lost_connection_is_success c tq l :
  (∀ fd path k, (sys_connect fd path k).1 = -1) → (∀ fd k, (sys_recv fd BUF_SIZE k).1.1 ≤ 0) →
  init_lock l = MtxFree → len (request tq c) + 1 ≤ BUF_SIZE →
  let after fd k := (sys_recv fd BUF_SIZE (sys_send fd (request tq c) k).2).2 in
  let '(fd, k) := sys_socket (sys_sleep 1 (sys_thread_create (system l))) in
  let attempt k' := sys_sleep 1 (sys_connect fd (sun_path (sys_getpid k)) k').2 in
  libffi_init (Some c) tq l =
    Ok (0, if initialized l then Loader (client_fd l) true MtxFree (after (client_fd l) (system l))
           else Loader fd true MtxFree (after fd (Nat.iter 10 attempt k))).
Proof using klaws.
  intros Hc Hr Hl Hb after. destruct (sys_socket _) as [fd k] eqn:Es. intros attempt.
  assert (∀ l1, ret_of (sys_recv (client_fd l1) BUF_SIZE (sent (request tq c) l1)).1.2 = Some 0) as Hz.
  { intros l1. set (k1 := sent (request tq c) l1). pose proof (Hr (client_fd l1) k1) as H0.
    destruct (recv_law (client_fd l1) BUF_SIZE k1) as [Hn _]; [by vm_compute|].
    rewrite Z.max_l in Hn by done. by destruct (sys_recv _ _ k1).1.2. }
  destruct (exchange c tq l Hl) as (l1 & Hs & _ & Hi & ->).
  rewrite (proj2 (Z.leb_le _ _)) by done. cbv zeta. rewrite Hz. do 2 f_equal.
  destruct (initialized l) eqn:E.
  { rewrite Hi by done. unfold set_lock, set_system. cbn. by rewrite E. }
  rewrite start_node_new in Hs by done. cbv zeta in Hs.
  rewrite connect_refused in Hs by (intros; apply Hc). cbn [system set_lock client_fd] in Hs.
  rewrite Es in Hs. by injection Hs as <-.
Qed.

End Calls.

(** ** With Node.js at the other end *)

Section Linked.
Context {J : NodeJs} {A : Addresses} {alaws : AddressesLaws A}.
Variable pid : Z.
Hypothesis pid_range : 0 ≤ pid < 2 ^ 22.

(** The loader can be called: it is new, or its socket is connected. *)
Definition ready (l : @loader (node_sockets J pid)) : Prop :=
  init_lock l = MtxFree ∧ (initialized l = true → connected (system l) = true).

Lemma sun_path_fits : sun_path pid = socket_path pid.
Proof using pid_range.
  unfold sun_path. apply take_ge. unfold socket_path. rewrite length_app.
  pose proof (length_print_int pid ltac:(lia)). change (length (bytes _)) with 30%nat.
  unfold UNIX_PATH_MAX. lia.
Qed.

Lemma start_linked (l : @loader (node_sockets J pid)) :
  initialized l = false →
  start_node l =
    Ok ((), Loader (K := node_sockets J pid) 3 true (init_lock l)
              (Peer true true (answer (system l)) (engine (system l)))).
Proof using pid_range.
  intros E. rewrite start_node_new, connect_accepted by
    (done || (cbn; rewrite decide_True by (split; [done|apply sun_path_fits]); done)).
  cbn. by rewrite decide_True by (split; [done|apply sun_path_fits]).
Qed.

Lemma exchange_linked s (l : @loader (node_sockets J pid)) out v :
  connected (system l) = true → on_data s (engine (system l)) = (out, v) → len out < BUF_SIZE →
  sys_recv (client_fd l) BUF_SIZE (sent s l) = (len out, out, Peer (running (system l)) true [] v).
Proof.
  intros Hc Hd Ho. unfold sent. cbn. rewrite Hc, Hd. cbn.
  unfold len, BUF_SIZE in *. by rewrite take_ge by lia.
Qed.

(** A call is one run of the script's handler. *)
Lemma linked_call c q l out v n :
  mapped q → ready l → len c ≤ 8172 →
  on_data (request (Some q) c) (engine (system l)) = (out, v) → ret_of out = Some n → len out < BUF_SIZE →
  ∃ l', libffi_init (K := node_sockets J pid) (Some c) (Some q) l = Ok (n, l') ∧ ready l' ∧
    initialized l' = true ∧ engine (system l') = v.
Proof using alaws pid_range.
  intros Hq [Hl Hc] Hlen Hd Hn Ho.
  destruct (exchange (K := node_sockets J pid) c (Some q) l Hl) as (l1 & Hs & Hi & Hl1 & ->).
  pose proof (length_print_p_valid (Some q) Hq).
  rewrite len_request, (proj2 (Z.leb_le _ _)) by (unfold BUF_SIZE; lia).
  assert (connected (system l1) = true ∧ engine (system l1) = engine (system l)) as [Hcon He].
  { destruct (initialized l) eqn:E; [rewrite Hl1 by done; by split; [apply Hc|]|].
    rewrite start_linked in Hs by done. by injection Hs as <-. }
  cbv zeta. erewrite exchange_linked by (done || by rewrite He).
  cbn [fst snd]. rewrite Hn. by eexists.
Qed.

(** What an exported function may answer, and the [int] it stands for: it throws,
    or it returns a number. *)
Definition answers (o : option (list byte)) (n : Z) : Prop :=
  match o with
  | None => n = 1
  | Some out => out = print_int n ∧ - 2 ^ 31 ≤ n < 2 ^ 31
  end.

(** C39: [libffi_init] loads a module into Node.js, but passes it no configuration.
    For a configuration of two fields or more, [m,f] and what may follow, it starts
    Node.js if need be.  With exactly three fields no JavaScript of the module runs
    and the result is 1.  Otherwise [f] of [m] is called once, with the queue's
    address and the empty configuration, also when there are more fields, a
    module [m?] being dropped from the cache first; and the result is the number that
    the function returned, or 1 when the module could not be loaded or the
    function threw.  The lock is free and the connection stands afterwards. *)
Theorem load_through_node q m f rest l n :
  mapped q → ready l → Forall (λ t, comma ∉ t) (m :: f :: rest) →
  let c := join_with comma (m :: f :: rest) in
  let v := engine (system l) in
  let call m v := call_export m f [] (addr q) v in
  let r := if decide (length rest = 1%nat) then (None, v)
           else if decide (last m = Some question) then
             match require_resolve (removelast m) v with
             | (None, v) => (None, v)
             | (Some mp, v) => call (removelast m) (if require_cache mp v then delete_cache mp v else v)
             end
           else call m v in
  len c ≤ 8172 → answers r.1 n →
  ∃ l', libffi_init (K := node_sockets J pid) (Some c) (Some q) l = Ok (n, l') ∧ ready l' ∧
    initialized l' = true ∧ engine (system l') = r.2.
Proof using alaws pid_range.
  intros Hq Hl Hf c v call r Hlen Ha. pose proof (on_data_request q m f rest v Hq Hf) as Hd.
  assert (r = if decide (length rest = 1%nat) then (None, v) else load_module m f [] (addr q) v) as Er by done.
  clearbody r. subst r.
  destruct (decide (length rest = 1%nat)); [|destruct (load_module _ _ _ _ _) as [[out|] v']]; simpl in Ha |- *.
  - subst n. by apply (linked_call _ _ _ (bytes "1")).
  - destruct Ha as [-> Hn]. apply (linked_call _ _ _ (print_int n)); [done..|by apply ret_of_print_int|].
    pose proof (length_print_int n Hn). unfold len, BUF_SIZE. lia.
  - subst n. by apply (linked_call _ _ _ (bytes "1")).
Qed.

(** The Node.js loader refuses every configuration of its own format: with
    the three fields [module,function,configuration] the script assigns to a
    constant, so that [libffi_init] returns 1 and no JavaScript of the module
    runs. *)
Theorem third_field_is_refused q m f x l :
  mapped q → ready l → Forall (λ t, comma ∉ t) [m; f; x] →
  let c := join_with comma [m; f; x] in
  len c ≤ 8172 →
  ∃ l', libffi_init (K := node_sockets J pid) (Some c) (Some q) l = Ok (1, l') ∧ ready l' ∧
    engine (system l') = engine (system l).
Proof using alaws pid_range.
  intros Hq Hl Hf c Hlen. pose proof (on_data_request q m f [x] (engine (system l)) Hq Hf) as Hd.
  rewrite decide_True in Hd by done.
  destruct (linked_call c q l (bytes "1") (engine (system l)) 1) as (l' & H & Hr & _ & He); try done. by exists l'.
Qed.

End Linked.

(** ** Instances *)

Module Demo.

(** The engine logs the modules that were loaded, with the queue; the function
    [init] returns 0, any other throws. *)
#[local] Instance demo_node : NodeJs := {
  js := list (list byte * Z);
  require_resolve m v := (Some m, v);
  require_cache _ _ := false;
  delete_cache _ v := v;
  call_export m f _ tq v := if decide (f = bytes "init") then (Some (bytes "0"), v ++ [(m, tq)]) else (None, v);
}.

#[local] Existing Instance flat_addresses.
#[local] Existing Instance flat_addresses_laws.

Definition demo_loader : @loader (node_sockets demo_node 4711) :=
  Loader (K := node_sockets demo_node 4711) 0 false MtxFree (Peer false false [] []).

Definition demo_tq : ptr := Ptr 5 0.

Lemma node_mapped : mapped demo_tq.
Proof. split; vm_compute; [reflexivity|split; [discriminate|reflexivity]]. Qed.

Lemma node_ready : ready 4711 demo_loader.
Proof. split; [reflexivity|discriminate]. Qed.

Lemma load_through_node_witness :
  ∃ l', libffi_init (K := node_sockets demo_node 4711) (Some (bytes "echo,init")) (Some demo_tq) demo_loader =
      Ok (0, l') ∧ ready 4711 l' ∧ initialized l' = true ∧ engine (system l') = [(bytes "echo", addr demo_tq)].
Proof.
  refine (load_through_node 4711 _ demo_tq (bytes "echo") (bytes "init") [] demo_loader 0
    node_mapped node_ready _ _ _).
  - lia.
  - repeat constructor; apply (bool_decide_eq_true_1 _); vm_compute; reflexivity.
  - vm_compute. discriminate.
  - split; [reflexivity|lia].
Defined.

Lemma third_field_is_refused_witness :
  ∃ l', libffi_init (K := node_sockets demo_node 4711) (Some (bytes "echo,init,{}")) (Some demo_tq) demo_loader =
      Ok (1, l') ∧ ready 4711 l' ∧ engine (system l') = [].
Proof.
  refine (third_field_is_refused 4711 _ demo_tq (bytes "echo") (bytes "init") (bytes "{}") demo_loader
    node_mapped node_ready _ _).
  - lia.
  - repeat constructor; apply (bool_decide_eq_true_1 _); vm_compute; reflexivity.
  - vm_compute. discriminate.
Defined.

(** Nobody listens; the system counts the attempts to connect. *)
#[local] Instance deaf_sockets : Sockets := {
  kernel := nat;
  sys_thread_create k := k;
  sys_sleep _ k := k;
  sys_getpid _ := 4711;
  sys_socket k := (3, k);
  sys_connect _ _ k := (-1, S k);
  sys_send _ _ k := (-1, k);
  sys_recv _ _ k := (-1, [], k);
}.

#[local] Instance deaf_sockets_laws : SocketsLaws deaf_sockets.
Proof. split. intros fd size k Hs. split; [reflexivity|simpl; lia]. Qed.

Lemma lost_connection_is_success_witness :
  libffi_init (K := deaf_sockets) (Some (bytes "echo,init")) (Some demo_tq) (Loader (K := deaf_sockets) 0 false
    MtxFree 0%nat) =
    Ok (0, Loader (K := deaf_sockets) 3 true MtxFree 10%nat).
Proof.
  refine (lost_connection_is_success (K := deaf_sockets) (bytes "echo,init") (Some demo_tq)
    (Loader (K := deaf_sockets) 0 false MtxFree 0%nat) _ _ _ _).
  - reflexivity.
  - intros fd k. simpl. lia.
  - reflexivity.
  - vm_compute. discriminate.
Defined.

Lemma request_buffer_bound_witness :
  libffi_init (K := deaf_sockets) None (Some demo_tq) (Loader (K := deaf_sockets) 0 true MtxFree 0%nat) = UB
    NullDeref ∧
  libffi_init (K := deaf_sockets) (Some (repeat x61 (Z.to_nat 8192))) (Some demo_tq) (Loader (K :=
    deaf_sockets) 0 true MtxFree 0%nat) =
    UB OutOfBounds.
Proof.
  destruct (request_buffer_bound (K := deaf_sockets) (Some demo_tq) (Loader (K := deaf_sockets) 0 true MtxFree 0%nat))
    as (H & Ho & _); [reflexivity|apply node_mapped|].
  split; [exact H|]. apply Ho. vm_compute. discriminate.
Defined.

End Demo.
