(* ===== verification/LuaApi.v ===== *)
(** * LuaApi: src/resty_ffi.lua

    What a Lua program sees of the library: [ngx.load_ffi] and its table of
    runtimes, and the methods of a runtime, [post] and [unload].  Several
    runtimes share one world.  The dynamic linker and the libraries it loads are
    the class [LuaHost]; the C functions of the library are those of [FfiQueue]
    and [FfiInit].  Strings are their bytes.  [post] is that without a wrapper;
    see [LuaMethods]. *)

From S2P Require Import Prelude World TaskQueue FfiTask FfiQueue System BuildId FfiInit Allocation.
From stdpp Require Import strings.

#[local] Open Scope Z_scope.

Definition amp : byte := x26.

(** [lib], or [lib .. "&" .. cfg]. *)
Definition lua_key (lib : list byte) (cfg : option (list byte)) : list byte :=
  match cfg with
  | None => lib
  | Some cfg => lib ++ amp :: cfg
  end.

(** ** The host *)

(** [ffi_load] is [ffi.load], [None] when it raises an error.  [libffi_init] is
    the function of the loaded library, called with the bytes of [buf], [None]
    when the library has no such symbol; the threads it starts poll later, as
    steps of their own. *)
Class LuaHost := {
  host : Type;
  handle : Type;
  has_symbol : list byte → host → bool;
  ffi_load : list byte → bool → host → option handle * host;
  running_process : host → process;
  libffi_init : handle → option (list byte) → option ptr → host → option Z * host;
}.

(** The [int] that [lua_resty_ffi_init] returns. *)
Definition init_rc (r : init_res) : Z :=
  match r with
  | InitNoNote => -1
  | InitMismatch _ _ => -2
  | InitOk _ _ _ => 0
  end.

(** The argument [opts]; [unpin] is its truth. *)
Record options := Options {
  opt_max_queue : option Z;
  opt_is_global : option bool;
  opt_unpin : bool;
}.

Inductive lua_error :=
  | InitFailed           (* "lua_resty_ffi_init() failed: ..." *)
  | LibraryNotFound      (* of [ffi.load] *)
  | SymbolNotFound.      (* of [handle.libffi_init] *)

(** [load_ffi] returns an object, or [nil, rc], or raises an error. *)
Inductive load_result :=
  | Loaded (o : nat)
  | NotLoaded (rc : Z)
  | Raised (e : lua_error).

Inductive post_answer :=
  | PostFinished         (* false, "task queue is finished" *)
  | PostRefused          (* false, "post failed, queue full" *)
  | PostYields.          (* [coroutine._yield()] *)

Section Api.
Context {H : LuaHost}.

(** The code computes the key of the table with [lua_key]. *)
Context {K : Type} `{EqDecision K, !Countable K}.
Variable make_key : list byte → option (list byte) → K.

(** ** The state *)

(** The table that [load_ffi] returns.  [nil] and a NULL pointer are [None] both:
    as an argument of a C function they are the same. *)
Record object := Object {
  o_finished : bool;
  o_key : option K;
  o_handle : option handle;
  o_tq : option ptr;
}.

(** The upvalues of the module, the objects by their identity, and what is
    outside of Lua. *)
Record lua := Lua {
  l_world : world;
  l_host : host;
  l_init : bool;
  runtimes : gmap K nat;
  objects : list object;
  pin_libs : gmap (list byte) handle;
}.

Definition set_l_world (w : world) (s : lua) : lua :=
  Lua w (l_host s) (l_init s) (runtimes s) (objects s) (pin_libs s).
Definition set_l_host (h : host) (s : lua) : lua :=
  Lua (l_world s) h (l_init s) (runtimes s) (objects s) (pin_libs s).
Definition set_l_init (b : bool) (s : lua) : lua :=
  Lua (l_world s) (l_host s) b (runtimes s) (objects s) (pin_libs s).
Definition upd_runtimes (f : gmap K nat → gmap K nat) (s : lua) : lua :=
  Lua (l_world s) (l_host s) (l_init s) (f (runtimes s)) (objects s) (pin_libs s).
Definition upd_objects (f : list object → list object) (s : lua) : lua :=
  Lua (l_world s) (l_host s) (l_init s) (runtimes s) (f (objects s)) (pin_libs s).
Definition upd_pin_libs (f : gmap (list byte) handle → gmap (list byte) handle) (s : lua) : lua :=
  Lua (l_world s) (l_host s) (l_init s) (runtimes s) (objects s) (f (pin_libs s)).

(** A call of a C function of the library, and of the host. *)
Definition in_world {B} (m : M world B) : M lua B :=
  λ s, match m (l_world s) with Ok (b, w) => Ok (b, set_l_world w s) | UB f => UB f end.
Definition in_host {B} (f : host → B * host) : M lua B :=
  λ s, Ok ((f (l_host s)).1, set_l_host (f (l_host s)).2 s).

Definition get_object (o : nat) : M lua object :=
  l ← gets objects; from (l !! o) NullDeref.
Definition modify_object (o : nat) (f : object → object) : M lua () := modify (upd_objects (alter f o)).

(** ** [post] and [unload] *)

Definition post (env : sysenv) (self : nat) (r : rid) (req : option (list byte)) : M lua post_answer :=
  ob ← get_object self;
  if o_finished ob then mret PostFinished else
  ret ← in_world (lua_post env r (o_tq ob) req);
  mret (if negb (ret =? 0) then PostRefused else PostYields).

Definition unload (env : sysenv) (self : nat) : M lua () :=
  ob ← get_object self;
  if o_finished ob then mret () else
  modify_object self (λ ob, Object true (o_key ob) (o_handle ob) (o_tq ob));;
  modify_object self (λ ob, Object (o_finished ob) (o_key ob) None (o_tq ob));;
  in_world (ngx_http_lua_ffi_task_finish env (o_tq ob));;
  modify_object self (λ ob, Object (o_finished ob) (o_key ob) (o_handle ob) None);;
  k ← from (o_key ob) NullDeref;
  modify (upd_runtimes (delete k));;
  modify_object self (λ ob, Object (o_finished ob) None (o_handle ob) (o_tq ob)).

(** ** [load_ffi] *)

(** The local function [ffi_load]. *)
Definition load_and_pin (lib : list byte) (is_global is_pin : bool) : M lua (option handle) :=
  h ← in_host (ffi_load lib is_global);
  match h with
  | Some h => if is_pin then modify (upd_pin_libs <[lib := h]>);; mret (Some h) else mret (Some h)
  | None => mret None
  end.

(** [C.malloc] and [ffi.copy], which writes a NUL behind the string. *)
Definition copy_cfg (env : sysenv) (cfg : option (list byte)) : M lua (option ptr) :=
  match cfg with
  | None => mret None
  | Some s =>
      assume (e_calloc env) NullDeref;;
      p ← in_world (alloc_buf (s ++ [x00]));
      mret (Some p)
  end.

(** The call of [nffi.handle.libffi_init(buf, tq)]. *)
Definition call_init (h : handle) (buf : option ptr) (tq : option ptr) : M lua (option Z) :=
  arg ← match buf with
        | None => mret None
        | Some p => b ← in_world (load_bytes (Some p)); mret (Some b)
        end;
  in_host (libffi_init h arg tq).

(** The block [if not init]; [sy] are the generated symbols of the library, and
    [fuel] bounds the scan for the build id. *)
Definition init_library (fuel : nat) (sy : symbols) : M lua (option lua_error) :=
  i ← gets l_init;
  if i : bool then mret None else
  b ← gets (λ s, has_symbol (String.list_byte_of_string "ngx_http_lua_ffi_create_task_queue") (l_host s));
  if b : bool then modify (set_l_init true);; mret None else
  h ← in_host (ffi_load (String.list_byte_of_string "resty_ffi") true);
  match h with
  | None => mret (Some LibraryNotFound)
  | Some _ =>
      pr ← gets (λ s, running_process (l_host s));
      r ← from (lua_resty_ffi_init fuel sy pr) OutOfFuel;
      match r with
      | UB f => ub f
      | Ok r => if negb (init_rc r =? 0) then mret (Some InitFailed)
                else modify (set_l_init true);; mret None
      end
  end.

(** What LuaJIT's FFI makes of a number passed as a C [int]: itself when it is
    in range, else nothing that is specified. *)
Definition fits_int (n : Z) : bool := (- 2 ^ 31 <=? n) && (n <? 2 ^ 31).
Definition to_c_int (n : Z) : M lua Z := assume (fits_int n) BadConversion;; mret n.

(** From the creation of the queue on. *)
Definition start_runtime (env : sysenv) (lib : list byte) (cfg : option (list byte))
    (max_queue : Z) (is_global is_pin : bool) : M lua load_result :=
  let key := make_key lib cfg in
  max_queue ← to_c_int max_queue;
  tq ← in_world (ngx_http_lua_ffi_create_task_queue env max_queue);
  h ← load_and_pin lib is_global is_pin;
  match h with
  | None => mret (Raised LibraryNotFound)
  | Some h =>
      nffi ← gets (λ s, length (objects s));
      modify (upd_objects (λ l, l ++ [Object false (Some key) (Some h) tq]));;
      buf ← copy_cfg env cfg;
      rc ← call_init h buf tq;
      match rc with
      | None => mret (Raised SymbolNotFound)
      | Some rc =>
          in_world (free_buf buf);;
          if rc =? 0 then modify (upd_runtimes <[key := nffi]>);; mret (Loaded nffi)
          else mret (NotLoaded rc)
      end
  end.

Definition load_ffi (fuel : nat) (sy : symbols) (env : sysenv) (lib : list byte)
    (cfg : option (list byte)) (opts : option options) : M lua load_result :=
  e ← init_library fuel sy;
  match e with
  | Some e => mret (Raised e)
  | None =>
      let max_queue := default 65536 (opts ≫= opt_max_queue) in
      let is_global := default false (opts ≫= opt_is_global) in
      rt ← gets (λ s, runtimes s !! make_key lib cfg);
      match rt with
      | Some o => mret (Loaded o)
      | None =>
          let is_pin := match opts with None => true | Some o => negb (opt_unpin o) end in
          start_runtime env lib cfg max_queue is_global is_pin
      end
  end.

End Api.

Arguments Object {H K}.
Arguments Lua {H K}.

Definition ngx_load_ffi {H : LuaHost} := load_ffi (K := list byte) lua_key.

Arguments object H K : clear implicits.
Arguments lua H K {_ _}.
Arguments Object {H K}.
Arguments Lua {H K _ _}.

(** ** Sequences of calls *)

Section Steps.
Context {H : LuaHost} {K : Type} `{EqDecision K, !Countable K}.
Variable make_key : list byte → option (list byte) → K.
Variable fuel : nat.
Variable sy : symbols.

(** A call by the Lua program, or whatever the other threads and nginx do to the
    blocks of the C program. *)
Inductive lua_step : lua H K → lua H K → Prop :=
  | StepLoad env lib cfg opts r s s' :
      load_ffi make_key fuel sy env lib cfg opts s = Ok (r, s') → lua_step s s'
  | StepPost env self r req a s s' : post env self r req s = Ok (a, s') → lua_step s s'
  | StepUnload env self s s' : unload env self s = Ok ((), s') → lua_step s s'
  | StepOther w h s : (brk (l_world s) ≤ brk w)%nat → lua_step s (set_l_host h (set_l_world w s)).

(** The table refers to live runtimes under their own keys; an unloaded runtime
    has lost its fields; no two runtimes have the same queue. *)
Record lua_inv (s : lua H K) : Prop := {
  li_table k o : runtimes s !! k = Some o →
    ∃ h tq, objects s !! o = Some (Object false (Some k) (Some h) tq);
  li_object o ob : objects s !! o = Some ob →
    ob = Object true None None None ∨ ∃ k h tq, ob = Object false (Some k) (Some h) tq;
  li_queue o ob p : objects s !! o = Some ob → o_tq ob = Some p →
    p_off p = 0 ∧ (p_blk p < brk (l_world s))%nat;
  li_apart o o' ob ob' p : objects s !! o = Some ob → objects s !! o' = Some ob' →
    o_tq ob = Some p → o_tq ob' = Some p → o = o';
}.

Lemma lua_inv_world w s : (brk (l_world s) ≤ brk w)%nat → lua_inv s → lua_inv (set_l_world w s).
Proof.
  intros Hb [A B C D]. split; simpl; [done..| |done].
  intros o ob p Ho Hp. destruct (C o ob p Ho Hp). split; [done|]. simpl. lia.
Qed.

Lemma lua_inv_host h s : lua_inv s → lua_inv (set_l_host h s).
Proof. by intros [A B C D]. Qed.
Lemma lua_inv_init b s : lua_inv s → lua_inv (set_l_init b s).
Proof. by intros [A B C D]. Qed.
Lemma lua_inv_pin f s : lua_inv s → lua_inv (upd_pin_libs f s).
Proof. by intros [A B C D]. Qed.

Lemma in_world_inv {B} (m : M world B) (s : lua H K) b s' :
  in_world m s = Ok (b, s') → ∃ w, m (l_world s) = Ok (b, w) ∧ s' = set_l_world w s.
Proof. unfold in_world. destruct (m _) as [[b' w]|]; [|done]. intros [= <- <-]. by exists w. Qed.

Lemma gets_inv {S A} (f : S → A) s a s' : gets f s = Ok (a, s') → a = f s ∧ s' = s.
Proof. by intros [= <- <-]. Qed.

Lemma lua_inv_in_world {B} (m : M world B) (s : lua H K) b s' :
  grows m → in_world m s = Ok (b, s') → lua_inv s → lua_inv s'.
Proof. intros Hm (w & Hw & ->)%in_world_inv. apply lua_inv_world. by eapply Hm. Qed.

Lemma get_object_inv o (s : lua H K) ob s' :
  get_object o s = Ok (ob, s') → objects s !! o = Some ob ∧ s' = s.
Proof.
  unfold get_object. intros (l & s1 & [-> ->]%gets_inv & Hg)%bind_inv. unfold from in Hg.
  destruct (objects s !! o); [|done]. by injection Hg as <- <-.
Qed.

Lemma lua_inv_post env self r req (s : lua H K) a s' : post env self r req s = Ok (a, s') → lua_inv s → lua_inv s'.
Proof.
  unfold post. intros (ob & s1 & [Ho ->]%get_object_inv & Hk)%bind_inv Hs.
  destruct (o_finished ob); [by injection Hk as <- <-|].
  apply bind_inv in Hk as (rc & s3 & Hp & [= <- <-]).
  eapply lua_inv_in_world; [|exact Hp|done]. apply grows_lua_post.
Qed.

(** What [unload] does to a runtime that was not finished. *)
Lemma unload_in_service env self (s : lua H K) k h tq :
  objects s !! self = Some (Object false (Some k) (Some h) tq) →
  unload env self s =
    match ngx_http_lua_ffi_task_finish env tq (l_world s) with
    | UB f => UB f
    | Ok (_, w) => Ok ((), Lua w (l_host s) (l_init s) (delete k (runtimes s))
                            (<[self := Object true None None None]> (objects s)) (pin_libs s))
    end.
Proof.
  intros Ho. unfold unload, get_object, modify_object. rewrite bind_assoc.
  rewrite (bind_ok _ _ s (objects s) s) by done. rewrite Ho. simpl.
  unfold mbind, M_bind, from, modify, in_world, mret, M_ret. simpl.
  destruct (ngx_http_lua_ffi_task_finish _ _ _) as [[rc w]|]; [|done].
  unfold upd_objects, upd_runtimes, set_l_world. simpl. do 3 f_equal.
  apply list_eq. intros i. destruct (decide (i = self)) as [->|Hne].
  - rewrite !list_lookup_alter_eq, Ho. simpl. rewrite list_lookup_insert_eq; [done|]. by eapply lookup_lt_Some.
  - by rewrite !list_lookup_alter_ne, list_lookup_insert_ne.
Qed.

(** What [unload] leaves of a runtime that was not finished. *)
Lemma unload_live env self (s s' : lua H K) k h tq :
  objects s !! self = Some (Object false (Some k) (Some h) tq) → unload env self s = Ok ((), s') →
  ∃ rc w, ngx_http_lua_ffi_task_finish env tq (l_world s) = Ok (rc, w) ∧
    s' = Lua w (l_host s) (l_init s) (delete k (runtimes s))
             (<[self := Object true None None None]> (objects s)) (pin_libs s).
Proof.
  intros Ho. rewrite (unload_in_service _ _ _ _ _ _ Ho).
  destruct (ngx_http_lua_ffi_task_finish _ _ _) as [[rc w]|]; [|done]. intros [= <-]. by exists rc, w.
Qed.

Lemma lua_inv_unload env self (s s' : lua H K) : unload env self s = Ok ((), s') → lua_inv s → lua_inv s'.
Proof.
  intros Hu Hs. pose proof Hu as Hu'. unfold unload in Hu'.
  apply bind_inv in Hu' as (ob & s1 & [Ho ->]%get_object_inv & Hk).
  destruct (li_object _ Hs self ob Ho) as [->|(k & h & tq & ->)]; [by injection Hk as <-|]. clear Hk.
  destruct (unload_live _ _ _ _ _ _ _ Ho Hu) as (rc & w & Hw & ->).
  apply grows_task_finish in Hw as Hb. destruct Hs as [A B C D].
  assert (∀ o ob, <[self := Object true None None None]> (objects s) !! o = Some ob →
    (o = self ∧ ob = Object true None None None) ∨ objects s !! o = Some ob) as Hi.
  { intros o ob [(-> & <- & _)|[_ ?]]%list_lookup_insert_Some; [by left|by right]. }
  split; simpl.
  - intros k' o [Hne Hk]%lookup_delete_Some. destruct (A k' o Hk) as (h' & tq' & Ho').
    exists h', tq'. rewrite list_lookup_insert_ne; [done|]. intros ->. rewrite Ho in Ho'. by simplify_eq.
  - intros o ob [[_ ->]|?]%Hi; [by left|eauto].
  - intros o ob p [[_ ->]|Ho']%Hi Hp; [done|]. destruct (C o ob p Ho' Hp). split; [done|lia].
  - intros o o' ob ob' p [[_ ->]|H1]%Hi [[_ ->]|H2]%Hi; try done. by eapply D.
Qed.

Lemma init_library_inv (s : lua H K) r s' :
  init_library fuel sy s = Ok (r, s') →
  ∃ h b, s' = set_l_host h (set_l_init b s) ∧ (l_init s = true → s' = s ∧ r = None) ∧ (r = None → b = true).
Proof.
  unfold init_library. intros (i & s1 & [-> ->]%gets_inv & Hk)%bind_inv.
  destruct (l_init s) eqn:Ei.
  { injection Hk as <- <-. exists (l_host s), true. destruct s. simpl in *. by subst. }
  apply bind_inv in Hk as (b & s1 & [-> ->]%gets_inv & Hk). destruct (has_symbol _ _).
  { apply bind_inv in Hk as (? & ? & [= <- <-] & [= <- <-]). by exists (l_host s), true. }
  apply bind_inv in Hk as (h & s1 & [= <- <-] & Hk). destruct (ffi_load _ _ _).1.
  2: { injection Hk as <- <-. exists (ffi_load (String.list_byte_of_string "resty_ffi") true (l_host s)).2, false.
       split; [|by split]. destruct s. simpl in *. by subst. }
  apply bind_inv in Hk as (pr & s1 & [-> ->]%gets_inv & Hk).
  apply bind_inv in Hk as (o & s1 & Ho & Hk). unfold from in Ho.
  destruct (lua_resty_ffi_init _ _ _) as [o'|]; [|done]. injection Ho as <- <-.
  destruct o' as [res|]; [|done]. destruct (negb _).
  - injection Hk as <- <-. exists (ffi_load (String.list_byte_of_string "resty_ffi") true (l_host s)).2, false.
    split; [|by split]. destruct s. simpl in *. by subst.
  - apply bind_inv in Hk as (? & ? & [= <- <-] & [= <- <-]). by eexists _, true.
Qed.

Lemma load_and_pin_inv lib g p (s : lua H K) r s' :
  load_and_pin lib g p s = Ok (r, s') →
  ∃ f, r = (ffi_load lib g (l_host s)).1 ∧
    s' = upd_pin_libs f (set_l_host (ffi_load lib g (l_host s)).2 s).
Proof.
  unfold load_and_pin. intros (h & s1 & [= <- <-] & Hk)%bind_inv. unfold set_l_host.
  destruct (ffi_load _ _ _) as [[h|] k]; simpl in *.
  - destruct p; [apply bind_inv in Hk as (? & ? & [= <- <-] & [= <- <-])|injection Hk as <- <-];
      [by eexists|by exists id].
  - injection Hk as <- <-. by exists id.
Qed.

(** A new object with the next block as queue, or none. *)
Lemma lua_inv_new k h tq w0 (s : lua H K) :
  lua_inv (set_l_world w0 s) → (brk w0 < brk (l_world s))%nat → (∀ q, tq = Some q → q = Ptr (brk w0) 0) →
  lua_inv (upd_objects (λ l, l ++ [Object false (Some k) (Some h) tq]) s).
Proof.
  intros [A B C D] Hb Hq.
  assert (∀ o ob, (objects s ++ [Object false (Some k) (Some h) tq]) !! o = Some ob →
    objects s !! o = Some ob ∨ o = length (objects s) ∧ ob = Object false (Some k) (Some h) tq) as Hi.
  { intros o ob [?|[Hl Ho]]%lookup_app_Some; [by left|right].
    apply list_lookup_singleton_Some in Ho as [Hz ->]. split; [lia|done]. }
  split; simpl.
  - intros k' o Hk. destruct (A k' o Hk) as (h' & tq' & Ho). exists h', tq'. by apply lookup_app_l_Some.
  - intros o ob [Ho|[_ ->]]%Hi; [eauto|right; eauto].
  - intros o ob p [Ho|[_ ->]]%Hi Hp; [destruct (C o ob p Ho Hp); simpl in *; split; [done|lia]|].
    simpl in Hp. by rewrite (Hq p Hp).
  - intros o o' ob ob' p [Ho|[-> ->]]%Hi [Ho'|[-> ->]]%Hi Hp Hp'; simpl in *; [by eapply D| | |done].
    + destruct (C o ob p Ho Hp) as [_ Hl]. rewrite (Hq p Hp') in Hl. simpl in Hl. lia.
    + destruct (C o' ob' p Ho' Hp') as [_ Hl]. rewrite (Hq p Hp) in Hl. simpl in Hl. lia.
Qed.

(** Only the world, which grows, and the host change. *)
Definition outside (s s' : lua H K) : Prop :=
  ∃ w h, s' = set_l_host h (set_l_world w s) ∧ (brk (l_world s) ≤ brk w)%nat.

Lemma outside_refl s : outside s s.
Proof. by exists (l_world s), (l_host s); destruct s. Qed.

Lemma outside_trans s s1 s2 : outside s s1 → outside s1 s2 → outside s s2.
Proof. intros (w & h & -> & Hw) (w' & h' & -> & Hw'). exists w', h'. simpl in *. split; [done|lia]. Qed.

Lemma outside_world {B} (m : M world B) s b s' : grows m → in_world m s = Ok (b, s') → outside s s'.
Proof.
  intros Hm (w & Hw & ->)%in_world_inv. exists w, (l_host s). split; [by destruct s|by eapply Hm].
Qed.

Lemma outside_copy_cfg env cfg s buf s' : copy_cfg env cfg s = Ok (buf, s') → outside s s'.
Proof.
  destruct cfg as [c|]; [|intros [= _ <-]; apply outside_refl].
  intros (? & s1 & Ha & Hk)%bind_inv. unfold assume in Ha. destruct (e_calloc env); [|done].
  injection Ha as <- <-. apply bind_inv in Hk as (p & s1' & Hp & [= _ <-]).
  eapply outside_world; [|exact Hp]. apply grows_alloc_buf.
Qed.

Lemma outside_call_init h buf tq s rc s' : call_init h buf tq s = Ok (rc, s') → outside s s'.
Proof.
  intros (arg & s1 & Ha & [= _ <-])%bind_inv. apply (outside_trans _ s1).
  - destruct buf; [|injection Ha as _ <-; apply outside_refl].
    apply bind_inv in Ha as (b & s2 & Hb & [= _ <-]).
    eapply outside_world; [|exact Hb]. apply grows_load_bytes.
  - eexists (l_world s1), _. split; [|done]. by destruct s1.
Qed.

(** The outcomes of [start_runtime]. *)
Definition started (lib : list byte) (cfg : option (list byte)) (tq : option ptr) (w1 : world)
    (s : lua H K) (r : load_result) (s' : lua H K) : Prop :=
  let o := length (objects s) in
  (r = Raised LibraryNotFound ∧ objects s' = objects s ∧ runtimes s' = runtimes s) ∨
  ∃ h, objects s' = objects s ++ [Object false (Some (make_key lib cfg)) (Some h) tq] ∧
    ((r = Loaded o ∧ runtimes s' = <[make_key lib cfg := o]> (runtimes s)) ∨
     ((∀ o', r ≠ Loaded o') ∧ runtimes s' = runtimes s)).

Lemma start_runtime_inv env lib cfg max g p (s : lua H K) r s' :
  start_runtime make_key env lib cfg max g p s = Ok (r, s') →
  ∃ tq w1, ngx_http_lua_ffi_create_task_queue env max (l_world s) = Ok (tq, w1) ∧
    (brk w1 ≤ brk (l_world s'))%nat ∧ l_init s' = l_init s ∧ started lib cfg tq w1 s r s'.
Proof.
  unfold start_runtime. intros (max' & s1 & Hmax & Hk)%bind_inv.
  assert (max' = max ∧ s1 = s) as [-> ->].
  { revert Hmax. unfold to_c_int, assume, mbind, M_bind. destruct (fits_int max); [by intros [= <- <-]|done]. }
  apply bind_inv in Hk as (tq & s1 & (w1 & Hw & ->)%in_world_inv & Hk).
  exists tq, w1. split; [done|]. apply bind_inv in Hk as (h & s1 & (f & -> & ->)%load_and_pin_inv & Hk).
  set (hk := ffi_load _ _ _) in *. destruct hk.1 as [h|].
  2: { injection Hk as <- <-. split_and!; [done..|]. by left. }
  apply bind_inv in Hk as (o & s1 & [-> ->]%gets_inv & Hk). apply bind_inv in Hk as (? & ? & [= <- <-] & Hk).
  apply bind_inv in Hk as (buf & s1 & Hc%outside_copy_cfg & Hk).
  apply bind_inv in Hk as (rc & s2 & Hr%outside_call_init & Hk).
  pose proof (outside_trans _ _ _ Hc Hr) as (w2 & k2 & -> & Hw2). destruct rc as [rc|]; [|injection Hk as <- <-].
  2: { split_and!; [done..|]. right. exists h. split; [done|]. by right. }
  apply bind_inv in Hk as ([] & s3 & Hf & Hk).
  apply outside_world in Hf as (w3 & k3 & -> & Hw3); [|apply grows_free_buf]. destruct (rc =? 0).
  - apply bind_inv in Hk as (? & ? & [= <- <-] & [= <- <-]). split; [simpl in *; lia|]. split; [done|].
    right. exists h. split; [done|]. by left.
  - injection Hk as <- <-. split; [simpl in *; lia|]. split; [done|].
    right. exists h. split; [done|]. by right.
Qed.

Lemma lua_inv_started env lib cfg max (s s' : lua H K) r tq w1 :
  ngx_http_lua_ffi_create_task_queue env max (l_world s) = Ok (tq, w1) →
  (brk w1 ≤ brk (l_world s'))%nat → started lib cfg tq w1 s r s' → lua_inv s → lua_inv s'.
Proof.
  intros [Hlt Hq]%create_task_queue_block Hb Hst Hs.
  destruct Hst as [(_ & Ho & Hr)|(h & Ho & Hst)].
  { destruct Hs as [A B C D]. split; rewrite ?Ho, ?Hr; [done..| |done].
    intros o ob p Hop Hp. destruct (C o ob p Hop Hp). split; [done|lia]. }
  assert (lua_inv (set_l_world (l_world s') (upd_objects (λ l, l ++ [Object false (Some (make_key lib cfg))
    (Some h) tq]) s)))
    as [A B C D].
  { apply (lua_inv_new _ _ _ (l_world s) (set_l_world (l_world s') s)); [|simpl; lia|done].
    by destruct s. }
  simpl in *. split; rewrite ?Ho; [|done..].
  intros k o. destruct Hst as [[_ ->]|[_ ->]]; [|apply A].
  intros [[<- <-]|[_ Hk]]%lookup_insert_Some; [|by apply A].
  exists h, tq. by rewrite lookup_app_r, Nat.sub_diag.
Qed.

Lemma load_ffi_inv env lib cfg opts (s : lua H K) r s' :
  load_ffi make_key fuel sy env lib cfg opts s = Ok (r, s') →
  ∃ h b, let s1 := set_l_host h (set_l_init b s) in (l_init s = true → s1 = s) ∧
    ((∃ e, r = Raised e ∧ s' = s1) ∨
     (b = true ∧ ∃ o, runtimes s !! make_key lib cfg = Some o ∧ r = Loaded o ∧ s' = s1) ∨
     (b = true ∧ runtimes s !! make_key lib cfg = None ∧ l_init s' = true ∧
      ∃ max tq w1, ngx_http_lua_ffi_create_task_queue env max (l_world s) = Ok (tq, w1) ∧
       (brk w1 ≤ brk (l_world s'))%nat ∧ started lib cfg tq w1 s1 r s')).
Proof.
  unfold load_ffi. intros (e & s1 & (h & b & -> & Hi & Hb)%init_library_inv & Hk)%bind_inv.
  exists h, b. split; [intros E; by apply Hi in E as [-> _]|]. destruct e as [e|].
  { injection Hk as <- <-. left. by exists e. }
  rewrite (Hb eq_refl) in *. right. apply bind_inv in Hk as (rt & s1 & [-> ->]%gets_inv & Hk). simpl in Hk.
  destruct (runtimes s !! _) as [o|] eqn:E.
  { injection Hk as <- <-. left. split; [done|]. by exists o. }
  right. split; [done|]. split; [done|].
  apply start_runtime_inv in Hk as (tq & w1 & Hw & Hlt & Hin & Hst). split; [by rewrite Hin|]. eauto 10.
Qed.

Lemma lua_inv_step s s' : lua_step s s' → lua_inv s → lua_inv s'.
Proof.
  intros Hst Hs. destruct Hst as [env lib cfg opts r s s' Hl|env self r req a s s' Hp|env self s s' Hu|w h s Hw].
  - apply load_ffi_inv in Hl as (h & b & _ & Hl).
    assert (lua_inv (set_l_host h (set_l_init b s))) as Hs1 by by apply lua_inv_host, lua_inv_init.
    destruct Hl as [(e & _ & ->)|[(_ & o & _ & _ & ->)|(_ & _ & _ & max & tq & w1 & Hw & Hb & Hst)]]; [done..|].
    by eapply lua_inv_started.
  - by eapply lua_inv_post.
  - by eapply lua_inv_unload.
  - by apply lua_inv_host, lua_inv_world.
Qed.

(** ** The table of runtimes *)

Definition fresh_lua (w : world) (h : host) : lua H K := Lua w h false ∅ [] ∅.

Lemma lua_inv_reachable w h s : rtc lua_step (fresh_lua w h) s → lua_inv s.
Proof.
  remember (fresh_lua w h) as s0 eqn:E. intros Hr.
  assert (lua_inv s0) as H0.
  { subst. by split. }
  clear E. induction Hr as [|s s1 s2 Hst Hr IH]; [done|]. by eapply IH, lua_inv_step.
Qed.

Lemma init_library_done (s : lua H K) : l_init s = true → init_library fuel sy s = Ok (None, s).
Proof. unfold init_library. intros E. rewrite (bind_ok _ _ s true s); [done|]. by rewrite <-E. Qed.

Lemma load_ffi_hit env lib cfg opts (s : lua H K) o :
  l_init s = true → runtimes s !! make_key lib cfg = Some o →
  load_ffi make_key fuel sy env lib cfg opts s = Ok (Loaded o, s).
Proof.
  unfold load_ffi. intros Hi Ho. rewrite (bind_ok _ _ _ _ _ (init_library_done s Hi)).
  rewrite (bind_ok _ _ s (Some o) s); [done|]. by rewrite <-Ho.
Qed.

(** What a successful [load_ffi] leaves. *)
Lemma load_ffi_loaded env lib cfg opts (s : lua H K) o s' :
  load_ffi make_key fuel sy env lib cfg opts s = Ok (Loaded o, s') →
  l_init s' = true ∧ runtimes s' !! make_key lib cfg = Some o.
Proof.
  intros (h & b & _ & Hl)%load_ffi_inv.
  destruct Hl as [(e & ? & _)|[(-> & o' & Ho & [= ->] & ->)|(_ & _ & Hi & max & tq & w1 & _ & _ & Hst)]]; [done..|].
  split; [done|]. destruct Hst as [(? & _)|(h' & _ & [([= ->] & ->)|[Hn _]])]; [done| |by destruct (Hn o)].
  apply lookup_insert_eq.
Qed.

Lemma unload_finished env self (s : lua H K) ob :
  objects s !! self = Some ob → o_finished ob = true →
  (∀ r req, post env self r req s = Ok (PostFinished, s)) ∧ unload env self s = Ok ((), s).
Proof.
  intros Ho Hf. assert (get_object self s = Ok (ob, s)) as Hg.
  { unfold get_object. rewrite (bind_ok _ _ s (objects s) s) by done. unfold from. by rewrite Ho. }
  unfold post, unload. split; [intros r req|]; rewrite (bind_ok _ _ _ _ _ Hg); by rewrite Hf.
Qed.

End Steps.

(** ** A new runtime, step by step *)

(** The queue and the world after [create_task_queue], when memory is
    available. *)
Definition created (env : sysenv) (max : Z) (w : world) : option ptr * world :=
  if (e_mutex_create env =? NGX_OK) && (e_cond_create env =? NGX_OK)
  then (Some (Ptr (brk w) 0), upd_queues <[brk w := fresh_queue (brk w) max]> (upd_brk S w))
  else (None, upd_brk S w).

(** The bytes that [libffi_init] gets, and the world while it runs and after the
    buffer was freed. *)
Definition cfg_bytes (cfg : option (list byte)) : option (list byte) := (λ c, c ++ [x00]) <$> cfg.
Definition with_cfg (cfg : option (list byte)) (w : world) : world :=
  match cfg_bytes cfg with
  | None => w
  | Some b => upd_brk S (upd_bufs <[brk w := b]> w)
  end.
Definition without_cfg (cfg : option (list byte)) (w : world) : world :=
  match cfg with None => w | Some _ => upd_brk S w end.

Definition is_pinned (opts : option options) : bool :=
  match opts with None => true | Some o => negb (opt_unpin o) end.

Section Run.
Context {H : LuaHost} {K : Type} `{EqDecision K, !Countable K}.
Variable make_key : list byte → option (list byte) → K.

Lemma copy_cfg_run env cfg (s : lua H K) :
  e_calloc env = true →
  copy_cfg env cfg s =
    Ok (match cfg with None => None | Some _ => Some (Ptr (brk (l_world s)) 0) end,
        set_l_world (with_cfg cfg (l_world s)) s).
Proof.
  intros Ha. destruct cfg as [c|]; simpl; [|by destruct s].
  rewrite (bind_ok _ _ s () s) by (unfold assume; by rewrite Ha). done.
Qed.

Lemma call_init_run hd cfg tq w (s : lua H K) :
  l_world s = with_cfg cfg w →
  call_init hd (match cfg with None => None | Some _ => Some (Ptr (brk w) 0) end) tq s =
    let r := libffi_init hd (cfg_bytes cfg) tq (l_host s) in Ok (r.1, set_l_host r.2 s).
Proof.
  intros Hw. unfold call_init. destruct cfg as [c|]; [|done].
  rewrite (bind_ok _ _ s (Some (c ++ [x00])) s); [done|].
  assert (load_bytes (Some (Ptr (brk w) 0)) (l_world s) = Ok (c ++ [x00], l_world s)) as Hl.
  { apply load_bytes_ok. rewrite Hw. simpl. apply lookup_insert_eq. }
  rewrite (bind_ok _ _ s (c ++ [x00]) s); [done|]. unfold in_world. rewrite Hl. by destruct s.
Qed.

Lemma free_cfg_run cfg w (s : lua H K) :
  l_world s = with_cfg cfg w → bufs w !! brk w = None →
  in_world (free_buf (match cfg with None => None | Some _ => Some (Ptr (brk w) 0) end)) s =
    Ok ((), set_l_world (without_cfg cfg w) s).
Proof.
  intros Hw Hb. unfold in_world. rewrite Hw. destruct cfg as [c|]; simpl.
  - erewrite free_buf_ok by (simpl; apply lookup_insert_eq). do 2 f_equal.
    unfold upd_bufs, upd_brk; simpl. by rewrite delete_insert_id.
  - done.
Qed.

(** [load_ffi] for a key that is not in the table. *)
Lemma load_ffi_new fuel sy env lib cfg opts (s : lua H K) :
  fits_int (default 65536 (opts ≫= opt_max_queue)) = true → l_init s = true → runtimes s !! make_key lib cfg = None → e_calloc env = true →
  queues (l_world s) !! brk (l_world s) = None → bufs (l_world s) !! S (brk (l_world s)) = None →
  load_ffi make_key fuel sy env lib cfg opts s =
    let c := created env (default 65536 (opts ≫= opt_max_queue)) (l_world s) in
    let l := ffi_load lib (default false (opts ≫= opt_is_global)) (l_host s) in
    match l.1 with
    | None => Ok (Raised LibraryNotFound, set_l_host l.2 (set_l_world c.2 s))
    | Some hd =>
        let pins := if is_pinned opts then <[lib := hd]> (pin_libs s) else pin_libs s in
        let objs := objects s ++ [Object false (Some (make_key lib cfg)) (Some hd) c.1] in
        let i := libffi_init hd (cfg_bytes cfg) c.1 l.2 in
        match i.1 with
        | None => Ok (Raised SymbolNotFound, Lua (with_cfg cfg c.2) i.2 true (runtimes s) objs pins)
        | Some rc =>
            let w := without_cfg cfg c.2 in
            if rc =? 0 then
              Ok (Loaded (length (objects s)),
                  Lua w i.2 true (<[make_key lib cfg := length (objects s)]> (runtimes s)) objs pins)
            else Ok (NotLoaded rc, Lua w i.2 true (runtimes s) objs pins)
        end
    end.
Proof.
  intros Hfit Hi Hn Ha Hq Hb. unfold load_ffi. rewrite (bind_ok _ _ _ _ _ (init_library_done fuel sy s Hi)).
  rewrite (bind_ok _ _ s None s) by (by rewrite <-Hn). cbv zeta. unfold start_runtime.
  set (max := default 65536 _). set (g := default false _). fold (is_pinned opts).
  fold max in Hfit. rewrite (bind_ok _ _ s max s) by (unfold to_c_int, assume, mbind, M_bind; by rewrite Hfit).
  assert (ngx_http_lua_ffi_create_task_queue env max (l_world s) = Ok (created env max (l_world s))) as Hc.
  { rewrite create_task_queue_run by done. done. }
  destruct (created env max (l_world s)) as [tq w1] eqn:Ec.
  assert (bufs w1 !! brk w1 = None) as Hb1.
  { unfold created in Ec. destruct (_ && _); by injection Ec as <- <-. }
  rewrite (bind_ok _ _ s tq (set_l_world w1 s)) by (unfold in_world; by rewrite Hc). cbn [fst snd].
  destruct (ffi_load lib g (l_host s)) as [[hd|] h1] eqn:El; cbn [fst snd].
  2: { unfold load_and_pin. erewrite bind_ok by (erewrite bind_ok by (unfold in_host; simpl; by rewrite El); done).
       done. }
  set (pins := if is_pinned opts then _ else _).
  rewrite (bind_ok _ _ _ (Some hd) (Lua w1 h1 true (runtimes s) (objects s) pins)).
  2: { unfold load_and_pin. erewrite bind_ok by (unfold in_host; simpl; by rewrite El). subst pins.
       destruct s, (is_pinned opts); simpl in *; by subst. }
  rewrite (bind_ok _ _ _ (length (objects s)) (Lua w1 h1 true (runtimes s) (objects s) pins)) by done.
  erewrite bind_ok by done. erewrite bind_ok by by apply copy_cfg_run.
  erewrite bind_ok by by apply call_init_run. cbv zeta. cbn [l_host set_l_world upd_objects].
  destruct (libffi_init hd (cfg_bytes cfg) tq h1) as [[rc|] h2]; cbn [fst snd]; [|done].
  erewrite bind_ok by by apply free_cfg_run. by destruct (rc =? 0).
Qed.

(** No block beyond the last allocation. *)
Definition fresh_memory (w : world) : Prop :=
  ∀ l, (brk w ≤ l)%nat → tasks w !! l = None ∧ bufs w !! l = None ∧ queues w !! l = None.

(** The request of a task, as [post] copied it. *)
Definition req_bytes (w : world) (c : ffi_task_ctx_t) : option (list byte) :=
  match c_req c with None => None | Some p => bufs w !! p_blk p end.

(** A post to an empty queue with room. *)
Lemma lua_post_empty env r c tp max req w :
  e_calloc env = true → e_lock env = NGX_OK → e_unlock env = NGX_OK → e_signal env = NGX_OK → 0 < max →
  fresh_memory w → poster w r c → queues w !! tp = Some (fresh_queue tp max) →
  ∃ w' q t b x, lua_post env r (Some (Ptr tp 0)) req w = Ok (NGX_OK, w') ∧
    queues w' !! tp = Some q ∧ waiting q = 1 ∧ queue_repr (tasks w') (SQueueFirst (Ptr tp 0)) (queue q) [t] ∧
    tasks w' !! t = Some b ∧ tb_ctx b = Some x ∧ c_wait_co_ctx x = Some c ∧
    c_req_len x = match req with None => 0 | Some s => Z.of_nat (length s) end ∧
    req_bytes w' x = cfg_bytes req.
Proof.
  intros Ha Hl Hu Hsg Hmax Hf Hpo Hq.
  set (w0 := match req with None => w | Some s => upd_brk S (upd_bufs <[brk w := s ++ [x00]]> w) end).
  set (p := match req with None => None | Some _ => Some (Ptr (brk w) 0) end).
  set (len := match req with None => 0 | Some s => Z.of_nat (length s) end).
  assert (lua_post env r (Some (Ptr tp 0)) req w =
    ngx_http_lua_ffi_task_post env r (Some (Ptr tp 0)) p len w0) as -> by by destruct req.
  assert (brk w ≤ brk w0)%nat as Hb by (subst w0; destruct req; simpl; lia).
  assert (tasks w0 = tasks w ∧ queues w0 = queues w ∧ reqs w0 = reqs w ∧ cos w0 = cos w) as (Et & Eq & Er & Ec)
    by (subst w0; by destruct req).
  assert (queue_repr (tasks w0) (SQueueFirst (Ptr tp 0)) (queue (fresh_queue tp max)) []) as Hrepr
    by (split; [done|done|apply NoDup_nil_2]).
  assert (tasks w0 !! brk w0 = None) as Hfr by (rewrite Et; by apply (Hf (brk w0) Hb)).
  assert (buf_live (bufs w0) p) as Hlive.
  { subst w0 p. destruct req; [|done]. split; [done|]. simpl. rewrite lookup_insert_eq. by eexists. }
  rewrite (task_post_accepted env w0 r c tp (fresh_queue tp max) []); [|done|done| |split; [by rewrite
    Eq|done..]|done..|].
  - eexists _, (posted_queue env [] (brk w0) (fresh_queue tp max)), (brk w0), _, _. split; [done|]. split_and!.
    + simpl. by rewrite lookup_alter_eq, Eq, Hq.
    + done.
    + simpl. apply (queue_repr_append _ _ _ [] _ (map_tb_task mark_active (posted_block c (brk w0) p len)));
        [by split; [..|apply NoDup_nil_2]|apply not_elem_of_nil|apply lookup_insert_eq|done].
    + simpl. unfold link. simpl. apply lookup_insert_eq.
    + done.
    + done.
    + done.
    + unfold req_bytes. simpl. subst p w0. destruct req; [|done]. simpl. apply lookup_insert_eq.
  - destruct Hpo as [Hr Hc]. by split; rewrite ?Er, ?Ec.
  - unfold refused. rewrite Hl, Hsg. simpl. rewrite (proj2 (Z.leb_gt _ _)) by done. done.
Qed.

(** A post to NULL. *)
Lemma task_post_null env r c p len w :
  e_calloc env = true → poster w r c → ngx_http_lua_ffi_task_post env r None p len w = UB NullDeref.
Proof.
  intros Ha [(x & lc & Hr & Hx & Hc) [y Hy]]. unfold ngx_http_lua_ffi_task_post.
  erewrite bind_ok by by eapply create_task_run. set (w1 := upd_cos _ _).
  assert (tasks w1 !! brk w = Some (created_block (Some c) (brk w))) as Ht by apply lookup_insert_eq.
  erewrite bind_ok by by eapply load_task_ok. cbv zeta.
  erewrite bind_ok by by eapply modify_ctx_ok. apply bind_ub. unfold ngx_task_post.
  erewrite bind_ok by (eapply load_task_ok; simpl; rewrite lookup_alter_eq; simpl; by rewrite lookup_insert_eq).
  simpl. by apply bind_ub, bind_ub.
Qed.

Lemma lua_post_null env r c req w :
  e_calloc env = true → poster w r c → lua_post env r None req w = UB NullDeref.
Proof.
  intros Ha Hpo. unfold lua_post. destruct req as [d|]; [|by eapply task_post_null].
  erewrite bind_ok by apply alloc_buf_ok. eapply task_post_null; [done|].
  destruct Hpo as [Hr Hc]. by split.
Qed.

End Run.

(** ** Properties of [load_ffi], [post] and [unload] *)

Section Properties.
Context {H : LuaHost}.
Variable fuel : nat.
Variable sy : symbols.

Let load := load_ffi (K := list byte) lua_key fuel sy.
Let step := lua_step (K := list byte) lua_key fuel sy.

(** C20: Lua's view of the runtimes is well typed.  After any sequence of loads,
    posts and unloads, with any steps of the other threads in between: the table
    maps a key to a runtime that is not finished, carries that key and has a
    library handle; an unloaded runtime carries nothing; the queue of a runtime
    is the start of a block; and no two keys share a runtime, no two runtimes a
    queue. *)
Theorem runtimes_are_well_typed w h s :
  rtc step (fresh_lua w h) s →
  (∀ k o, runtimes s !! k = Some o → ∃ hd tq, objects s !! o = Some (Object false (Some k) (Some hd) tq)) ∧
  (∀ k k' o, runtimes s !! k = Some o → runtimes s !! k' = Some o → k = k') ∧
  (∀ o ob, objects s !! o = Some ob → o_finished ob = true → ob = Object true None None None) ∧
  (∀ o ob p, objects s !! o = Some ob → o_tq ob = Some p → p_off p = 0 ∧ (p_blk p < brk (l_world s))%nat) ∧
  (∀ o o' ob ob' p, objects s !! o = Some ob → objects s !! o' = Some ob' →
     o_tq ob = Some p → o_tq ob' = Some p → o = o').
Proof using Type.
  intros [A B C D]%lua_inv_reachable. split_and!; [done| | |done|done].
  - intros k k' o Hk Hk'. destruct (A k o Hk) as (? & ? & Ho), (A k' o Hk') as (? & ? & Ho'). by simplify_eq.
  - intros o ob Ho Hf. destruct (B o ob Ho) as [?|(? & ? & ? & ->)]; [done|]. by simpl in Hf.
Qed.

(** [load_ffi] is cached: once a library is loaded with a configuration,
    loading it again returns the same runtime and changes nothing, whatever the
    options of the second call. *)
Theorem load_ffi_is_cached env env' lib cfg opts opts' s o s' :
  load env lib cfg opts s = Ok (Loaded o, s') → load env' lib cfg opts' s' = Ok (Loaded o, s').
Proof using Type. intros [Hi Ho]%load_ffi_loaded. by apply load_ffi_hit. Qed.

(** The key of the table is ambiguous: the library [a&b] with configuration
    [c] gets the runtime of the library [a] with configuration [b&c], and no
    library is loaded for it. *)
Theorem keys_collide env env' a b c opts opts' s o s' :
  load env a (Some (b ++ amp :: c)) opts s = Ok (Loaded o, s') →
  load env' (a ++ amp :: b) (Some c) opts' s' = Ok (Loaded o, s').
Proof using Type.
  intros [Hi Ho]%load_ffi_loaded. apply load_ffi_hit; [done|]. rewrite <-Ho. f_equal. simpl.
  by rewrite <-app_assoc.
Qed.

(** C22: [unload] takes a runtime out of service once: later posts are refused
    and a second [unload] does nothing; its key is free again, the other
    runtimes stay; and a later load with its key gives a new runtime with a queue
    that is none of the old ones. *)
Theorem unload_frees_the_key env self w h s s' k hd tq :
  rtc step (fresh_lua w h) s → objects s !! self = Some (Object false (Some k) (Some hd) tq) →
  unload env self s = Ok ((), s') →
  (∀ env' r req, post env' self r req s' = Ok (PostFinished, s')) ∧
  (∀ env', unload env' self s' = Ok ((), s')) ∧ runtimes s' = delete k (runtimes s) ∧
  ∀ env' lib cfg opts o s2, lua_key lib cfg = k → load env' lib cfg opts s' = Ok (Loaded o, s2) →
    o ≠ self ∧ ∃ hd' tq', objects s2 !! o = Some (Object false (Some k) (Some hd') tq') ∧
      ∀ o' ob q, objects s !! o' = Some ob → o_tq ob = Some q → tq' ≠ Some q.
Proof using Type.
  intros Hr Ho Hu. assert (lua_inv s) as Hs by by eapply lua_inv_reachable.
  destruct (unload_live _ _ _ _ _ _ _ Ho Hu) as (rc & w' & Hw & E).
  assert (objects s' !! self = Some (Object true None None None)) as Ho'.
  { rewrite E. simpl. apply list_lookup_insert_eq. by eapply lookup_lt_Some. }
  split_and!.
  - intros env' r req. by eapply unload_finished.
  - intros env'. by eapply (unload_finished _ _ _ _ Ho').
  - by rewrite E.
  - intros env' lib cfg opts o s2 <- (h2 & b & _ & Hl)%load_ffi_inv.
    assert (runtimes s' !! lua_key lib cfg = None) as Hn by (rewrite E; apply lookup_delete_eq).
    destruct Hl as [(e & ? & _)|[(_ & o' & Hf & _)|(_ & _ & _ & max & tq2 & w1 & Hc & _ & Hst)]];
      [done|congruence|].
    destruct Hst as [(? & _)|(h' & Hob & [([= ->] & _)|[Hn' _]])]; [done| |by destruct (Hn' o)].
    apply lookup_lt_Some in Ho' as Hlt. split; [simpl; lia|]. exists h', tq2.
    rewrite Hob. split; [by rewrite lookup_app_r, Nat.sub_diag|].
    intros o' ob q Hq1 Hq2 ->. apply create_task_queue_block in Hc as [_ Hq]. rewrite (Hq q eq_refl) in Hq2.
    destruct (li_queue _ Hs o' ob _ Hq1 Hq2) as [_ Hb]. simpl in Hb.
    apply grows_task_finish in Hw. rewrite E in Hb. simpl in Hb. lia.
Qed.

(** Nothing is loaded into a binary that the library was not built for.  When
    the library is not linked yet and [lua_resty_ffi_init] finds no build id, or
    another one, [load_ffi] raises an error, creates no queue and no runtime, and
    the next call checks again. *)
Theorem foreign_binary_is_refused env lib cfg opts s hd r :
  l_init s = false →
  has_symbol (String.list_byte_of_string "ngx_http_lua_ffi_create_task_queue") (l_host s) = false →
  let l := ffi_load (String.list_byte_of_string "resty_ffi") true (l_host s) in
  l.1 = Some hd → lua_resty_ffi_init fuel sy (running_process l.2) = Some (Ok r) → (∀ d k n, r ≠ InitOk d k n) →
  load env lib cfg opts s = Ok (Raised InitFailed, set_l_host l.2 s).
Proof using Type.
  intros Hi Hs l Hl Hr Hok. subst load. unfold load_ffi. apply bind_ok with (a := Some InitFailed) (s' :=
    set_l_host l.2 s).
  unfold init_library. rewrite (bind_ok _ _ s false s) by (by rewrite <-Hi).
  rewrite (bind_ok _ _ s false s) by (unfold gets; by rewrite Hs).
  rewrite (bind_ok _ _ s (Some hd) (set_l_host l.2 s)) by (unfold in_host; by rewrite <-Hl).
  rewrite (bind_ok _ _ _ (running_process l.2) (set_l_host l.2 s)) by done.
  rewrite (bind_ok _ _ _ (Ok r) (set_l_host l.2 s)) by (by rewrite Hr).
  destruct r as [|e a|d k n]; [done|done|]. by destruct (Hok d k n).
Qed.

(** A load for a new key, with memory available. *)
Section NewKey.
Context (env : sysenv) (lib : list byte) (cfg : option (list byte)) (opts : option options).
Context (s : lua H (list byte)).
Hypothesis Hinit : l_init s = true.
Hypothesis Hkey : runtimes s !! lua_key lib cfg = None.
Hypothesis Hmem : e_calloc env = true.
Hypothesis Hfresh : fresh_memory (l_world s).

Let tp := brk (l_world s).
Let max := default 65536 (opts ≫= opt_max_queue).
Hypothesis Hfit : fits_int max = true.

Lemma load_new r s' :
  load env lib cfg opts s = Ok (r, s') →
  let c := created env max (l_world s) in
  (r = Raised LibraryNotFound ∧ l_world s' = c.2 ∧ objects s' = objects s ∧ runtimes s' = runtimes s) ∨
  ∃ hd k, let i := libffi_init hd (cfg_bytes cfg) c.1 k in
    objects s' = objects s ++ [Object false (Some (lua_key lib cfg)) (Some hd) c.1] ∧
    ((r = Raised SymbolNotFound ∧ i.1 = None ∧ l_world s' = with_cfg cfg c.2 ∧ runtimes s' = runtimes s) ∨
     (∃ rc, r = NotLoaded rc ∧ i.1 = Some rc ∧ rc ≠ 0 ∧ l_world s' = without_cfg cfg c.2 ∧ runtimes s' = runtimes s) ∨
     (r = Loaded (length (objects s)) ∧ i.1 = Some 0 ∧ l_world s' = without_cfg cfg c.2 ∧
      runtimes s' = <[lua_key lib cfg := length (objects s)]> (runtimes s))).
Proof using All.
  subst load. rewrite load_ffi_new by (done || by apply Hfresh; simpl; lia). cbv zeta. fold max.
  set (c := created env max (l_world s)). set (l := ffi_load _ _ _).
  destruct l.1 as [hd|]; [|intros [= <- <-]; by left]. intros Hl. right. exists hd, l.2.
  destruct (libffi_init hd _ _ _).1 as [rc|] eqn:E; [|injection Hl as <- <-; split; [done|by left]].
  destruct (rc =? 0) eqn:E0; injection Hl as <- <-; (split; [done|]); right.
  - apply Z.eqb_eq in E0 as ->. by right.
  - apply Z.eqb_neq in E0. left. by exists rc.
Qed.

Lemma created_ok :
  e_mutex_create env = NGX_OK → e_cond_create env = NGX_OK →
  created env max (l_world s) =
    (Some (Ptr tp 0), upd_queues <[tp := fresh_queue tp max]> (upd_brk S (l_world s))).
Proof using Type. unfold created. by intros -> ->. Qed.

(** C23: A load that fails loses its queue: when the library is not found, has no
    [libffi_init], or [libffi_init] returns an error code, the queue that
    [load_ffi] created stays allocated, no runtime of the table has it, and
    without the symbol the copy of the configuration stays allocated too. *)
Theorem failed_load_leaks_the_queue r s' :
  lua_inv s → e_mutex_create env = NGX_OK → e_cond_create env = NGX_OK →
  load env lib cfg opts s = Ok (r, s') → (∀ o, r ≠ Loaded o) →
  queues (l_world s') = <[tp := fresh_queue tp max]> (queues (l_world s)) ∧
  queues (l_world s) !! tp = None ∧
  (∀ k o ob, runtimes s' !! k = Some o → objects s' !! o = Some ob → o_tq ob ≠ Some (Ptr tp 0)) ∧
  bufs (l_world s') =
    match r, cfg with
    | Raised SymbolNotFound, Some c => <[S tp := c ++ [x00]]> (bufs (l_world s))
    | _, _ => bufs (l_world s)
    end.
Proof using All.
  intros Hinv Hm Hc Hl Hr. apply load_new in Hl. rewrite (created_ok Hm Hc) in Hl. cbn [fst snd] in Hl.
  assert (queues (l_world s) !! tp = None) as Hq by by apply Hfresh.
  assert (runtimes s' = runtimes s ∧ queues (l_world s') = <[tp := fresh_queue tp max]> (queues (l_world s)) ∧
    objects s `prefix_of` objects s' ∧
    bufs (l_world s') = match r, cfg with
                        | Raised SymbolNotFound, Some c => <[S tp := c ++ [x00]]> (bufs (l_world s))
                        | _, _ => bufs (l_world s)
                        end) as (Hrt & Hqs & [obs Hob] & Hbs).
  { destruct Hl as [(-> & -> & -> & ->)|(hd & k & -> & Hl)]; [done|].
    destruct Hl as [(-> & _ & -> & ->)|[(rc & -> & _ & _ & -> & ->)|(-> & _)]]; [| |by destruct (Hr (length
      (objects s)))].
    all: destruct cfg; (split_and!; [done|done|by eexists|done]). }
  split_and!; [done|done| |done]. intros k o ob Hk Ho Ht. rewrite Hrt in Hk.
  destruct (li_table _ Hinv k o Hk) as (hd & tq & Ho'). rewrite Hob, lookup_app_l in Ho by by eapply lookup_lt_Some.
  destruct (li_queue _ Hinv o ob _ Ho Ht) as [_ Hlt]. simpl in Hlt. subst tp. lia.
Qed.

Lemma loaded_object o s' :
  load env lib cfg opts s = Ok (Loaded o, s') →
  ∃ hd k, o = length (objects s) ∧ (libffi_init hd (cfg_bytes cfg) (created env max (l_world s)).1 k).1 = Some 0 ∧
    get_object o s' =
      Ok (Object false (Some (lua_key lib cfg)) (Some hd) (created env max (l_world s)).1, s') ∧
    l_world s' = without_cfg cfg (created env max (l_world s)).2.
Proof using All.
  intros [(? & _)|(hd & k & Ho & [(? & _)|[(rc & ? & _)|([= ->] & Hi & Hw & _)]])]%load_new; [done..|].
  exists hd, k. split_and!; [done|done| |done]. unfold get_object.
  rewrite (bind_ok _ _ s' (objects s') s') by done. unfold from.
  by rewrite Ho, lookup_app_r, Nat.sub_diag.
Qed.

Lemma created_frame w :
  w = without_cfg cfg (created env max (l_world s)).2 →
  tasks w = tasks (l_world s) ∧ bufs w = bufs (l_world s) ∧ cos w = cos (l_world s) ∧
  reqs w = reqs (l_world s) ∧ (S tp ≤ brk w)%nat ∧ (∀ l, l ≠ tp → queues w !! l = queues (l_world s) !! l).
Proof using All.
  unfold created. intros ->. destruct cfg; destruct (_ && _); simpl; split_and!; try done; try (subst tp; lia).
  all: intros; by rewrite lookup_insert_ne by done.
Qed.

(** C21: A loaded runtime takes requests.  When [max_queue] is a C [int], [load_ffi]
    passes the new queue and the configuration, with its NUL, to [libffi_init];
    when that returns 0, the runtime has the queue, and if [max_queue] is positive
    the first post of a coroutine yields and leaves one task in the queue that
    holds the request. *)
Theorem loaded_runtime_takes_requests env' o s' r c req :
  e_mutex_create env = NGX_OK → e_cond_create env = NGX_OK →
  load env lib cfg opts s = Ok (Loaded o, s') → 0 < max → poster (l_world s) r c →
  e_calloc env' = true → e_lock env' = NGX_OK → e_unlock env' = NGX_OK → e_signal env' = NGX_OK →
  (∃ hd k, (libffi_init hd (cfg_bytes cfg) (Some (Ptr tp 0)) k).1 = Some 0) ∧
  ∃ s2 q t b x, post env' o r req s' = Ok (PostYields, s2) ∧
    queues (l_world s2) !! tp = Some q ∧ waiting q = 1 ∧
    queue_repr (tasks (l_world s2)) (SQueueFirst (Ptr tp 0)) (queue q) [t] ∧
    tasks (l_world s2) !! t = Some b ∧ tb_ctx b = Some x ∧ c_wait_co_ctx x = Some c ∧
    c_req_len x = match req with None => 0 | Some d => Z.of_nat (length d) end ∧
    req_bytes (l_world s2) x = cfg_bytes req.
Proof using All.
  intros Hm Hc Hl Hmax [Hpr Hpc] Ha Hlk Hu Hsg. apply loaded_object in Hl as (hd & k & -> & Hi & Hg & Hw).
  destruct (created_frame _ Hw) as (Et & Eb & Ec & Er & Hb & Eq).
  assert (queues (l_world s') !! tp = Some (fresh_queue tp max)) as Hq.
  { rewrite Hw, created_ok by done. destruct cfg; apply lookup_insert_eq. }
  rewrite created_ok in Hi, Hg by done. split; [by exists hd, k|].
  destruct (lua_post_empty env' r c tp max req (l_world s')) as (w' & q & t & b & x & Hp & Hrest); try done.
  - intros l Hlt. destruct (Hfresh l) as (? & ? & ?); [subst tp; lia|].
    rewrite Et, Eb, Eq by (subst tp; lia). done.
  - split; [by rewrite Er|by rewrite Ec].
  - exists (set_l_world w' s'), q, t, b, x. split; [|done]. unfold post.
    rewrite (bind_ok _ _ _ _ _ Hg). cbn [o_finished o_tq fst].
    rewrite (bind_ok _ _ s' NGX_OK (set_l_world w' s')) by (unfold in_world; by rewrite Hp). done.
Qed.

(** The result of the queue's creation is not checked: when the mutex or the
    condition cannot be created, [load_ffi] passes NULL to [libffi_init], and if
    the runtime accepts it, the first post dereferences NULL. *)
Theorem null_queue_is_not_noticed env' o s' r c req :
  e_mutex_create env ≠ NGX_OK ∨ e_cond_create env ≠ NGX_OK →
  load env lib cfg opts s = Ok (Loaded o, s') → poster (l_world s) r c → e_calloc env' = true →
  (∃ hd k, (libffi_init hd (cfg_bytes cfg) None k).1 = Some 0) ∧
  post env' o r req s' = UB NullDeref.
Proof using All.
  intros Hbad Hl [Hpr Hpc] Ha. apply loaded_object in Hl as (hd & k & -> & Hi & Hg & Hw).
  destruct (created_frame _ Hw) as (_ & _ & Ec & Er & _).
  assert ((created env max (l_world s)).1 = None) as En.
  { unfold created. destruct Hbad as [->%Z.eqb_neq| ->%Z.eqb_neq]; [done|by rewrite andb_false_r]. }
  rewrite En in Hi, Hg. split; [by exists hd, k|]. unfold post.
  rewrite (bind_ok _ _ _ _ _ Hg). cbn [o_finished o_tq]. apply bind_ub. unfold in_world.
  rewrite (lua_post_null env' r c) by (done || (split; [by rewrite Er|by rewrite Ec])). done.
Qed.

End NewKey.

End Properties.
