(* ===== verification/LuaMethods.v ===== *)
(** * LuaMethods: the methods of a runtime, and [post] with a wrapper

    src/resty_ffi.lua gives a runtime a metatable: a name that is no field of the
    table is [post], which is stored under that name, and calling the table is
    [post] too.  [post] and [unload] read the fields of the runtime through that
    metatable.  Here a runtime is the Lua table it is, and [LuaApi], where it is a
    record and has no metatable, is what it is compared with.  [post] takes a
    wrapper for hosts other than nginx, which knows the request and how to
    yield. *)

From S2P Require Import Prelude World TaskQueue FfiTask FfiQueue System Posting BuildId FfiInit Allocation LuaApi.
From stdpp Require Import strings.

#[local] Open Scope Z_scope.

(** Where a call comes from: [wrapper:this()], with [nil] and [false] as [None],
    when there is a wrapper; and [get_request()], which is missing without
    [resty.core.base] and may return [nil]. *)
Record call_site := CallSite {
  wrapper_this : option (option rid);
  get_request : option (option rid);
}.

(** [wrapper and wrapper:this() or get_request()]; the outer [None] is the error of
    calling [get_request] when it is [nil]. *)
Definition request_of (c : call_site) : option (option rid) :=
  match wrapper_this c with
  | Some (Some r) => Some (Some r)
  | Some None | None => get_request c
  end.

Inductive method_result :=
  | Posted (a : post_answer)
  | WrapperYields        (* what [wrapper:ffiYield()] returns *)
  | NoGetRequest         (* error: [get_request] is nil *)
  | Unloaded
  | BadArgument          (* error: a Lua function is passed as [void *] *)
  | NotCallable          (* error: the field is no function *)
  | LoadReturns (r : load_result)
  | OthersRan.

(** A value in the table of a runtime, but [nil]. *)
Inductive value (T : Type) :=
  | VBool (b : bool)
  | VString (s : list byte)
  | VLibrary (h : T)     (* of [ffi.load] *)
  | VPtr (p : option ptr)  (* [void *], also NULL *)
  | VUnload              (* the function [unload] *)
  | VPost.               (* the function [post] *)
Arguments VBool {T}.
Arguments VString {T}.
Arguments VLibrary {T}.
Arguments VPtr {T}.
Arguments VUnload {T}.
Arguments VPost {T}.

Abbreviation name := String.list_byte_of_string.

(** A table without its metatable; what is [nil] is not in the map. *)
Abbreviation table := (gmap (list byte) (value handle)).

Section Methods.
Context {H : LuaHost}.

(** ** Tables *)

Definition truthy (v : value handle) : bool := match v with VBool b => b | _ => true end.

(** The state of [LuaApi] with the runtimes as tables. *)
Record tables := Tables {
  t_world : world;
  t_host : host;
  t_init : bool;
  t_runtimes : gmap (list byte) nat;
  t_tables : list table;
  t_pin_libs : gmap (list byte) handle;
}.

Definition set_t_world (w : world) (s : tables) : tables :=
  Tables w (t_host s) (t_init s) (t_runtimes s) (t_tables s) (t_pin_libs s).
Definition upd_t_runtimes (f : gmap (list byte) nat → gmap (list byte) nat) (s : tables) : tables :=
  Tables (t_world s) (t_host s) (t_init s) (f (t_runtimes s)) (t_tables s) (t_pin_libs s).
Definition upd_t_tables (f : list table → list table) (s : tables) : tables :=
  Tables (t_world s) (t_host s) (t_init s) (t_runtimes s) (f (t_tables s)) (t_pin_libs s).

Definition call_c {A} (m : M world A) : M tables A :=
  λ s, match m (t_world s) with Ok (a, w) => Ok (a, set_t_world w s) | UB f => UB f end.

Definition raw_set (self : nat) (n : list byte) (v : value handle) : M tables () :=
  modify (upd_t_tables (alter <[n := v]> self)).

(** [self[n] = nil]. *)
Definition set_nil (self : nat) (n : list byte) : M tables () :=
  modify (upd_t_tables (alter (delete n) self)).

(** [self[n]]: the field, and without one the metamethod [__index]. *)
Definition index (self : nat) (n : list byte) : M tables (value handle) :=
  l ← gets t_tables;
  tb ← from (l !! self) NullDeref;
  match tb !! n with
  | Some v => mret v
  | None => raw_set self n VPost;; mret VPost
  end.

(** ** [post] and [unload] *)

(** [C.malloc] and [ffi.copy] of the request. *)
Definition copy_req (req : option (list byte)) : M world (option ptr * Z) :=
  match req with
  | None => mret (None, 0)
  | Some s => buf ← alloc_buf (s ++ [x00]); mret (Some buf, Z.of_nat (length s))
  end.

(** What a call that has posted returns. *)
Definition post_returns (c : call_site) (ret : Z) : method_result :=
  if negb (ret =? 0) then Posted PostRefused
  else match wrapper_this c with Some _ => WrapperYields | None => Posted PostYields end.

Definition table_post (env : sysenv) (self : nat) (req : option (list byte)) (c : call_site) :
    M tables method_result :=
  finished ← index self (name "finished");
  if truthy finished then mret (Posted PostFinished) else
  '(buf, buf_len) ← call_c (copy_req req);
  match request_of c with
  | None => mret NoGetRequest
  | Some r =>
      tq ← index self (name "tq");
      match tq with
      | VPtr tq =>
          r ← from r NullDeref;
          ret ← call_c (ngx_http_lua_ffi_task_post env r tq buf buf_len);
          mret (post_returns c ret)
      | _ => mret BadArgument
      end
  end.

Definition table_unload (env : sysenv) (self : nat) : M tables method_result :=
  finished ← index self (name "finished");
  if truthy finished then mret Unloaded else
  raw_set self (name "finished") (VBool true);;
  set_nil self (name "handle");;
  tq ← index self (name "tq");
  match tq with
  | VPtr tq =>
      call_c (ngx_http_lua_ffi_task_finish env tq);;
      set_nil self (name "tq");;
      key ← index self (name "key");
      (match key with VString k => modify (upd_t_runtimes (delete k)) | _ => mret () end);;
      set_nil self (name "key");;
      mret Unloaded
  | _ => mret BadArgument
  end.

(** ** Calls *)

(** A call [self:n(req, wrapper)]; without a name, [self(req, wrapper)], which is
    the metamethod [__call]. *)
Record method_call := MethodCall {
  mc_env : sysenv;
  mc_self : nat;
  mc_name : option (list byte);
  mc_req : option (list byte);
  mc_site : call_site;
}.

Definition call_method (c : method_call) : M tables method_result :=
  f ← (match mc_name c with None => mret VPost | Some n => index (mc_self c) n end);
  match f with
  | VPost => table_post (mc_env c) (mc_self c) (mc_req c) (mc_site c)
  | VUnload => table_unload (mc_env c) (mc_self c)
  | VBool _ | VString _ | VLibrary _ | VPtr _ => mret NotCallable
  end.

(** The table that [load_ffi] makes of the fields of a runtime, and what of them is
    left when some are [nil]. *)
Definition table_of (ob : object H (list byte)) : table :=
  <[name "finished" := VBool (o_finished ob)]> (<[name "__unload" := VUnload]>
    (match o_key ob with Some k => {[name "key" := VString k]} | None => ∅ end ∪
     match o_handle ob with Some h => {[name "handle" := VLibrary h]} | None => ∅ end ∪
     if o_finished ob then ∅ else {[name "tq" := VPtr (o_tq ob)]})).

(** The record of a table. *)
Definition object_of (tb : table) : object H (list byte) :=
  Object (match tb !! name "finished" with Some v => truthy v | None => false end)
    (match tb !! name "key" with Some (VString k) => Some k | _ => None end)
    (match tb !! name "handle" with Some (VLibrary h) => Some h | _ => None end)
    (match tb !! name "tq" with Some (VPtr p) => p | _ => None end).

Definition as_lua (s : tables) : lua H (list byte) :=
  Lua (t_world s) (t_host s) (t_init s) (t_runtimes s) (object_of <$> t_tables s) (t_pin_libs s).

(** A call that reads no table and makes new ones at most, as [load_ffi]. *)
Definition on_tables {A} (m : M (lua H (list byte)) A) : M tables A :=
  λ s, match m (as_lua s) with
       | UB f => UB f
       | Ok (a, l) => Ok (a, Tables (l_world l) (l_host l) (l_init l) (runtimes l)
           (t_tables s ++ (table_of <$> drop (length (t_tables s)) (objects l))) (pin_libs l))
       end.

(** What a program does: it calls methods and [load_ffi], and meanwhile other
    threads, nginx and the host do what they like to the memory of C. *)
Inductive lua_action :=
  | Method (c : method_call)
  | Load (fuel : nat) (sy : symbols) (env : sysenv) (lib : list byte) (cfg : option (list byte))
      (opts : option options)
  | Others (w : world) (h : host).

Definition table_action (a : lua_action) : M tables method_result :=
  match a with
  | Method c => call_method c
  | Load fuel sy env lib cfg opts =>
      r ← on_tables (load_ffi lua_key fuel sy env lib cfg opts); mret (LoadReturns r)
  | Others w h =>
      modify (λ s, Tables w h (t_init s) (t_runtimes s) (t_tables s) (t_pin_libs s));; mret OthersRan
  end.

(** ** Without metatables *)

(** [post] on the record of the runtime. *)
Definition post_with (env : sysenv) (self : nat) (req : option (list byte)) (c : call_site) :
    M (lua H (list byte)) method_result :=
  ob ← get_object self;
  if o_finished ob then mret (Posted PostFinished) else
  '(buf, buf_len) ← in_world (copy_req req);
  match request_of c with
  | None => mret NoGetRequest
  | Some r =>
      r ← from r NullDeref;
      ret ← in_world (ngx_http_lua_ffi_task_post env r (o_tq ob) buf buf_len);
      mret (post_returns c ret)
  end.

(** A name that is no field of the runtime is [post], and nothing is stored. *)
Definition direct_call (c : method_call) : M (lua H (list byte)) method_result :=
  ob ← get_object (mc_self c);
  match mc_name c ≫= λ n, table_of ob !! n with
  | None => post_with (mc_env c) (mc_self c) (mc_req c) (mc_site c)
  | Some VUnload => unload (mc_env c) (mc_self c);; mret Unloaded
  | Some _ => mret NotCallable
  end.

Definition direct_action (a : lua_action) : M (lua H (list byte)) method_result :=
  match a with
  | Method c => direct_call c
  | Load fuel sy env lib cfg opts => r ← load_ffi lua_key fuel sy env lib cfg opts; mret (LoadReturns r)
  | Others w h => modify (λ s, set_l_host h (set_l_world w s));; mret OthersRan
  end.

Fixpoint run_all {S} (f : lua_action → M S method_result) (cs : list lua_action) : M S (list method_result) :=
  match cs with
  | [] => mret []
  | c :: cs => r ← f c; rs ← run_all f cs; mret (r :: rs)
  end.

End Methods.

(** ** What a runtime's table holds *)

Section Facts.
Context {H : LuaHost}.

Lemma table_of_lookup (ob : object H (list byte)) n :
  table_of ob !! n =
    if decide (n = name "finished") then Some (VBool (o_finished ob)) else
    if decide (n = name "__unload") then Some VUnload else
    if decide (n = name "key") then VString <$> o_key ob else
    if decide (n = name "handle") then VLibrary <$> o_handle ob else
    if decide (n = name "tq") then (if o_finished ob then None else Some (VPtr (o_tq ob))) else None.
Proof.
  unfold table_of. rewrite !lookup_insert, !lookup_union.
  destruct ob as [[] [k|] [h|] tq]; simpl;
    rewrite ?lookup_singleton, ?lookup_empty; repeat case_decide; subst; done.
Qed.

Lemma own_fields_are_no_posts (ob : object H (list byte)) n : table_of ob !! n ≠ Some VPost.
Proof.
  rewrite table_of_lookup. destruct ob as [[] [k|] [h|] tq]; simpl; repeat case_decide; done.
Qed.

(** A runtime as [load_ffi] makes it, or as [unload] leaves it. *)
Definition object_ok (ob : object H (list byte)) : Prop :=
  ob = Object true None None None ∨ ∃ k h tq, ob = Object false (Some k) (Some h) tq.

(** [tb] has the fields of [ob], and [post] under other names. *)
Definition stored_in (ob : object H (list byte)) (tb : table) : Prop :=
  ∀ n, match table_of ob !! n with
       | Some v => tb !! n = Some v
       | None => tb !! n = None ∨ tb !! n = Some VPost
       end.

Definition tables_ok (s : tables) : Prop :=
  ∀ o tb, t_tables s !! o = Some tb → ∃ ob, object_ok ob ∧ stored_in ob tb.

Lemma stored_field ob tb n v : stored_in ob tb → table_of ob !! n = Some v → tb !! n = Some v.
Proof. intros Hs Hn. specialize (Hs n). by rewrite Hn in Hs. Qed.

Lemma table_of_stored (ob : object H (list byte)) : stored_in ob (table_of ob).
Proof. intros n. destruct (table_of ob !! n); [done|by left]. Qed.

Lemma object_of_stored ob tb : object_ok ob → stored_in ob tb → object_of tb = ob.
Proof.
  intros Hok Hs. unfold object_of. rewrite (stored_field _ _ (name "finished") _ Hs) by by rewrite table_of_lookup.
  pose proof (Hs (name "key")) as Hk. pose proof (Hs (name "handle")) as Hh. pose proof (Hs (name "tq")) as Ht.
  rewrite table_of_lookup in Hk, Hh, Ht.
  destruct Hok as [->|(k & h & tq & ->)]; cbn in Hk, Hh, Ht |- *.
  - destruct Hk as [->| ->], Hh as [->| ->], Ht as [->| ->]; done.
  - by rewrite Hk, Hh, Ht.
Qed.

Lemma object_at s self tb ob :
  t_tables s !! self = Some tb → object_ok ob → stored_in ob tb →
  objects (as_lua s) !! self = Some ob ∧ get_object self (as_lua s) = Ok (ob, as_lua s).
Proof.
  intros Ht Hok Hs. assert (objects (as_lua s) !! self = Some ob) as Ho.
  { simpl. by rewrite list_lookup_fmap, Ht, <-(object_of_stored ob tb). }
  split; [done|]. unfold get_object. rewrite (bind_ok _ _ (as_lua s) (objects (as_lua s)) (as_lua s)) by done.
  unfold from. by rewrite Ho.
Qed.

(** A change of table [self] that leaves it one of [ob]. *)
Lemma alter_table s self tb f ob :
  tables_ok s → t_tables s !! self = Some tb → object_ok ob → stored_in ob (f tb) →
  tables_ok (upd_t_tables (alter f self) s) ∧
  objects (as_lua (upd_t_tables (alter f self) s)) = <[self := ob]> (objects (as_lua s)).
Proof.
  intros Hs Ht Hok Hst. split.
  - intros o tb' Ho. simpl in Ho. destruct (decide (o = self)) as [->|Hne].
    + rewrite list_lookup_alter_eq, Ht in Ho. injection Ho as <-. by exists ob.
    + rewrite list_lookup_alter_ne in Ho by done. by eapply Hs.
  - simpl. apply list_eq. intros o. destruct (decide (o = self)) as [->|Hne].
    + rewrite list_lookup_fmap, list_lookup_alter_eq, Ht. simpl. rewrite (object_of_stored ob) by done.
      rewrite list_lookup_insert_eq; [done|]. rewrite length_fmap. by eapply lookup_lt_Some.
    + by rewrite list_lookup_insert_ne, !list_lookup_fmap, list_lookup_alter_ne.
Qed.

Lemma index_field s self tb n v :
  t_tables s !! self = Some tb → tb !! n = Some v → index self n s = Ok (v, s).
Proof.
  intros Ht Hn. unfold index. rewrite (bind_ok _ _ s (t_tables s) s) by done. rewrite Ht.
  rewrite (bind_ok _ _ s tb s) by done. by rewrite Hn.
Qed.

Lemma index_no_object s self n : t_tables s !! self = None → index self n s = UB NullDeref.
Proof. intros Ht. unfold index. rewrite (bind_ok _ _ s (t_tables s) s) by done. by rewrite Ht. Qed.

(** [__index]: another name is [post], and what is stored is not seen. *)
Lemma index_other s self tb ob n :
  tables_ok s → t_tables s !! self = Some tb → object_ok ob → stored_in ob tb → table_of ob !! n = None →
  ∃ s2, index self n s = Ok (VPost, s2) ∧ as_lua s2 = as_lua s ∧ tables_ok s2.
Proof.
  intros Hs Ht Hok Hst Hn. pose proof (Hst n) as Htb. rewrite Hn in Htb.
  destruct Htb as [Htb|Htb]; [|exists s; split; [by eapply index_field|done]].
  destruct (alter_table s self tb <[n := VPost]> ob Hs Ht Hok) as [Hs2 Ho2].
  { intros m. specialize (Hst m). destruct (decide (m = n)) as [->|Hne].
    - rewrite Hn, lookup_insert_eq. by right.
    - by rewrite lookup_insert_ne. }
  exists (upd_t_tables (alter <[n := VPost]> self) s). split; [|split; [|done]].
  - unfold index. rewrite (bind_ok _ _ s (t_tables s) s) by done. rewrite Ht.
    rewrite (bind_ok _ _ s tb s) by done. by rewrite Htb.
  - unfold as_lua in *. simpl in *. f_equal. rewrite Ho2. apply list_insert_id.
    by rewrite list_lookup_fmap, Ht, <-(object_of_stored ob tb).
Qed.

(** ** Each call against the one without metatable *)

(** [r] is [r'], but for what is stored in the tables. *)
Definition same_but_stored {A} (r : res (A * tables)) (r' : res (A * lua H (list byte))) : Prop :=
  match r, r' with
  | Ok (a, s), Ok (a', l) => a = a' ∧ as_lua s = l ∧ tables_ok s
  | UB f, UB f' => f = f'
  | _, _ => False
  end.

Definition tracks {A} (m : M tables A) (m' : M (lua H (list byte)) A) : Prop :=
  ∀ s, tables_ok s → same_but_stored (m s) (m' (as_lua s)).

Lemma tracks_ret {A} (a : A) : tracks (mret a) (mret a).
Proof. by intros s. Qed.

Lemma tracks_bind {A B} (m : M tables A) m' (k : A → M tables B) k' :
  tracks m m' → (∀ a, tracks (k a) (k' a)) → tracks (m ≫= k) (m' ≫= k').
Proof.
  intros Hm Hk s Hs. specialize (Hm s Hs). unfold mbind, M_bind.
  destruct (m s) as [[a s1]|], (m' (as_lua s)) as [[a' l]|]; try done.
  destruct Hm as (<- & <- & Hs1). by apply Hk.
Qed.

Lemma tracks_call_c {A} (m : M world A) : tracks (call_c m) (in_world m).
Proof. intros s Hs. unfold call_c, in_world. simpl. by destruct (m (t_world s)) as [[a w]|]. Qed.

Lemma table_or_none s self :
  tables_ok s → (t_tables s !! self = None ∧ ∀ (k : object H (list byte) → M (lua H (list byte)) method_result),
    (get_object self ≫= k) (as_lua s) = UB NullDeref) ∨
  ∃ tb ob, t_tables s !! self = Some tb ∧ object_ok ob ∧ stored_in ob tb ∧
    ∀ (k : object H (list byte) → M (lua H (list byte)) method_result),
    (get_object self ≫= k) (as_lua s) = k ob (as_lua s).
Proof.
  intros Hs. destruct (t_tables s !! self) as [tb|] eqn:Ht.
  - right. destruct (Hs self tb Ht) as (ob & Hok & Hst). exists tb, ob. do 3 (split; [done|]). intros k.
    apply bind_ok. by apply (object_at s self tb ob Ht Hok Hst).
  - left. split; [done|]. intros k. apply bind_ub. unfold get_object.
    rewrite (bind_ok _ _ (as_lua s) (objects (as_lua s)) (as_lua s)) by done. simpl.
    by rewrite list_lookup_fmap, Ht.
Qed.

Lemma post_tracks env self req c : tracks (table_post env self req c) (post_with env self req c).
Proof.
  intros s Hs. unfold table_post, post_with.
  destruct (table_or_none s self Hs) as [[Ht ->]|(tb & ob & Ht & Hok & Hst & ->)].
  { unfold mbind at 1, M_bind at 1. by rewrite index_no_object. }
  rewrite (bind_ok _ _ s (VBool (o_finished ob)) s).
  2: { apply (index_field _ _ _ _ _ Ht). eapply stored_field; [done|]. by rewrite table_of_lookup. }
  destruct (o_finished ob) eqn:Hf; cbn [truthy]; [done|].
  destruct (copy_req req (t_world s)) as [[[buf len] w]|f] eqn:Hc.
  2: { unfold mbind, M_bind, call_c, in_world. simpl. by rewrite Hc. }
  rewrite (bind_ok _ _ s (buf, len) (set_t_world w s)) by (unfold call_c; by rewrite Hc).
  rewrite (bind_ok _ _ (as_lua s) (buf, len) (as_lua (set_t_world w s))) by (unfold in_world; simpl; by rewrite Hc).
  destruct (request_of c) as [r|]; [|done].
  rewrite (bind_ok _ _ _ (VPtr (o_tq ob)) (set_t_world w s)).
  2: { apply (index_field _ _ tb); [done|]. eapply stored_field; [done|]. rewrite table_of_lookup. by rewrite Hf. }
  destruct r as [r|]; [|done]. apply (tracks_bind (mret r) (mret r) _ _ (tracks_ret r)); [|done].
  intros r'. apply tracks_bind; [apply tracks_call_c|]. intros ret. apply tracks_ret.
Qed.

(** The table of a runtime after the field assignments of [unload]. *)
Definition unloaded (tb : table) : table :=
  delete (name "key") (delete (name "tq") (delete (name "handle") (<[name "finished" := VBool true]> tb))).

Lemma stored_unloaded k h tq tb :
  stored_in (Object false (Some k) (Some h) tq) tb → stored_in (Object true None None None) (unloaded tb).
Proof.
  intros Hst n. specialize (Hst n). rewrite table_of_lookup in *. unfold unloaded. simpl in *.
  rewrite !lookup_delete, lookup_insert. repeat case_decide; subst; try done; by left.
Qed.

(** [unload] of a runtime that is in service, on its table. *)
Lemma table_unload_run env self s k h tq tb :
  t_tables s !! self = Some tb → stored_in (Object false (Some k) (Some h) tq) tb →
  table_unload env self s =
    match ngx_http_lua_ffi_task_finish env tq (t_world s) with
    | UB f => UB f
    | Ok (_, w) =>
        Ok (Unloaded, upd_t_runtimes (delete k) (set_t_world w (upd_t_tables (alter unloaded self) s)))
    end.
Proof.
  intros Ht Hst. unfold table_unload.
  assert (∀ n v, table_of (Object false (Some k) (Some h) tq) !! n = Some v → tb !! n = Some v) as Hf
    by (intros n v; by apply stored_field).
  rewrite (bind_ok _ _ s (VBool false) s) by (eapply index_field; [exact Ht|by apply Hf]).
  cbn [truthy]. unfold raw_set, set_nil. do 2 erewrite bind_ok by done.
  erewrite (bind_ok (index _ (name "tq"))).
  2: { apply (index_field _ _ (delete (name "handle") (<[name "finished" := VBool true]> tb)) _ (VPtr tq)).
       - simpl. by rewrite !list_lookup_alter_eq, Ht.
       - rewrite lookup_delete_ne, lookup_insert_ne by done. by apply Hf. }
  unfold mbind at 1, M_bind at 1. unfold call_c. simpl t_world.
  destruct (ngx_http_lua_ffi_task_finish _ _ _) as [[rc w]|]; [|done].
  erewrite bind_ok by done.
  erewrite (bind_ok (index _ (name "key"))).
  2: { apply (index_field _ _ (delete (name "tq") (delete (name "handle")
         (<[name "finished" := VBool true]> tb))) _ (VString k)).
       - simpl. by rewrite !list_lookup_alter_eq, Ht.
       - rewrite !lookup_delete_ne, lookup_insert_ne by done. by apply Hf. }
  do 2 erewrite bind_ok by done. rewrite ret_run. do 2 f_equal.
  unfold upd_t_runtimes, upd_t_tables, set_t_world. simpl. f_equal.
  apply list_eq. intros o. destruct (decide (o = self)) as [->|Hne].
  - by rewrite !list_lookup_alter_eq, Ht.
  - by rewrite !list_lookup_alter_ne.
Qed.

Lemma unload_tracks env self : tracks (table_unload env self) (unload env self;; mret Unloaded).
Proof.
  intros s Hs. destruct (table_or_none s self Hs) as [[Ht Hg]|(tb & ob & Ht & Hok & Hst & Hg)].
  - unfold unload. rewrite bind_assoc, Hg. unfold table_unload, mbind at 1, M_bind at 1. by rewrite index_no_object.
  - destruct (object_at s self tb ob Ht Hok Hst) as [Ho _]. pose proof Hok as [->|(k & h & tq & ->)].
    + unfold table_unload. rewrite (bind_ok _ _ s (VBool true) s).
      2: { eapply index_field; [exact Ht|]. by apply (stored_field _ _ (name "finished") _ Hst). }
      rewrite (bind_ok _ _ (as_lua s) () (as_lua s)); [done|].
      by eapply (proj2 (unload_finished env self (as_lua s) _ Ho eq_refl)).
    + rewrite (table_unload_run env self s k h tq tb Ht Hst). unfold mbind, M_bind.
      rewrite (unload_in_service env self (as_lua s) k h tq Ho). simpl l_world.
      destruct (ngx_http_lua_ffi_task_finish _ _ _) as [[rc w]|]; [|done]. split; [done|].
      destruct (alter_table s self tb unloaded (Object true None None None) Hs Ht (or_introl eq_refl)) as [Hs' Eo].
      { by eapply stored_unloaded. }
      split; [|exact Hs']. unfold as_lua in *. simpl in *. by rewrite Eo.
Qed.

Lemma call_method_tracks c : tracks (call_method c) (direct_call c).
Proof.
  intros s Hs. unfold call_method, direct_call.
  destruct (table_or_none s (mc_self c) Hs) as [[Ht ->]|(tb & ob & Ht & Hok & Hst & ->)].
  { destruct (mc_name c) as [n|]; unfold mbind, M_bind; simpl; [by rewrite index_no_object|].
    unfold table_post, mbind, M_bind. by rewrite index_no_object. }
  destruct (mc_name c) as [n|]; [|by apply post_tracks]. simpl.
  destruct (table_of ob !! n) as [v|] eqn:Hn.
  - rewrite (bind_ok _ _ s v s) by (eapply index_field; [exact Ht|by eapply stored_field]).
    destruct v; try done; [by apply unload_tracks|by apply own_fields_are_no_posts in Hn].
  - destruct (index_other s (mc_self c) tb ob n Hs Ht Hok Hst Hn) as (s2 & Hi & <- & Hs2).
    rewrite (bind_ok _ _ _ _ _ Hi). by apply post_tracks.
Qed.

(** [load_ffi] makes one table at most, that of a runtime in service. *)
Lemma load_tracks fuel sy env lib cfg opts :
  tracks (on_tables (load_ffi lua_key fuel sy env lib cfg opts)) (load_ffi lua_key fuel sy env lib cfg opts).
Proof.
  intros s Hs. unfold on_tables. destruct (load_ffi _ _ _ _ _ _ _ (as_lua s)) as [[r l]|f] eqn:Hl; [|done].
  split; [done|].
  assert (∃ new, objects l = (object_of <$> t_tables s) ++ new ∧ Forall object_ok new) as (new & El & Hnew).
  { apply load_ffi_inv in Hl as (h & b & _ & [(e & _ & ->)|[(_ & o & _ & _ & ->)|(_ & _ & _ & mx & tq & w1 & _ & _ & Hst)]]);
      [by exists []; rewrite app_nil_r..|].
    destruct Hst as [(_ & -> & _)|(hd & -> & _)]; [by exists []; rewrite app_nil_r|].
    eexists. split; [done|]. apply Forall_singleton. right. by eexists _, _, _. }
  assert (drop (length (t_tables s)) (objects l) = new) as Ed.
  { rewrite El, <-(length_fmap object_of (t_tables s)). apply drop_app_length. }
  rewrite Ed. split.
  - unfold as_lua. destruct l as [w h b rt obs pins]. simpl in *. subst obs. f_equal.
    rewrite fmap_app. f_equal. clear -Hnew. induction Hnew as [|ob new Hob Hnew IH]; [done|].
    by rewrite !fmap_cons, IH, (object_of_stored ob) by (done || apply table_of_stored).
  - intros o tb. simpl. intros [Ho|[_ Ho]]%lookup_app_Some; [by eapply Hs|].
    apply list_lookup_fmap_Some in Ho as (ob & -> & Ho). exists ob. split; [|apply table_of_stored].
    by eapply Forall_lookup_1.
Qed.

Lemma action_tracks a : tracks (table_action a) (direct_action a).
Proof.
  destruct a as [c|fuel sy env lib cfg opts|w h]; simpl; [apply call_method_tracks| |by intros s].
  apply tracks_bind; [apply load_tracks|]. intros r. apply tracks_ret.
Qed.

Lemma actions_track cs : tracks (run_all table_action cs) (run_all direct_action cs).
Proof.
  induction cs as [|c cs IH]; simpl; [apply tracks_ret|]. apply tracks_bind; [apply action_tracks|].
  intros r. apply tracks_bind; [exact IH|]. intros rs. apply tracks_ret.
Qed.

(** C24: the metatable is invisible.  A program that loads runtimes and calls their
    methods, by any names, with anything of other threads and nginx in between, gets
    the results, commits the faults and leaves the state of one in which every
    name that is no field of a runtime is [post] and nothing is ever stored:
    [post] and [unload] read [finished], [tq] and [key] through [__index], and no
    read hits it, although [unload] removes the last two, which are names for
    [post] from then on. *)
Theorem metatable_is_invisible cs s :
  tables_ok s → same_but_stored (run_all table_action cs s) (run_all direct_action cs (as_lua s)).
Proof. apply actions_track. Qed.

(** ** [post] and the wrapper *)

(** The result of a method that posts, for the caller at [c]. *)
Definition answered_at (c : call_site) (a : post_answer) : method_result :=
  match a, wrapper_this c with
  | PostYields, Some _ => WrapperYields
  | _, _ => Posted a
  end.

Lemma copy_req_run req (w : world) : copy_req req w = Ok ((post_ptr w req, post_len req), post_world w req).
Proof. by destruct req. Qed.

(** [post] with a wrapper is [post].  When there is a request, from the wrapper
    or, without one or if it has none, from [get_request], the request is posted as
    [post] does for it, and only a wrapper yields in its own way; when
    [get_request] is missing and needed, the call raises an error, the copy of
    the request stays allocated and nothing is posted. *)
Theorem post_with_any_host (env : sysenv) (self : nat) (req : option (list byte)) (c : call_site)
    (s : lua H (list byte)) :
  (∀ r, request_of c = Some (Some r) →
     post_with env self req c s =
       match post env self r req s with Ok (a, s') => Ok (answered_at c a, s') | UB f => UB f end) ∧
  (∀ ob, request_of c = None → objects s !! self = Some ob → o_finished ob = false →
     post_with env self req c s = Ok (NoGetRequest, set_l_world (post_world (l_world s) req) s)).
Proof.
  unfold post_with, post, get_object, mbind, M_bind, gets. split.
  - intros r Hr. destruct (objects s !! self) as [ob|]; simpl; [|done].
    destruct (o_finished ob); simpl; [done|]. unfold in_world. rewrite copy_req_run, Hr, lua_post_split. simpl.
    destruct (ngx_http_lua_ffi_task_post _ _ _ _ _ _) as [[rc w]|]; simpl; [|done].
    unfold answered_at, post_returns. by destruct (rc =? 0), (wrapper_this c).
  - intros ob Hr -> Hf. simpl. rewrite Hf. unfold in_world. by rewrite copy_req_run, Hr.
Qed.
End Facts.
