(* ===== verification/LuaSystem.v ===== *)
(** * LuaSystem: Lua, its runtimes, their threads and nginx together

    The Lua side of [LuaApi] and the C side of [Multi] in one program.  The calls
    of [load_ffi], [post] and [unload] run the code of src/resty_ffi.lua; the
    threads of the runtimes and nginx take the steps of [Multi] in between.  What
    [System] demands of its callers, that nobody posts to a runtime that was
    unloaded or unloads it twice, is not assumed here: it is the Lua code that
    keeps to it. *)

From S2P Require Import Prelude World TaskQueue FfiTask FfiQueue EventHandler Ownership System.
From S2P Require Import Spec Invariant Posting Polling Answering Safety Multi MultiInvariant Demo MultiContract.
From S2P Require Import BuildId FfiInit Allocation LuaApi.

Section program.
Context {H : LuaHost} {ops : NgxLua} {pool : NgxPool}.
Variable fuel : nat.
Variable sy : symbols.

(** ** The state

    The history of [Multi] beside the state of [LuaApi], which holds the world. *)
Record program := Program {
  p_lua : lua H (list byte);
  p_runtimes : gmap loc runtime;
  p_inflight : list loc;
  p_waiting : gset cid;
  p_handled : list loc;
}.

Definition p_msys (p : program) : msys :=
  MSys (l_world (p_lua p)) (p_runtimes p) (p_inflight p) (p_waiting p) (p_handled p).

Definition with_msys (s : lua H (list byte)) (m : msys) : program :=
  Program (set_l_world (m_world m) s) (m_runtimes m) (m_inflight m) (m_waiting m) (m_handled m).

Inductive pcall :=
  | PLoad (env : sysenv) (lib : list byte) (cfg : option (list byte)) (opts : option options)
  | PPost (env : sysenv) (self : nat) (r : rid) (req : option (list byte))
  | PUnload (env : sysenv) (self : nat)
  | PThread (i : loc) (e : event)
  | PNginx (n : nat) (cs : gmap cid co_ctx) (ths : gmap lid lua_thread) (rqs : gmap rid request)
  | PHost (h : host).

(** ** Steps *)

Definition loads (env : sysenv) (lib : list byte) (cfg : option (list byte)) (opts : option options) :
    M (lua H (list byte)) load_result := load_ffi lua_key fuel sy env lib cfg opts.

(** A queue that [load_ffi] created is a runtime from now on. *)
Definition exec_load (env : sysenv) (lib : list byte) (cfg : option (list byte)) (opts : option options)
    (p : program) : res program :=
  match loads env lib cfg opts (p_lua p) with
  | UB f => UB f
  | Ok (_, s) =>
      let i := brk (l_world (p_lua p)) in
      Ok (Program s (match queues (l_world s) !! i with
                     | Some _ => <[i := new_runtime]> (p_runtimes p)
                     | None => p_runtimes p
                     end) (p_inflight p) (p_waiting p) (p_handled p))
  end.

(** The queue of object [o]. *)
Definition queue_of (s : lua H (list byte)) (o : nat) : loc :=
  match objects s !! o ≫= o_tq with Some q => p_blk q | None => 0%nat end.

Definition record_post (t : loc) (r : runtime) : runtime :=
  Runtime (r_finished r) (r_held r) (r_posted r ++ [t]) (r_polled r) (r_lost r).
Definition record_finish (r : runtime) : runtime :=
  Runtime true (r_held r) (r_posted r) (r_polled r) (r_lost r).

Definition poster_of (w : world) (r : rid) : gset cid :=
  match current w r with Some k => {[ k ]} | None => ∅ end.

Definition exec_lua_post (env : sysenv) (self : nat) (r : rid) (req : option (list byte)) (p : program) :
    res program :=
  match post env self r req (p_lua p) with
  | UB f => UB f
  | Ok (PostYields, s) =>
      Ok (Program s (alter (record_post (pred (brk (l_world s)))) (queue_of (p_lua p) self) (p_runtimes p))
            (p_inflight p) (poster_of (l_world (p_lua p)) r ∪ p_waiting p) (p_handled p))
  | Ok (_, s) => Ok (Program s (p_runtimes p) (p_inflight p) (p_waiting p) (p_handled p))
  end.

Definition live_object (s : lua H (list byte)) (o : nat) : bool :=
  match objects s !! o with Some ob => negb (o_finished ob) | None => false end.

Definition exec_lua_unload (env : sysenv) (self : nat) (p : program) : res program :=
  match unload env self (p_lua p) with
  | UB f => UB f
  | Ok (_, s) =>
      Ok (Program s (if live_object (p_lua p) self
                     then alter record_finish (queue_of (p_lua p) self) (p_runtimes p) else p_runtimes p)
            (p_inflight p) (p_waiting p) (p_handled p))
  end.

Definition exec_other (me : mevent) (p : program) : res program :=
  match mexec me (p_msys p) with
  | UB f => UB f
  | Ok m => Ok (with_msys (p_lua p) m)
  end.

Definition pexec (c : pcall) (p : program) : res program :=
  match c with
  | PLoad env lib cfg opts => exec_load env lib cfg opts p
  | PPost env self r req => exec_lua_post env self r req p
  | PUnload env self => exec_lua_unload env self p
  | PThread i e => exec_other (MRun i e) p
  | PNginx n cs ths rqs => exec_other (MNginx n cs ths rqs) p
  | PHost h => Ok (Program (set_l_host h (p_lua p)) (p_runtimes p) (p_inflight p) (p_waiting p) (p_handled p))
  end.

(** ** What the program relies on

    Memory is available and a mutex can be unlocked; [max_queue] is a C [int]; the check of the binary ends;
    a library that is given a configuration has [libffi_init]; a coroutine posts
    while it runs.  Posts and unloads of threads do not exist: they are Lua's. *)

Definition runs (w : world) (W : gset cid) (r : rid) : bool :=
  match current w r with
  | None => false
  | Some k => bool_decide (k ∉ W) &&
      match cos w !! k with None => false | Some x => live_threadb w x end
  end.

Definition by_lua (e : event) : bool :=
  match e with EPost _ _ _ | EFinish _ => true | _ => false end.

Definition load_enabled (env : sysenv) (lib : list byte) (cfg : option (list byte)) (opts : option options)
    (s : lua H (list byte)) : bool :=
  fits_int (default 65536 (opts ≫= opt_max_queue)) &&
  e_calloc env && (e_mutex_create env =? NGX_OK) && (e_cond_create env =? NGX_OK) &&
  match init_library fuel sy s with Ok _ => true | UB _ => false end &&
  match loads env lib cfg opts s, cfg with Ok (Raised SymbolNotFound, _), Some _ => false | _, _ => true end.

Definition penabled (p : program) (c : pcall) : bool :=
  match c with
  | PLoad env lib cfg opts => load_enabled env lib cfg opts (p_lua p)
  | PPost env self r _ =>
      match objects (p_lua p) !! self with
      | None => false
      | Some ob => o_finished ob ||
          (e_calloc env && (e_unlock env =? NGX_OK) && runs (l_world (p_lua p)) (p_waiting p) r)
      end
  | PUnload env self =>
      match objects (p_lua p) !! self with
      | None => false
      | Some ob => o_finished ob || (e_calloc env && (e_unlock env =? NGX_OK))
      end
  | PThread i e => negb (by_lua e) && menabled (p_msys p) (MRun i e)
  | PNginx n cs ths rqs => menabled (p_msys p) (MNginx n cs ths rqs)
  | PHost _ => true
  end.

Fixpoint prun (cs : list pcall) (p : program) : option (res program) :=
  match cs with
  | [] => Some (Ok p)
  | c :: cs =>
      if penabled p c then
        match pexec c p with
        | Ok p' => prun cs p'
        | UB f => Some (UB f)
        end
      else None
  end.

Definition fresh_program (w : world) (h : host) : program := Program (fresh_lua w h) ∅ [] ∅ [].

Definition preachable (p : program) : Prop :=
  ∃ w h cs, idle_world w ∧ prun cs (fresh_program w h) = Some (Ok p).

(** ** The invariant *)

(** Each object that is not unloaded has a queue of its own, not unloaded. *)
Definition linked (p : program) : Prop :=
  ∀ o ob, objects (p_lua p) !! o = Some ob → o_finished ob = false →
    ∃ i r, o_tq ob = Some (Ptr i 0) ∧ p_runtimes p !! i = Some r ∧ r_finished r = false.

Record program_inv (p : program) : Prop := {
  pi_msys : mreachable (p_msys p);
  pi_lua : lua_inv (p_lua p);
  pi_linked : linked p;
}.

Lemma linked_same (p p' : program) :
  linked p → objects (p_lua p') = objects (p_lua p) →
  (∀ i r, p_runtimes p !! i = Some r → ∃ r', p_runtimes p' !! i = Some r' ∧ r_finished r' = r_finished r) →
  linked p'.
Proof using Type.
  intros Hp Ho Hr o ob Hob Hf. rewrite Ho in Hob. destruct (Hp o ob Hob Hf) as (i & r & Hq & Hi & Hfi).
  destruct (Hr i r Hi) as (r' & Hi' & Hf'). exists i, r'. by rewrite Hf'.
Qed.

(** A step is a run of [Multi]. *)
Definition stepped (p p' : program) : Prop :=
  (∃ es, mrun es (p_msys p) = Some (Ok (p_msys p'))) ∧ lua_inv (p_lua p') ∧ linked p'.

Lemma stepped_inv p p' : program_inv p → stepped p p' → program_inv p'.
Proof using Type.
  intros [(w & es & Hw & Hr) _ _] ((es' & Hr') & ? & ?). split; [|done|done].
  exists w, (es ++ es'). split; [done|]. by rewrite (mrun_app _ _ _ _ Hr).
Qed.


(** ** Threads, nginx, the host *)

Section steps.
Context {laws : NgxLuaLaws ops} {plaws : NgxPoolLaws pool}.

Lemma exec_finished e s s' : by_lua e = false → exec e s = Ok s' → s_finished s' = s_finished s.
Proof using Type.
  destruct e; try done; intros _; simpl; unfold exec_poll, exec_respond, exec_kill, exec_take, exec_handle.
  all: repeat case_match; try done; by intros [= <-].
Qed.

(** A step that is not Lua's. *)
Definition not_lua (me : mevent) : bool :=
  match me with MCreate _ _ => false | MRun _ e => negb (by_lua e) | MNginx _ _ _ _ => true end.

Lemma mexec_runtimes me m m' :
  not_lua me = true → mexec me m = Ok m' →
  ∀ i r, m_runtimes m !! i = Some r → ∃ r', m_runtimes m' !! i = Some r' ∧ r_finished r' = r_finished r.
Proof using Type.
  intros Hl. destruct me as [|j e|n cs ths rqs]; simpl; [done| |].
  - apply negb_true_iff in Hl.
    destruct (m_runtimes m !! j) as [r0|] eqn:Hj; [|intros [= <-] i r Hi; by exists r].
    destruct (exec e _) as [s|] eqn:He; [|done]. intros [= <-] i r Hi. simpl.
    destruct (exec_history _ _ _ He) as [Htq _]. simpl in Htq. rewrite Htq.
    pose proof (exec_finished _ _ _ Hl He) as Hf. simpl in Hf.
    destruct (decide (j = i)) as [->|Hne]; [|exists r; by rewrite lookup_insert_ne].
    simplify_eq. eexists. by rewrite lookup_insert_eq.
  - intros [= <-] i r Hi. by exists r.
Qed.

Lemma other_ok p me :
  program_inv p → menabled (p_msys p) me = true → not_lua me = true →
  ∃ p', exec_other me p = Ok p' ∧ stepped p p'.
Proof using laws plaws.
  intros [Hr Hs Hl] Hen Hn. pose proof Hr as [h Hm]%mreachable_inv.
  destruct (multi_any_step _ _ _ Hm Hen) as (m' & h' & Hex & _ & _ & _ & _ & Hb).
  unfold exec_other. rewrite Hex. eexists. split; [done|]. split_and!.
  - exists [me]. cbn [mrun]. rewrite Hen, Hex. by destruct m'.
  - by apply lua_inv_world.
  - eapply linked_same; [done|done|]. intros i r. by apply (mexec_runtimes me (p_msys p)).
Qed.

(** ** [post] *)

Lemma get_object_run (self : nat) (s : lua H (list byte)) (ob : object H (list byte)) :
  objects s !! self = Some ob → get_object self s = Ok (ob, s).
Proof using Type.
  intros Ho. unfold get_object. rewrite (bind_ok _ _ s (objects s) s) by done. unfold from. by rewrite Ho.
Qed.

Lemma post_run (env : sysenv) (self : nat) (r : rid) (req : option (list byte)) (s : lua H (list byte))
    (ob : object H (list byte)) :
  objects s !! self = Some ob → o_finished ob = false →
  post env self r req s =
    match lua_post env r (o_tq ob) req (l_world s) with
    | UB f => UB f
    | Ok (rc, w) => Ok (if negb (rc =? 0) then PostRefused else PostYields, set_l_world w s)
    end.
Proof using Type.
  intros Ho Hf. unfold post. rewrite (bind_ok _ _ _ _ _ (get_object_run _ _ _ Ho)), Hf.
  unfold mbind, M_bind, in_world. by destruct (lua_post _ _ _ _ _) as [[rc w]|].
Qed.

Lemma linked_alter (p p' : program) i f :
  linked p → objects (p_lua p') = objects (p_lua p) → p_runtimes p' = alter f i (p_runtimes p) →
  (∀ r, r_finished (f r) = r_finished r) → linked p'.
Proof using Type.
  intros Hl Ho Hr Hf. eapply linked_same; [done|done|]. intros j r Hj. rewrite Hr.
  destruct (decide (i = j)) as [->|Hne].
  - exists (f r). by rewrite lookup_alter_eq, Hj.
  - exists r. by rewrite lookup_alter_ne.
Qed.

Lemma post_ok (p : program) (env : sysenv) (self : nat) (r : rid) (req : option (list byte)) :
  program_inv p → penabled p (PPost env self r req) = true →
  ∃ p', exec_lua_post env self r req p = Ok p' ∧ stepped p p'.
Proof using laws plaws.
  intros [Hr Hs Hl] Hen. simpl in Hen. unfold exec_lua_post.
  destruct (objects (p_lua p) !! self) as [ob|] eqn:Ho; [|done].
  destruct (o_finished ob) eqn:Hf.
  { rewrite (proj1 (unload_finished env self (p_lua p) ob Ho Hf)). eexists. split; [done|].
    split_and!; [by exists []|done|done]. }
  simpl in Hen. destruct (Hl self ob Ho Hf) as (i & rt & Hq & Hi & Hfi).
  assert (menabled (p_msys p) (MRun i (EPost env r req)) = true) as Hme.
  { simpl. rewrite Hi. simpl. rewrite Hfi. exact Hen. }
  pose proof Hr as [h Hm]%mreachable_inv.
  destruct (multi_any_step _ _ _ Hm Hme) as (m' & h' & Hex & _ & _ & _ & _ & Hb).
  rewrite (post_run _ _ _ _ _ _ Ho Hf), Hq.
  pose proof Hex as Hex'. simpl in Hex'. rewrite Hi in Hex'. unfold exec_post in Hex'. simpl in Hex'.
  destruct (lua_post env r (Some (Ptr i 0)) req (l_world (p_lua p))) as [[rc w]|]; [|done].
  unfold NGX_OK in Hex'. destruct (rc =? 0); simpl; injection Hex' as <-; (eexists; split; [done|]).
  - assert (queue_of (p_lua p) self = i) as -> by (unfold queue_of; rewrite Ho; simpl; by rewrite Hq).
    split_and!; [|by apply lua_inv_world|by eapply linked_alter].
    exists [MRun i (EPost env r req)]. cbn [mrun]. rewrite Hme, Hex. unfold p_msys, unfocus. simpl.
    do 3 f_equal. unfold runtime_of, record_post. simpl.
    apply map_eq. intros j. destruct (decide (i = j)) as [->|Hne].
    + by rewrite lookup_insert_eq, lookup_alter_eq, Hi.
    + by rewrite lookup_insert_ne, lookup_alter_ne.
  - split_and!; [|by apply lua_inv_world|done].
    exists [MRun i (EPost env r req)]. cbn [mrun]. rewrite Hme, Hex. unfold p_msys, unfocus. simpl.
    do 3 f_equal. apply insert_id. rewrite Hi. by destruct rt.
Qed.

(** ** [unload] *)

Lemma unload_ok (p : program) (env : sysenv) (self : nat) :
  program_inv p → penabled p (PUnload env self) = true →
  ∃ p', exec_lua_unload env self p = Ok p' ∧ stepped p p'.
Proof using laws plaws.
  intros [Hr Hs Hl] Hen. simpl in Hen. unfold exec_lua_unload, live_object.
  destruct (objects (p_lua p) !! self) as [ob|] eqn:Ho; [|done].
  destruct (o_finished ob) eqn:Hf.
  { rewrite (proj2 (unload_finished env self (p_lua p) ob Ho Hf)). eexists. split; [done|].
    split_and!; [by exists []|done|done]. }
  simpl in Hen. destruct (Hl self ob Ho Hf) as (i & rt & Hq & Hi & Hfi).
  destruct (li_object _ Hs self ob Ho) as [->|(k & hd & tq & ->)]; [done|]. simpl in Hq. subst tq.
  assert (menabled (p_msys p) (MRun i (EFinish env)) = true) as Hme.
  { simpl. rewrite Hi. simpl. rewrite Hfi. exact Hen. }
  pose proof Hr as [h Hm]%mreachable_inv.
  destruct (multi_any_step _ _ _ Hm Hme) as (m' & h' & Hex & _ & _ & _ & _ & Hb).
  pose proof Hex as Hex'. simpl in Hex'. rewrite Hi in Hex'. unfold exec_finish in Hex'. simpl in Hex'.
  destruct (ngx_http_lua_ffi_task_finish env (Some (Ptr i 0)) (l_world (p_lua p))) as [[rc w]|] eqn:Ew; [|done].
  injection Hex' as <-. pose proof (unload_in_service env _ _ _ _ _ Ho) as Hu. rewrite Ew in Hu. rewrite Hu.
  eexists. split; [done|].
  assert (queue_of (p_lua p) self = i) as Hqo by (unfold queue_of; by rewrite Ho). simpl. rewrite Hqo.
  split_and!.
  - exists [MRun i (EFinish env)]. cbn [mrun]. rewrite Hme, Hex. unfold p_msys, unfocus. simpl.
    do 3 f_equal. unfold runtime_of, record_finish. simpl. apply map_eq. intros j.
    destruct (decide (i = j)) as [->|Hne].
    + by rewrite lookup_insert_eq, lookup_alter_eq, Hi.
    + by rewrite lookup_insert_ne, lookup_alter_ne.
  - by eapply (lua_inv_unload env self (p_lua p)).
  - intros o ob Hob Hfo. simpl in Hob. apply list_lookup_insert_Some in Hob as [(_ & <- & _)|[Hne Hob]]; [done|].
    destruct (Hl o ob Hob Hfo) as (i' & rt' & Hq' & Hi' & Hf'). exists i', rt'. split; [done|].
    simpl. rewrite lookup_alter_ne; [done|]. intros ->.
    by apply Hne, (li_apart _ Hs self o _ ob (Ptr i' 0) Ho Hob).
Qed.

(** ** [load_ffi] *)

(** [load_ffi] leaves world and objects alone, or creates one queue, and one
    object for it at most, and allocates [n] more blocks. *)
Inductive load_effect (s s' : lua H (list byte)) : Prop :=
  | LoadNothing : l_world s' = l_world s → objects s' = objects s → load_effect s s'
  | LoadQueue max n :
      l_world s' = upd_brk (Nat.add n) (with_queue max (l_world s)) →
      (objects s' = objects s ∨ ∃ k h, objects s' =
         objects s ++ [Object false (Some k) (Some h) (Some (Ptr (brk (l_world s)) 0))]) →
      load_effect s s'.

Lemma loads_after_init (env : sysenv) (lib : list byte) (cfg : option (list byte)) (opts : option options)
    (s s1 : lua H (list byte)) (e : option lua_error) :
  init_library fuel sy s = Ok (e, s1) →
  loads env lib cfg opts s =
    match e with Some e => Ok (Raised e, s1) | None => loads env lib cfg opts s1 end ∧
  l_world s1 = l_world s ∧ objects s1 = objects s ∧ (e = None → l_init s1 = true).
Proof using Type.
  intros Hi. destruct (init_library_inv _ _ _ _ _ Hi) as (h & b & E & _ & Hb).
  assert (e = None → l_init s1 = true) as Hin by (intros ->; rewrite E; by apply Hb).
  split; [|by rewrite E]. unfold loads, load_ffi. rewrite (bind_ok _ _ _ _ _ Hi).
  destruct e; [done|]. rewrite (bind_ok _ _ _ _ _ (init_library_done fuel sy s1 (Hin eq_refl))). done.
Qed.

Lemma upd_brk_0 w : upd_brk (Nat.add 0) w = w.
Proof using Type. by destruct w. Qed.

Lemma load_new_effect (env : sysenv) (lib : list byte) (cfg : option (list byte)) (opts : option options)
    (s : lua H (list byte)) :
  l_init s = true → runtimes s !! lua_key lib cfg = None → load_enabled env lib cfg opts s = true →
  queues (l_world s) !! brk (l_world s) = None → bufs (l_world s) !! S (brk (l_world s)) = None →
  ∃ r s', loads env lib cfg opts s = Ok (r, s') ∧ load_effect s s'.
Proof using Type.
  intros Hi Hn Hen Hq Hb. unfold load_enabled in Hen. rewrite !andb_true_iff in Hen.
  destruct Hen as [[[[[Hfit Ha] Hm] Hc] _] Hs]. unfold loads in *.
  rewrite load_ffi_new in Hs by done. rewrite load_ffi_new by done. cbv zeta in *.
  set (max := default 65536 _) in *. set (l := ffi_load _ _ _) in *.
  assert (created env max (l_world s) = (Some (Ptr (brk (l_world s)) 0), with_queue max (l_world s))) as Ec.
  { unfold created. by rewrite Hm, Hc. }
  rewrite Ec in *. cbn [fst snd] in *. destruct l.1 as [hd|].
  2: { eexists _, _. split; [done|]. apply (LoadQueue _ _ max 0); [by rewrite upd_brk_0|by left]. }
  set (i := libffi_init _ _ _ _) in *. set (k := lua_key lib cfg).
  assert (without_cfg cfg (with_queue max (l_world s)) =
    upd_brk (Nat.add (match cfg with None => 0 | Some _ => 1 end)) (with_queue max (l_world s))) as Ew.
  { by destruct cfg. }
  destruct i.1 as [rc|].
  - destruct (rc =? 0); eexists _, _; (split; [done|]); (eapply LoadQueue; [exact Ew|]); right; by eexists _, _.
  - destruct cfg as [c|]; [done|]. eexists _, _. split; [done|].
    apply (LoadQueue _ _ max 0); [by rewrite upd_brk_0|]. right. by eexists _, _.
Qed.

Lemma load_has_effect (env : sysenv) (lib : list byte) (cfg : option (list byte)) (opts : option options)
    (s : lua H (list byte)) :
  load_enabled env lib cfg opts s = true →
  queues (l_world s) !! brk (l_world s) = None → bufs (l_world s) !! S (brk (l_world s)) = None →
  ∃ r s', loads env lib cfg opts s = Ok (r, s') ∧ load_effect s s'.
Proof using Type.
  intros Hen Hq Hb. pose proof Hen as Hen'. unfold load_enabled in Hen'. rewrite !andb_true_iff in Hen'.
  destruct Hen' as [[[[[Hfit Ha] Hm] Hc] Hin] Hs].
  destruct (init_library fuel sy s) as [[e s1]|] eqn:Hi; [|done].
  destruct (loads_after_init env lib cfg opts _ _ _ Hi) as (El & Ew & Eo & Hi1). rewrite El in *.
  destruct e as [e|].
  { eexists _, _. split; [done|]. by apply LoadNothing. }
  specialize (Hi1 eq_refl). destruct (runtimes s1 !! lua_key lib cfg) as [o|] eqn:Ek.
  { unfold loads. rewrite (load_ffi_hit _ _ _ _ _ _ _ _ _ Hi1 Ek). eexists _, _. split; [done|].
    by apply LoadNothing. }
  assert (load_enabled env lib cfg opts s1 = true) as Hen1.
  { unfold load_enabled. rewrite Hfit, Ha, Hm, Hc, (init_library_done fuel sy s1 Hi1). exact Hs. }
  destruct (load_new_effect env lib cfg opts s1 Hi1 Ek Hen1) as (r & s' & Hr & Hef);
    [by rewrite Ew|by rewrite Ew|].
  exists r, s'. split; [done|]. destruct Hef as [E1 E2|max n E1 E2].
  - apply LoadNothing; congruence.
  - rewrite Ew in E1, E2. rewrite Eo in E2. by eapply LoadQueue.
Qed.

Lemma spares_same w w' k :
  cos w' = cos w → threads w' = threads w → reqs w' = reqs w → spares w w' k = true.
Proof using Type.
  intros Hc Ht Hr. unfold spares, live_threadb. rewrite Hc, Ht, Hr, bool_decide_true by done. simpl.
  destruct (cos w !! k); [|done]. apply Bool.implb_same.
Qed.

(** Creating a queue and allocating [n] blocks, as a run. *)
Lemma create_run (m : msys) (env : sysenv) (max : Z) (n : nat) :
  queues (m_world m) !! brk (m_world m) = None →
  e_calloc env = true → e_mutex_create env = NGX_OK → e_cond_create env = NGX_OK →
  ∃ es, mrun es m = Some (Ok (MSys (upd_brk (Nat.add n) (with_queue max (m_world m)))
    (<[brk (m_world m) := new_runtime]> (m_runtimes m)) (m_inflight m) (m_waiting m) (m_handled m))).
Proof using Type.
  intros Hq Ha Hm Hc. set (w := m_world m) in *.
  exists [MCreate env max; MNginx n (cos w) (threads w) (reqs w)].
  cbn [mrun menabled mexec]. rewrite Ha. fold w. rewrite (create_task_queue_run _ _ _ Ha Hq), Hm, Hc. simpl.
  assert (∀ w1 l, cos w1 = cos w → threads w1 = threads w → reqs w1 = reqs w →
    forallb (spares w1 (nginx_world n (cos w) (threads w) (reqs w) w1)) l = true) as Hsp.
  { intros w1 l H1 H2 H3. apply forallb_forall. intros k _. by apply spares_same. }
  by rewrite Hsp by done.
Qed.

Lemma load_ok (p : program) (env : sysenv) (lib : list byte) (cfg : option (list byte)) (opts : option options) :
  program_inv p → load_enabled env lib cfg opts (p_lua p) = true →
  ∃ p', exec_load env lib cfg opts p = Ok p' ∧ stepped p p'.
Proof using laws plaws.
  intros [Hr Hs Hl] Hen. pose proof Hr as [h Hm]%mreachable_inv.
  destruct (fresh_runtime _ _ Hm) as [Hi Hq]. simpl in Hi, Hq. set (i := brk (l_world (p_lua p))) in *.
  assert (bufs (l_world (p_lua p)) !! S i = None) as Hb.
  { apply eq_None_not_Some. intros Hx%(hi_fresh_buf _ _ _ _ (mi_heap _ _ Hm)). simpl in Hx. fold i in Hx. lia. }
  destruct (load_has_effect env lib cfg opts _ Hen Hq Hb) as (r & s' & Hload & Hef).
  assert (lua_inv s') as Hs' by (eapply lua_inv_step; [by eapply (StepLoad lua_key fuel sy)|done]).
  unfold exec_load. rewrite Hload. fold i. eexists. split; [done|].
  destruct Hef as [Ew Eo|max n Ew Eo].
  - rewrite Ew, Hq. split_and!; [exists []; unfold p_msys; simpl; by rewrite Ew|done|].
    eapply linked_same; [exact Hl|done|]. intros j x Hj. by exists x.
  - rewrite Ew. simpl. fold i. rewrite lookup_insert_eq.
    unfold load_enabled in Hen. rewrite !andb_true_iff in Hen. destruct Hen as [[[[[_ Ha] Hmu] Hc] _] _].
    apply Z.eqb_eq in Hmu, Hc. split_and!; [|done|].
    + destruct (create_run (p_msys p) env max n Hq Ha Hmu Hc) as [es Hes]. exists es. rewrite Hes.
      unfold p_msys. simpl. by rewrite Ew.
    + intros o ob Hob Hf. simpl in Hob.
      assert (objects (p_lua p) !! o = Some ob ∨ o_tq ob = Some (Ptr i 0)) as [Hob'|Hnew].
      { destruct Eo as [Eo|(k & hd & Eo)]; rewrite Eo in Hob; [by left|].
        apply lookup_app_Some in Hob as [?|[_ Hob]]; [by left|right].
        by apply list_lookup_singleton_Some in Hob as [_ <-]. }
      * destruct (Hl o ob Hob' Hf) as (j & x & Hqj & Hj & Hfj). exists j, x. split_and!; [done| |done].
        simpl. rewrite lookup_insert_ne; [done|]. intros ->. congruence.
      * exists i, new_runtime. split_and!; [done|simpl; by rewrite lookup_insert_eq|done].
Qed.

(** ** Every call *)

Lemma program_step (p : program) (c : pcall) :
  program_inv p → penabled p c = true → ∃ p', pexec c p = Ok p' ∧ stepped p p'.
Proof using laws plaws.
  intros Hp Hen. destruct c as [env lib cfg opts|env self r req|env self|i e|n cs ths rqs|h].
  - by apply load_ok.
  - by apply post_ok.
  - by apply unload_ok.
  - simpl in Hen. apply andb_true_iff in Hen as [He Hen]. by apply other_ok.
  - by apply other_ok.
  - destruct Hp as [Hr Hs Hl]. eexists. split; [done|]. split_and!; [by exists []|by apply lua_inv_host|done].
Qed.

Lemma prun_inv cs p r : program_inv p → prun cs p = Some r → ∃ p', r = Ok p' ∧ program_inv p'.
Proof using laws plaws.
  revert p. induction cs as [|c cs IH]; simpl; intros p Hp.
  - intros [= <-]. eauto.
  - destruct (penabled p c) eqn:Hen; [|done].
    destruct (program_step _ _ Hp Hen) as (p' & -> & Hst). apply IH. by eapply stepped_inv.
Qed.

Lemma preachable_inv p : preachable p → program_inv p.
Proof using laws plaws.
  intros (w & h & cs & Hw & Hr).
  assert (program_inv (fresh_program w h)) as H0.
  { split; [by exists w, []|by split|]. intros o ob Ho. done. }
  by destruct (prun_inv _ _ _ H0 Hr) as (p' & [= <-] & ?).
Qed.

(** *** Serving steps are the threads' and nginx's *)

Definition thread_call (me : mevent) : pcall :=
  match me with
  | MRun i e => PThread i e
  | MNginx n cs ths rqs => PNginx n cs ths rqs
  | MCreate env max => PLoad env [] None None
  end.

Lemma serving_not_lua e : serving e = true → by_lua e = false.
Proof using Type. by destruct e. Qed.

Lemma set_l_world_id (s : lua H (list byte)) : set_l_world (l_world s) s = s.
Proof using Type. by destruct s. Qed.

Lemma serving_run es p m :
  forallb mserving es = true → mrun es (p_msys p) = Some (Ok m) →
  prun (thread_call <$> es) p = Some (Ok (with_msys (p_lua p) m)).
Proof using Type.
  revert p. induction es as [|me es IH]; intros p Hs Hr.
  - injection Hr as <-. simpl. do 2 f_equal. destruct p as [s rts fl wt hd]. unfold with_msys. simpl.
    by rewrite set_l_world_id.
  - apply andb_true_iff in Hs as [Hm Hs]. destruct me as [?|i e|]; [done| |done]. cbn [mrun] in Hr.
    destruct (menabled (p_msys p) (MRun i e)) eqn:Hen; [|done].
    destruct (mexec (MRun i e) (p_msys p)) as [m1|] eqn:Hex; [|done].
    rewrite fmap_cons. cbn [prun thread_call penabled pexec].
    rewrite Hen, (serving_not_lua _ Hm). cbn [negb andb]. unfold exec_other. rewrite Hex.
    rewrite (IH (with_msys (p_lua p) m1) Hs); [done|]. by destruct m1.
Qed.

(** ** The properties *)

(** C17: the Lua library keeps the protocol of the C library.  Whatever libraries Lua
    loads, posts to and unloads, in any order and with any results, also posts to and
    unloads of runtimes that were unloaded, while threads and nginx take the steps
    that the protocol allows: no such call has undefined behaviour, and the C side
    only sees what its protocol allows.  The steps the protocol does not allow, which
    [penabled] excludes, are those that the source has no answer to: a request that
    ends after a post of its coroutine was refused, a response of length zero that
    is no C string, a second thread in task_poll when the marker is taken, a
    mutex that cannot be unlocked, no memory for the C structures, and a
    [max_queue] that is no C [int]. *)
Theorem lua_keeps_the_protocol (p : program) (c : pcall) :
  preachable p → penabled p c = true →
  mreachable (p_msys p) ∧ ∃ p' es, pexec c p = Ok p' ∧ mrun es (p_msys p) = Some (Ok (p_msys p')).
Proof using laws plaws.
  intros Hp%preachable_inv Hen. split; [apply Hp|].
  destruct (program_step _ _ Hp Hen) as (p' & Hex & [es Hr] & _). by exists p', es.
Qed.

(** A runtime object in Lua never has a dangling queue.  While an object is
    not unloaded, its queue exists, is not closed and is that of no other object;
    once it is unloaded it holds no pointer. *)
Theorem objects_have_live_queues (p : program) (o : nat) (ob : object H (list byte)) :
  preachable p → objects (p_lua p) !! o = Some ob →
  (o_finished ob = true → ob = Object true None None None) ∧
  (o_finished ob = false → ∃ i r q, o_tq ob = Some (Ptr i 0) ∧ p_runtimes p !! i = Some r ∧
     r_finished r = false ∧ queues (l_world (p_lua p)) !! i = Some q ∧
     ∀ o' ob', objects (p_lua p) !! o' = Some ob' → o_tq ob' = Some (Ptr i 0) → o' = o).
Proof using laws plaws.
  intros [Hr Hs Hl]%preachable_inv Ho. split.
  - intros Hf. destruct (li_object _ Hs o ob Ho) as [?|(k & h & tq & ->)]; [done|by simpl in Hf].
  - intros Hf. destruct (Hl o ob Ho Hf) as (i & r & Hq & Hi & Hfi).
    pose proof Hr as [h Hm]%mreachable_inv. pose proof (ri_queue _ _ _ _ _ (mi_runtime _ _ Hm i r Hi)) as A.
    simpl in A. destruct (queues (l_world (p_lua p)) !! i) as [q|] eqn:Eq.
    + exists i, r, q. split_and!; [done..|]. intros o' ob' Ho' Hq'.
      by eapply (li_apart _ Hs o' o ob' ob).
    + destruct A as (_ & _ & ?). congruence.
Qed.

(** C18: every request of the program can be served: while no runtime is being
    unloaded, allowed steps of the threads and of nginx alone, at most four per request,
    lead from any reachable state of the program to one in which every request
    that Lua posted was handled, no coroutine waits and no task or buffer is
    allocated. *)
Theorem program_requests_can_be_served (p : program) :
  preachable p →
  (∀ i r, p_runtimes p !! i = Some r → r_finished r = false ∨ queues (l_world (p_lua p)) !! i = None) →
  ∃ es p', (length es ≤ 4 * length (gposted (p_runtimes p)))%nat ∧ forallb mserving es = true ∧
    prun (thread_call <$> es) p = Some (Ok p') ∧
    tasks (l_world (p_lua p')) = ∅ ∧ bufs (l_world (p_lua p')) = ∅ ∧ p_waiting p' = ∅ ∧
    p_handled p' ≡ₚ gposted (p_runtimes p).
Proof using laws plaws.
  intros [Hr _ _]%preachable_inv Hf. pose proof Hr as [h Hm]%mreachable_inv.
  destruct (multi_served _ _ Hm Hf) as (es & m' & Hlen & Hs & Hrun & Ht & Hb & Hw & Hh).
  exists es, (with_msys (p_lua p) m'). split_and!; [done|done|by apply serving_run|done..].
Qed.
End steps.
End program.
