(* ===== verification/LuaCache.v ===== *)
(** * LuaCache: what the table of runtimes is a table of

    resty_ffi.lua keeps the loaded runtimes under one string, [lib] or
    [lib .. "&" .. cfg].  The reference is the same program with a table on pairs
    of a library and an optional configuration.  As long as no library name
    contains an ampersand, the two cannot be told apart: a relation between their
    states is kept by every call, with the same results. *)

From S2P Require Import Prelude World TaskQueue FfiTask FfiQueue System BuildId FfiInit Allocation LuaApi.

(** ** The keys *)

Definition pair_key (lib : list byte) (cfg : option (list byte)) : list byte * option (list byte) := (lib, cfg).

Definition amp_free (lib : list byte) : Prop := amp ∉ lib.

Lemma lua_key_inj l1 c1 l2 c2 :
  amp_free l1 → amp_free l2 → lua_key l1 c1 = lua_key l2 c2 → l1 = l2 ∧ c1 = c2.
Proof.
  unfold amp_free. revert l2. induction l1 as [|x l1 IH]; intros l2 H1 H2 E.
  - destruct l2 as [|y l2]; [destruct c1, c2; simpl in *; by simplify_eq|].
    destruct c1 as [c1|]; [|destruct c2; done]. apply not_elem_of_cons in H2 as [Hy _].
    destruct c2; simpl in E; by simplify_eq.
  - apply not_elem_of_cons in H1 as [Hx H1]. destruct l2 as [|y l2].
    { destruct c2; [|destruct c1; done]. destruct c1; simpl in E; by simplify_eq. }
    apply not_elem_of_cons in H2 as [_ H2].
    assert (x = y ∧ lua_key l1 c1 = lua_key l2 c2) as [-> E'] by (destruct c1, c2; simpl in *; by simplify_eq).
    by destruct (IH l2 H1 H2 E') as [-> ->].
Qed.

(** ** Related states *)

Section Cache.
Context {H : LuaHost}.
Variable fuel : nat.
Variable sy : symbols.

(** The states of the program and of the reference. *)
Abbreviation code := (lua H (list byte)).
Abbreviation reference := (lua H (list byte * option (list byte))).

Definition code_object (ob : object H (list byte * option (list byte))) : object H (list byte) :=
  Object (o_finished ob) ((λ k, lua_key k.1 k.2) <$> o_key ob) (o_handle ob) (o_tq ob).

Record same_state (s : code) (t : reference) : Prop := {
  ss_world : l_world s = l_world t;
  ss_host : l_host s = l_host t;
  ss_init : l_init s = l_init t;
  ss_pins : pin_libs s = pin_libs t;
  ss_objects : objects s = code_object <$> objects t;
  ss_runtimes lib cfg : amp_free lib → runtimes s !! lua_key lib cfg = runtimes t !! (lib, cfg);
  ss_keys o ob k : objects t !! o = Some ob → o_key ob = Some k → amp_free k.1;
}.

(** Two outcomes with related values and states, or the same fault. *)
Definition same_outcome {A B} (Q : A → B → Prop) (r : res (A * code)) (r' : res (B * reference)) : Prop :=
  match r, r' with
  | Ok (a, s), Ok (b, t) => Q a b ∧ same_state s t
  | UB f, UB f' => f = f'
  | _, _ => False
  end.

Definition sim {A B} (Q : A → B → Prop) (m : M code A) (m' : M reference B) : Prop :=
  ∀ s t, same_state s t → same_outcome Q (m s) (m' t).

Lemma sim_ret {A B} (Q : A → B → Prop) a b : Q a b → sim Q (mret a) (mret b).
Proof. by intros HQ s t Hs. Qed.

Lemma sim_bind {A B A' B'} (Q : A → B → Prop) (Q' : A' → B' → Prop) m m' k k' :
  sim Q m m' → (∀ a b, Q a b → sim Q' (k a) (k' b)) → sim Q' (m ≫= k) (m' ≫= k').
Proof.
  intros Hm Hk s t Hs. specialize (Hm s t Hs). unfold mbind, M_bind.
  destruct (m s) as [[a s1]|], (m' t) as [[b t1]|]; simpl in Hm; try done. destruct Hm as [HQ Hs1].
  by apply (Hk a b HQ).
Qed.

Lemma sim_in_world {A} (m : M world A) : sim eq (in_world m) (in_world m).
Proof.
  intros s t Hs. unfold in_world. rewrite (ss_world _ _ Hs). destruct (m (l_world t)) as [[a w]|]; [|done].
  split; [done|]. by destruct Hs.
Qed.

Lemma sim_in_host {A} (f : host → A * host) : sim eq (in_host f) (in_host f).
Proof. intros s t Hs. simpl. rewrite (ss_host _ _ Hs). split; [done|]. by destruct Hs. Qed.

Lemma sim_gets {A B} (Q : A → B → Prop) (f : code → A) (g : reference → B) :
  (∀ s t, same_state s t → Q (f s) (g t)) → sim Q (gets f) (gets g).
Proof. intros Hf s t Hs. split; [by apply Hf|done]. Qed.

Lemma sim_modify (f : code → code) (g : reference → reference) :
  (∀ s t, same_state s t → same_state (f s) (g t)) → sim eq (modify f) (modify g).
Proof. intros Hf s t Hs. split; [done|by apply Hf]. Qed.

Lemma sim_from {A B} (Q : A → B → Prop) o o' f : option_Forall2 Q o o' → sim Q (from o f) (from o' f).
Proof. by intros [] s t Hs. Qed.

Lemma sim_ub {A B} (Q : A → B → Prop) f : sim Q (ub f) (ub f).
Proof. by intros s t Hs. Qed.

Lemma sim_assume b f : sim eq (assume b f) (assume b f).
Proof. intros s t Hs. unfold assume. by destruct b. Qed.

(** ** The calls *)

Lemma sim_get_object o :
  sim (λ ob ob', ob = code_object ob' ∧ ∀ k, o_key ob' = Some k → amp_free k.1) (get_object o) (get_object o).
Proof.
  intros s t Hs. unfold get_object. rewrite (bind_ok _ _ s (objects s) s), (bind_ok _ _ t (objects t) t) by done.
  unfold from. rewrite (ss_objects _ _ Hs), list_lookup_fmap.
  destruct (objects t !! o) as [ob|] eqn:E; simpl; [|done].
  split; [|done]. split; [done|]. intros k. by eapply ss_keys.
Qed.

Lemma sim_modify_object o f g :
  (∀ ob, code_object (g ob) = f (code_object ob)) → (∀ ob, o_key (g ob) = o_key ob ∨ o_key (g ob) = None) →
  sim eq (modify_object o f) (modify_object o g).
Proof.
  intros Hf Hk. apply sim_modify. intros s t [A B C D E F G]. split; simpl; try done.
  - rewrite E. symmetry. by apply list_fmap_alter, Forall_true.
  - intros o' ob k Ho Hob. destruct (decide (o' = o)) as [->|Hne].
    + rewrite list_lookup_alter_eq in Ho. destruct (objects t !! o) as [ob'|] eqn:Eo; [|done].
      simpl in Ho. injection Ho as <-. destruct (Hk ob') as [E'|E']; rewrite E' in Hob; [|done]. by eapply G.
    + rewrite list_lookup_alter_ne in Ho by done. by eapply G.
Qed.

Lemma sim_post env self r req : sim eq (post env self r req) (post env self r req).
Proof.
  eapply sim_bind; [apply sim_get_object|]. intros ob ob' [-> _]. simpl.
  destruct (o_finished ob'); [by apply sim_ret|]. eapply sim_bind; [apply sim_in_world|].
  intros rc _ <-. by apply sim_ret.
Qed.

Lemma sim_delete k : amp_free k.1 → sim eq (modify (upd_runtimes (delete (lua_key k.1 k.2)))) (modify
  (upd_runtimes (delete k))).
Proof.
  intros Hk. apply sim_modify. intros s t [A B C D E F G]. split; simpl; try done.
  intros lib cfg Hl. destruct (decide ((lib, cfg) = k)) as [<-|Hne]; [by rewrite !lookup_delete_eq|].
  rewrite !lookup_delete_ne; [by apply F|done|]. intros Ek%lua_key_inj; [|done..]. apply Hne.
  destruct k, Ek; by simplify_eq/=.
Qed.

Lemma sim_unload env self : sim eq (unload env self) (unload env self).
Proof.
  eapply sim_bind; [apply sim_get_object|]. intros ob ob' [-> Hk]. simpl.
  destruct (o_finished ob'); [by apply sim_ret|].
  eapply sim_bind; [apply sim_modify_object; [done|by left]|intros _ _ _].
  eapply sim_bind; [apply sim_modify_object; [done|by left]|intros _ _ _].
  eapply sim_bind; [apply sim_in_world|intros _ _ _].
  eapply sim_bind; [apply sim_modify_object; [done|by left]|intros _ _ _].
  eapply (sim_bind (λ a k, a = lua_key k.1 k.2 ∧ amp_free k.1)).
  { apply sim_from. destruct (o_key ob') as [k|]; simpl; [|constructor]. constructor. by split; [|apply Hk]. }
  intros _ k [-> Hf]. eapply sim_bind; [by apply sim_delete|intros _ _ _].
  apply sim_modify_object; [done|by right].
Qed.

Lemma sim_init_library : sim eq (init_library fuel sy) (init_library fuel sy).
Proof.
  unfold init_library.
  eapply (sim_bind eq); [apply sim_gets; intros s t Hs; apply Hs|]. intros i _ <-. destruct i; [by apply sim_ret|].
  eapply (sim_bind eq); [apply sim_gets; intros s t Hs; by rewrite (ss_host _ _ Hs)|]. intros b _ <-.
  assert (sim eq (modify (set_l_init true);; mret None : M code (option lua_error))
                 (modify (set_l_init true);; mret None)) as Hset.
  { eapply sim_bind; [apply sim_modify|intros _ _ _; by apply sim_ret]. by intros s t []. }
  destruct b; [done|]. eapply sim_bind; [apply sim_in_host|]. intros h _ <-.
  destruct h; [|by apply sim_ret].
  eapply (sim_bind eq); [apply sim_gets; intros s t Hs; by rewrite (ss_host _ _ Hs)|]. intros pr _ <-.
  eapply (sim_bind eq); [apply sim_from; destruct (lua_resty_ffi_init _ _ _); by constructor|]. intros r _ <-.
  destruct r as [r|f]; [|apply sim_ub]. destruct (negb _); [by apply sim_ret|done].
Qed.

Lemma sim_load_and_pin lib g p : sim eq (load_and_pin lib g p) (load_and_pin lib g p).
Proof.
  eapply sim_bind; [apply sim_in_host|]. intros h _ <-. destruct h as [h|]; [|by apply sim_ret].
  destruct p; [|by apply sim_ret]. eapply sim_bind; [apply sim_modify|intros _ _ _; by apply sim_ret].
  intros s t [A B C D E F G]. split; simpl; try done. by rewrite D.
Qed.

Lemma sim_copy_cfg env cfg : sim eq (copy_cfg env cfg) (copy_cfg env cfg).
Proof.
  destruct cfg as [c|]; [|by apply sim_ret]. eapply sim_bind; [apply sim_assume|intros _ _ _].
  eapply sim_bind; [apply sim_in_world|]. intros p _ <-. by apply sim_ret.
Qed.

Lemma sim_call_init h buf tq : sim eq (call_init h buf tq) (call_init h buf tq).
Proof.
  eapply (sim_bind eq); [|intros arg _ <-; apply sim_in_host]. destruct buf; [|by apply sim_ret].
  eapply sim_bind; [apply sim_in_world|]. intros b _ <-. by apply sim_ret.
Qed.

Lemma sim_new_object lib cfg h tq :
  amp_free lib →
  sim eq (modify (upd_objects (λ l, l ++ [Object false (Some (lua_key lib cfg)) (Some h) tq])))
         (modify (upd_objects (λ l, l ++ [Object false (Some (pair_key lib cfg)) (Some h) tq]))).
Proof.
  intros Hl. apply sim_modify. intros s t [A B C D E F G]. split; simpl; try done.
  - by rewrite E, fmap_app.
  - intros o ob k [Ho|[_ Ho]]%lookup_app_Some Hk; [by eapply G|].
    apply list_lookup_singleton_Some in Ho as [_ <-]. simpl in Hk. by injection Hk as <-.
Qed.

Lemma sim_insert lib cfg o :
  amp_free lib →
  sim eq (modify (upd_runtimes <[lua_key lib cfg := o]>)) (modify (upd_runtimes <[pair_key lib cfg := o]>)).
Proof.
  intros Hl. apply sim_modify. intros s t [A B C D E F G]. split; simpl; try done.
  intros lib' cfg' Hl'. destruct (decide ((lib', cfg') = (lib, cfg))) as [Ek|Hne].
  - injection Ek as -> ->. unfold pair_key. by rewrite !lookup_insert_eq.
  - unfold pair_key. rewrite !lookup_insert_ne; [by apply F|congruence|].
    intros Ek%lua_key_inj; [|done..]. destruct Ek as [-> ->]. done.
Qed.

Lemma sim_to_c_int n : sim eq (to_c_int n) (to_c_int n).
Proof. apply (sim_bind eq); [by apply sim_assume|]. intros _ _ _. by apply sim_ret. Qed.

Lemma sim_start_runtime env lib cfg max g p :
  amp_free lib → sim eq (start_runtime lua_key env lib cfg max g p) (start_runtime pair_key env lib cfg max g p).
Proof.
  intros Hl. unfold start_runtime.
  eapply sim_bind; [by apply sim_to_c_int|]. intros max' _ <-.
  eapply sim_bind; [apply sim_in_world|]. intros tq _ <-.
  eapply sim_bind; [apply sim_load_and_pin|]. intros h _ <-. destruct h as [h|]; [|by apply sim_ret].
  eapply (sim_bind eq).
  { apply sim_gets. intros s t Hs. by rewrite (ss_objects _ _ Hs), length_fmap. }
  intros o _ <-. eapply sim_bind; [by apply sim_new_object|intros _ _ _].
  eapply sim_bind; [apply sim_copy_cfg|]. intros buf _ <-.
  eapply sim_bind; [apply sim_call_init|]. intros rc _ <-. destruct rc as [rc|]; [|by apply sim_ret].
  eapply sim_bind; [apply sim_in_world|intros _ _ _]. destruct (rc =? 0); [|by apply sim_ret].
  eapply sim_bind; [by apply sim_insert|intros _ _ _]. by apply sim_ret.
Qed.

Lemma sim_load_ffi env lib cfg opts :
  amp_free lib →
  sim eq (load_ffi lua_key fuel sy env lib cfg opts) (load_ffi pair_key fuel sy env lib cfg opts).
Proof.
  intros Hl. unfold load_ffi. eapply sim_bind; [apply sim_init_library|]. intros e _ <-.
  destruct e; [by apply sim_ret|].
  eapply (sim_bind eq); [apply sim_gets; intros s t Hs; by apply (ss_runtimes _ _ Hs)|]. intros rt _ <-.
  destruct rt; [by apply sim_ret|]. by apply sim_start_runtime.
Qed.

(** ** Programs *)

(** A call, and its result. *)
Inductive lua_call :=
  | CallLoad (env : sysenv) (lib : list byte) (cfg : option (list byte)) (opts : option options)
  | CallPost (env : sysenv) (self : nat) (r : rid) (req : option (list byte))
  | CallUnload (env : sysenv) (self : nat)
  | OtherSteps (w : world) (h : host).

Inductive lua_result :=
  | ResLoad (r : load_result)
  | ResPost (a : post_answer)
  | ResNone.

Definition do_call {K} `{EqDecision K, !Countable K} (mk : list byte → option (list byte) → K)
    (c : lua_call) : M (lua H K) lua_result :=
  match c with
  | CallLoad env lib cfg opts => r ← load_ffi mk fuel sy env lib cfg opts; mret (ResLoad r)
  | CallPost env self r req => a ← post env self r req; mret (ResPost a)
  | CallUnload env self => unload env self;; mret ResNone
  | OtherSteps w h => modify (λ s, set_l_host h (set_l_world w s));; mret ResNone
  end.

Fixpoint do_calls {K} `{EqDecision K, !Countable K} (mk : list byte → option (list byte) → K)
    (cs : list lua_call) : M (lua H K) (list lua_result) :=
  match cs with
  | [] => mret []
  | c :: cs => r ← do_call mk c; rs ← do_calls mk cs; mret (r :: rs)
  end.

Definition call_ok (c : lua_call) : Prop :=
  match c with CallLoad _ lib _ _ => amp_free lib | _ => True end.

Lemma sim_do_call c : call_ok c → sim eq (do_call lua_key c) (do_call pair_key c).
Proof.
  intros Hc. destruct c as [env lib cfg opts|env self r req|env self|w h]; simpl in *.
  - eapply sim_bind; [by apply sim_load_ffi|]. intros r _ <-. by apply sim_ret.
  - eapply sim_bind; [apply sim_post|]. intros a _ <-. by apply sim_ret.
  - eapply sim_bind; [apply sim_unload|intros _ _ _]. by apply sim_ret.
  - eapply sim_bind; [apply sim_modify|intros _ _ _; by apply sim_ret]. by intros s t [].
Qed.

Lemma sim_do_calls cs : Forall call_ok cs → sim eq (do_calls lua_key cs) (do_calls pair_key cs).
Proof.
  induction 1 as [|c cs Hc Hcs IH]; [by apply sim_ret|]. simpl.
  eapply sim_bind; [by apply sim_do_call|]. intros r _ <-.
  eapply sim_bind; [exact IH|]. intros rs _ <-. by apply sim_ret.
Qed.

(** The results of a program, without the final state. *)
Definition results {S} (r : res (list lua_result * S)) : res (list lua_result) :=
  match r with Ok (rs, _) => Ok rs | UB f => UB f end.

(** C19: The string keys of resty_ffi.lua are as good as pairs.  For every
    sequence of loads, posts and unloads, with any steps of the rest of the
    process in between, in which no library name contains an ampersand, the
    program gives the results, and commits the faults, of the same program with
    a table on pairs of library and configuration. *)
Theorem string_keys_are_pairs cs w h :
  Forall call_ok cs →
  results (do_calls lua_key cs (fresh_lua w h)) = results (do_calls pair_key cs (fresh_lua w h)).
Proof using Type.
  intros Hcs. pose proof (sim_do_calls cs Hcs (fresh_lua w h) (fresh_lua w h)) as Hs.
  assert (same_state (fresh_lua w h) (fresh_lua w h)) as H0 by by split.
  specialize (Hs H0). unfold same_outcome, results in *.
  destruct (do_calls lua_key _ _) as [[rs s]|f], (do_calls pair_key _ _) as [[rs' t]|f']; try done.
  - by destruct Hs as [-> _].
  - by rewrite Hs.
Qed.

End Cache.
