(* ===== verification/LuaDemo.v ===== *)
(** * LuaDemo: a linker and concrete Lua programs

    An instance of [LuaHost] and the states on which the theorems of [LuaApi],
    [LuaMethods], [LuaCache] and [LuaSystem] are instantiated. *)

From S2P Require Import Prelude World TaskQueue FfiTask FfiQueue System Demo BuildId FfiInit Allocation.
From S2P Require Import Ownership Posting Multi MultiInvariant MultiContract LuaApi LuaMethods LuaSystem LuaCache.
From stdpp Require Import strings.

#[local] Open Scope Z_scope.

Abbreviation str := String.list_byte_of_string.

(** Every library is found but "missing"; "bad" fails, "empty" has no
    [libffi_init], and the host logs the libraries it loads. *)
#[export] Instance demo_host : LuaHost := {
  host := list (list byte);
  handle := list byte;
  has_symbol _ k := bool_decide (k ≠ []);
  ffi_load lib _ k := (if decide (lib = str "missing") then None else Some lib, k ++ [lib]);
  running_process _ := demo_process;
  libffi_init h _ _ k :=
    (if decide (h = str "empty") then None else if decide (h = str "bad") then Some 1 else Some 0, k);
}.

Definition load := load_ffi (K := list byte) lua_key 3 demo_symbols env_ok.

(** The C library is linked, no runtime is loaded. *)
Definition lua_start : lua demo_host (list byte) := fresh_lua (H := demo_host) demo_world [str "resty_ffi"].
Definition lua_ready : lua demo_host (list byte) := set_l_init true lua_start.

Definition lua_of {A} (r : res (A * lua demo_host (list byte))) : lua demo_host (list byte) :=
  match r with Ok (_, s) => s | UB _ => lua_start end.

Definition value {A} (r : res (A * lua demo_host (list byte))) : option A :=
  match r with Ok (a, _) => Some a | UB _ => None end.

Lemma ran {A} (r : res (A * lua demo_host (list byte))) a : value r = Some a → r = Ok (a, lua_of r).
Proof. destruct r as [[a' s]|]; [|done]. by intros [= ->]. Qed.

(** The library "echo" is loaded: its queue is block 0. *)
Definition lua_echo : lua demo_host (list byte) := lua_of (load (str "echo") None None lua_start).

Lemma echo_loaded : load (str "echo") None None lua_start = Ok (Loaded 0, lua_echo).
Proof. unfold lua_echo. apply ran. vm_compute. reflexivity. Qed.

Lemma echo_reachable : rtc (lua_step (K := list byte) lua_key 3 demo_symbols) lua_start lua_echo.
Proof. apply rtc_once. eapply StepLoad, echo_loaded. Qed.

Lemma demo_fresh : fresh_memory (l_world lua_ready).
Proof. intros l _. by vm_compute. Qed.

Lemma start_poster : poster (l_world lua_ready) 7 3.
Proof. split; [by eexists _, _|by eexists]. Qed.

Lemma runtimes_are_well_typed_witness :
  ∃ hd tq, objects lua_echo !! 0%nat = Some (Object false (Some (str "echo")) (Some hd) tq).
Proof.
  apply (runtimes_are_well_typed (H := demo_host) 3 demo_symbols demo_world [str "resty_ffi"] lua_echo
    echo_reachable).
  vm_compute. reflexivity.
Defined.

Lemma load_ffi_is_cached_witness : load (str "echo") None (Some (Options (Some 1) None true)) lua_echo = Ok
  (Loaded 0, lua_echo).
Proof. apply (load_ffi_is_cached (H := demo_host) 3 demo_symbols env_ok env_ok _ _ None _ lua_start). apply
  echo_loaded. Defined.

(** The runtime of "a" with "b&c". *)
Definition lua_abc : lua demo_host (list byte) := lua_of (load (str "a") (Some (str "b&c")) None lua_start).

Lemma keys_collide_witness :
  load (str "a&b") (Some (str "c")) None lua_abc = Ok (Loaded 0, lua_abc) ∧ l_host lua_abc = [str "resty_ffi";
    str "a"].
Proof.
  split; [|vm_compute; reflexivity].
  refine (keys_collide (H := demo_host) 3 demo_symbols env_ok env_ok (str "a") (str "b") (str "c") None None
    lua_start 0 lua_abc _).
  unfold lua_abc. apply ran. vm_compute. reflexivity.
Defined.

Definition lua_unloaded : lua demo_host (list byte) := lua_of (unload env_ok 0 lua_echo).

Lemma unload_frees_the_key_witness :
  post env_ok 0 7 None lua_unloaded = Ok (PostFinished, lua_unloaded) ∧
  runtimes lua_unloaded = delete (str "echo") (runtimes lua_echo).
Proof.
  destruct (unload_frees_the_key (H := demo_host) 3 demo_symbols env_ok 0 demo_world [str "resty_ffi"] lua_echo
    lua_unloaded
    (str "echo") (str "echo") (Some (Ptr 0 0))) as (H1 & _ & H2 & _).
  - apply echo_reachable.
  - vm_compute. reflexivity.
  - unfold lua_unloaded. apply ran. vm_compute. reflexivity.
  - split; [apply H1|apply H2].
Defined.

(** The library is not linked, and the generated id is that of another nginx. *)
Definition other_symbols : symbols := Symbols (hex [x01]) 16 24 (-32).

Lemma foreign_binary_is_refused_witness :
  load_ffi lua_key 3 other_symbols env_ok (str "echo") None None (fresh_lua (H := demo_host) demo_world []) =
    Ok (Raised InitFailed, fresh_lua (H := demo_host) demo_world [str "resty_ffi"]).
Proof.
  refine (foreign_binary_is_refused (H := demo_host) 3 other_symbols env_ok (str "echo") None None (fresh_lua
    (H := demo_host) demo_world [])
    (str "resty_ffi") (InitMismatch (hex [xde; xad; xbe]) (hex [x01])) _ _ _ _ _).
  - reflexivity.
  - vm_compute. reflexivity.
  - vm_compute. reflexivity.
  - vm_compute. reflexivity.
  - discriminate.
Defined.

Lemma failed_load_leaks_the_queue_witness :
  queues (l_world (lua_of (load (str "bad") None None lua_ready))) !! 0%nat = Some (fresh_queue 0 65536).
Proof.
  destruct (failed_load_leaks_the_queue (H := demo_host) 3 demo_symbols env_ok (str "bad") None None lua_ready
    eq_refl eq_refl eq_refl
    demo_fresh eq_refl (NotLoaded 1) (lua_of (load (str "bad") None None lua_ready))) as (H & _).
  - split; done.
  - reflexivity.
  - reflexivity.
  - apply ran. vm_compute. reflexivity.
  - discriminate.
  - rewrite H. reflexivity.
Defined.

Lemma loaded_runtime_takes_requests_witness :
  ∃ s2, post env_ok 0 7 (Some hi) (lua_of (load (str "echo") None None lua_ready)) = Ok (PostYields, s2).
Proof.
  destruct (loaded_runtime_takes_requests (H := demo_host) 3 demo_symbols env_ok (str "echo") None None
    lua_ready eq_refl eq_refl eq_refl
    demo_fresh eq_refl env_ok 0 (lua_of (load (str "echo") None None lua_ready)) 7 3 (Some hi))
    as (_ & s2 & q & t & b & x & Hp & _).
  - reflexivity.
  - reflexivity.
  - apply ran. vm_compute. reflexivity.
  - reflexivity.
  - apply start_poster.
  - reflexivity.
  - reflexivity.
  - reflexivity.
  - reflexivity.
  - exists s2. apply Hp.
Defined.

(** The mutex cannot be created. *)
Definition env_no_mutex : sysenv := SysEnv true (-1) 0 0 0 0 0 0.
Definition lua_null : lua demo_host (list byte) :=
  lua_of (load_ffi lua_key 3 demo_symbols env_no_mutex (str "echo") None None lua_ready).

Lemma null_queue_is_not_noticed_witness : post env_ok 0 7 None lua_null = UB NullDeref.
Proof.
  destruct (null_queue_is_not_noticed (H := demo_host) 3 demo_symbols env_no_mutex (str "echo") None None
    lua_ready eq_refl eq_refl eq_refl
    demo_fresh eq_refl env_ok 0 lua_null 7 3 None) as (_ & Hp).
  - left. discriminate.
  - unfold lua_null. apply ran. vm_compute. reflexivity.
  - apply start_poster.
  - reflexivity.
  - apply Hp.
Defined.

(** A library with and without configuration, and one that fails. *)
Definition demo_calls : list lua_call :=
  [CallLoad env_ok (str "echo") None None; CallLoad env_ok (str "echo") (Some (str "x&y")) None;
   CallLoad env_ok (str "bad") None None; CallLoad env_ok (str "echo") None None;
   CallPost env_ok 0 7 (Some hi); CallUnload env_ok 1; CallLoad env_ok (str "echo") (Some (str "x&y")) None].

Lemma string_keys_are_pairs_witness :
  results (do_calls 3 demo_symbols pair_key demo_calls (fresh_lua (H := demo_host) demo_world [str "resty_ffi"])) =
    Ok [ResLoad (Loaded 0); ResLoad (Loaded 1); ResLoad (NotLoaded 1); ResLoad (Loaded 0);
        ResPost PostYields; ResNone; ResLoad (Loaded 3)].
Proof.
  rewrite <-(string_keys_are_pairs (H := demo_host) 3 demo_symbols demo_calls demo_world [str "resty_ffi"]).
  - vm_compute. reflexivity.
  - repeat constructor; apply (bool_decide_eq_true_1 _); vm_compute; reflexivity.
Defined.

(** ** The whole program *)

Definition demo_program : program (H := demo_host) := fresh_program demo_two_requests [str "resty_ffi"].
Definition demo_run (cs : list pcall) : option (res program) := prun 3 demo_symbols cs demo_program.
Definition program_of (r : option (res program)) : program :=
  match r with Some (Ok p) => p | _ => demo_program end.
Definition runs_well (r : option (res program)) : bool :=
  match r with Some (Ok _) => true | _ => false end.

(** Two runtimes of the library "echo"; task 4 waits in queue 0, runtime 1 has
    polled task 5. *)
Definition demo_lua_calls : list pcall :=
  [PLoad env_ok (str "echo") None None; PLoad env_ok (str "echo") (Some (str "x")) None;
   PPost env_ok 0 7 (Some hi); PPost env_ok 1 8 None; PThread 1 (EPoll env_ok 1)].

Lemma runs_well_ok r : runs_well r = true → r = Some (Ok (program_of r)).
Proof. by destruct r as [[]|]. Qed.

Lemma demo_preachable cs :
  runs_well (demo_run cs) = true → preachable 3 demo_symbols (program_of (demo_run cs)).
Proof.
  intros Hr%runs_well_ok. exists demo_two_requests, [str "resty_ffi"], cs. split; [by split|exact Hr].
Qed.

Definition demo_lua_program : program (H := demo_host) := program_of (demo_run demo_lua_calls).

Lemma demo_lua_reachable : preachable 3 demo_symbols demo_lua_program.
Proof. apply demo_preachable. vm_compute. reflexivity. Qed.

Example demo_lua_runtimes :
  p_runtimes demo_lua_program =
    {[ 0%nat := Runtime false [] [4%nat] [] 0; 1%nat := Runtime false [5%nat] [5%nat] [5%nat] 0 ]}.
Proof. vm_compute. reflexivity. Qed.

(** Runtime 0 is unloaded while its queue is not empty. *)
Lemma lua_keeps_the_protocol_witness :
  mreachable (p_msys demo_lua_program) ∧
  ∃ p' es, pexec 3 demo_symbols (PUnload env_ok 0) demo_lua_program = Ok p' ∧
    mrun es (p_msys demo_lua_program) = Some (Ok (p_msys p')).
Proof.
  apply (lua_keeps_the_protocol (H := demo_host) 3 demo_symbols demo_lua_program (PUnload env_ok 0));
    [exact demo_lua_reachable|vm_compute; reflexivity].
Defined.

Lemma objects_have_live_queues_witness :
  ∃ i r q, Some (Ptr 1 0) = Some (Ptr i 0) ∧ p_runtimes demo_lua_program !! i = Some r ∧
     r_finished r = false ∧ queues (l_world (p_lua demo_lua_program)) !! i = Some q ∧
     ∀ o' ob', objects (p_lua demo_lua_program) !! o' = Some ob' → o_tq ob' = Some (Ptr i 0) → o' = 1%nat.
Proof.
  refine (proj2 (objects_have_live_queues (H := demo_host) 3 demo_symbols demo_lua_program 1
            (Object false (Some (str "echo&x")) (Some (str "echo")) (Some (Ptr 1 0))) demo_lua_reachable _) _).
  - vm_compute. reflexivity.
  - reflexivity.
Defined.

Lemma program_requests_can_be_served_witness :
  ∃ es p', (length es ≤ 8)%nat ∧ forallb mserving es = true ∧
    prun 3 demo_symbols (thread_call <$> es) demo_lua_program = Some (Ok p') ∧
    tasks (l_world (p_lua p')) = ∅ ∧ bufs (l_world (p_lua p')) = ∅ ∧ p_waiting p' = ∅ ∧
    p_handled p' ≡ₚ gposted (p_runtimes demo_lua_program).
Proof.
  apply (program_requests_can_be_served (H := demo_host) 3 demo_symbols demo_lua_program demo_lua_reachable).
  rewrite demo_lua_runtimes. intros i r. rewrite lookup_insert_Some, lookup_singleton_Some.
  intros [[<- <-]|[_ [<- <-]]]; by left.
Defined.

(** Without [resty.core.base] and wrapper, the copy of "hi" stays in block 1; with a
    wrapper for request 7 it is posted. *)
Lemma post_with_any_host_witness :
  post_with env_ok 0 (Some hi) (CallSite None None) lua_echo =
    Ok (NoGetRequest, set_l_world (post_world (l_world lua_echo) (Some hi)) lua_echo) ∧
  value (post_with env_ok 0 (Some hi) (CallSite (Some (Some 7%nat)) None) lua_echo) = Some WrapperYields.
Proof.
  split.
  - apply (proj2 (post_with_any_host env_ok 0 (Some hi) (CallSite None None) lua_echo))
      with (ob := Object (H := demo_host) false (Some (str "echo")) (Some (str "echo")) (Some (Ptr 0 0)));
      vm_compute; reflexivity.
  - rewrite (proj1 (post_with_any_host env_ok 0 (Some hi) (CallSite (Some (Some 7%nat)) None) lua_echo) 7%nat eq_refl).
    vm_compute. reflexivity.
Defined.

(** ** The metatable *)

(** The runtime of "echo" as the table that [load_ffi] made. *)
Definition demo_tables : tables (H := demo_host) :=
  Tables (l_world lua_start) (l_host lua_start) false ∅ [] ∅.
Definition echo_tables : tables :=
  match table_action (Load 3 demo_symbols env_ok (str "echo") None None) demo_tables with
  | Ok (_, s) => s
  | UB _ => demo_tables
  end.

Lemma echo_tables_ok : tables_ok echo_tables.
Proof.
  assert (tables_ok demo_tables) as H0 by done.
  pose proof (action_tracks (Load 3 demo_symbols env_ok (str "echo") None None) demo_tables H0) as Ht.
  unfold echo_tables. destruct (table_action _ demo_tables) as [[r s]|]; [|done].
  destruct (direct_action _ _) as [[r' l]|]; [|done]. apply Ht.
Qed.

(** "key" is a field while the runtime lives, and a name for [post] afterwards; the
    name "go" was stored before the unload. *)
Definition demo_methods : list lua_action :=
  (λ k, Method (MethodCall env_ok 0 k None (CallSite None None))) <$>
    [Some (str "key"); Some (str "__unload"); Some (str "go"); Some (str "key"); Some (str "tq"); None].

Definition results_of {A S} (r : res (A * S)) : option A := match r with Ok (a, _) => Some a | UB _ => None end.

Example key_is_a_field :
  results_of (run_all table_action demo_methods echo_tables) =
    Some [NotCallable; Unloaded; Posted PostFinished; Posted PostFinished; Posted PostFinished; Posted PostFinished].
Proof. vm_compute. reflexivity. Qed.

(** [post] is found under "go" in the table, although no field has that name. *)
Example go_is_stored :
  (λ tb : table, tb !! str "go") <$> head (match run_all table_action demo_methods echo_tables with
                                           | Ok (_, s) => t_tables s
                                           | UB _ => []
                                           end) = Some (Some VPost).
Proof. vm_compute. reflexivity. Qed.

Lemma metatable_is_invisible_witness :
  same_but_stored (run_all table_action demo_methods echo_tables)
    (run_all direct_action demo_methods (as_lua echo_tables)).
Proof. apply (metatable_is_invisible demo_methods echo_tables), echo_tables_ok. Defined.
